(* ===== verification/_CoqProject ===== *)
-Q . S2P
Prelude.v
Bits.v
Mem.v
Pmm.v
Dll.v
PmmInv.v
PmmList.v
PmmOps.v
PmmSpec.v
PmmExamples.v
Locks.v
LockSteps.v
FrameAlloc.v
PmmGlobal.v
MmInit.v
MmBoot.v
BootExamples.v
Heap.v
HeapInv.v
HeapOps.v
HeapLive.v
HeapSpec.v
HeapExamples.v
Paging.v
Vmm.v
Walk.v
VmmInv.v
VmmOps.v
VmmMap.v
VmmUnmap.v
VmmSpec.v
VmmRange.v
KernelVmm.v
TableTree.v
VmmClone.v
CloneSpec.v
KernelInit.v
VmmExamples.v
KernelExamples.v
Eventually.v
Devices.v
Serial.v
Print.v
Tsc.v
Pci.v
PciScan.v
PciAccess.v
Idt.v
IdtSpec.v
Gdt.v
BootTables.v
Kernel.v
KernelMap.v
Acpi.v
KernelPci.v
Apic.v
Uacpi.v
UacpiTime.v
UacpiSync.v
UacpiMem.v
UacpiHeap.v
System.v
SystemSpec.v
SystemBoot.v
Drivers.v
Main.v
MainSpec.v
MainBoot.v
ExampleHw.v
DeviceExamples.v
UacpiExamples.v
SystemExamples.v
MainExamples.v
