(* ===== verification/Prelude.v ===== *)
(** * prometheos: a verification library for the kernel

    prometheos is a small x86_64 kernel in Rust ([src/kernel/src]).  This library
    models all of it but the build script, component by component, and proves
    each component, the way they share memory, and the boot from the first
    instruction of [kmain] to the last.

    ** The program and how its parts interact

    The boot loader starts [kmain] ([main.rs]).  It sets the serial line up
    ([serial.rs]) and greets, turns on the floating-point unit, and calls
    [mm::init] ([mm/mod.rs]), which reads the boot loader's memory map, builds the
    physical memory manager ([mm/pmm.rs], a buddy allocator whose free lists live
    in the free frames themselves) and moves the page tables to frames of its own.
    The kernel heap ([mm/heap.rs], a slab allocator with seven object sizes, and
    whole blocks for large requests) and the virtual memory manager ([mm/vmm.rs],
    four-level page tables) take frames from the manager.  All reach memory
    through the direct map: physical address [p] is at [p + HHDM_OFFSET].  The
    mutexes are built on [IntLock] ([utils.rs]), a test-and-set lock that turns
    interrupts off while it is held.  Then come the descriptor tables ([gdt.rs],
    [idt.rs]), the clock ([tsc.rs]), the ACPI library ([acpi/mod.rs]), which calls
    back into the kernel for memory, locks, events, time, PCI and interrupts
    ([acpi/uacpi.rs]), the interrupt controllers with the keyboard ([apic.rs]) and
    PCI ([pci.rs]).  [kmain] draws a line on the screen and halts.

    ** Files

    Foundations:
    - [Prelude]: build profile, outcomes and the state monad, its
      weakest-precondition rules [wp], 64-bit arithmetic of both profiles,
      tactics, hints and lemmas on lists, sets and integers.
    - [Bits]: the bit facts the allocators rely on (buddies by exclusive or,
      alignment masks, trailing zeros).
    - [Mem]: memory as a map from addresses to 64-bit words.
    - [Eventually]: loops that wait for a device; [returns] and [settles].

    Physical memory manager, [mm/pmm.rs]:
    - [Pmm]: [struct Pmm] and every method ([list_push], [list_remove],
      [alloc_pages], [free_pages], [add_range], ...).
    - [Dll]: doubly linked lists in memory.  [PmmInv]: the invariant [pmm_ok].
      [PmmList], [PmmOps]: list and method lemmas.
    - [PmmSpec]: the abstract allocator over a set of free frames and the
      refinement; clients that hold blocks.  [PmmExamples]: concrete runs.
    - [FrameAlloc]: the interface [FrameAllocator] that the heap and the page
      tables are proved against, the frames reserved for others ([Reserved]), and
      the state [Machine] they share.
    - [PmmGlobal]: the [PMM] mutex, the kernel-wide functions, and the instance
      that discharges the interface.

    Locks, [utils.rs]:
    - [Locks]: [IntLock], [SpinLock], [Mutex], [Singleton] and
      [critical_section] on one processor, over lenses.
    - [LockSteps]: [IntLock] as a step relation over several processors and
      interrupts.

    Memory at boot, [mm/mod.rs]:
    - [MmInit], [MmBoot]: [align_up], [align_down], the first half of [init] and
      [pmm::reclaim_bootloader].  [KernelInit]: [init] as a whole.
      [BootExamples], [KernelExamples]: concrete runs, of the locks too.

    Heap, [mm/heap.rs]:
    - [Heap]: the data and every function.  [HeapInv]: the invariant.
      [HeapOps]: the functions on slabs.  [HeapLive]: the allocations clients
      hold.  [HeapSpec]: the contract and clients.  [HeapExamples]: runs.

    Page tables, [mm/vmm.rs]:
    - [Paging]: what the code uses of the [x86] crate's entry types, as the class
      [X86Paging] with the laws [PagingLaws], and the architecture's format as an
      instance.
    - [Vmm]: the data and every function.  [Walk]: the page walk as a recursion,
      and how it depends on memory.  [VmmInv]: the invariant (a tree of tables in
      frames of their own).  [VmmOps], [VmmMap], [VmmUnmap]: the functions.
      [VmmSpec], [VmmRange]: the theorems.  [KernelVmm]: the functions over the
      [VMM] singleton.  [TableTree], [VmmClone], [CloneSpec]: copying a tree of
      tables, giving it back, and [take_ownership].  [VmmExamples]: runs.

    Devices.  The hardware is a state with one function per instruction
    ([Devices]); each driver states what it relies on as laws of its own device
    ([Uart], [Clock], [PciHost], [PciApart]):
    - [Serial], [serial.rs]: the driver and [write_str].  [Print]: the macros, and
      [uacpi_kernel_log] with the check for UTF-8.
    - [Tsc], [tsc.rs].
    - [Pci], [pci.rs]: addresses, ports, the memory window and the bus walk.
      [PciScan]: what the walk finds.  [PciAccess]: the two ways into
      configuration space.  [KernelPci]: [init].
    - [Idt], [IdtSpec], [idt.rs]: [isr_handler] and the handler slots.  [Gdt],
      [gdt.rs].  [BootTables]: both [init] functions.
    - [Acpi], [acpi/mod.rs].  [Apic], [apic.rs].

    The kernel's state and the ACPI callbacks:
    - [Kernel], [KernelMap]: the record of what the components keep in statics,
      device memory through the page tables, boxed objects, and calls to a
      component on its part of the state.  The class [KernelInv] is what a driver
      is proved against: any invariant of the kernel's memory that calls to the
      page tables keep.
    - [Uacpi], [acpi/uacpi.rs]: every callback.  [UacpiTime]: [stall], [sleep].
      [UacpiSync]: mutexes, events, spinlocks.  [UacpiMem]: [map] and [unmap].
      [UacpiHeap]: allocations, handles and interrupt handlers.

    The whole:
    - [System]: the heap and the page tables beside each other, each with its
      frames reserved for the other.  [SystemSpec]: the abstract machine of
      address space, allocations and data that every call refines.
      [SystemBoot]: [mm::init] starts it.
    - [Drivers]: what the kernel relies on in the firmware, and that ACPI, the
      interrupt controllers and PCI come up one after the other.
    - [Main], [main.rs].  [MainSpec]: its parts.  [MainBoot]: all of [kmain].
    - [ExampleHw], [DeviceExamples], [UacpiExamples], [SystemExamples],
      [MainExamples]: one concrete machine, which has every law and every
      hypothesis of the theorems, and runs on it.

    ** What the theorems show

    - The whole: page tables and heap refine the abstract machine, call by call
      and in any sequence of calls ([kernel_refines], [kernel_runs],
      [mapping_stable]); booting starts it ([boot_starts_system],
      [kernel_boot_correct]); [kmain] halts with everything up or panics on an
      error a component reports, and nothing else can stop it ([kmain_correct]).
    - The buddy allocator refines an abstract allocator on the set of free
      frames ([pmm_refines]); it panics exactly on calls that are out of order
      ([pmm_op_total]); clients' blocks never overlap, are never written to, and
      can be given back ([client_safe], [live_memory_stable],
      [alloc_free_roundtrip]); ranges are added frame by frame ([add_range_frees])
      from an empty manager ([Pmm_new_ok]).
    - Boot frees exactly the usable frames but the metadata's and frame 0
      ([mm_init_correct]) or panics ([mm_init_no_room]); [reclaim_adds].  The page
      tables are copied with every translation kept ([clone_table_correct],
      [init_correct]).
    - The heap returns null only when memory is exhausted, and otherwise regions
      that are aligned, large enough and disjoint ([heap_alloc_correct],
      [heap_dealloc_correct], [heap_no_overlap], [size_classes_correct]); clients
      read back what they wrote and never get stuck ([heap_client_data],
      [heap_client_progress]).
    - [translate] is the page walk ([translate_is_walk]); [map] and [unmap] change
      the translation of one page only, and change nothing when they fail
      ([map_correct], [unmap_correct], [map_unmap_roundtrip],
      [map_range_all_or_nothing], [unmap_range_prefix]).
    - The locks exclude and restore the interrupt flag under every interleaving
      ([int_lock_mutual_exclusion], [int_lock_restores_flag]), with one deadlock
      that the code permits ([int_lock_interrupt_deadlock]).
    - Devices: what goes on the line is the message ([write_str_correct],
      [uacpi_log_correct]); time is the counter's, and never goes back
      ([current_time_correct], [tsc_init_correct]); both ways into configuration
      space are one ([pci_access_equiv]); the bus walk lists what is there
      ([enum_bus_correct], [pci_init_correct]), except where the code loops or
      maps too little ([enum_bus_loops], [pci_window_short]); every interrupt is
      handled, ignored or a panic ([isr_handler_correct]); [apic_init_correct],
      [gdt_init_correct], [draw_correct].
    - ACPI callbacks: mappings ([uacpi_map_correct], [uacpi_map_unmap]), handles
      with one owner each ([handle_lifecycle]), interrupt handlers
      ([interrupt_handler_lifecycle]), events as counting semaphores
      ([event_refines_semaphore], [wait_for_event_correct]), mutexes
      ([acquire_mutex_correct]) and delays ([delay_correct]).

    ** Conventions, bounds and fuel

    Integers are [Z] at 64 bits: [u64_add] and the like panic on overflow when
    debug assertions are on and wrap around otherwise; theorems hold for both
    profiles.  A Rust panic is [Panic], with no state.  Loops over a range or a
    slice are structural recursions with the code's own count.  Loops that are not
    take fuel.  Merging climbs at most [MAX_ORDER - order] levels and each round of
    [add_range] consumes a frame; the loops over pages have a number of rounds that
    the range gives; the theorems show [NoFuel] is not reached.  A loop that polls
    a device has no bound the code knows: what is proved is that every large enough
    amount of fuel gives one and the same result ([returns]), from a law of the
    device that says it answers some time.  The bus walk takes fuel for the depth
    of bridges, and 256 is enough because bridges that lead upwards cannot nest
    deeper than there are buses.  [hcf] has no end and is [NoFuel] for every fuel.
    So is a lock that spins on itself, which is how hanging shows; [with_lock]
    allows one attempt, since on an undisturbed processor further attempts see the
    same state.  Frame counts are bounded by what 64-bit addresses leave above the
    direct map; the page-table theorems take physical memory of at most 2^52
    bytes, the width of the format.

    ** Abstractions

    Memory is word-granular: the structures the kernel keeps in memory (list
    nodes, slab headers, page-table entries) are made of aligned 64-bit words.
    The manager's [frame_order] bytes are a list of its state: [mm_init_correct]
    shows that the frames that hold them are never free, hence never written by
    another component.  Boxed objects get their address from the heap and their
    contents are kept by address.  The kernel's own accesses through the direct map
    are not translated ([mapping_stable] shows the direct map stays); device memory
    is reached through the page tables, where an address that does not translate is
    a panic, and rights are not checked.  The frame buffer is a list of pixels.
    Console output is left out where nothing depends on it, but for the arithmetic
    in its arguments, which can overflow.  Interrupts are steps of their own in
    [LockSteps] and calls to [isr_handler] in [IdtSpec]; elsewhere an operation runs
    undisturbed on one processor.

    Code outside the repository is a class of parameters with the behaviour it
    documents as laws: the [x86] crate ([X86Paging], [X86Idt], [X86Gdt], [X86Apic],
    [X86Control]), the boot protocol ([Limine]), the ACPI library ([UAcpi],
    [UAcpiLaws], [UacpiLog], and [firmware] in [Drivers]) and the devices.  The
    example files instantiate every class.

    ** Not modelled

    [build.rs] passes the linker script to the compiler.  The assembly stubs of the
    interrupt table and the encodings of descriptors belong to the assembler and
    the [x86] crate.  Of [core::fmt] only what reaches [write_str] is modelled: a
    message is the list of its pieces.  What the ACPI library does with the
    callbacks is its own; [firmware] states what the kernel needs of it. *)

From Stdlib Require Export ZArith Lia.
From stdpp Require Export base strings numbers functions option relations gmap list.
Open Scope Z_scope.

(** ** Build profile

    [kernel/Cargo.toml] builds the kernel in two profiles.  In [dev] (the
    default of [kernel/GNUmakefile]) arithmetic overflow panics and
    [debug_assert!] is active; in [release] arithmetic wraps around and
    [debug_assert!] disappears.  Every definition is parametric in the profile,
    so every theorem holds for both. *)
Class Profile := { debug_assertions : bool }.

Definition dev_profile : Profile := {| debug_assertions := true |}.

Definition release_profile : Profile := {| debug_assertions := false |}.

(** ** Outcomes and the state monad

    [Panic msg] is a Rust panic (assertion, index out of range, [unwrap] of
    [None], checked overflow): the panic handler halts the machine, so no state
    comes with it.  [NoFuel] marks a loop of the model that was cut before the
    code's loop ended; theorems that say an operation returns exclude it. *)
Inductive outcome (A : Type) : Type :=
| Ok (a : A)
| Panic (msg : string)
| NoFuel.
Arguments Ok {A} a.
Arguments Panic {A} msg.
Arguments NoFuel {A}.

(** [Result<A, E>] *)
Inductive result (A E : Type) := ROk (a : A) | RErr (e : E).
Arguments ROk {A E} a.
Arguments RErr {A E} e.

Definition M (St A : Type) : Type := St → outcome (A * St).

Definition ret {St A : Type} (a : A) : M St A := λ s, Ok (a, s).

Definition bind {St A B : Type} (c : M St A) (k : A → M St B) : M St B :=
  λ s, match c s with
       | Ok (a, s') => k a s'
       | Panic msg => Panic msg
       | NoFuel => NoFuel
       end.

Definition panic {St A : Type} (msg : string) : M St A := λ _, Panic msg.

Definition nofuel {St A : Type} : M St A := λ _, NoFuel.

Definition get {St : Type} : M St St := λ s, Ok (s, s).

Definition gets {St A : Type} (f : St → A) : M St A := λ s, Ok (f s, s).

Definition modify {St : Type} (f : St → St) : M St unit := λ s, Ok (tt, f s).

Declare Scope kernel_scope.
Delimit Scope kernel_scope with kernel.
Open Scope kernel_scope.

Notation "'let!' x ':=' c 'in' k" := (bind c (λ x, k))
  (at level 10, x name, c at level 100, k at level 200,
   format "'[v' 'let!'  x  ':='  c  'in' '//' k ']'") : kernel_scope.

Notation "'do!' c ; k" := (bind c (λ _, k))
  (at level 10, c at level 100, k at level 200,
   format "'[v' 'do!'  c ; '//' k ']'") : kernel_scope.

(** [assert!(b, msg)] *)
Definition assert_ {St : Type} (b : bool) (msg : string) : M St unit :=
  if b then ret tt else panic msg.

(** [debug_assert!(b)] *)
Definition debug_assert `{Profile} {St : Type} (b : bool) (msg : string) : M St unit :=
  if debug_assertions then assert_ b msg else ret tt.

(** [o.unwrap()] / [o.expect(msg)] *)
Definition unwrap {St A : Type} (o : option A) (msg : string) : M St A :=
  match o with Some a => ret a | None => panic msg end.

(** Indexing a slice or array: out of range panics. *)
Definition index {St A : Type} (l : list A) (i : Z) : M St A :=
  unwrap (l !! Z.to_nat i) "index out of bounds".

(** [for i in start..start+n { body }] *)
Fixpoint for_range {St : Type} (start : Z) (n : nat) (body : Z → M St unit) : M St unit :=
  match n with
  | O => ret tt
  | S n' => do! body start; for_range (start + 1) n' body
  end.

(** [for x in l { body }] *)
Fixpoint for_list {St A : Type} (l : list A) (body : A → M St unit) : M St unit :=
  match l with
  | [] => ret tt
  | x :: l' => do! body x; for_list l' body
  end.

(** ** 64-bit machine integers

    [u64] and [usize] are both 64 bits wide on the kernel's x86_64 target. *)
Definition u64_range (z : Z) : Prop := 0 ≤ z < 2 ^ 64.

Definition in_u64 (z : Z) : bool := (0 <=? z) && (z <? 2 ^ 64).

Definition wrap64 (z : Z) : Z := z mod 2 ^ 64.

(** The result of [+], [-], [*] on [u64]: exact when it fits; otherwise a panic
    in [dev] and the wrapped value in [release]. *)
Definition u64_arith `{Profile} {St : Type} (z : Z) (msg : string) : M St Z :=
  if in_u64 z then ret z
  else if debug_assertions then panic msg else ret (wrap64 z).

Definition u64_add `{Profile} {St : Type} (a b : Z) : M St Z :=
  u64_arith (a + b) "attempt to add with overflow".

Definition u64_sub `{Profile} {St : Type} (a b : Z) : M St Z :=
  u64_arith (a - b) "attempt to subtract with overflow".

Definition u64_mul `{Profile} {St : Type} (a b : Z) : M St Z :=
  u64_arith (a * b) "attempt to multiply with overflow".

(** [a << k] for a constant [k < 64]: the bits shifted out are lost, silently. *)
Definition u64_shl (a k : Z) : Z := wrap64 (Z.shiftl a k).

(** [a >> k] for [k < 64]. *)
Definition u64_shr (a k : Z) : Z := Z.shiftr a k.

(** [!a] *)
Definition u64_not (a : Z) : Z := 2 ^ 64 - 1 - a.

(** [x.is_power_of_two()] *)
Definition is_power_of_two (x : Z) : bool := (0 <? x) && (x =? 2 ^ Z.log2 x).

(** [x.is_multiple_of(k)] for [k <> 0] *)
Definition is_multiple_of (x k : Z) : bool := x mod k =? 0.

(** [x.trailing_zeros()] for a [u64]; 64 when [x = 0]. *)
Fixpoint pos_ctz (p : positive) : Z :=
  match p with
  | xO p' => 1 + pos_ctz p'
  | _ => 0
  end.

Definition trailing_zeros (x : Z) : Z :=
  match x with Zpos p => pos_ctz p | _ => 64 end.

(** [x.leading_zeros()] for a [u64]; 64 when [x = 0]. *)
Definition leading_zeros (x : Z) : Z := if x =? 0 then 64 else 63 - Z.log2 x.

(** [x.next_power_of_two()] for [x <= 2^63] *)
Definition next_power_of_two (x : Z) : Z := if x <=? 1 then 1 else 2 ^ Z.log2_up x.

(** [x.div_ceil(k)] *)
Definition div_ceil (x k : Z) : Z :=
  let q := x / k in if x mod k =? 0 then q else q + 1.

(** [x.next_multiple_of(k)], when the result fits *)
Definition next_multiple_of (x k : Z) : Z :=
  let r := x mod k in if r =? 0 then x else x + (k - r).

(** ** Total-correctness triples

    [wp c s Q]: run from [s], [c] returns (it neither panics nor runs out of
    fuel) and the result and final state satisfy [Q]. *)
Definition wp {St A : Type} (c : M St A) (s : St) (Q : A → St → Prop) : Prop :=
  match c s with Ok (a, s') => Q a s' | _ => False end.

Definition panics {St A : Type} (c : M St A) (s : St) : Prop := ∃ msg, c s = Panic msg.

Section wp_rules.
Context {St A B : Type}.
Implicit Types (s : St).

Lemma wp_ok (c : M St A) s Q :
  wp c s Q ↔ ∃ a s', c s = Ok (a, s') ∧ Q a s'.
Proof.
  unfold wp. destruct (c s) as [[a s']|msg|].
  - split; [eauto | intros (?&?&[= <- <-]&?); done].
  - split; [done | intros (?&?&?&?); done].
  - split; [done | intros (?&?&?&?); done].
Qed.

Lemma wp_ret (a : A) s Q : Q a s → wp (ret a) s Q.
Proof. done. Qed.

Lemma wp_bind (c : M St A) (k : A → M St B) s Q :
  wp c s (λ a s', wp (k a) s' Q) → wp (bind c k) s Q.
Proof. unfold wp, bind. destruct (c s) as [[a s']|msg|]; done. Qed.

Lemma wp_bind_inv (c : M St A) (k : A → M St B) s Q :
  wp (bind c k) s Q → wp c s (λ a s', wp (k a) s' Q).
Proof. unfold wp, bind. destruct (c s) as [[a s']|msg|]; done. Qed.

Lemma wp_mono (c : M St A) s (P Q : A → St → Prop) :
  wp c s P → (∀ a s', P a s' → Q a s') → wp c s Q.
Proof. unfold wp. destruct (c s) as [[a s']|msg|]; eauto. Qed.

Lemma wp_and (c : M St A) s (P Q : A → St → Prop) :
  wp c s P → wp c s Q → wp c s (λ a s', P a s' ∧ Q a s').
Proof. unfold wp. destruct (c s) as [[a s']|msg|]; eauto. Qed.

(** The sequencing rule: a specification of [c], then the continuation. *)
Lemma wp_seq (c : M St A) (k : A → M St B) s P Q :
  wp c s P → (∀ a s', P a s' → wp (k a) s' Q) → wp (bind c k) s Q.
Proof. intros Hc Hk. apply wp_bind. eapply wp_mono; eauto. Qed.

Lemma wp_get s (Q : St → St → Prop) : Q s s → wp get s Q.
Proof. done. Qed.

Lemma wp_gets (f : St → A) s (Q : A → St → Prop) : Q (f s) s → wp (gets f) s Q.
Proof. done. Qed.

Lemma wp_modify (f : St → St) s (Q : unit → St → Prop) : Q tt (f s) → wp (modify f) s Q.
Proof. done. Qed.

Lemma wp_assert (b : bool) msg s (Q : unit → St → Prop) :
  b = true → Q tt s → wp (assert_ b msg) s Q.
Proof. intros ->. done. Qed.

Lemma wp_debug_assert `{Profile} (b : bool) msg s (Q : unit → St → Prop) :
  b = true → Q tt s → wp (debug_assert b msg) s Q.
Proof. intros -> ?. unfold debug_assert. by destruct debug_assertions. Qed.

Lemma wp_unwrap (o : option A) a msg s (Q : A → St → Prop) :
  o = Some a → Q a s → wp (unwrap o msg) s Q.
Proof. intros ->. done. Qed.

Lemma wp_index (l : list A) i a s (Q : A → St → Prop) :
  l !! Z.to_nat i = Some a → Q a s → wp (index l i) s Q.
Proof. apply wp_unwrap. Qed.

Lemma in_u64_true z : u64_range z → in_u64 z = true.
Proof. unfold u64_range, in_u64. intros. apply andb_true_iff. split; lia. Qed.

Lemma wp_u64_arith `{Profile} z msg s (Q : Z → St → Prop) :
  u64_range z → Q z s → wp (u64_arith z msg) s Q.
Proof. intros Hz ?. unfold u64_arith. by rewrite (in_u64_true _ Hz). Qed.

Lemma wp_u64_add `{Profile} a b s (Q : Z → St → Prop) :
  u64_range (a + b) → Q (a + b) s → wp (u64_add a b) s Q.
Proof. apply wp_u64_arith. Qed.

Lemma wp_u64_sub `{Profile} a b s (Q : Z → St → Prop) :
  u64_range (a - b) → Q (a - b) s → wp (u64_sub a b) s Q.
Proof. apply wp_u64_arith. Qed.

Lemma wp_u64_mul `{Profile} a b s (Q : Z → St → Prop) :
  u64_range (a * b) → Q (a * b) s → wp (u64_mul a b) s Q.
Proof. apply wp_u64_arith. Qed.

End wp_rules.

(** The loop rule: an invariant indexed by the number of iterations done. *)
Lemma wp_for_range {St : Type} (Inv : Z → St → Prop) start n (body : Z → M St unit) s
    (Q : unit → St → Prop) :
  Inv start s →
  (∀ i s', start ≤ i < start + Z.of_nat n → Inv i s' →
     wp (body i) s' (λ _ s'', Inv (i + 1) s'')) →
  (∀ s', Inv (start + Z.of_nat n) s' → Q tt s') →
  wp (for_range start n body) s Q.
Proof.
  revert start s. induction n as [|n IH]; intros start s H0 Hbody Hpost; simpl.
  - apply wp_ret, Hpost. by replace (start + Z.of_nat 0) with start by lia.
  - eapply wp_seq; [apply Hbody; [lia|done]|].
    intros [] s' Hs'. apply (IH (start + 1)); [done| |].
    + intros i s'' Hi. apply Hbody. lia.
    + intros s'' Hs''. apply Hpost.
      by replace (start + Z.of_nat (S n)) with (start + 1 + Z.of_nat n) by lia.
Qed.

(** A loop of checks panics as soon as one of its checks does. *)
Lemma for_range_panics {St : Type} start n (body : Z → M St unit) s k :
  (∀ i, start ≤ i < start + Z.of_nat n → body i s = Ok (tt, s) ∨ panics (body i) s) →
  start ≤ k < start + Z.of_nat n → panics (body k) s →
  panics (for_range start n body) s.
Proof.
  revert start. induction n as [|n IH]; intros start Hall Hk Hp; [lia|].
  simpl. unfold panics, bind. destruct (Hall start) as [Hok|[msg Hmsg]]; [lia| |].
  - rewrite Hok. apply IH; [|destruct (decide (start = k)) as [->|]; [|lia]|done].
    + intros i Hi. apply Hall. lia.
    + destruct Hp as [msg Hmsg]. congruence.
  - rewrite Hmsg. eauto.
Qed.

Lemma panics_bind_l {St A B : Type} (c : M St A) (k : A → M St B) s :
  panics c s → panics (bind c k) s.
Proof. intros [msg Hmsg]. exists msg. unfold bind. by rewrite Hmsg. Qed.

Lemma panics_bind_r {St A B : Type} (c : M St A) (k : A → M St B) s (P : A → St → Prop) :
  wp c s P → (∀ a s', P a s' → panics (k a) s') → panics (bind c k) s.
Proof.
  intros Hc Hk. apply wp_ok in Hc as (a & s' & Heq & HP).
  destruct (Hk a s' HP) as [msg Hmsg]. exists msg. unfold bind. by rewrite Heq.
Qed.

Lemma panics_assert {St : Type} b msg (s : St) : b = false → panics (assert_ b msg) s.
Proof. intros ->. by eexists. Qed.

(** Walking a sequence of checks to the one that fails. *)
Lemma panics_check {St B : Type} b msg (k : M St B) s :
  (b = true → panics k s) → panics (do! assert_ b msg; k) s.
Proof.
  destruct b; [intros Hk; by apply Hk|]. intros _. by apply panics_bind_l, panics_assert.
Qed.

Lemma panics_gets {St A B : Type} (f : St → A) (k : A → M St B) s :
  panics (k (f s)) s → panics (bind (gets f) k) s.
Proof. done. Qed.

(** A program that panics does not return. *)
Lemma panics_not_wp {St A : Type} (c : M St A) s Q : panics c s → wp c s Q → False.
Proof. intros [msg Hmsg]. unfold wp. by rewrite Hmsg. Qed.

(** ** Automation *)
Create HintDb kernel discriminated.

#[export] Hint Resolve wp_ret wp_get wp_gets wp_modify : kernel.

(** [wp_pure] runs the administrative steps at the head of a program. *)
Ltac wp_pure1 :=
  lazymatch goal with
  | |- wp (bind _ _) _ _ => apply wp_bind
  | |- wp (ret _) _ _ => apply wp_ret
  | |- wp get _ _ => apply wp_get
  | |- wp (gets _) _ _ => apply wp_gets
  | |- wp (modify _) _ _ => apply wp_modify
  end; cbv beta.

Ltac wp_pure := repeat wp_pure1.
