(* ===== verification/Bits.v ===== *)
(** * Bits: powers of two, alignment and the bit tricks of the kernel

    The arithmetic shared by the allocators and the page tables: blocks of
    [2^o] units, rounding down to a block, the buddy of a block ([x ^ (1 << o)]
    and [x & !(1 << o)] of [src/kernel/src/mm/pmm.rs]), masks
    ([x & !(align - 1)] of [src/kernel/src/mm/mod.rs]), trailing and leading
    zero counts. *)

From S2P Require Import Prelude.

(** The size of a block of order [o], [1u64 << o]. *)
Definition blk (o : nat) : Z := 2 ^ Z.of_nat o.

(** The start of the order-[o] block that holds unit [i]. *)
Definition block_of (o : nat) (i : Z) : Z := i - i mod blk o.

(** ** Sizes of blocks *)
Lemma blk_pos o : 0 < blk o.
Proof. unfold blk. apply Z.pow_pos_nonneg; lia. Qed.

Lemma blk_S o : blk (S o) = 2 * blk o.
Proof. unfold blk. rewrite Nat2Z.inj_succ, Z.pow_succ_r; lia. Qed.

Lemma blk_add o k : blk (o + k) = blk o * blk k.
Proof. unfold blk. rewrite Nat2Z.inj_add, Z.pow_add_r; lia. Qed.

Lemma blk_mono o o' : (o ≤ o')%nat → blk o ≤ blk o'.
Proof. intros. unfold blk. apply Z.pow_le_mono_r; lia. Qed.

Lemma blk_inj o o' : blk o = blk o' → o = o'.
Proof. unfold blk. intros H%Z.pow_inj_r; lia. Qed.

Lemma blk_factor o o' : (o ≤ o')%nat → blk o' = blk o * blk (o' - o).
Proof. intros. rewrite <- blk_add. f_equal. lia. Qed.

Lemma blk_0 : blk 0 = 1.
Proof. done. Qed.

(** Turn alignment hypotheses into multiplications. *)
Lemma aligned_mul f o : f mod blk o = 0 ↔ ∃ q, f = blk o * q.
Proof.
  pose proof (blk_pos o). split.
  - intros. exists (f / blk o). rewrite (Z.div_mod f (blk o)) at 1; lia.
  - intros [q ->]. rewrite Z.mul_comm. apply Z.mod_mul. lia.
Qed.

Lemma aligned_weaken f o o' : (o ≤ o')%nat → f mod blk o' = 0 → f mod blk o = 0.
Proof.
  rewrite !aligned_mul. intros Hle [q ->]. exists (blk (o' - o) * q).
  rewrite (blk_factor o o') by done. lia.
Qed.

Lemma aligned_add f g o : f mod blk o = 0 → g mod blk o = 0 → (f + g) mod blk o = 0.
Proof. rewrite !aligned_mul. intros [q ->] [r ->]. exists (q + r). lia. Qed.

Lemma aligned_sub f g o : f mod blk o = 0 → g mod blk o = 0 → (f - g) mod blk o = 0.
Proof. rewrite !aligned_mul. intros [q ->] [r ->]. exists (q - r). lia. Qed.

Lemma blk_aligned o o' : (o ≤ o')%nat → blk o' mod blk o = 0.
Proof. intros. apply aligned_mul. exists (blk (o' - o)). by apply blk_factor. Qed.

Lemma aligned_0 o : 0 mod blk o = 0.
Proof. apply Z.mod_0_l. pose proof (blk_pos o). lia. Qed.

(** ** The block that holds a unit *)
Lemma block_of_aligned o i : block_of o i mod blk o = 0.
Proof.
  pose proof (blk_pos o). unfold block_of. apply aligned_mul.
  exists (i / blk o). pose proof (Z.div_mod i (blk o)). lia.
Qed.

Lemma block_of_bounds o i : block_of o i ≤ i < block_of o i + blk o.
Proof.
  pose proof (blk_pos o). unfold block_of.
  pose proof (Z.mod_pos_bound i (blk o)). lia.
Qed.

Lemma block_of_unique o i f :
  f mod blk o = 0 → f ≤ i < f + blk o → block_of o i = f.
Proof.
  pose proof (blk_pos o). rewrite aligned_mul. intros [q ->] Hi. unfold block_of.
  assert (i mod blk o = i - blk o * q) as ->; [|lia].
  symmetry. apply (Z.mod_unique_pos i (blk o) q); lia.
Qed.

Lemma block_of_self o f : f mod blk o = 0 → block_of o f = f.
Proof. intros. apply block_of_unique; [done|]. pose proof (blk_pos o). lia. Qed.

Lemma block_of_nonneg o i : 0 ≤ i → 0 ≤ block_of o i.
Proof.
  intros. unfold block_of. pose proof (Z.mod_le i (blk o)).
  pose proof (blk_pos o). lia.
Qed.

(** Aligned blocks are nested or disjoint. *)
Lemma block_nested o o' f g i :
  (o ≤ o')%nat → f mod blk o = 0 → g mod blk o' = 0 →
  f ≤ i < f + blk o → g ≤ i < g + blk o' →
  g ≤ f ∧ f + blk o ≤ g + blk o'.
Proof.
  intros Hle Hf Hg Hi Hi'. rewrite aligned_mul in Hf, Hg.
  destruct Hf as [q ->], Hg as [r ->].
  rewrite (blk_factor o o') in * by done.
  pose proof (blk_pos o) as Hp. pose proof (blk_pos (o' - o)).
  set (k := blk (o' - o)) in *.
  assert (k * r < q + 1) by (apply (Z.mul_lt_mono_pos_l (blk o)); lia).
  assert (q < k * (r + 1)) by (apply (Z.mul_lt_mono_pos_l (blk o)); lia).
  split; nia.
Qed.

(** ** Shifts and masks on machine words *)
Lemma u64_shl_1 o : (o < 64)%nat → u64_shl 1 (Z.of_nat o) = blk o.
Proof.
  intros. unfold u64_shl, wrap64, blk. rewrite Z.shiftl_1_l.
  apply Z.mod_small. split; [apply Z.pow_nonneg; lia|].
  apply Z.pow_lt_mono_r; lia.
Qed.

Lemma u64_shl_mul a k : 0 ≤ k → 0 ≤ a → a * 2 ^ k < 2 ^ 64 → u64_shl a k = a * 2 ^ k.
Proof.
  intros. unfold u64_shl, wrap64. rewrite Z.shiftl_mul_pow2 by lia.
  apply Z.mod_small. split; [|lia]. apply Z.mul_nonneg_nonneg; [lia|].
  apply Z.pow_nonneg. lia.
Qed.

Lemma u64_shr_div a k : 0 ≤ k → u64_shr a k = a / 2 ^ k.
Proof. intros. unfold u64_shr. by apply Z.shiftr_div_pow2. Qed.

Lemma u64_not_testbit a n :
  0 ≤ a < 2 ^ 64 → 0 ≤ n → Z.testbit (u64_not a) n = negb (Z.testbit a n) && (n <? 64).
Proof.
  intros Ha Hn. unfold u64_not.
  replace (2 ^ 64 - 1 - a) with (Z.land (Z.lnot a) (Z.ones 64)).
  - rewrite Z.land_spec, Z.lnot_spec by done. f_equal.
    destruct (Z.ltb_spec n 64).
    + apply Z.ones_spec_low. lia.
    + apply Z.ones_spec_high. lia.
  - rewrite Z.land_ones by lia. symmetry.
    apply (Z.mod_unique_pos _ _ (-1)); unfold Z.lnot; lia.
Qed.

Lemma testbit_above_64 x n : 0 ≤ x < 2 ^ 64 → 64 ≤ n → Z.testbit x n = false.
Proof.
  intros Hx Hn. destruct (decide (x = 0)) as [->|]; [apply Z.testbit_0_l|].
  apply Z.bits_above_log2; [lia|]. apply Z.log2_lt_pow2; [lia|].
  apply Z.lt_le_trans with (2 ^ 64); [lia|]. apply Z.pow_le_mono_r; lia.
Qed.

(** [x & !(align - 1)] rounds down to [align = 2^k]. *)
Lemma land_not_mask x k :
  0 ≤ x < 2 ^ 64 → 0 ≤ k < 64 →
  Z.land x (u64_not (2 ^ k - 1)) = x - x mod 2 ^ k.
Proof.
  intros Hx Hk. pose proof (Z.pow_pos_nonneg 2 k).
  assert (2 ^ k < 2 ^ 64) by (apply Z.pow_lt_mono_r; lia).
  replace (x - x mod 2 ^ k) with (2 ^ k * (x / 2 ^ k))
    by (pose proof (Z.div_mod x (2 ^ k)); lia).
  rewrite Z.mul_comm, <- Z.shiftl_mul_pow2, <- Z.shiftr_div_pow2, <- Z.ldiff_ones_r by lia.
  apply Z.bits_inj'. intros n Hn.
  rewrite Z.land_spec, Z.ldiff_spec, u64_not_testbit by lia.
  replace (2 ^ k - 1) with (Z.ones k) by (rewrite Z.ones_equiv; lia).
  destruct (Z.ltb_spec n 64); [by rewrite andb_true_r|].
  by rewrite (testbit_above_64 x).
Qed.

(** [x & (2^k - 1)] is the remainder. *)
Lemma land_mask x k : 0 ≤ k → Z.land x (2 ^ k - 1) = x mod 2 ^ k.
Proof.
  intros. rewrite <- Z.land_ones by done. f_equal. rewrite Z.ones_equiv. lia.
Qed.

(** ** Buddies *)

Lemma testbit_odd_mul o q : Z.testbit (blk o * q) (Z.of_nat o) = Z.odd q.
Proof.
  unfold blk. rewrite Z.mul_comm, Z.mul_pow2_bits, Z.sub_diag by lia.
  apply Z.bit0_odd.
Qed.

(** [x ^ (1 << o)] adds the bit when it is clear and removes it when set. *)
Lemma lxor_blk f o :
  Z.lxor f (blk o) = if Z.testbit f (Z.of_nat o) then f - blk o else f + blk o.
Proof.
  unfold blk. set (n := Z.of_nat o).
  assert (∀ g, Z.testbit g n = false → Z.lxor g (2 ^ n) = g + 2 ^ n) as Hadd.
  { intros g Hg. symmetry. apply Z.add_nocarry_lxor, Z.bits_inj'. intros k Hk.
    rewrite Z.land_spec, Z.bits_0.
    destruct (decide (k = n)) as [->|]; [by rewrite Hg|].
    rewrite Z.pow2_bits_false by done. apply andb_false_r. }
  destruct (Z.testbit f n) eqn:Hf; [|by apply Hadd].
  assert (Z.lxor (Z.lxor f (2 ^ n)) (2 ^ n) = f) as Hinv.
  { by rewrite Z.lxor_assoc, Z.lxor_nilpotent, Z.lxor_0_r. }
  rewrite Hadd in Hinv; [lia|].
  rewrite Z.lxor_spec, Hf, Z.pow2_bits_true by lia. done.
Qed.

(** An aligned block and its buddy are the two halves of the block one order up. *)
Lemma buddy_halves f o :
  f mod blk o = 0 →
  (Z.lxor f (blk o) = f + blk o ∧ f mod blk (S o) = 0) ∨
  (Z.lxor f (blk o) = f - blk o ∧ (f - blk o) mod blk (S o) = 0).
Proof.
  rewrite aligned_mul. intros [q ->]. rewrite lxor_blk, testbit_odd_mul.
  pose proof (blk_S o) as HS. destruct (Z.odd q) eqn:Hq.
  - right. split; [done|]. apply Z.odd_spec in Hq as [r ->].
    apply aligned_mul. exists r. lia.
  - left. split; [done|]. rewrite <- Z.negb_even in Hq.
    apply negb_false_iff, Z.even_spec in Hq as [r ->].
    apply aligned_mul. exists r. lia.
Qed.

Lemma buddy_aligned f o : f mod blk o = 0 → Z.lxor f (blk o) mod blk o = 0.
Proof.
  intros Hf. destruct (buddy_halves f o Hf) as [[-> _]|[-> _]];
    [apply aligned_add|apply aligned_sub]; auto using blk_aligned.
Qed.

Lemma buddy_nonneg f o : 0 ≤ f → 0 ≤ Z.lxor f (blk o).
Proof.
  intros. apply Z.lxor_nonneg. pose proof (blk_pos o). lia.
Qed.

Lemma buddy_ne f o : Z.lxor f (blk o) ≠ f.
Proof. rewrite lxor_blk. pose proof (blk_pos o). destruct (Z.testbit _ _); lia. Qed.

Lemma buddy_involutive f o : Z.lxor (Z.lxor f (blk o)) (blk o) = f.
Proof. by rewrite Z.lxor_assoc, Z.lxor_nilpotent, Z.lxor_0_r. Qed.

(** The buddy of the upper half is the lower half, and conversely. *)
Lemma lower_buddy f o : f mod blk (S o) = 0 → Z.lxor f (blk o) = f + blk o.
Proof.
  intros Ha. destruct (buddy_halves f o) as [[-> _]|[_ Hy]]; [|done|].
  - apply (aligned_weaken _ o (S o)); [lia|done].
  - exfalso. pose proof (aligned_sub _ _ _ Ha Hy) as Hz. pose proof (blk_S o).
    pose proof (blk_pos o). replace (f - (f - blk o)) with (blk o) in Hz by lia.
    rewrite Z.mod_small in Hz; lia.
Qed.

Lemma upper_buddy f o : f mod blk (S o) = 0 → Z.lxor (f + blk o) (blk o) = f.
Proof. intros Ha. rewrite <- (lower_buddy f o Ha). apply buddy_involutive. Qed.

(** [x & !(1 << o)] is the lower half of the pair. *)
Lemma clear_bit_min f o :
  0 ≤ f < 2 ^ 64 → (o < 64)%nat →
  Z.land f (u64_not (blk o)) = Z.min f (Z.lxor f (blk o)).
Proof.
  intros Hf Ho. pose proof (blk_pos o).
  assert (blk o < 2 ^ 64) by (unfold blk; apply Z.pow_lt_mono_r; lia).
  assert (Z.land f (u64_not (blk o)) = Z.ldiff f (blk o)) as ->.
  { apply Z.bits_inj'. intros n Hn.
    rewrite Z.land_spec, Z.ldiff_spec, u64_not_testbit by lia.
    destruct (Z.ltb_spec n 64); [by rewrite andb_true_r|].
    by rewrite (testbit_above_64 f). }
  rewrite lxor_blk. destruct (Z.testbit f (Z.of_nat o)) eqn:Hb.
  - rewrite Z.min_r by lia.
    assert (Z.ldiff f (blk o) + blk o = f); [|lia].
    rewrite Z.add_nocarry_lxor.
    + apply Z.bits_inj'. intros n Hn. rewrite Z.lxor_spec, Z.ldiff_spec. unfold blk.
      destruct (decide (n = Z.of_nat o)) as [->|].
      * by rewrite Z.pow2_bits_true, Hb by lia.
      * rewrite Z.pow2_bits_false by done. by destruct (Z.testbit f n).
    + apply Z.bits_inj'. intros n Hn. rewrite Z.land_spec, Z.ldiff_spec, Z.bits_0.
      by destruct (Z.testbit f n), (Z.testbit (blk o) n).
  - rewrite Z.min_l by lia. apply Z.bits_inj'. intros n Hn.
    rewrite Z.ldiff_spec. unfold blk.
    destruct (decide (n = Z.of_nat o)) as [->|].
    + by rewrite Hb.
    + rewrite Z.pow2_bits_false by done. apply andb_true_r.
Qed.

(** ** Counting zeros *)
Lemma pos_ctz_nonneg p : 0 ≤ pos_ctz p.
Proof. induction p; simpl; lia. Qed.

Lemma pos_ctz_divides p : Z.pos p mod 2 ^ pos_ctz p = 0.
Proof.
  induction p as [p IH|p IH|]; simpl; [apply Z.mod_1_r| |done].
  pose proof (pos_ctz_nonneg p).
  replace (2 ^ (1 + pos_ctz p)) with (2 * 2 ^ pos_ctz p)
    by (rewrite Z.pow_add_r by lia; lia).
  rewrite (Pos2Z.inj_xO p), Z.mul_mod_distr_l by lia. lia.
Qed.

(** The trailing zeros of [x] bound the alignment [add_range] may use. *)
Lemma trailing_zeros_aligned x o :
  0 < x → Z.of_nat o ≤ trailing_zeros x → x mod blk o = 0.
Proof.
  destruct x as [|p|p]; [lia| |lia]. intros _ Ho. simpl in Ho.
  apply (aligned_weaken _ o (Z.to_nat (pos_ctz p))); [lia|].
  unfold blk. rewrite Z2Nat.id by apply pos_ctz_nonneg. apply pos_ctz_divides.
Qed.

Lemma trailing_zeros_nonneg x : 0 ≤ trailing_zeros x.
Proof. destruct x; simpl; try lia. apply pos_ctz_nonneg. Qed.

(** [63 - leading_zeros] is the exponent of the largest power of two below. *)
Lemma leading_zeros_log2 x : 0 < x → 63 - leading_zeros x = Z.log2 x.
Proof. intros. unfold leading_zeros. destruct (Z.eqb_spec x 0); lia. Qed.

#[export] Hint Resolve blk_pos aligned_0 block_of_aligned buddy_aligned
  buddy_nonneg aligned_add aligned_sub blk_aligned : kernel.
