(* ===== verification/Mem.v ===== *)
(** * Mem: the machine's memory as the kernel reaches it

    The kernel touches physical memory through the higher-half direct map: it
    adds the HHDM offset to a physical address and dereferences the result as a
    pointer to words of 64 bits (free-list links, page-table entries, slab
    headers).  Memory is therefore a map from virtual addresses of words to
    their contents; a word that was never written holds 0.  A pointer of type
    [Option<NonNull<T>>] is one word, 0 standing for [None]. *)

From S2P Require Import Prelude Bits.

Abbreviation mem := (gmap Z Z).

Definition read_word (m : mem) (a : Z) : Z := default 0 (m !! a).

Definition write_word (a v : Z) (m : mem) : mem := <[a := v]> m.

(** [Option<NonNull<T>>] and its word. *)
Definition enc_ptr (p : option Z) : Z := default 0 p.

Definition dec_ptr (w : Z) : option Z := if w =? 0 then None else Some w.

(** [m] and [m'] hold the same words, except perhaps at addresses in [P]. *)
Definition same_outside (P : Z → Prop) (m m' : mem) : Prop :=
  ∀ a, ¬ P a → m' !! a = m !! a.

Lemma read_write_eq m a v : read_word (write_word a v m) a = v.
Proof. unfold read_word, write_word. by rewrite lookup_insert_eq. Qed.

Lemma read_write_ne m a b v : a ≠ b → read_word (write_word a v m) b = read_word m b.
Proof. intros. unfold read_word, write_word. by rewrite lookup_insert_ne. Qed.

Lemma dec_enc_ptr p : p ≠ Some 0 → dec_ptr (enc_ptr p) = p.
Proof.
  destruct p as [a|]; [|done]. intros Ha. unfold dec_ptr. simpl.
  destruct (Z.eqb_spec a 0); [congruence|done].
Qed.

#[export] Instance same_outside_refl P : Reflexive (same_outside P).
Proof. by intros m a. Qed.

#[export] Instance same_outside_trans P : Transitive (same_outside P).
Proof. intros m1 m2 m3 H12 H23 a Ha. by rewrite H23, H12. Qed.

Lemma same_outside_weaken (P Q : Z → Prop) m m' :
  same_outside P m m' → (∀ a, P a → Q a) → same_outside Q m m'.
Proof. intros H HPQ a Ha. apply H. eauto. Qed.

Lemma same_outside_write (P : Z → Prop) m a v :
  P a → same_outside P m (write_word a v m).
Proof. intros Ha b Hb. unfold write_word. apply lookup_insert_ne. congruence. Qed.

Lemma same_outside_read (P : Z → Prop) m m' a :
  same_outside P m m' → ¬ P a → read_word m' a = read_word m a.
Proof. intros H Ha. unfold read_word. by rewrite H. Qed.

#[export] Hint Resolve same_outside_write : kernel.
