(* ===== verification/Pmm.v ===== *)
(** * Pmm: the physical memory manager ([src/kernel/src/mm/pmm.rs])

    A buddy allocator over the machine's 4 KiB frames.  [free_lists.[o]] heads a
    doubly linked list of the free blocks of [2^o] frames; the links are stored
    in the free frames themselves, reached through the direct map.
    [frame_order.[i]] is the order of the free block that frame [i] belongs to,
    or [ORDER_NONE].  This file holds the definitions, operation by operation;
    the invariant and the theorems are in [PmmInv], [PmmOps] and [PmmSpec]. *)

From S2P Require Import Prelude Bits Mem.

Definition FRAME_SHIFT : Z := 12.

Definition FRAME_SIZE : Z := 2 ^ FRAME_SHIFT.

Definition MAX_ORDER : nat := 11.

Definition NUM_ORDERS : nat := MAX_ORDER + 1.

Definition ORDER_NONE : Z := 255.

(** The fields of [FreeBlock], as offsets from the block's address. *)
Definition OFF_PREV : Z := 0.

Definition OFF_NEXT : Z := 8.

Record Pmm := mkPmm {
  free_lists : list (option Z);
  frame_order : list Z;
  total_frames : Z;
  free_frames : Z;
  hhdm_offset : Z
}.

(** What a method of [Pmm] works on: [self] and the memory behind the links. *)
Record pmm_state := mkPS {
  ps_self : Pmm;
  ps_mem : mem
}.

Definition set_free_lists (l : list (option Z)) (p : Pmm) : Pmm :=
  mkPmm l (frame_order p) (total_frames p) (free_frames p) (hhdm_offset p).

Definition set_frame_order (l : list Z) (p : Pmm) : Pmm :=
  mkPmm (free_lists p) l (total_frames p) (free_frames p) (hhdm_offset p).

Definition set_free_frames (n : Z) (p : Pmm) : Pmm :=
  mkPmm (free_lists p) (frame_order p) (total_frames p) n (hhdm_offset p).

Definition upd_self (f : Pmm → Pmm) (s : pmm_state) : pmm_state :=
  mkPS (f (ps_self s)) (ps_mem s).

Definition upd_mem (f : mem → mem) (s : pmm_state) : pmm_state :=
  mkPS (ps_self s) (f (ps_mem s)).

(** Reading and writing the links of the block at address [a]. *)
Definition get_prev (m : mem) (a : Z) : option Z := dec_ptr (read_word m (a + OFF_PREV)).

Definition get_next (m : mem) (a : Z) : option Z := dec_ptr (read_word m (a + OFF_NEXT)).

Definition set_prev (a : Z) (p : option Z) (m : mem) : mem :=
  write_word (a + OFF_PREV) (enc_ptr p) m.

Definition set_next (a : Z) (p : option Z) (m : mem) : mem :=
  write_word (a + OFF_NEXT) (enc_ptr p) m.

Section pmm.
Context `{Profile}.

Definition frame_index {St : Type} (addr : Z) : M St Z :=
  do! assert_ (is_multiple_of addr FRAME_SIZE) "physical address is not frame-aligned";
  ret (u64_shr addr FRAME_SHIFT).

(** [Pmm::new]: the metadata slice must cover every frame; it starts all unused. *)
Definition Pmm_new {St : Type} (frame_order0 : list Z) (total hhdm : Z) : M St Pmm :=
  do! assert_ (total =? Z.of_nat (length frame_order0))
        "frame_order metadata length must match total frame count";
  ret (mkPmm (replicate NUM_ORDERS None) (replicate (length frame_order0) ORDER_NONE)
             total 0 hhdm).

Definition frame_to_block (frame : Z) : M pmm_state Z :=
  let! p := gets ps_self in
  u64_add (u64_shl frame FRAME_SHIFT) (hhdm_offset p).

Definition block_to_frame (block : Z) : M pmm_state Z :=
  let! p := gets ps_self in
  let! off := u64_sub block (hhdm_offset p) in
  ret (u64_shr off FRAME_SHIFT).

(** [self.frame_order[i] = value] *)
Definition write_order (i value : Z) : M pmm_state unit :=
  let! p := gets ps_self in
  do! index (frame_order p) i;
  modify (upd_self (set_frame_order (<[Z.to_nat i := value]> (frame_order p)))).

(** [self.frame_order[i]] *)
Definition read_order (i : Z) : M pmm_state Z :=
  let! p := gets ps_self in
  index (frame_order p) i.

(** [self.free_lists[order] = head] *)
Definition write_head (order : nat) (head : option Z) : M pmm_state unit :=
  let! p := gets ps_self in
  do! index (free_lists p) (Z.of_nat order);
  modify (upd_self (set_free_lists (<[order := head]> (free_lists p)))).

(** [self.free_lists[order]] *)
Definition read_head (order : nat) : M pmm_state (option Z) :=
  let! p := gets ps_self in
  index (free_lists p) (Z.of_nat order).

Definition set_block_order (frame : Z) (order : nat) (value : Z) : M pmm_state unit :=
  let pages := u64_shl 1 (Z.of_nat order) in
  for_range 0 (Z.to_nat pages) (λ i,
    let! j := u64_add frame i in
    write_order j value).

Definition assert_block_unused (frame : Z) (order : nat) : M pmm_state unit :=
  let pages := u64_shl 1 (Z.of_nat order) in
  for_range 0 (Z.to_nat pages) (λ i,
    let! j := u64_add frame i in
    let! v := read_order j in
    assert_ (v =? ORDER_NONE) "free overlaps an existing free block").

Definition list_push (frame : Z) (order : nat) : M pmm_state unit :=
  let! p := gets ps_self in
  do! debug_assert (frame <? total_frames p) "frame < self.total_frames";
  do! (if debug_assertions then
         let! e := u64_add frame (u64_shl 1 (Z.of_nat order)) in
         assert_ (e <=? total_frames p) "frame + (1 << order) <= self.total_frames"
       else ret tt);
  do! assert_block_unused frame order;
  let! block := frame_to_block frame in
  let! head := read_head order in
  do! modify (upd_mem (set_prev block None));
  do! modify (upd_mem (set_next block head));
  do! match head with
      | Some h => modify (upd_mem (set_prev h (Some block)))
      | None => ret tt
      end;
  do! write_head order (Some block);
  set_block_order frame order (Z.of_nat order mod 256).

Definition list_remove (frame : Z) (order : nat) : M pmm_state unit :=
  let! p := gets ps_self in
  do! debug_assert (frame <? total_frames p) "frame < self.total_frames";
  do! (if debug_assertions then
         let! v := read_order frame in
         assert_ (v =? Z.of_nat order mod 256) "self.frame_order[frame] == order"
       else ret tt);
  let! block := frame_to_block frame in
  let! prev := gets (λ s, get_prev (ps_mem s) block) in
  let! next := gets (λ s, get_next (ps_mem s) block) in
  do! match prev with
      | Some q => modify (upd_mem (set_next q next))
      | None => write_head order next
      end;
  do! match next with
      | Some n => modify (upd_mem (set_prev n prev))
      | None => ret tt
      end;
  set_block_order frame order ORDER_NONE.

Definition free_frames_count (p : Pmm) : Z := free_frames p.

(** The inner loop of [alloc_pages]: from [o] down to [order], return the upper
    half to the free lists.  [k] is the number of halvings left, [o - order]. *)
Fixpoint split_down (k : nat) (frame : Z) (order : nat) : M pmm_state unit :=
  match k with
  | O => ret tt
  | S k' =>
      let o := (order + k')%nat in
      let! buddy := u64_add frame (u64_shl 1 (Z.of_nat o)) in
      do! list_push buddy o;
      split_down k' frame order
  end.

(** The outer loop of [alloc_pages]: [n] orders are left to scan, the next one
    being [current = MAX_ORDER + 1 - n]. *)
Fixpoint alloc_scan (n : nat) (order : nat) : M pmm_state (option Z) :=
  match n with
  | O => ret None
  | S n' =>
      let current := (MAX_ORDER - n')%nat in
      let! head := read_head current in
      match head with
      | Some h =>
          let! frame := block_to_frame h in
          do! list_remove frame current;
          do! split_down (current - order) frame order;
          let! p := gets ps_self in
          let! n := u64_sub (free_frames p) (u64_shl 1 (Z.of_nat order)) in
          do! modify (upd_self (set_free_frames n));
          ret (Some (u64_shl frame FRAME_SHIFT))
      | None => alloc_scan n' order
      end
  end.

Definition alloc_pages (order : nat) : M pmm_state (option Z) :=
  do! assert_ (order <=? MAX_ORDER)%nat "order out of range";
  alloc_scan (NUM_ORDERS - order) order.

(** The merging loop of [free_pages]; it leaves at [MAX_ORDER] at the latest. *)
Fixpoint merge_up (fuel : nat) (frame : Z) (o : nat) : M pmm_state (Z * nat) :=
  if (o <? MAX_ORDER)%nat then
    match fuel with
    | O => nofuel
    | S fuel' =>
        let buddy := Z.lxor frame (u64_shl 1 (Z.of_nat o)) in
        let! p := gets ps_self in
        let! stop := (if total_frames p <=? buddy then ret true
                      else let! v := read_order buddy in
                           ret (negb (v =? Z.of_nat o mod 256))) in
        if (stop : bool) then ret (frame, o)
        else
          do! list_remove buddy o;
          merge_up fuel' (Z.land frame (u64_not (u64_shl 1 (Z.of_nat o)))) (S o)
    end
  else ret (frame, o).

Definition free_pages (addr : Z) (order : nat) : M pmm_state unit :=
  do! assert_ (order <=? MAX_ORDER)%nat "order out of range";
  let! frame := frame_index addr in
  let! p := gets ps_self in
  let! e := u64_add frame (u64_shl 1 (Z.of_nat order)) in
  do! assert_ (e <=? total_frames p) "free out of range";
  do! assert_ (is_multiple_of frame (u64_shl 1 (Z.of_nat order)))
        "free_pages address not aligned to order";
  let! v := read_order frame in
  do! assert_ (v =? ORDER_NONE) "double free";
  do! assert_block_unused frame order;
  let! n := u64_add (free_frames p) (u64_shl 1 (Z.of_nat order)) in
  do! modify (upd_self (set_free_frames n));
  let! r := merge_up (MAX_ORDER - order) frame order in
  list_push (fst r) (snd r).

(** The order of the next block [add_range] frees. *)
Definition range_order (start count : Z) : nat :=
  let align_order := if start =? 0 then Z.of_nat MAX_ORDER else trailing_zeros start in
  let size_order := 63 - leading_zeros count in
  Nat.min (Z.to_nat (Z.min align_order size_order)) MAX_ORDER.

Fixpoint add_range_loop (fuel : nat) (start count : Z) : M pmm_state unit :=
  if 0 <? count then
    match fuel with
    | O => nofuel
    | S fuel' =>
        let order := range_order start count in
        do! free_pages (u64_shl start FRAME_SHIFT) order;
        let block := u64_shl 1 (Z.of_nat order) in
        let! start' := u64_add start block in
        let! count' := u64_sub count block in
        add_range_loop fuel' start' count'
    end
  else ret tt.

(** Every iteration takes at least one frame off [count]. *)
Definition add_range (start count : Z) : M pmm_state unit :=
  add_range_loop (Z.to_nat count) start count.

End pmm.
