(* ===== verification/Dll.v ===== *)
(** * Dll: doubly linked lists in memory

    The shape predicate for the free lists of the physical memory manager.
    [dllseg m p l n] says that the nodes at the addresses [l] are linked in that
    order in [m], the first one pointing back to [p], the last one on to [n].
    The lemmas follow what [list_push] and [list_remove] of
    [src/kernel/src/mm/pmm.rs] do to the links. *)

From S2P Require Import Prelude Bits Mem Pmm.

(** The neighbour a segment exposes at either end. *)
Definition first_or (l : list Z) (n : option Z) : option Z :=
  match l with [] => n | b :: _ => Some b end.

Definition last_or (l : list Z) (p : option Z) : option Z :=
  match last l with Some a => Some a | None => p end.

Fixpoint dllseg (m : mem) (p : option Z) (l : list Z) (n : option Z) : Prop :=
  match l with
  | [] => True
  | a :: l' =>
      get_prev m a = p ∧ get_next m a = first_or l' n ∧ dllseg m (Some a) l' n
  end.

(** Addresses of nodes: not null and aligned, so that nodes do not overlap. *)
Definition node (a : Z) : Prop := a ≠ 0 ∧ a mod 16 = 0.

(** Unlinking the node at [a]: what [list_remove] writes. *)
Definition unlink (prev next : option Z) (m : mem) : mem :=
  let m1 := match prev with Some q => set_next q next m | None => m end in
  match next with Some b => set_prev b prev m1 | None => m1 end.

(** Linking the node at [a] in front of [head]: what [list_push] writes. *)
Definition link (a : Z) (head : option Z) (m : mem) : mem :=
  let m1 := set_next a head (set_prev a None m) in
  match head with Some h => set_prev h (Some a) m1 | None => m1 end.

(** ** Reads over writes *)
Section links.
Context (m : mem) (a b : Z) (p : option Z).
Hypothesis (Hp : p ≠ Some 0).

Lemma get_set_prev_eq : get_prev (set_prev a p m) a = p.
Proof. unfold get_prev, set_prev. rewrite read_write_eq. by apply dec_enc_ptr. Qed.

Lemma get_set_next_eq : get_next (set_next a p m) a = p.
Proof. unfold get_next, set_next. rewrite read_write_eq. by apply dec_enc_ptr. Qed.
End links.

Lemma get_prev_set_prev_ne m a b p : a ≠ b → get_prev (set_prev a p m) b = get_prev m b.
Proof. intros. unfold get_prev, set_prev, OFF_PREV. rewrite read_write_ne; [done|lia]. Qed.

Lemma get_next_set_next_ne m a b p : a ≠ b → get_next (set_next a p m) b = get_next m b.
Proof. intros. unfold get_next, set_next, OFF_NEXT. rewrite read_write_ne; [done|lia]. Qed.

Lemma get_next_set_prev m a b p : node a → node b →
  get_next (set_prev a p m) b = get_next m b.
Proof.
  intros [_ Ha] [_ Hb]. unfold get_next, set_prev, OFF_NEXT, OFF_PREV.
  rewrite read_write_ne; [done|].
  pose proof (Z.div_mod a 16). pose proof (Z.div_mod b 16). lia.
Qed.

Lemma get_prev_set_next m a b p : node a → node b →
  get_prev (set_next a p m) b = get_prev m b.
Proof.
  intros [_ Ha] [_ Hb]. unfold get_prev, set_next, OFF_NEXT, OFF_PREV.
  rewrite read_write_ne; [done|].
  pose proof (Z.div_mod a 16). pose proof (Z.div_mod b 16). lia.
Qed.

Lemma node_ptr a : node a → Some a ≠ Some 0.
Proof. intros [? _]. congruence. Qed.

Lemma first_or_ptr l n : Forall node l → n ≠ Some 0 → first_or l n ≠ Some 0.
Proof. destruct 1; [done|]. intros. by apply node_ptr. Qed.

Lemma last_or_snoc l a p : last_or (l ++ [a]) p = Some a.
Proof. unfold last_or. by rewrite last_snoc. Qed.

Lemma nodes_snoc l a : Forall node (l ++ [a]) → Forall node l ∧ node a.
Proof. by rewrite Forall_app, Forall_singleton. Qed.

(** ** Segments *)
Lemma dllseg_app m p l1 l2 n :
  dllseg m p (l1 ++ l2) n ↔
  dllseg m p l1 (first_or l2 n) ∧ dllseg m (last_or l1 p) l2 n.
Proof.
  revert p. induction l1 as [|a l1 IH]; intros p; simpl; [tauto|].
  rewrite IH.
  assert (last_or (a :: l1) p = last_or l1 (Some a)) as ->.
  { unfold last_or. rewrite last_cons. by destruct (last l1). }
  assert (first_or (l1 ++ l2) n = first_or l1 (first_or l2 n)) as ->
    by (by destruct l1). tauto.
Qed.

(** A segment only depends on the links of its nodes. *)
Lemma dllseg_frame m m' p l n :
  (∀ a, a ∈ l → get_prev m' a = get_prev m a ∧ get_next m' a = get_next m a) →
  dllseg m p l n → dllseg m' p l n.
Proof.
  revert p. induction l as [|a l IH]; intros p Hl; simpl; [done|].
  intros (Hpr & Hnx & Hrest).
  destruct (Hl a) as [-> ->]; [left|]. split_and!; [done..|].
  apply IH; [|done]. intros b Hb. apply Hl. by right.
Qed.

Lemma dllseg_set_prev_ne m p l n a v :
  node a → Forall node l → a ∉ l → dllseg m p l n → dllseg (set_prev a v m) p l n.
Proof.
  intros Ha Hl Hnot. apply dllseg_frame. intros b Hb.
  rewrite Forall_forall in Hl. split.
  - apply get_prev_set_prev_ne. set_solver.
  - apply get_next_set_prev; auto.
Qed.

Lemma dllseg_set_next_ne m p l n a v :
  node a → Forall node l → a ∉ l → dllseg m p l n → dllseg (set_next a v m) p l n.
Proof.
  intros Ha Hl Hnot. apply dllseg_frame. intros b Hb.
  rewrite Forall_forall in Hl. split.
  - apply get_prev_set_next; auto.
  - apply get_next_set_next_ne. set_solver.
Qed.

(** Redirect the back link of the first node. *)
Lemma dllseg_set_prev_first m p p' b l n :
  p' ≠ Some 0 → Forall node (b :: l) → NoDup (b :: l) →
  dllseg m p (b :: l) n → dllseg (set_prev b p' m) p' (b :: l) n.
Proof.
  intros Hp' Hn [Hb Hnd]%NoDup_cons (_ & Hnx & Hrest).
  apply Forall_cons in Hn as [Hbn Hl]. simpl. split_and!.
  - by apply get_set_prev_eq.
  - by rewrite get_next_set_prev.
  - by apply dllseg_set_prev_ne.
Qed.

(** Redirect the forward link of the last node. *)
Lemma dllseg_set_next_last m p l a n n' :
  n' ≠ Some 0 → Forall node (l ++ [a]) → NoDup (l ++ [a]) →
  dllseg m p (l ++ [a]) n → dllseg (set_next a n' m) p (l ++ [a]) n'.
Proof.
  intros Hn' Hf Hnd. rewrite !dllseg_app. simpl.
  apply nodes_snoc in Hf as [Hl Ha].
  apply NoDup_app in Hnd as (_ & Hdisj & _).
  intros (Hpre & Hpr & _ & _). split_and!; [|..|done].
  - apply dllseg_set_next_ne; [done..| |done]. set_solver.
  - by rewrite get_prev_set_next.
  - by apply get_set_next_eq.
Qed.

Lemma dllseg_remove m l1 a l2 :
  Forall node (l1 ++ a :: l2) → NoDup (l1 ++ a :: l2) →
  dllseg m None (l1 ++ a :: l2) None →
  get_prev m a = last_or l1 None ∧ get_next m a = first_or l2 None ∧
  dllseg (unlink (last_or l1 None) (first_or l2 None) m) None (l1 ++ l2) None.
Proof.
  intros Hf Hnd Hd. apply dllseg_app in Hd as (Hd1 & Hpr & Hnx & Hd2).
  split_and!; [done..|].
  apply Forall_app in Hf as [Hf1 Hf2]. apply Forall_cons in Hf2 as [Ha Hf2].
  apply NoDup_app in Hnd as (Hnd1 & Hdisj & [_ Hnd2]%NoDup_cons).
  assert (first_or l2 None ≠ Some 0) by (by apply first_or_ptr).
  set (m1 := match last_or l1 None with
             | Some q => set_next q (first_or l2 None) m | None => m end).
  assert (dllseg m1 None l1 (first_or l2 None)) as H1.
  { subst m1. destruct l1 as [|q l1 _] using rev_ind; [done|].
    rewrite last_or_snoc. by eapply dllseg_set_next_last. }
  assert (dllseg m1 (Some a) l2 None) as H2.
  { subst m1. destruct l1 as [|q l1 _] using rev_ind; [done|].
    rewrite last_or_snoc. apply nodes_snoc in Hf1 as [_ Hq].
    apply dllseg_set_next_ne; [done..| |done]. set_solver. }
  apply dllseg_app. unfold unlink. fold m1.
  destruct l2 as [|b l2]; simpl first_or in *; [by split|].
  apply Forall_cons in Hf2 as Hb. destruct Hb as [Hb Hf2'].
  assert (last_or l1 None ≠ Some 0) as Hlp.
  { destruct l1 as [|q l1 _] using rev_ind; [done|]. rewrite last_or_snoc.
    apply nodes_snoc in Hf1 as [_ Hq]. by apply node_ptr. }
  split.
  - apply dllseg_set_prev_ne; [done..| |done].
    intros Hin. apply (Hdisj b Hin). right. left.
  - by eapply dllseg_set_prev_first.
Qed.

Lemma dllseg_push m a l :
  Forall node (a :: l) → NoDup (a :: l) →
  dllseg m None l None → dllseg (link a (head l) m) None (a :: l) None.
Proof.
  intros Hf Hnd Hd. pose proof Hf as [Ha Hl]%Forall_cons.
  pose proof Hnd as [Hnot Hnd']%NoDup_cons.
  set (m1 := set_next a (head l) (set_prev a None m)).
  assert (head l ≠ Some 0) by (destruct Hl; [done|by apply node_ptr]).
  assert (get_prev m1 a = None ∧ get_next m1 a = head l ∧ dllseg m1 None l None)
    as (Hp1 & Hn1 & Hd1).
  { subst m1. split_and!.
    - rewrite get_prev_set_next by done. by apply get_set_prev_eq.
    - by apply get_set_next_eq.
    - apply dllseg_set_next_ne; [done..|]. by apply dllseg_set_prev_ne. }
  destruct l as [|b l]; [done|].
  change (dllseg (set_prev b (Some a) m1) None (a :: b :: l) None).
  apply Forall_cons in Hl as Hb. destruct Hb as [Hb _].
  split; [|split].
  - rewrite get_prev_set_prev_ne; [done|]. intros ->. apply Hnot. left.
  - by rewrite get_next_set_prev.
  - eapply dllseg_set_prev_first; [by apply node_ptr|done..].
Qed.

(** ** What the two operations leave alone *)
Lemma same_outside_link (P : Z → Prop) a h m :
  P (a + OFF_PREV) → P (a + OFF_NEXT) → (∀ b, h = Some b → P (b + OFF_PREV)) →
  same_outside P m (link a h m).
Proof.
  intros Hp Hn Hh. unfold link. set (m1 := set_next a h (set_prev a None m)).
  assert (same_outside P m m1).
  { transitivity (set_prev a None m); by apply same_outside_write. }
  destruct h as [b|]; [|done]. transitivity m1; [done|].
  apply same_outside_write. auto.
Qed.

Lemma same_outside_unlink (P : Z → Prop) p n m :
  (∀ b, p = Some b → P (b + OFF_NEXT)) → (∀ b, n = Some b → P (b + OFF_PREV)) →
  same_outside P m (unlink p n m).
Proof.
  intros Hp Hn. unfold unlink.
  set (m1 := match p with Some q => set_next q n m | None => m end).
  assert (same_outside P m m1).
  { subst m1. destruct p; [|done]. apply same_outside_write. auto. }
  destruct n as [b|]; [|done]. transitivity m1; [done|].
  apply same_outside_write. auto.
Qed.

(** A list that shares no node with the one being changed keeps its shape. *)
Lemma dllseg_link_other m a h p l n :
  node a → (∀ b, h = Some b → node b ∧ b ∉ l) → Forall node l → a ∉ l →
  dllseg m p l n → dllseg (link a h m) p l n.
Proof.
  intros Ha Hh Hl Hnot Hd. unfold link.
  set (m1 := set_next a h (set_prev a None m)).
  assert (dllseg m1 p l n).
  { apply dllseg_set_next_ne; [done..|]. by apply dllseg_set_prev_ne. }
  destruct h as [b|]; [|done]. destruct (Hh b) as [Hb Hbl]; [done|].
  by apply dllseg_set_prev_ne.
Qed.

Lemma dllseg_unlink_other m pr nx p l n :
  (∀ b, pr = Some b ∨ nx = Some b → node b ∧ b ∉ l) → Forall node l →
  dllseg m p l n → dllseg (unlink pr nx m) p l n.
Proof.
  intros Hb Hl Hd. unfold unlink.
  set (m1 := match pr with Some q => set_next q nx m | None => m end).
  assert (dllseg m1 p l n).
  { subst m1. destruct pr as [q|]; [|done].
    destruct (Hb q) as [Hq Hql]; [by left|]. by apply dllseg_set_next_ne. }
  destruct nx as [b|]; [|done]. destruct (Hb b) as [Hbn Hbl]; [by right|].
  by apply dllseg_set_prev_ne.
Qed.
