(* ===== verification/PmmInv.v ===== *)
(** * PmmInv: the representation invariant of the buddy allocator

    [core s L] relates the concrete state of the physical memory manager to the
    lists [L o] of the free blocks of every order: the links in memory form the
    lists, the lists hold aligned blocks inside the machine's frames,
    [frame_order] marks exactly the frames of those blocks, and no two buddies
    are both free (they would have been merged).  The file proves that
    [list_push] and [list_remove] keep it, and what they change. *)

From S2P Require Import Prelude Bits Mem Pmm Dll.

(** The virtual address of frame [f], where its links are. *)
Definition fb_addr (hhdm f : Z) : Z := f * FRAME_SIZE + hhdm.

Definition addrs (p : Pmm) (l : list Z) : list Z := fb_addr (hhdm_offset p) <$> l.

(** The mark of frame [i]. *)
Definition order_of (p : Pmm) (i : Z) : option Z := frame_order p !! Z.to_nat i.

Definition in_block (f : Z) (o : nat) (i : Z) : Prop := f ≤ i < f + blk o.

#[export] Instance in_block_dec f o i : Decision (in_block f o i).
Proof. unfold in_block. apply _. Defined.

(** A well-placed block: aligned to its size and inside the machine. *)
Definition block_ok (p : Pmm) (f : Z) (o : nat) : Prop :=
  0 ≤ f ∧ f mod blk o = 0 ∧ f + blk o ≤ total_frames p.

Definition unused (p : Pmm) (f : Z) (o : nat) : Prop :=
  ∀ i, in_block f o i → order_of p i = Some ORDER_NONE.

Record core (s : pmm_state) (L : nat → list Z) : Prop := mkCore {
  core_lists : length (free_lists (ps_self s)) = NUM_ORDERS;
  core_len : Z.of_nat (length (frame_order (ps_self s))) = total_frames (ps_self s);
  core_hhdm_pos : 0 < hhdm_offset (ps_self s);
  core_hhdm_aligned : hhdm_offset (ps_self s) mod FRAME_SIZE = 0;
  core_hhdm_end :
    hhdm_offset (ps_self s) + total_frames (ps_self s) * FRAME_SIZE ≤ 2 ^ 64;
  core_head o : (o ≤ MAX_ORDER)%nat →
    free_lists (ps_self s) !! o = Some (head (addrs (ps_self s) (L o)));
  core_dll o : (o ≤ MAX_ORDER)%nat →
    dllseg (ps_mem s) None (addrs (ps_self s) (L o)) None;
  core_nodup o : (o ≤ MAX_ORDER)%nat → NoDup (L o);
  core_block o f : (o ≤ MAX_ORDER)%nat → f ∈ L o → block_ok (ps_self s) f o;
  core_mark o i : (o ≤ MAX_ORDER)%nat → 0 ≤ i < total_frames (ps_self s) →
    order_of (ps_self s) i = Some (Z.of_nat o) ↔ block_of o i ∈ L o;
  core_range i : 0 ≤ i < total_frames (ps_self s) →
    order_of (ps_self s) i = Some ORDER_NONE ∨
    ∃ o, (o ≤ MAX_ORDER)%nat ∧ order_of (ps_self s) i = Some (Z.of_nat o);
  core_merged o f : (o < MAX_ORDER)%nat → f ∈ L o → Z.lxor f (blk o) ∉ L o
}.

(** The words that hold the links of the frames in [G]. *)
Definition link_words (p : Pmm) (G : Z → Prop) (a : Z) : Prop :=
  ∃ g, G g ∧ (a = fb_addr (hhdm_offset p) g + OFF_PREV ∨
              a = fb_addr (hhdm_offset p) g + OFF_NEXT).

(** The parts of [self] no operation after [new] changes. *)
Definition same_shape (p p' : Pmm) : Prop :=
  total_frames p' = total_frames p ∧ hhdm_offset p' = hhdm_offset p.

#[export] Instance same_shape_refl : Reflexive same_shape.
Proof. done. Qed.

#[export] Instance same_shape_trans : Transitive same_shape.
Proof. intros p q r [H1 H2] [H3 H4]. split; congruence. Qed.

(** [l'] is [l] with the block [(f, o)] set to [v]. *)
Definition filled (l l' : list Z) (f : Z) (o : nat) (v : Z) : Prop :=
  length l' = length l ∧
  ∀ i, 0 ≤ i → l' !! Z.to_nat i = if decide (in_block f o i) then Some v else l !! Z.to_nat i.

(** ** Reading the invariant *)
Lemma FRAME_SIZE_val : FRAME_SIZE = 4096.
Proof. done. Qed.

Lemma order_mod o : (o ≤ MAX_ORDER)%nat → Z.of_nat o mod 256 = Z.of_nat o.
Proof. unfold MAX_ORDER. intros. apply Z.mod_small. lia. Qed.

Lemma order_not_none o : (o ≤ MAX_ORDER)%nat → Z.of_nat o ≠ ORDER_NONE.
Proof. unfold MAX_ORDER, ORDER_NONE. lia. Qed.

Lemma order_shl o : (o ≤ MAX_ORDER)%nat → u64_shl 1 (Z.of_nat o) = blk o.
Proof. unfold MAX_ORDER. intros. apply u64_shl_1. lia. Qed.

Lemma in_block_first f o : in_block f o f.
Proof. unfold in_block. pose proof (blk_pos o). lia. Qed.

Lemma fb_addr_inj h f g : fb_addr h f = fb_addr h g → f = g.
Proof. unfold fb_addr. rewrite FRAME_SIZE_val. lia. Qed.

Lemma addrs_elem p l f : fb_addr (hhdm_offset p) f ∈ addrs p l ↔ f ∈ l.
Proof.
  unfold addrs. rewrite list_elem_of_fmap. split.
  - intros (g & Hg%fb_addr_inj & ?). by subst.
  - eauto.
Qed.

Lemma NoDup_addrs p l : NoDup l → NoDup (addrs p l).
Proof. intros. unfold addrs. apply NoDup_fmap_2; [|done]. intros f g. apply fb_addr_inj. Qed.

Lemma addrs_app p l1 l2 : addrs p (l1 ++ l2) = addrs p l1 ++ addrs p l2.
Proof. apply fmap_app. Qed.

Lemma last_or_addrs p l q :
  last_or (addrs p l) None = Some q → ∃ g, q = fb_addr (hhdm_offset p) g ∧ g ∈ l.
Proof.
  unfold last_or, addrs. rewrite fmap_last. destruct (last l) as [g|] eqn:Hl; [|done].
  intros [= <-]. exists g. split; [done|]. by apply last_Some_elem_of in Hl.
Qed.

Lemma first_or_addrs p l q :
  first_or (addrs p l) None = Some q → ∃ g, q = fb_addr (hhdm_offset p) g ∧ g ∈ l.
Proof.
  destruct l as [|g l]; [done|]. intros [= <-]. exists g. split; [done|left].
Qed.

Lemma head_addrs p l q :
  head (addrs p l) = Some q → ∃ g, q = fb_addr (hhdm_offset p) g ∧ g ∈ l.
Proof. destruct l; [done|]. apply (first_or_addrs p (_ :: _)). Qed.

Section core_facts.
Context {s : pmm_state} {L : nat → list Z} (HI : core s L).

Lemma core_order_of_is_Some i :
  0 ≤ i < total_frames (ps_self s) → is_Some (order_of (ps_self s) i).
Proof.
  intros. unfold order_of. apply lookup_lt_is_Some. pose proof (core_len _ _ HI). lia.
Qed.

Lemma core_total_bound : total_frames (ps_self s) < 2 ^ 52.
Proof.
  pose proof (core_hhdm_pos _ _ HI). pose proof (core_hhdm_end _ _ HI) as H1.
  rewrite FRAME_SIZE_val in H1. lia.
Qed.

Lemma node_fb_addr f : 0 ≤ f → node (fb_addr (hhdm_offset (ps_self s)) f).
Proof.
  intros Hf. pose proof (core_hhdm_pos _ _ HI).
  pose proof (core_hhdm_aligned _ _ HI) as Ha. unfold node, fb_addr.
  rewrite FRAME_SIZE_val in *. split; [lia|].
  pose proof (Z.div_mod (hhdm_offset (ps_self s)) 4096).
  replace (f * 4096 + hhdm_offset (ps_self s))
    with ((f * 256 + 256 * (hhdm_offset (ps_self s) / 4096)) * 16) by lia.
  by apply Z.mod_mul.
Qed.

Lemma nodes_list o : (o ≤ MAX_ORDER)%nat → Forall node (addrs (ps_self s) (L o)).
Proof.
  intros Ho. apply Forall_forall. intros a.
  unfold addrs. rewrite list_elem_of_fmap. intros (f & -> & Hf).
  apply node_fb_addr. by apply (core_block _ _ HI o f).
Qed.

(** The frames of a listed block carry its order. *)
Lemma listed_mark o f i :
  (o ≤ MAX_ORDER)%nat → f ∈ L o → in_block f o i →
  order_of (ps_self s) i = Some (Z.of_nat o).
Proof.
  intros Ho Hf Hi. destruct (core_block _ _ HI o f) as (H0 & Ha & He); [done..|].
  unfold in_block in Hi. apply (core_mark _ _ HI); [done|lia|].
  by rewrite (block_of_unique o i f).
Qed.

Lemma listed_unique o o' f :
  (o ≤ MAX_ORDER)%nat → (o' ≤ MAX_ORDER)%nat → f ∈ L o → f ∈ L o' → o = o'.
Proof.
  intros Ho Ho' Hf Hf'.
  pose proof (listed_mark o f f Ho Hf (in_block_first _ _)) as H1.
  pose proof (listed_mark o' f f Ho' Hf' (in_block_first _ _)) as H2.
  rewrite H1 in H2. injection H2 as ?. lia.
Qed.

(** An aligned marked frame heads a listed block. *)
Lemma mark_listed o f :
  (o ≤ MAX_ORDER)%nat → 0 ≤ f < total_frames (ps_self s) → f mod blk o = 0 →
  order_of (ps_self s) f = Some (Z.of_nat o) → f ∈ L o.
Proof.
  intros Ho Hf Ha Hm. apply (core_mark _ _ HI) in Hm; [|done..].
  by rewrite block_of_self in Hm.
Qed.

Lemma unused_not_listed o o' f g :
  (o' ≤ MAX_ORDER)%nat → unused (ps_self s) f o → in_block f o g → g ∉ L o'.
Proof.
  intros Ho' Hun Hg Hin.
  pose proof (listed_mark o' g g Ho' Hin (in_block_first _ _)) as H1.
  rewrite (Hun g Hg) in H1. injection H1 as ?. by apply (order_not_none o').
Qed.
End core_facts.

(** ** Writing a block of marks *)
Section ops.
Context `{Profile}.

Lemma set_block_order_spec s f o v :
  (o ≤ MAX_ORDER)%nat → 0 ≤ f →
  f + blk o ≤ Z.of_nat (length (frame_order (ps_self s))) ≤ 2 ^ 64 →
  wp (set_block_order f o v) s (λ _ s', ∃ l',
    s' = upd_self (set_frame_order l') s ∧ filled (frame_order (ps_self s)) l' f o v).
Proof.
  intros Ho Hf Hlen. unfold set_block_order. rewrite order_shl by done.
  pose proof (blk_pos o).
  apply (wp_for_range (λ k s', ∃ l', s' = upd_self (set_frame_order l') s ∧
    length l' = length (frame_order (ps_self s)) ∧
    ∀ i, 0 ≤ i → l' !! Z.to_nat i =
      if decide (f ≤ i < f + k) then Some v else frame_order (ps_self s) !! Z.to_nat i)).
  - exists (frame_order (ps_self s)). split_and!; [by destruct s as [[] ?]|done|].
    intros i Hi. rewrite decide_False by lia. done.
  - intros k s' Hk (l' & -> & Hl' & Hlook). apply wp_bind, wp_u64_add.
    { unfold u64_range. lia. }
    unfold write_order. wp_pure. cbn.
    destruct (lookup_lt_is_Some_2 l' (Z.to_nat (f + k))) as [x Hx]; [lia|].
    eapply wp_index; [exact Hx|].
    exists (<[Z.to_nat (f + k) := v]> l'). split_and!; [done|by rewrite length_insert|].
    intros i Hi. destruct (decide (i = f + k)) as [->|Hne].
    + rewrite decide_True by lia. apply list_lookup_insert_eq. lia.
    + rewrite list_lookup_insert_ne by lia. rewrite Hlook by done.
      by destruct (decide (f ≤ i < f + k)), (decide (f ≤ i < f + (k + 1))); try lia.
  - intros s' (l' & -> & Hl' & Hlook). exists l'. split; [done|]. split; [done|].
    intros i Hi. rewrite Hlook by done. unfold in_block.
    rewrite Z2Nat.id, Z.add_0_l by lia.
    by destruct (decide (f ≤ i < f + blk o)).
Qed.

Lemma assert_block_unused_spec s f o :
  (o ≤ MAX_ORDER)%nat → 0 ≤ f → f + blk o ≤ 2 ^ 64 → unused (ps_self s) f o →
  wp (assert_block_unused f o) s (λ _ s', s' = s).
Proof.
  intros Ho Hf Hlen Hun. unfold assert_block_unused. rewrite order_shl by done.
  pose proof (blk_pos o).
  apply (wp_for_range (λ _ s', s' = s)); [done| |done].
  intros k s' Hk ->. apply wp_bind, wp_u64_add; [unfold u64_range; lia|].
  unfold read_order. wp_pure.
  eapply wp_index; [apply Hun; unfold in_block; lia|]. by apply wp_assert.
Qed.

Lemma frame_to_block_spec s f :
  0 < hhdm_offset (ps_self s) → 0 ≤ f →
  f * FRAME_SIZE + hhdm_offset (ps_self s) < 2 ^ 64 →
  wp (frame_to_block f) s (λ a s', s' = s ∧ a = fb_addr (hhdm_offset (ps_self s)) f).
Proof.
  intros. unfold frame_to_block. wp_pure. unfold FRAME_SIZE, FRAME_SHIFT in *.
  rewrite u64_shl_mul by lia. apply wp_u64_add; [unfold u64_range; lia|]. done.
Qed.

Lemma block_to_frame_spec s f :
  0 < hhdm_offset (ps_self s) → 0 ≤ f →
  f * FRAME_SIZE + hhdm_offset (ps_self s) < 2 ^ 64 →
  wp (block_to_frame (fb_addr (hhdm_offset (ps_self s)) f)) s (λ g s', s' = s ∧ g = f).
Proof.
  intros. unfold block_to_frame, fb_addr. wp_pure. unfold FRAME_SIZE, FRAME_SHIFT in *.
  apply wp_u64_sub; [unfold u64_range; lia|]. apply wp_ret. split; [done|].
  rewrite u64_shr_div by lia.
  rewrite Z.add_simpl_r. by apply Z.div_mul.
Qed.
End ops.

#[export] Hint Resolve order_not_none in_block_first core_total_bound : kernel.
