(* ===== verification/PmmList.v ===== *)
(** * PmmList: linking and unlinking free blocks

    [list_push] and [list_remove] of [src/kernel/src/mm/pmm.rs] keep the
    representation invariant: first the effect of each on the invariant, then
    the run of the code. *)

From S2P Require Import Prelude Bits Mem Pmm Dll PmmInv.

(** [s'] is [s] with [lists] and [order] in place and memory [m]. *)
Definition with_lists (s : pmm_state) (lists : list (option Z)) (order : list Z)
    (m : mem) : pmm_state :=
  mkPS (mkPmm lists order (total_frames (ps_self s)) (free_frames (ps_self s))
          (hhdm_offset (ps_self s))) m.

(** What a list operation on the block [(f, o)] reports to its caller: the marks
    of the block are [v], everything else but the links is as it was. *)
Record list_step (s s' : pmm_state) (L : nat → list Z) (f : Z) (o : nat) (v : Z) : Prop := {
  ls_shape : same_shape (ps_self s) (ps_self s');
  ls_free : free_frames (ps_self s') = free_frames (ps_self s);
  ls_order i : 0 ≤ i → order_of (ps_self s') i =
    if decide (in_block f o i) then Some v else order_of (ps_self s) i;
  ls_mem : same_outside (link_words (ps_self s) (λ g, g = f ∨ g ∈ L o)) (ps_mem s) (ps_mem s')
}.

(** ** Effect on the invariant *)
Section push.
Context {s : pmm_state} {L : nat → list Z} (HI : core s L).
Context (f : Z) (o : nat) (Ho : (o ≤ MAX_ORDER)%nat).
Context (Hblk : block_ok (ps_self s) f o) (Hun : unused (ps_self s) f o).
Context (Hbud : (o < MAX_ORDER)%nat → Z.lxor f (blk o) ∉ L o).
Context (l' : list Z) (Hl' : filled (frame_order (ps_self s)) l' f o (Z.of_nat o)).

Let a := fb_addr (hhdm_offset (ps_self s)) f.
Let s' := with_lists s (<[o := Some a]> (free_lists (ps_self s))) l'
            (link a (head (addrs (ps_self s) (L o))) (ps_mem s)).
Let L' := <[o := f :: L o]> L.

Lemma push_fresh o' : (o' ≤ MAX_ORDER)%nat → f ∉ L o'.
Proof. intros Ho'. eapply unused_not_listed; eauto using in_block_first. Qed.

Lemma push_dll o' : (o' ≤ MAX_ORDER)%nat →
  dllseg (ps_mem s') None (addrs (ps_self s) (L' o')) None.
Proof.
  intros Ho'. destruct Hblk as (Hf0 & _ & _). unfold L'. simpl.
  destruct (decide (o' = o)) as [->|Hne].
  - rewrite fn_lookup_insert. apply (dllseg_push _ a).
    + constructor; [by apply (node_fb_addr HI)|by apply (nodes_list HI)].
    + apply (NoDup_addrs _ (f :: L o)), NoDup_cons_2; [by apply push_fresh|].
      by apply (core_nodup _ _ HI).
    + by apply (core_dll _ _ HI).
  - rewrite fn_lookup_insert_ne by done. apply dllseg_link_other.
    + by apply (node_fb_addr HI).
    + intros b (g & -> & Hg)%head_addrs. split.
      * apply (node_fb_addr HI). by apply (core_block _ _ HI o g).
      * rewrite addrs_elem. intros Hg'. apply Hne. by apply (listed_unique HI _ _ g).
    + by apply (nodes_list HI).
    + unfold a. rewrite addrs_elem. by apply push_fresh.
    + by apply (core_dll _ _ HI).
Qed.

Lemma push_order i : 0 ≤ i → order_of (ps_self s') i =
  if decide (in_block f o i) then Some (Z.of_nat o) else order_of (ps_self s) i.
Proof. apply Hl'. Qed.

Lemma push_mark o' i : (o' ≤ MAX_ORDER)%nat → 0 ≤ i < total_frames (ps_self s) →
  order_of (ps_self s') i = Some (Z.of_nat o') ↔ block_of o' i ∈ L' o'.
Proof.
  intros Ho' Hi. rewrite push_order by lia. destruct Hblk as (_ & Ha & _).
  unfold L'. destruct (decide (in_block f o i)) as [Hin|Hout];
    (destruct (decide (o' = o)) as [->|Hne];
      [rewrite fn_lookup_insert|rewrite fn_lookup_insert_ne by done]).
  - rewrite (block_of_unique o i f) by done. split; [by left|done].
  - split; [intros [= ?]; lia|]. intros Hb. exfalso.
    apply (core_mark _ _ HI) in Hb; [|done..].
    rewrite (Hun i Hin) in Hb. injection Hb as ?. by apply (order_not_none o').
  - rewrite (core_mark _ _ HI) by done. rewrite elem_of_cons. split; [by right|].
    intros [Heq|?]; [|done]. exfalso. apply Hout.
    pose proof (block_of_bounds o i) as Hb. by rewrite Heq in Hb.
  - by apply (core_mark _ _ HI).
Qed.

Lemma push_merged o' g : (o' < MAX_ORDER)%nat → g ∈ L' o' → Z.lxor g (blk o') ∉ L' o'.
Proof.
  intros Ho'. unfold L'. destruct (decide (o' = o)) as [->|Hne];
    [rewrite fn_lookup_insert|rewrite fn_lookup_insert_ne by done; by apply (core_merged _ _ HI)].
  rewrite !elem_of_cons. intros [->|Hg] [Hb|Hb].
  - by apply (buddy_ne f o).
  - by apply Hbud.
  - apply Hbud; [done|]. rewrite <- Hb. by rewrite buddy_involutive.
  - by apply (core_merged _ _ HI o g).
Qed.

Lemma core_push : core s' L'.
Proof.
  assert (∀ o' g, (o' ≤ MAX_ORDER)%nat → g ∈ L' o' → block_ok (ps_self s') g o').
  { intros o' g Ho'. unfold L'. destruct (decide (o' = o)) as [->|Hne].
    - rewrite fn_lookup_insert, elem_of_cons. intros [->|Hg]; [done|].
      by apply (core_block _ _ HI).
    - rewrite fn_lookup_insert_ne by done. by apply (core_block _ _ HI). }
  constructor; simpl; try apply HI; try done.
  - rewrite length_insert. apply HI.
  - destruct Hl' as [-> _]. apply HI.
  - intros o' Ho'. unfold L'. destruct (decide (o' = o)) as [->|Hne].
    + rewrite fn_lookup_insert. apply list_lookup_insert_eq.
      rewrite (core_lists _ _ HI). unfold NUM_ORDERS. lia.
    + rewrite fn_lookup_insert_ne by done. rewrite list_lookup_insert_ne by done.
      by apply (core_head _ _ HI).
  - apply push_dll.
  - intros o' Ho'. unfold L'. destruct (decide (o' = o)) as [->|Hne].
    + rewrite fn_lookup_insert. apply NoDup_cons_2; [by apply push_fresh|].
      by apply (core_nodup _ _ HI).
    + rewrite fn_lookup_insert_ne by done. by apply (core_nodup _ _ HI).
  - apply push_mark.
  - intros i Hi. rewrite push_order by lia.
    destruct (decide (in_block f o i)); [right; eauto|by apply (core_range _ _ HI)].
  - apply push_merged.
Qed.

Lemma push_step : list_step s s' L f o (Z.of_nat o).
Proof.
  split; [done..|apply push_order|]. apply same_outside_link.
  - exists f. eauto.
  - exists f. eauto.
  - intros b (g & -> & Hg)%head_addrs. exists g. eauto.
Qed.
End push.

Section remove.
Context {s : pmm_state} {L : nat → list Z} (HI : core s L).
Context (f : Z) (o : nat) (Ho : (o ≤ MAX_ORDER)%nat).
Context (l1 l2 : list Z) (HL : L o = l1 ++ f :: l2).
Context (l' : list Z) (Hl' : filled (frame_order (ps_self s)) l' f o ORDER_NONE).

#[local] Abbreviation p := (ps_self s).
Let a := fb_addr (hhdm_offset p) f.
Let pr := last_or (addrs p l1) None.
Let nx := first_or (addrs p l2) None.
Let lists' := match pr with Some _ => free_lists p | None => <[o := nx]> (free_lists p) end.
Let s' := with_lists s lists' l' (unlink pr nx (ps_mem s)).
Let L' := <[o := l1 ++ l2]> L.

Lemma remove_elem g : g ∈ l1 ++ l2 ↔ g ∈ L o ∧ g ≠ f.
Proof.
  pose proof (core_nodup _ _ HI o Ho) as Hnd. rewrite HL in *.
  apply NoDup_app in Hnd as (_ & Hd & [Hf _]%NoDup_cons).
  rewrite !elem_of_app, elem_of_cons. split.
  - intros [Hg|Hg]; split; auto; intros ->; [|done].
    apply (Hd f Hg). left.
  - intros [[?|[?|?]] ?]; auto; done.
Qed.

Lemma remove_dll_at :
  get_prev (ps_mem s) a = pr ∧ get_next (ps_mem s) a = nx ∧
  dllseg (ps_mem s') None (addrs p (l1 ++ l2)) None.
Proof.
  pose proof (core_dll _ _ HI o Ho) as Hd. pose proof (nodes_list HI o Ho) as Hn.
  pose proof (NoDup_addrs p _ (core_nodup _ _ HI o Ho)) as Hnd.
  rewrite HL in Hd, Hn, Hnd. rewrite addrs_app in *. by apply dllseg_remove.
Qed.

Lemma remove_touched b :
  pr = Some b ∨ nx = Some b → ∃ g, b = fb_addr (hhdm_offset p) g ∧ g ∈ L o.
Proof.
  intros [(g & -> & Hg)%last_or_addrs|(g & -> & Hg)%first_or_addrs];
    exists g; (split; [done|]); rewrite HL, elem_of_app; [by left|].
  right. by right.
Qed.

Lemma remove_dll o' : (o' ≤ MAX_ORDER)%nat →
  dllseg (ps_mem s') None (addrs p (L' o')) None.
Proof.
  intros Ho'. unfold L'. destruct (decide (o' = o)) as [->|Hne].
  - rewrite fn_lookup_insert. apply remove_dll_at.
  - rewrite fn_lookup_insert_ne by done. apply dllseg_unlink_other.
    + intros b (g & -> & Hg)%remove_touched. split.
      * apply (node_fb_addr HI). by apply (core_block _ _ HI o g).
      * rewrite addrs_elem. intros Hg'. apply Hne. by apply (listed_unique HI _ _ g).
    + by apply (nodes_list HI).
    + by apply (core_dll _ _ HI).
Qed.

Lemma remove_order i : 0 ≤ i → order_of (ps_self s') i =
  if decide (in_block f o i) then Some ORDER_NONE else order_of p i.
Proof. apply Hl'. Qed.

Lemma remove_listed : f ∈ L o.
Proof. rewrite HL, elem_of_app. right. left. Qed.

Lemma remove_subset o' g : (o' ≤ MAX_ORDER)%nat → g ∈ L' o' → g ∈ L o'.
Proof.
  intros Ho'. unfold L'. destruct (decide (o' = o)) as [->|Hne].
  - rewrite fn_lookup_insert. by intros [? _]%remove_elem.
  - by rewrite fn_lookup_insert_ne.
Qed.

Lemma remove_mark o' i : (o' ≤ MAX_ORDER)%nat → 0 ≤ i < total_frames p →
  order_of (ps_self s') i = Some (Z.of_nat o') ↔ block_of o' i ∈ L' o'.
Proof.
  intros Ho' Hi. rewrite remove_order by lia.
  pose proof remove_listed as Hf. destruct (core_block _ _ HI o f) as (_ & Ha & _); [done..|].
  destruct (decide (in_block f o i)) as [Hin|Hout].
  - split; [intros [= Hc]; by destruct (order_not_none o')|].
    intros Hb. exfalso.
    pose proof (remove_subset _ _ Ho' Hb) as Hb'.
    apply (core_mark _ _ HI) in Hb'; [|done..].
    rewrite (listed_mark HI o f i) in Hb' by done. injection Hb' as Heq.
    assert (o' = o) as -> by lia. unfold L' in Hb.
    rewrite fn_lookup_insert, (block_of_unique o i f) in Hb by done.
    apply remove_elem in Hb as [_ ?]. done.
  - rewrite (core_mark _ _ HI) by done. unfold L'.
    destruct (decide (o' = o)) as [->|Hne]; [|by rewrite fn_lookup_insert_ne].
    rewrite fn_lookup_insert, remove_elem. split; [|tauto]. intros. split; [done|].
    intros Heq. apply Hout. pose proof (block_of_bounds o i) as Hb. by rewrite Heq in Hb.
Qed.

Lemma remove_head o' : (o' ≤ MAX_ORDER)%nat → lists' !! o' = Some (head (addrs p (L' o'))).
Proof.
  intros Ho'. pose proof (core_head _ _ HI o' Ho') as Hh. unfold L', lists', pr.
  destruct (decide (o' = o)) as [->|Hne].
  - rewrite fn_lookup_insert, addrs_app. destruct l1 as [|g l1'].
    + simpl. rewrite list_lookup_insert_eq; [by destruct l2|].
      rewrite (core_lists _ _ HI). unfold NUM_ORDERS. lia.
    + destruct (last_or (addrs p (g :: l1')) None) as [q|] eqn:Hq.
      * rewrite Hh. by rewrite HL.
      * exfalso. unfold last_or in Hq. destruct (last _) eqn:Hl; [done|].
        by apply last_None in Hl.
  - rewrite fn_lookup_insert_ne by done.
    destruct (last_or _ _); [done|]. by rewrite list_lookup_insert_ne.
Qed.

Lemma core_remove : core s' L'.
Proof.
  constructor; simpl; try apply HI; try done.
  - unfold lists'. destruct pr; [apply HI|]. rewrite length_insert. apply HI.
  - destruct Hl' as [-> _]. apply HI.
  - apply remove_head.
  - apply remove_dll.
  - intros o' Ho'. pose proof (core_nodup _ _ HI o' Ho') as Hnd. unfold L'.
    destruct (decide (o' = o)) as [->|Hne]; [|by rewrite fn_lookup_insert_ne].
    rewrite fn_lookup_insert. rewrite HL in Hnd.
    apply NoDup_app in Hnd as (? & Hd & [? ?]%NoDup_cons).
    apply NoDup_app. split_and!; [done| |done]. intros x Hx Hx'. apply (Hd x Hx). by right.
  - intros o' g Ho' Hg. apply (core_block _ _ HI); [done|by apply remove_subset].
  - apply remove_mark.
  - intros i Hi. rewrite remove_order by lia.
    destruct (decide (in_block f o i)); [by left|by apply (core_range _ _ HI)].
  - intros o' g Ho' Hg Hb. apply (core_merged _ _ HI o' g); [done|..];
      (apply remove_subset; [lia|done]).
Qed.

Lemma remove_step : list_step s s' L f o ORDER_NONE.
Proof.
  split; [done..|apply remove_order|]. apply same_outside_unlink; intros b Hb.
  - destruct (remove_touched b) as (g & -> & Hg); [by left|]. exists g. eauto.
  - destruct (remove_touched b) as (g & -> & Hg); [by right|]. exists g. eauto.
Qed.
End remove.

(** ** Runs of the code *)
Section runs.
Context `{Profile} {s : pmm_state} {L : nat → list Z} (HI : core s L).

Lemma wp_read_head o (Q : option Z → pmm_state → Prop) :
  (o ≤ MAX_ORDER)%nat → Q (head (addrs (ps_self s) (L o))) s → wp (read_head o) s Q.
Proof.
  intros Ho HQ. unfold read_head. wp_pure.
  eapply wp_index; [|exact HQ]. rewrite Nat2Z.id. by apply (core_head _ _ HI).
Qed.

Lemma wp_read_order i (Q : Z → pmm_state → Prop) :
  0 ≤ i < total_frames (ps_self s) →
  (∀ v, order_of (ps_self s) i = Some v → Q v s) → wp (read_order i) s Q.
Proof.
  intros Hi HQ. unfold read_order. wp_pure.
  destruct (core_order_of_is_Some HI i Hi) as [v Hv].
  eapply wp_index; [exact Hv|]. by apply HQ.
Qed.

Lemma block_addr_bound f o : block_ok (ps_self s) f o →
  f * FRAME_SIZE + hhdm_offset (ps_self s) < 2 ^ 64 ∧
  f < total_frames (ps_self s) ∧ f + blk o < 2 ^ 64.
Proof.
  intros (H0 & _ & He). pose proof (blk_pos o). pose proof (core_hhdm_end _ _ HI) as Hh.
  pose proof (core_total_bound HI). rewrite FRAME_SIZE_val in *. lia.
Qed.

Lemma wp_block_to_frame f o (Q : Z → pmm_state → Prop) :
  block_ok (ps_self s) f o → Q f s →
  wp (block_to_frame (fb_addr (hhdm_offset (ps_self s)) f)) s Q.
Proof.
  intros Hb HQ. destruct (block_addr_bound f o Hb) as (? & ? & ?).
  eapply wp_mono; [apply block_to_frame_spec|]; [apply HI|apply Hb|done|].
  by intros g s' [-> ->].
Qed.

Lemma list_push_spec f o :
  (o ≤ MAX_ORDER)%nat → block_ok (ps_self s) f o → unused (ps_self s) f o →
  ((o < MAX_ORDER)%nat → Z.lxor f (blk o) ∉ L o) →
  wp (list_push f o) s (λ _ s',
    core s' (<[o := f :: L o]> L) ∧ list_step s s' L f o (Z.of_nat o)).
Proof.
  intros Ho Hblk Hun Hbud. pose proof Hblk as (H0 & Ha & He).
  destruct (block_addr_bound f o Hblk) as (Haddr & Hft & Hfb).
  pose proof (core_total_bound HI). pose proof (blk_pos o).
  unfold list_push. rewrite order_shl by done. wp_pure.
  apply wp_debug_assert; [lia|]. wp_pure.
  eapply (wp_mono _ _ (λ _ s', s' = s)).
  { destruct debug_assertions; [|done]. apply wp_bind, wp_u64_add; [unfold u64_range; lia|].
    apply wp_assert; [lia|done]. }
  intros [] ? ->. wp_pure. eapply wp_mono; [apply assert_block_unused_spec; [done..|lia|done]|].
  intros [] ? ->. wp_pure.
  eapply wp_mono; [apply frame_to_block_spec; [apply HI|done..]|].
  intros ? ? [-> ->]. wp_pure. apply wp_read_head; [done|]. wp_pure.
  set (a := fb_addr _ f). set (h := head _).
  eapply (wp_mono _ _ (λ _ s', s' = upd_mem (link a h) s)).
  { by destruct h. }
  intros [] ? ->. wp_pure. unfold write_head. wp_pure. cbn [ps_self upd_mem].
  eapply wp_index; [rewrite Nat2Z.id; by apply (core_head _ _ HI)|]. wp_pure.
  rewrite order_mod by done.
  eapply wp_mono; [apply set_block_order_spec; [done..|]; cbn;
    rewrite (core_len _ _ HI); lia|].
  cbn. intros [] ? (l' & -> & Hl'). split.
  - exact (core_push HI f o Ho Hblk Hun Hbud l' Hl').
  - exact (push_step f o l' Hl').
Qed.

Lemma list_remove_spec f o :
  (o ≤ MAX_ORDER)%nat → f ∈ L o →
  wp (list_remove f o) s (λ _ s', ∃ L',
    core s' L' ∧ list_step s s' L f o ORDER_NONE ∧
    (∀ o', o' ≠ o → L' o' = L o') ∧ (∀ g, g ∈ L' o ↔ g ∈ L o ∧ g ≠ f)).
Proof.
  intros Ho Hf. pose proof (core_block _ _ HI o f Ho Hf) as Hblk.
  pose proof Hblk as (H0 & Ha & He).
  destruct (block_addr_bound f o Hblk) as (Haddr & Hft & Hfb).
  pose proof (core_total_bound HI).
  destruct (list_elem_of_split _ _ Hf) as (l1 & l2 & HL).
  unfold list_remove. wp_pure. apply wp_debug_assert; [lia|]. wp_pure.
  eapply (wp_mono _ _ (λ _ s', s' = s)).
  { destruct debug_assertions; [|done]. apply wp_bind, wp_read_order; [lia|].
    intros v Hv. apply wp_assert; [|done].
    rewrite (listed_mark HI o f f) in Hv by auto using in_block_first.
    injection Hv as <-. rewrite order_mod by done. lia. }
  intros [] ? ->. wp_pure.
  eapply wp_mono; [apply frame_to_block_spec; [apply HI|done..]|].
  intros ? ? [-> ->]. wp_pure.
  destruct (remove_dll_at HI f o Ho l1 l2 HL []) as (-> & -> & _).
  set (pr := last_or _ _). set (nx := first_or _ _).
  eapply (wp_mono _ _ (λ _ s', s' = with_lists s
    (match pr with Some _ => free_lists (ps_self s)
     | None => <[o := nx]> (free_lists (ps_self s)) end)
    (frame_order (ps_self s))
    (match pr with Some q => set_next q nx (ps_mem s) | None => ps_mem s end))).
  { destruct pr; [by destruct s as [[] ?]|]. unfold write_head. wp_pure.
    eapply wp_index; [rewrite Nat2Z.id; by apply (core_head _ _ HI)|]. done. }
  intros [] ? ->. wp_pure.
  eapply (wp_mono _ _ (λ _ s', s' = with_lists s
    (match pr with Some _ => free_lists (ps_self s)
     | None => <[o := nx]> (free_lists (ps_self s)) end)
    (frame_order (ps_self s)) (unlink pr nx (ps_mem s)))).
  { by destruct nx. }
  intros [] ? ->. eapply wp_mono; [apply set_block_order_spec; [done..|]; cbn;
    rewrite (core_len _ _ HI); lia|].
  cbn. intros [] ? (l' & -> & Hl'). exists (<[o := l1 ++ l2]> L). split_and!.
  - by apply (core_remove HI f o Ho l1 l2 HL).
  - exact (remove_step f o l1 l2 HL l' Hl').
  - intros o' Hne. by rewrite fn_lookup_insert_ne.
  - intros g. rewrite fn_lookup_insert. by apply (remove_elem HI).
Qed.
End runs.
