(* ===== verification/PmmOps.v ===== *)
(** * PmmOps: allocation, release and range insertion

    The set of free frames is the abstraction of the allocator's state.  The
    file proves, for the code of [alloc_pages], [free_pages] and [add_range] in
    [src/kernel/src/mm/pmm.rs], that each runs without a panic from a state that
    satisfies the invariant and what it does to that set and to memory. *)

From S2P Require Import Prelude Bits Mem Pmm Dll PmmInv PmmList.

(** The frames that belong to some free block. *)
Definition free_set (p : Pmm) : gset Z :=
  list_to_set (filter (λ i, order_of p i ≠ Some ORDER_NONE) (seqZ 0 (total_frames p))).

(** The frames of a block and of a range. *)
Definition range_set (f n : Z) : gset Z := list_to_set (seqZ f n).

Definition block_set (f : Z) (o : nat) : gset Z := range_set f (blk o).

(** The invariant between calls: the structure is sound and the counter right. *)
Record pmm_inv (s : pmm_state) (L : nat → list Z) : Prop := {
  inv_core : core s L;
  inv_count : free_frames (ps_self s) = Z.of_nat (size (free_set (ps_self s)))
}.

Definition pmm_ok (s : pmm_state) : Prop := ∃ L, pmm_inv s L.

(** A sequence of list operations that wrote only to the links of frames in [G]. *)
Record pmm_step (G : Z → Prop) (s s' : pmm_state) : Prop := {
  st_shape : same_shape (ps_self s) (ps_self s');
  st_mem : same_outside (link_words (ps_self s) G) (ps_mem s) (ps_mem s')
}.

(** ** Sets of frames *)
Lemma elem_of_range_set f n i : i ∈ range_set f n ↔ f ≤ i < f + n.
Proof. unfold range_set. rewrite elem_of_list_to_set, elem_of_seqZ. lia. Qed.

Lemma elem_of_block_set f o i : i ∈ block_set f o ↔ in_block f o i.
Proof. apply elem_of_range_set. Qed.

Lemma elem_of_free_set p i :
  i ∈ free_set p ↔ 0 ≤ i < total_frames p ∧ order_of p i ≠ Some ORDER_NONE.
Proof.
  unfold free_set. rewrite elem_of_list_to_set, list_elem_of_filter, elem_of_seqZ.
  rewrite Z.add_0_l. tauto.
Qed.

Lemma size_range_set f n : 0 ≤ n → Z.of_nat (size (range_set f n)) = n.
Proof.
  intros. unfold range_set. rewrite size_list_to_set by apply NoDup_seqZ.
  rewrite length_seqZ. lia.
Qed.

Lemma size_block_set f o : Z.of_nat (size (block_set f o)) = blk o.
Proof. apply size_range_set. pose proof (blk_pos o). lia. Qed.

(** Turn a goal about sets of frames into one about single frames. *)
Ltac frames_solver :=
  apply set_eq; intros ?i;
  rewrite ?elem_of_union, ?elem_of_difference, ?elem_of_block_set, ?elem_of_range_set.

(** Removing [B] and giving back all of it but [C] removes [C]. *)
Lemma split_sets (F B C : gset Z) : C ⊆ B → B ⊆ F → F ∖ B ∪ B ∖ C = F ∖ C.
Proof.
  intros HC HB. apply set_eq. intros i. specialize (HC i). specialize (HB i).
  rewrite elem_of_union, !elem_of_difference. destruct (decide (i ∈ B)); tauto.
Qed.

Lemma block_set_mono f o o' : (o ≤ o')%nat → block_set f o ⊆ block_set f o'.
Proof.
  intros Ho i. rewrite !elem_of_block_set. unfold in_block.
  pose proof (blk_mono o o' Ho). lia.
Qed.

Lemma count_minus (F B : gset Z) n :
  B ⊆ F → n = Z.of_nat (size F) → n - Z.of_nat (size B) = Z.of_nat (size (F ∖ B)).
Proof.
  intros HB ->. rewrite size_difference by done. pose proof (subseteq_size B F HB). lia.
Qed.

#[export] Instance pmm_step_refl G : Reflexive (pmm_step G).
Proof. intros s. by split. Qed.

Lemma link_words_shape p p' G a :
  same_shape p p' → link_words p' G a → link_words p G a.
Proof. intros [_ H] (g & Hg & Ha). rewrite H in Ha. exists g. auto. Qed.

#[export] Instance pmm_step_trans G : Transitive (pmm_step G).
Proof.
  intros s1 s2 s3 [Hs1 Hm1] [Hs2 Hm2]. split; [by etransitivity|].
  etransitivity; [exact Hm1|]. eapply same_outside_weaken; [exact Hm2|].
  intros a. by apply link_words_shape.
Qed.

Lemma pmm_step_weaken (G G' : Z → Prop) s s' :
  pmm_step G s s' → (∀ g, G g → G' g) → pmm_step G' s s'.
Proof.
  intros [Hs Hm] HG. split; [done|]. eapply same_outside_weaken; [exact Hm|].
  intros a (g & ? & ?). exists g. auto.
Qed.

Section facts.
Context {s : pmm_state} {L : nat → list Z} (HI : core s L).

Lemma listed_free o f : (o ≤ MAX_ORDER)%nat → f ∈ L o → block_set f o ⊆ free_set (ps_self s).
Proof.
  intros Ho Hf i. rewrite elem_of_block_set, elem_of_free_set. intros Hi.
  destruct (core_block _ _ HI o f) as (? & _ & ?); [done..|].
  rewrite (listed_mark HI o f i) by done. unfold in_block in Hi. split; [lia|].
  intros [= Hc]. by destruct (order_not_none o).
Qed.

Lemma unused_disjoint f o :
  block_ok (ps_self s) f o →
  unused (ps_self s) f o ↔ block_set f o ## free_set (ps_self s).
Proof.
  intros (H0 & _ & He). split.
  - intros Hun i Hi%elem_of_block_set [_ Hf]%elem_of_free_set. by apply Hf, Hun.
  - intros Hd i Hi. destruct (core_range _ _ HI i) as [?|(o' & Ho' & Hm)];
      [unfold in_block in Hi; lia|done|]. exfalso.
    apply (Hd i); [by apply elem_of_block_set|]. apply elem_of_free_set.
    unfold in_block in Hi. split; [lia|]. rewrite Hm. intros [= Hc].
    by destruct (order_not_none o').
Qed.

Lemma listed_first_free o f : (o ≤ MAX_ORDER)%nat → f ∈ L o → f ∈ free_set (ps_self s).
Proof.
  intros Ho Hf. apply (listed_free o f Ho Hf), elem_of_block_set, in_block_first.
Qed.

Lemma list_step_pmm_step (G : Z → Prop) s' f o v :
  (o ≤ MAX_ORDER)%nat → list_step s s' L f o v → G f →
  (∀ g, g ∈ free_set (ps_self s) → G g) → pmm_step G s s'.
Proof.
  intros Ho Hst Hf HG. split; [apply Hst|].
  eapply same_outside_weaken; [apply Hst|]. intros a (g & [->|Hg] & Ha).
  - by exists f.
  - exists g. split; [|done]. by apply HG, (listed_first_free o).
Qed.

Lemma push_free_set s' f o :
  (o ≤ MAX_ORDER)%nat → block_ok (ps_self s) f o → list_step s s' L f o (Z.of_nat o) →
  free_set (ps_self s') = free_set (ps_self s) ∪ block_set f o.
Proof.
  intros Ho (H0 & _ & He) Hst. frames_solver. rewrite !elem_of_free_set.
  destruct (ls_shape _ _ _ _ _ _ Hst) as [-> _].
  pose proof (order_not_none o Ho). split.
  - intros [Hi Hne]. rewrite (ls_order _ _ _ _ _ _ Hst) in Hne by lia.
    destruct (decide (in_block f o i)); auto.
  - intros [[Hi Hne]|Hi].
    + split; [done|]. rewrite (ls_order _ _ _ _ _ _ Hst) by lia.
      destruct (decide (in_block f o i)); congruence.
    + pose proof Hi as Hi'. unfold in_block in Hi'. split; [lia|].
      rewrite (ls_order _ _ _ _ _ _ Hst), decide_True by (done || lia). congruence.
Qed.

Lemma remove_free_set s' f o :
  list_step s s' L f o ORDER_NONE →
  free_set (ps_self s') = free_set (ps_self s) ∖ block_set f o.
Proof.
  intros Hst. frames_solver. rewrite !elem_of_free_set.
  destruct (ls_shape _ _ _ _ _ _ Hst) as [-> _]. split.
  - intros [Hi Hne]. rewrite (ls_order _ _ _ _ _ _ Hst) in Hne by lia.
    destruct (decide (in_block f o i)); [done|tauto].
  - intros [[Hi Hne] Hout]. split; [done|].
    by rewrite (ls_order _ _ _ _ _ _ Hst), decide_False by (done || lia).
Qed.
End facts.

(** The counter is not part of the structure. *)
Lemma core_set_free s L n : core s L → core (upd_self (set_free_frames n) s) L.
Proof. intros []. by constructor. Qed.

Lemma free_size_bound {s L} : core s L → Z.of_nat (size (free_set (ps_self s))) < 2 ^ 52.
Proof.
  intros HI. pose proof (core_total_bound HI). pose proof (core_len _ _ HI).
  assert (free_set (ps_self s) ⊆ range_set 0 (total_frames (ps_self s))) as Hsub%subseteq_size.
  { intros i. rewrite elem_of_free_set, elem_of_range_set. lia. }
  pose proof (size_range_set 0 (total_frames (ps_self s)) ltac:(lia)). lia.
Qed.

Lemma pmm_step_set_free G s s' n :
  pmm_step G s s' → pmm_step G s (upd_self (set_free_frames n) s').
Proof. intros [Hs Hm]. by split. Qed.

Lemma pmm_step_set_free_l G s s' n :
  pmm_step G (upd_self (set_free_frames n) s) s' → pmm_step G s s'.
Proof. intros [Hs Hm]. by split. Qed.

(** ** Halves of a block *)
Lemma block_half_l p f o : block_ok p f (S o) → block_ok p f o.
Proof.
  intros (H0 & Ha & He). pose proof (blk_S o). pose proof (blk_pos o).
  split_and!; [done| |lia]. apply (aligned_weaken _ o (S o)); [lia|done].
Qed.

Lemma block_half_r p f o : block_ok p f (S o) → block_ok p (f + blk o) o.
Proof.
  intros Hb. destruct (block_half_l _ _ _ Hb) as (H0 & Ha & _).
  destruct Hb as (_ & _ & He). pose proof (blk_S o). pose proof (blk_pos o).
  split_and!; [lia|by auto with kernel|lia].
Qed.

Lemma unused_half_r p f o : unused p f (S o) → unused p (f + blk o) o.
Proof.
  intros Hun i Hi. apply Hun. pose proof (blk_S o). pose proof (blk_pos o).
  unfold in_block in *. lia.
Qed.

Section alloc.
Context `{Profile}.

(** *** Splitting *)
Lemma split_down_spec k s L f order :
  core s L → (order + k ≤ MAX_ORDER)%nat → block_ok (ps_self s) f (order + k) →
  unused (ps_self s) f (order + k) →
  wp (split_down k f order) s (λ _ s', ∃ L', core s' L' ∧
    free_frames (ps_self s') = free_frames (ps_self s) ∧
    free_set (ps_self s') =
      free_set (ps_self s) ∪ (block_set f (order + k) ∖ block_set f order) ∧
    pmm_step (λ g, g ∈ free_set (ps_self s) ∨ in_block f (order + k) g) s s').
Proof.
  revert s L. induction k as [|k IH]; intros s L HI Ho Hblk Hun.
  { apply wp_ret. exists L. split_and!; [done..| |done].
    rewrite Nat.add_0_r. frames_solver. tauto. }
  simpl split_down. replace (order + S k)%nat with (S (order + k)) in * by lia.
  set (o := (order + k)%nat) in *. pose proof (blk_S o). pose proof (blk_pos o).
  pose proof (core_total_bound HI). pose proof (block_half_r _ _ _ Hblk) as Hblk'.
  pose proof Hblk as (Hf0 & Ha & He). rewrite order_shl by lia.
  apply wp_bind, wp_u64_add; [unfold u64_range; lia|].
  eapply wp_seq; [apply (list_push_spec HI); [lia|done|by apply unused_half_r|]|].
  { intros _. rewrite upper_buddy by done.
    apply (unused_not_listed HI (S o) o f f); [lia|done|]. apply in_block_first. }
  cbv beta. intros [] s1 [HI1 Hst]. pose proof (ls_shape _ _ _ _ _ _ Hst) as [Ht Hh].
  pose proof (push_free_set s1 _ o ltac:(lia) Hblk' Hst) as Hset1.
  eapply wp_mono; [apply (IH s1 _ HI1)|]; fold o.
  - lia.
  - unfold block_ok. rewrite Ht. by apply block_half_l.
  - intros i Hi. rewrite (ls_order _ _ _ _ _ _ Hst) by (unfold in_block in Hi; lia).
    unfold in_block in *. rewrite decide_False by lia. apply Hun. unfold in_block. lia.
  - intros [] s2 (L2 & HI2 & Hfr & Hset & Hstep). exists L2. split_and!; [done|..].
    + by rewrite Hfr, (ls_free _ _ _ _ _ _ Hst).
    + rewrite Hset, Hset1. frames_solver. pose proof (blk_mono order o ltac:(lia)).
      unfold in_block. intuition lia.
    + transitivity s1.
      * apply (list_step_pmm_step HI _ s1 (f + blk o) o (Z.of_nat o)); [lia|done| |by left].
        right. unfold in_block. lia.
      * eapply pmm_step_weaken; [exact Hstep|]. intros g.
        rewrite Hset1, elem_of_union, elem_of_block_set. unfold in_block. intuition lia.
Qed.

(** *** Allocation *)

(** What a successful allocation of [2^order] frames at [f] does. *)
Record allocated (s s' : pmm_state) (f : Z) (order : nat) : Prop := {
  al_block : block_ok (ps_self s) f order;
  al_free : block_set f order ⊆ free_set (ps_self s);
  al_set : free_set (ps_self s') = free_set (ps_self s) ∖ block_set f order;
  al_step : pmm_step (λ g, g ∈ free_set (ps_self s)) s s'
}.

(** The block found at order [current] is cut down to [order]. *)
Lemma alloc_block_spec s L f order current :
  pmm_inv s L → (order ≤ current ≤ MAX_ORDER)%nat → f ∈ L current →
  wp (do! list_remove f current;
      do! split_down (current - order) f order;
      let! p := gets ps_self in
      let! n := u64_sub (free_frames p) (u64_shl 1 (Z.of_nat order)) in
      do! modify (upd_self (set_free_frames n));
      ret (Some (u64_shl f FRAME_SHIFT))) s
    (λ r s', r = Some (f * FRAME_SIZE) ∧ pmm_ok s' ∧ allocated s s' f order).
Proof.
  intros [HI Hcnt] Ho Hf. pose proof (listed_free HI current f ltac:(lia) Hf) as Hfree.
  pose proof (core_block _ _ HI current f ltac:(lia) Hf) as Hblk.
  pose proof (core_total_bound HI). pose proof (blk_pos order). pose proof (blk_pos current).
  eapply wp_seq; [apply (list_remove_spec HI f current); [lia|done]|].
  intros [] s1 (L1 & HI1 & Hst & _). pose proof (ls_shape _ _ _ _ _ _ Hst) as [Ht Hh].
  pose proof (remove_free_set s1 f current Hst) as Hset1.
  assert (order + (current - order) = current)%nat as Hcur by lia.
  eapply wp_seq; [apply (split_down_spec _ s1 L1); rewrite ?Hcur; [done|lia|..]|].
  { unfold block_ok. by rewrite Ht. }
  { intros i Hi. rewrite (ls_order _ _ _ _ _ _ Hst), decide_True; [done..|].
    destruct Hblk as (? & _). unfold in_block in Hi. lia. }
  rewrite Hcur. cbv beta. intros [] s2 (L2 & HI2 & Hfr & Hset2 & Hstep2). wp_pure.
  pose proof (block_set_mono f order current ltac:(lia)) as Hsub.
  assert (free_set (ps_self s2) = free_set (ps_self s) ∖ block_set f order) as Hset.
  { rewrite Hset2, Hset1. by apply split_sets. }
  assert (free_frames (ps_self s) - blk order =
          Z.of_nat (size (free_set (ps_self s2)))) as Hcnt2.
  { rewrite Hset, <- (size_block_set f order). apply count_minus; [by etransitivity|done]. }
  rewrite Hfr, (ls_free _ _ _ _ _ _ Hst), order_shl by lia.
  apply wp_u64_sub; [|wp_pure].
  { pose proof (size_block_set f order). rewrite Hcnt2. unfold u64_range.
    rewrite Hcnt in Hcnt2. pose proof (free_size_bound HI). lia. }
  destruct Hblk as (Hf0 & Ha & He). pose proof (blk_mono order current ltac:(lia)).
  assert (block_ok (ps_self s) f order) as Hok.
  { split_and!; [done| |lia]. apply (aligned_weaken _ order current); [lia|done]. }
  split_and!; [f_equal; apply u64_shl_mul; unfold FRAME_SHIFT; lia|..].
  - exists L2. split; [by apply core_set_free|done].
  - split; [done|by etransitivity|done|]. apply pmm_step_set_free.
    apply (pmm_step_trans _ _ s1); [apply (list_step_pmm_step HI _ s1 f current ORDER_NONE)|];
      [lia|done|apply Hfree, elem_of_block_set, in_block_first|done|].
    eapply (pmm_step_weaken _ _ _ _ Hstep2). intros g.
    rewrite Hset1, elem_of_difference, <- elem_of_block_set. intros [[? _]|?]; auto.
Qed.

(** The scan over the orders from [MAX_ORDER + 1 - n] up. *)
Lemma alloc_scan_spec n s L order :
  pmm_inv s L → (n ≤ NUM_ORDERS - order)%nat →
  wp (alloc_scan n order) s (λ r s',
    match r with
    | None => s' = s ∧ ∀ o, (MAX_ORDER < o + n)%nat → (o ≤ MAX_ORDER)%nat → L o = []
    | Some a => ∃ f, a = f * FRAME_SIZE ∧ pmm_ok s' ∧ allocated s s' f order
    end).
Proof.
  intros HI. pose proof (inv_core _ _ HI) as HC.
  induction n as [|n IH]; intros Hn; simpl.
  { split; [done|]. intros o. lia. }
  set (current := (MAX_ORDER - n)%nat). unfold NUM_ORDERS in *.
  apply wp_bind. eapply (wp_read_head HC); [lia|].
  destruct (L current) as [|f l] eqn:HL; simpl.
  - eapply wp_mono; [apply IH; lia|]. intros [a|] s'; [done|].
    intros [-> Hnil]. split; [done|]. intros o Ho1 Ho2.
    destruct (decide (o = current)) as [->|]; [done|]. apply Hnil; lia.
  - assert (f ∈ L current) as Hf by (rewrite HL; left).
    apply wp_bind. eapply (wp_block_to_frame HC f current);
      [apply (core_block _ _ HC); [lia|done]|].
    eapply wp_mono; [apply (alloc_block_spec s L f order current); [done|lia|done]|].
    intros r s' (-> & Hok & Hal). by exists f.
Qed.

Lemma alloc_pages_spec s L order :
  pmm_inv s L → (order ≤ MAX_ORDER)%nat →
  wp (alloc_pages order) s (λ r s',
    match r with
    | None => s' = s ∧ ∀ o, (order ≤ o ≤ MAX_ORDER)%nat → L o = []
    | Some a => ∃ f, a = f * FRAME_SIZE ∧ pmm_ok s' ∧ allocated s s' f order
    end).
Proof.
  intros HI Ho. unfold alloc_pages. wp_pure.
  apply wp_assert; [by apply Nat.leb_le|].
  eapply wp_mono; [apply (alloc_scan_spec _ s L); [done|lia]|].
  intros [a|] s'; [done|]. intros [-> Hnil]. split; [done|].
  intros o Ho'. apply Hnil; unfold NUM_ORDERS; lia.
Qed.

(** *** Merging *)

(** Merging a free buddy makes the block one order larger. *)
Lemma merged_block p f o :
  let g := Z.lxor f (blk o) in
  block_ok p f o → block_ok p g o → f < 2 ^ 64 → (o < 64)%nat →
  block_ok p (Z.land f (u64_not (blk o))) (S o) ∧
  ∀ i, in_block (Z.land f (u64_not (blk o))) (S o) i ↔ in_block f o i ∨ in_block g o i.
Proof.
  intros g (Hf0 & Hfa & Hfe) (Hg0 & Hga & Hge) Hf64 Ho.
  rewrite clear_bit_min by lia. fold g. pose proof (blk_S o). pose proof (blk_pos o).
  unfold in_block, block_ok.
  destruct (buddy_halves f o Hfa) as [[Hx Ha]|[Hx Ha]]; fold g in Hx; rewrite Hx in *.
  - rewrite Z.min_l by lia. split; [split_and!; [done..|lia]|lia].
  - rewrite Z.min_r by lia. split; [split_and!; [done..|lia]|lia].
Qed.

(** The hole [(f', o')] that the merging loop hands to [list_push]. *)
Record merged (s s' : pmm_state) (L' : nat → list Z) (f : Z) (o : nat) (f' : Z) (o' : nat) : Prop := {
  mg_core : core s' L';
  mg_order : (o ≤ o' ≤ MAX_ORDER)%nat;
  mg_block : block_ok (ps_self s') f' o';
  mg_buddy : (o' < MAX_ORDER)%nat → Z.lxor f' (blk o') ∉ L' o';
  mg_contains : block_set f o ⊆ block_set f' o';
  mg_inside : block_set f' o' ⊆ free_set (ps_self s) ∪ block_set f o;
  mg_set : free_set (ps_self s') = free_set (ps_self s) ∖ block_set f' o';
  mg_free : free_frames (ps_self s') = free_frames (ps_self s);
  mg_step : pmm_step (λ g, g ∈ free_set (ps_self s)) s s'
}.

Lemma merged_refl s L f o :
  core s L → (o ≤ MAX_ORDER)%nat → block_ok (ps_self s) f o →
  block_set f o ## free_set (ps_self s) →
  ((o < MAX_ORDER)%nat → Z.lxor f (blk o) ∉ L o) → merged s s L f o f o.
Proof.
  intros HI Ho Hblk Hd Hb. split; try (done || lia).
  - apply union_subseteq_r.
  - apply set_eq. intros i. specialize (Hd i). rewrite elem_of_difference. tauto.
Qed.

Lemma merged_trans s s1 s2 L2 f o g f1 f2 o2 :
  block_set f1 (S o) = block_set f o ∪ block_set g o →
  block_set g o ⊆ free_set (ps_self s) →
  free_set (ps_self s1) = free_set (ps_self s) ∖ block_set g o →
  free_frames (ps_self s1) = free_frames (ps_self s) →
  pmm_step (λ g, g ∈ free_set (ps_self s)) s s1 →
  merged s1 s2 L2 f1 (S o) f2 o2 → merged s s2 L2 f o f2 o2.
Proof.
  intros Hf1 Hg Hs1 Hfr Hst [HC Ho Hblk Hbud Hcon Hin Hset Hfr2 Hst2].
  rewrite Hf1 in *. split; try (done || lia || congruence).
  - set_solver.
  - rewrite Hs1 in Hin. set_solver.
  - rewrite Hset, Hs1. apply set_eq. intros i. specialize (Hcon i). set_solver.
  - etransitivity; [done|]. eapply pmm_step_weaken; [done|]. cbv beta. set_solver.
Qed.

(** The test of the loop: the buddy can be merged exactly when it is listed. *)
Lemma buddy_listed s L f o :
  core s L → (o ≤ MAX_ORDER)%nat → block_ok (ps_self s) f o →
  Z.lxor f (blk o) < total_frames (ps_self s) →
  order_of (ps_self s) (Z.lxor f (blk o)) = Some (Z.of_nat o) →
  Z.lxor f (blk o) ∈ L o.
Proof.
  intros HI Ho (Hf0 & Ha & _) Hlt Hm. pose proof (buddy_nonneg f o Hf0).
  apply (mark_listed HI); [done|lia|by apply buddy_aligned|done].
Qed.

Lemma merge_up_spec fuel s L f o :
  core s L → (o ≤ MAX_ORDER)%nat → (MAX_ORDER - o ≤ fuel)%nat →
  block_ok (ps_self s) f o → block_set f o ## free_set (ps_self s) →
  wp (merge_up fuel f o) s (λ r s', ∃ L', merged s s' L' f o (fst r) (snd r)).
Proof.
  revert s L f o. induction fuel as [|fuel IH]; intros s L f o HI Ho Hfuel Hblk Hd; simpl.
  { rewrite (proj2 (Nat.ltb_ge _ _)) by lia. apply wp_ret. exists L.
    apply (merged_refl s L f o); [done..|intros; lia]. }
  destruct (Nat.ltb_spec o MAX_ORDER) as [Hlt|Hge];
    [|apply wp_ret; exists L; apply (merged_refl s L f o); [done..|intros; lia]].
  rewrite order_shl by done. set (g := Z.lxor f (blk o)). wp_pure.
  pose proof (core_total_bound HI). pose proof Hblk as (Hf0 & Ha & He).
  pose proof (blk_pos o). pose proof (buddy_nonneg f o Hf0) as Hg0. fold g in Hg0.
  eapply (wp_mono _ _ (λ b s', s' = s ∧ if (b : bool) then g ∉ L o else g ∈ L o)).
  { destruct (Z.leb_spec (total_frames (ps_self s)) g) as [Hout|Hin].
    - split; [done|]. intros (_ & _ & Hg)%(core_block _ _ HI o); [lia|done].
    - wp_pure. apply (wp_read_order HI); [lia|]. intros v Hv. apply wp_ret. split; [done|].
      rewrite order_mod by done. destruct (Z.eqb_spec v (Z.of_nat o)) as [->|Hne]; simpl.
      + by apply (buddy_listed s L).
      + intros Hg. rewrite (listed_mark HI o g g) in Hv by auto using in_block_first.
        congruence. }
  cbv beta. intros [] s' [-> Hg].
  { apply wp_ret. exists L. by apply merged_refl. }
  pose proof (core_block _ _ HI o g Ho Hg) as Hblkg.
  destruct (merged_block (ps_self s) f o) as [Hblk1 Hunion]; [done..|lia|
    unfold MAX_ORDER in Ho; lia|].
  eapply wp_seq; [by apply (list_remove_spec HI)|].
  intros [] s1 (L1 & HI1 & Hst & _). pose proof (ls_shape _ _ _ _ _ _ Hst) as [Ht _].
  pose proof (remove_free_set s1 g o Hst) as Hset1.
  pose proof (listed_free HI o g Ho Hg) as Hgfree.
  assert (block_set (Z.land f (u64_not (blk o))) (S o) = block_set f o ∪ block_set g o)
    as Hunion'.
  { frames_solver. apply Hunion. }
  eapply wp_mono; [apply (IH s1 L1); [done|lia|lia|unfold block_ok; by rewrite Ht|]|].
  { rewrite Hunion', Hset1. set_solver. }
  intros r s2 [L2 Hmg]. exists L2. eapply merged_trans; try done; [apply Hst|].
  apply (list_step_pmm_step HI _ s1 g o ORDER_NONE); [done..| |done].
  by apply (listed_first_free HI o).
Qed.

(** *** Release *)
Record released (s s' : pmm_state) (B : gset Z) : Prop := {
  rl_ok : pmm_ok s';
  rl_set : free_set (ps_self s') = free_set (ps_self s) ∪ B;
  rl_step : pmm_step (λ g, g ∈ free_set (ps_self s')) s s'
}.

Lemma frame_index_spec {St : Type} (s : St) f :
  0 ≤ f → wp (frame_index (f * FRAME_SIZE)) s (λ g s', s' = s ∧ g = f).
Proof.
  intros. unfold frame_index, FRAME_SIZE, FRAME_SHIFT. wp_pure. apply wp_assert.
  - unfold is_multiple_of. rewrite Z.mod_mul by done. done.
  - apply wp_ret. split; [done|]. rewrite u64_shr_div by lia. by apply Z.div_mul.
Qed.

(** Merging, then linking the merged block. *)
Lemma merge_push_spec s L f order :
  core s L → (order ≤ MAX_ORDER)%nat → block_ok (ps_self s) f order →
  block_set f order ## free_set (ps_self s) →
  wp (let! r := merge_up (MAX_ORDER - order) f order in list_push (fst r) (snd r)) s
    (λ _ s', ∃ L', core s' L' ∧
       free_set (ps_self s') = free_set (ps_self s) ∪ block_set f order ∧
       free_frames (ps_self s') = free_frames (ps_self s) ∧
       pmm_step (λ g, g ∈ free_set (ps_self s')) s s').
Proof.
  intros HI Ho Hblk Hd. eapply wp_seq; [by apply (merge_up_spec _ s L)|].
  intros [f' o'] s2 (L2 & [HI2 Ho2 Hb2 Hbud Hcon Hin Hset Hfr Hst]). simpl in *.
  eapply wp_mono; [apply (list_push_spec HI2 f' o'); [lia|done| |done]|].
  { apply (unused_disjoint HI2); [done|]. rewrite Hset. set_solver. }
  cbv beta. intros [] s3 [HI3 Hst3].
  pose proof (push_free_set s3 f' o' ltac:(lia) Hb2 Hst3) as Hset3.
  eexists. split_and!; [exact HI3|..].
  - rewrite Hset3, Hset. apply set_eq. intros i.
    specialize (Hcon i). specialize (Hin i). specialize (Hd i).
    rewrite !elem_of_union, elem_of_difference in *.
    destruct (decide (i ∈ block_set f' o')); tauto.
  - by rewrite (ls_free _ _ _ _ _ _ Hst3).
  - transitivity s2.
    + eapply (pmm_step_weaken _ _ _ _ Hst). intros g Hg.
      rewrite Hset3, Hset, elem_of_union, elem_of_difference.
      destruct (decide (g ∈ block_set f' o')); tauto.
    + rewrite Hset3. apply (list_step_pmm_step HI2 _ s3 f' o' (Z.of_nat o')); [lia|done|..].
      * apply elem_of_union_r, elem_of_block_set, in_block_first.
      * intros g Hg. by apply elem_of_union_l.
Qed.

(** The assertions of [free_pages] hold for an aligned, unused block. *)
Lemma free_pages_spec s L f order :
  pmm_inv s L → (order ≤ MAX_ORDER)%nat → block_ok (ps_self s) f order →
  block_set f order ## free_set (ps_self s) →
  wp (free_pages (f * FRAME_SIZE) order) s (λ _ s', released s s' (block_set f order)).
Proof.
  intros [HI Hcnt] Ho Hblk Hd. pose proof Hblk as (Hf0 & Ha & He).
  pose proof (core_total_bound HI). pose proof (blk_pos order).
  pose proof (proj2 (unused_disjoint HI f order Hblk) Hd) as Hun.
  unfold free_pages. rewrite order_shl by done. wp_pure.
  apply wp_assert; [by apply Nat.leb_le|]. wp_pure.
  eapply wp_mono; [by apply frame_index_spec|]. intros ? ? [-> ->]. wp_pure.
  apply wp_u64_add; [unfold u64_range; lia|]. wp_pure. apply wp_assert; [lia|]. wp_pure.
  apply wp_assert; [unfold is_multiple_of; lia|]. wp_pure.
  apply (wp_read_order HI); [lia|]. intros v Hv. wp_pure.
  rewrite (Hun f (in_block_first _ _)) in Hv. injection Hv as <-.
  apply wp_assert; [done|]. wp_pure.
  eapply wp_mono; [apply assert_block_unused_spec; [done..|lia|done]|].
  intros [] ? ->. wp_pure. pose proof (free_size_bound HI) as Hsz.
  apply wp_u64_add; [unfold u64_range; lia|]. wp_pure1. apply wp_modify.
  eapply wp_mono; [by apply (merge_push_spec _ L f order), Hd; [apply core_set_free|..]|].
  intros [] s' (L' & HI' & Hset & Hfr & Hst). split; [|done|by apply pmm_step_set_free_l in Hst].
  change (free_set (ps_self (upd_self _ s))) with (free_set (ps_self s)) in Hset.
  exists L'. split; [done|]. rewrite Hfr, Hset. cbn. rewrite Hcnt.
  rewrite size_union by (by symmetry). pose proof (size_block_set f order). lia.
Qed.

(** *** Ranges *)
Lemma released_trans s s1 s2 B1 B2 :
  released s s1 B1 → released s1 s2 B2 → released s s2 (B1 ∪ B2).
Proof.
  intros [_ Hs1 Hst1] [Hok Hs2 Hst2]. split; [done|by rewrite Hs2, Hs1, (assoc_L (∪))|].
  transitivity s1; [|done]. eapply pmm_step_weaken; [done|]. intros g Hg.
  rewrite Hs2. by apply elem_of_union_l.
Qed.

Lemma range_order_ok start count :
  0 ≤ start → 0 < count →
  (range_order start count ≤ MAX_ORDER)%nat ∧
  start mod blk (range_order start count) = 0 ∧ blk (range_order start count) ≤ count.
Proof.
  intros Hs Hc. set (o := range_order start count).
  pose proof (leading_zeros_log2 count Hc) as Hlz. pose proof (Z.log2_nonneg count).
  assert (Z.of_nat o ≤ Z.log2 count ∧
    (start ≠ 0 → Z.of_nat o ≤ trailing_zeros start) ∧ (o ≤ MAX_ORDER)%nat) as (H1 & H2 & H3).
  { unfold o, range_order. rewrite Hlz. pose proof (trailing_zeros_nonneg start).
    unfold MAX_ORDER. destruct (Z.eqb_spec start 0); lia. }
  split_and!; [done| |].
  - destruct (decide (start = 0)) as [->|]; [apply aligned_0|].
    apply trailing_zeros_aligned; [lia|auto].
  - pose proof (Z.log2_spec count Hc). unfold blk.
    apply Z.le_trans with (2 ^ Z.log2 count); [|lia]. apply Z.pow_le_mono_r; lia.
Qed.

Lemma range_set_split start count n :
  0 ≤ n ≤ count → range_set start count = range_set start n ∪ range_set (start + n) (count - n).
Proof. intros. frames_solver. lia. Qed.

Lemma add_range_loop_spec fuel s start count :
  pmm_ok s → (Z.to_nat count ≤ fuel)%nat → 0 ≤ start → 0 ≤ count →
  start + count ≤ total_frames (ps_self s) →
  range_set start count ## free_set (ps_self s) →
  wp (add_range_loop fuel start count) s (λ _ s', released s s' (range_set start count)).
Proof.
  revert s start count. induction fuel as [|fuel IH];
    intros s start count [L HI] Hfuel Hs Hc Hend Hd; simpl.
  { assert (count = 0) as -> by lia. simpl. split; [by exists L| |done].
    frames_solver. intuition lia. }
  destruct (Z.ltb_spec 0 count) as [Hpos|Hz]; cycle 1.
  { assert (count = 0) as -> by lia. split; [by exists L| |done].
    frames_solver. intuition lia. }
  destruct (range_order_ok start count Hs Hpos) as (Ho & Ha & Hle).
  set (o := range_order start count) in *. pose proof (blk_pos o).
  pose proof (core_total_bound (inv_core _ _ HI)).
  rewrite order_shl by done. rewrite u64_shl_mul by (unfold FRAME_SHIFT; lia).
  rewrite (range_set_split start count (blk o)) in Hd |- * by lia.
  eapply wp_seq; [apply (free_pages_spec s L start o HI Ho); [split_and!; lia|set_solver]|].
  cbv beta. intros [] s1 Hr1. pose proof Hr1 as [Hok1 Hset1 [[Ht _] _]].
  apply wp_bind, wp_u64_add; [unfold u64_range; lia|].
  apply wp_bind, wp_u64_sub; [unfold u64_range; lia|].
  eapply wp_mono; [apply (IH s1); [done|lia|lia|lia|lia|]|].
  - rewrite Hset1. intros i. rewrite elem_of_union, elem_of_range_set, elem_of_block_set.
    unfold in_block. intros Hi [Hf|]; [|lia]. apply (Hd i); [|done].
    apply elem_of_union_r, elem_of_range_set. lia.
  - intros [] s2 Hr2. by apply (released_trans _ s1).
Qed.

(** *** Panics *)
Lemma assert_block_unused_panics s f o i :
  (o ≤ MAX_ORDER)%nat → 0 ≤ f → f + blk o ≤ 2 ^ 64 →
  f + blk o ≤ Z.of_nat (length (frame_order (ps_self s))) →
  in_block f o i → order_of (ps_self s) i ≠ Some ORDER_NONE →
  panics (assert_block_unused f o) s.
Proof.
  intros Ho Hf Hb Hlen Hi Hne. unfold assert_block_unused. rewrite order_shl by done.
  pose proof (blk_pos o).
  set (body := λ i, let! j := u64_add f i in let! v := read_order j in assert_ _ _).
  assert (∀ k, 0 ≤ k < blk o →
    body k s = (if decide (order_of (ps_self s) (f + k) = Some ORDER_NONE)
                then Ok (tt, s) else Panic "free overlaps an existing free block")) as Hbody.
  { intros k Hk. unfold body, u64_add, u64_arith. rewrite in_u64_true by (unfold u64_range; lia).
    unfold bind, ret, read_order, gets, bind, index, order_of. simpl.
    destruct (lookup_lt_is_Some_2 (frame_order (ps_self s)) (Z.to_nat (f + k))) as [v Hv]; [lia|].
    rewrite Hv. unfold unwrap, assert_, ret, panic.
    destruct (Z.eqb_spec v ORDER_NONE) as [->|], (decide _); congruence. }
  apply (for_range_panics _ _ _ _ (i - f)); unfold in_block in Hi.
  - intros k Hk. rewrite Hbody by lia. destruct (decide _); [by left|right].
    eexists. by rewrite Hbody, decide_False by (done || lia).
  - lia.
  - eexists. rewrite Hbody, decide_False by (lia || by replace (f + (i - f)) with i by lia). done.
Qed.

(** The calls of [free_pages] that are in order. *)
Definition free_valid (s : pmm_state) (addr : Z) (order : nat) : Prop :=
  (order ≤ MAX_ORDER)%nat ∧ addr mod FRAME_SIZE = 0 ∧
  block_ok (ps_self s) (addr / FRAME_SIZE) order ∧
  block_set (addr / FRAME_SIZE) order ## free_set (ps_self s).

#[export] Instance free_valid_dec s addr order : Decision (free_valid s addr order).
Proof. unfold free_valid, block_ok. apply _. Defined.

Lemma free_pages_panics s addr order :
  pmm_ok s → u64_range addr → ¬ free_valid s addr order → panics (free_pages addr order) s.
Proof.
  intros [L [HI _]] Haddr Hbad. unfold free_pages, free_valid in *.
  pose proof (core_total_bound HI). pose proof (blk_pos order).
  apply panics_check. intros Ho%Nat.leb_le. rewrite order_shl by done.
  destruct (decide (addr mod FRAME_SIZE = 0)) as [Hm|Hm]; cycle 1.
  { apply panics_bind_l, panics_check. unfold is_multiple_of. intros. lia. }
  unfold u64_range in Haddr.
  assert (∃ f, addr = f * FRAME_SIZE ∧ addr / FRAME_SIZE = f) as (f & -> & Hf).
  { exists (addr / FRAME_SIZE). pose proof (Z.div_mod addr FRAME_SIZE ltac:(done)). lia. }
  rewrite Hf in Hbad. assert (0 ≤ f) as Hf0 by (rewrite FRAME_SIZE_val in *; lia).
  eapply panics_bind_r; [by apply frame_index_spec|]. intros ? ? [-> ->].
  apply panics_gets. rewrite FRAME_SIZE_val in Haddr.
  pose proof (blk_mono order MAX_ORDER Ho). assert (blk MAX_ORDER = 2048) as Hmax by done.
  eapply (panics_bind_r _ _ _ (λ e s', e = f + blk order ∧ s' = s));
    [apply wp_u64_add; [unfold u64_range; lia|done]|]. intros ? ? [-> ->].
  apply panics_check. intros He%Z.leb_le.
  apply panics_check. unfold is_multiple_of. intros Ha%Z.eqb_eq.
  assert (block_ok (ps_self s) f order) as Hblk by done.
  eapply (panics_bind_r _ _ _ (λ v s', s' = s)); [by apply (wp_read_order HI); [lia|]|].
  intros v ? ->. apply panics_check. intros _. apply panics_bind_l.
  assert (¬ unused (ps_self s) f order) as Hused.
  { rewrite (unused_disjoint HI) by done. tauto. }
  destruct (decide (Exists (λ i, order_of (ps_self s) i ≠ Some ORDER_NONE)
    (seqZ f (blk order)))) as [(i & Hi & Hne)%Exists_exists|Hno].
  - apply elem_of_seqZ in Hi. pose proof (core_len _ _ HI).
    apply (assert_block_unused_panics s f order i); [done|done|lia|lia|done|done].
  - exfalso. apply Hused. intros i Hi. apply dec_stable. intros Hne. apply Hno.
    apply Exists_exists. exists i. split; [by apply elem_of_seqZ|done].
Qed.
End alloc.
