(* ===== verification/PmmSpec.v ===== *)
(** * PmmSpec: what the physical memory manager promises

    The abstract allocator is a set of free frames with two operations; the code
    of [src/kernel/src/mm/pmm.rs] refines it, returns whenever the abstract
    operation is enabled and panics otherwise.  On top of the refinement: any
    sequence of allocations and releases of live blocks keeps the blocks
    disjoint, never panics, leaks nothing and never writes to a live block. *)

From S2P Require Import Prelude Bits Mem Pmm Dll PmmInv PmmList PmmOps.

(** ** The abstract allocator *)
Record abs_pmm := mkAbs {
  ab_total : Z;
  ab_free : gset Z
}.

Inductive pmm_op :=
| OpAlloc (order : nat)
| OpFree (addr : Z) (order : nat).

(** [alloc_pages] returns [Some addr] or [None]; [free_pages] returns unit. *)
Definition pmm_ret : Type := option Z.

(** A run of [2^order] free frames, aligned to its size. *)
Definition free_run (F : gset Z) (f : Z) (order : nat) : Prop :=
  0 ≤ f ∧ f mod blk order = 0 ∧ block_set f order ⊆ F.

Inductive abs_step : abs_pmm → pmm_op → pmm_ret → abs_pmm → Prop :=
| abs_alloc_some t F f order :
    free_run F f order →
    abs_step (mkAbs t F) (OpAlloc order) (Some (f * FRAME_SIZE))
             (mkAbs t (F ∖ block_set f order))
| abs_alloc_none t F order :
    (∀ f, ¬ free_run F f order) →
    abs_step (mkAbs t F) (OpAlloc order) None (mkAbs t F)
| abs_free_block t F f order :
    0 ≤ f → f mod blk order = 0 → f + blk order ≤ t → block_set f order ## F →
    abs_step (mkAbs t F) (OpFree (f * FRAME_SIZE) order) None
             (mkAbs t (F ∪ block_set f order)).

Definition abs_of (s : pmm_state) : abs_pmm :=
  mkAbs (total_frames (ps_self s)) (free_set (ps_self s)).

Definition op_enabled (s : pmm_state) (op : pmm_op) : Prop :=
  match op with
  | OpAlloc order => (order ≤ MAX_ORDER)%nat
  | OpFree addr order => free_valid s addr order
  end.

Definition op_args (op : pmm_op) : Prop :=
  match op with OpAlloc _ => True | OpFree addr _ => u64_range addr end.

Definition run_op `{Profile} (op : pmm_op) : M pmm_state pmm_ret :=
  match op with
  | OpAlloc order => alloc_pages order
  | OpFree addr order => do! free_pages addr order; ret None
  end.

(** ** A client that releases only what it holds *)
Record client := mkClient {
  cl_pmm : pmm_state;
  cl_live : list (Z * nat)
}.

Inductive client_step `{Profile} : client → client → Prop :=
| cs_alloc s s' live order f :
    (order ≤ MAX_ORDER)%nat → alloc_pages order s = Ok (Some (f * FRAME_SIZE), s') →
    client_step (mkClient s live) (mkClient s' ((f, order) :: live))
| cs_alloc_fail s s' live order :
    (order ≤ MAX_ORDER)%nat → alloc_pages order s = Ok (None, s') →
    client_step (mkClient s live) (mkClient s' live)
| cs_free s s' live1 live2 order f :
    free_pages (f * FRAME_SIZE) order s = Ok (tt, s') →
    client_step (mkClient s (live1 ++ (f, order) :: live2)) (mkClient s' (live1 ++ live2)).

Definition live_set (live : list (Z * nat)) : gset Z :=
  ⋃ ((λ b, block_set (fst b) (snd b)) <$> live).

(** Live blocks are well placed, pairwise disjoint and disjoint from the free
    frames; together they make up the pool [P]. *)
Record client_inv (P : gset Z) (c : client) : Prop := {
  ci_ok : pmm_ok (cl_pmm c);
  ci_block f o : (f, o) ∈ cl_live c →
    (o ≤ MAX_ORDER)%nat ∧ block_ok (ps_self (cl_pmm c)) f o;
  ci_disj f1 o1 f2 o2 i j : i ≠ j →
    cl_live c !! i = Some (f1, o1) → cl_live c !! j = Some (f2, o2) →
    block_set f1 o1 ## block_set f2 o2;
  ci_free : live_set (cl_live c) ## free_set (ps_self (cl_pmm c));
  ci_pool : free_set (ps_self (cl_pmm c)) ∪ live_set (cl_live c) = P
}.

(** The words of the frames of a block. *)
Definition block_word (p : Pmm) (f : Z) (o : nat) (a : Z) : Prop :=
  fb_addr (hhdm_offset p) f ≤ a < fb_addr (hhdm_offset p) (f + blk o).

(** ** Completeness of the scan: buddies are always merged *)
Section complete.
Context {s : pmm_state} {L : nat → list Z} (HI : core s L).

(** An aligned run of free frames lies inside one free block. *)
Lemma run_order k f :
  (k ≤ MAX_ORDER)%nat → free_run (free_set (ps_self s)) f k →
  ∃ o, (k ≤ o ≤ MAX_ORDER)%nat ∧ order_of (ps_self s) f = Some (Z.of_nat o).
Proof.
  revert f. induction k as [|k IH]; intros f Hk (Hf0 & Ha & Hsub).
  { assert (f ∈ free_set (ps_self s)) as [Hf Hne]%elem_of_free_set
      by (apply Hsub, elem_of_block_set, in_block_first).
    destruct (core_range _ _ HI f Hf) as [?|(o & Ho & Hm)]; [done|].
    exists o. split; [lia|done]. }
  pose proof (blk_S k). pose proof (blk_pos k).
  destruct (IH f) as (o1 & Ho1 & Hm1); [lia| |].
  { split_and!; [done|apply (aligned_weaken _ k (S k)); [lia|done]|].
    etransitivity; [apply (block_set_mono f k (S k)); lia|done]. }
  destruct (decide (S k ≤ o1)%nat) as [|Hlt]; [exists o1; split; [lia|done]|].
  assert (o1 = k) as -> by lia.
  destruct (IH (f + blk k)) as (o2 & Ho2 & Hm2); [lia| |].
  { split_and!; [lia| |].
    - apply aligned_add; [|by apply blk_aligned]. apply (aligned_weaken _ k (S k)); [lia|done].
    - intros i Hi%elem_of_block_set. apply Hsub, elem_of_block_set. unfold in_block in *. lia. }
  assert (∀ i, in_block f (S k) i → 0 ≤ i < total_frames (ps_self s)) as Hbound.
  { intros i Hi. apply (elem_of_free_set (ps_self s) i), Hsub, elem_of_block_set, Hi. }
  assert (f ∈ L k) as HfL.
  { apply (mark_listed HI); [lia|apply Hbound, in_block_first| |done].
    apply (aligned_weaken _ k (S k)); [lia|done]. }
  destruct (decide (o2 = k)) as [->|Hne].
  - exfalso. apply (core_merged _ _ HI k f); [lia|done|]. rewrite lower_buddy by done.
    apply (mark_listed HI); [lia|apply Hbound; unfold in_block; lia| |done].
    apply aligned_add; [|by apply blk_aligned]. apply (aligned_weaken _ k (S k)); [lia|done].
  - exfalso. apply (core_mark _ _ HI) in Hm2; [|lia|apply Hbound; unfold in_block; lia].
    set (g := block_of o2 (f + blk k)) in *.
    assert (g ≤ f ∧ f + blk (S k) ≤ g + blk o2) as [? ?].
    { apply (block_nested (S k) o2 f g (f + blk k)); [lia|done|apply block_of_aligned|lia|].
      apply block_of_bounds. }
    rewrite (listed_mark HI o2 g f) in Hm1; [injection Hm1; lia|lia|done|].
    unfold in_block. lia.
Qed.

Lemma run_listed k f :
  (k ≤ MAX_ORDER)%nat → free_run (free_set (ps_self s)) f k →
  ∃ o, (k ≤ o ≤ MAX_ORDER)%nat ∧ L o ≠ [].
Proof.
  intros Hk Hrun. destruct (run_order k f Hk Hrun) as (o & Ho & Hm). exists o.
  split; [done|]. destruct Hrun as (_ & _ & Hsub).
  assert (f ∈ free_set (ps_self s)) as [Hf _]%elem_of_free_set
    by (apply Hsub, elem_of_block_set, in_block_first).
  apply (core_mark _ _ HI) in Hm; [|lia|done]. intros Hnil. rewrite Hnil in Hm.
  by apply not_elem_of_nil in Hm.
Qed.
End complete.

Lemma alloc_pages_run `{Profile} s order :
  pmm_ok s → (order ≤ MAX_ORDER)%nat →
  wp (alloc_pages order) s (λ r s', pmm_ok s' ∧
    match r with
    | None => s' = s ∧ ∀ f, ¬ free_run (free_set (ps_self s)) f order
    | Some a => ∃ f, a = f * FRAME_SIZE ∧ allocated s s' f order
    end).
Proof.
  intros [L HI] Ho. eapply wp_mono; [by apply (alloc_pages_spec s L)|].
  intros [a|] s'.
  - intros (f & -> & Hok & Hal). eauto.
  - intros [-> Hnil]. split; [by exists L|]. split; [done|]. intros f Hrun.
    destruct (run_listed (inv_core _ _ HI) order f Ho Hrun) as (o & Ho' & Hne).
    by apply Hne, Hnil.
Qed.

Lemma free_pages_run `{Profile} s addr order :
  pmm_ok s → free_valid s addr order →
  wp (free_pages addr order) s (λ _ s', released s s' (block_set (addr / FRAME_SIZE) order)).
Proof.
  intros [L HI] (Ho & Hm & Hblk & Hd).
  replace addr with (addr / FRAME_SIZE * FRAME_SIZE) at 1
    by (pose proof (Z.div_mod addr FRAME_SIZE ltac:(done)); lia).
  by apply (free_pages_spec s L).
Qed.

(** ** Refinement *)
Section theorems.
Context `{Profile}.

Lemma alloc_inv s order r s' :
  pmm_ok s → (order ≤ MAX_ORDER)%nat → alloc_pages order s = Ok (r, s') →
  pmm_ok s' ∧ match r with
    | None => s' = s ∧ ∀ f, ¬ free_run (free_set (ps_self s)) f order
    | Some a => ∃ f, a = f * FRAME_SIZE ∧ allocated s s' f order end.
Proof.
  intros Hok Ho Heq. pose proof (alloc_pages_run s order Hok Ho) as Hwp.
  unfold wp in Hwp. by rewrite Heq in Hwp.
Qed.

Lemma free_inv s f order s' :
  pmm_ok s → (order ≤ MAX_ORDER)%nat → block_ok (ps_self s) f order →
  block_set f order ## free_set (ps_self s) →
  free_pages (f * FRAME_SIZE) order s = Ok (tt, s') → released s s' (block_set f order).
Proof.
  intros [L HI] Ho Hblk Hd Heq. pose proof (free_pages_spec s L f order HI Ho Hblk Hd) as Hwp.
  unfold wp in Hwp. by rewrite Heq in Hwp.
Qed.

Lemma alloc_order_panics s order : (MAX_ORDER < order)%nat → panics (alloc_pages order) s.
Proof. intros. apply panics_bind_l, panics_assert. by apply Nat.leb_gt. Qed.

Lemma ok_not_panics {A} (c : M pmm_state A) s a s' : c s = Ok (a, s') → ¬ panics c s.
Proof. intros Heq [msg Hmsg]. congruence. Qed.

(** C3: refinement.  Whenever [alloc_pages] or [free_pages] returns, from a state
    that satisfies the allocator's invariant, the new state satisfies it too and
    the call is a step of the abstract allocator: an allocation takes an aligned
    run of free frames out of the free set, it fails only when the free set has
    no such run of the requested order, and a release puts the frames back. *)
Theorem pmm_refines s op r s' :
  pmm_ok s → op_args op → run_op op s = Ok (r, s') →
  pmm_ok s' ∧ abs_step (abs_of s) op r (abs_of s').
Proof.
  intros Hok Hargs Heq. destruct op as [order|addr order]; simpl in *.
  - destruct (decide (order ≤ MAX_ORDER)%nat) as [Ho|Ho]; cycle 1.
    { exfalso. eapply ok_not_panics; [exact Heq|]. apply alloc_order_panics. lia. }
    destruct (alloc_inv s order r s' Hok Ho Heq) as [Hok' Hr]. split; [done|].
    destruct r as [a|].
    + destruct Hr as (f & -> & [Hblk Hsub Hset [[Ht _] _]]).
      unfold abs_of. rewrite Hset, Ht. constructor. split_and!; [apply Hblk..|done].
    + destruct Hr as [-> Hno]. by constructor.
  - unfold bind in Heq. destruct (free_pages addr order s) as [[[] s1]|?|] eqn:Hfp; [|done..].
    injection Heq as <- <-.
    destruct (decide (free_valid s addr order)) as [Hv|Hv]; cycle 1.
    { exfalso. eapply ok_not_panics; [exact Hfp|]. by apply free_pages_panics. }
    pose proof (free_pages_run s addr order Hok Hv) as Hwp. unfold wp in Hwp.
    rewrite Hfp in Hwp. destruct Hwp as [Hok' Hset [[Ht _] _]]. split; [done|].
    destruct Hv as (Ho & Hm & (Hf0 & Ha & He) & Hd). unfold abs_of. rewrite Hset, Ht.
    replace addr with (addr / FRAME_SIZE * FRAME_SIZE) at 1
      by (pose proof (Z.div_mod addr FRAME_SIZE ltac:(done)); lia).
    by constructor.
Qed.

(** C17: exact error behaviour.  From a state that satisfies the invariant, each
    call returns when it is in order (an order up to [MAX_ORDER]; for a release,
    an aligned block inside the machine none of whose frames is free) and panics
    otherwise: double frees, overlapping, misaligned and out-of-range releases
    are all caught, and nothing else is. *)
Theorem pmm_op_total s op :
  pmm_ok s → op_args op →
  (op_enabled s op → ∃ r s', run_op op s = Ok (r, s')) ∧
  (¬ op_enabled s op → panics (run_op op) s).
Proof.
  intros Hok Hargs. destruct op as [order|addr order]; simpl in *; split.
  - intros Ho. destruct (proj1 (wp_ok _ _ _) (alloc_pages_run s order Hok Ho))
      as (r & s' & Heq & _). eauto.
  - intros Ho. apply alloc_order_panics. lia.
  - intros Hv. destruct (proj1 (wp_ok _ _ _) (free_pages_run s addr order Hok Hv))
      as ([] & s' & Heq & _). unfold bind. rewrite Heq. by do 2 eexists.
  - intros Hv. by apply panics_bind_l, free_pages_panics.
Qed.

(** ** Clients *)
Lemma live_set_elem live i :
  i ∈ live_set live ↔ ∃ b, b ∈ live ∧ i ∈ block_set (fst b) (snd b).
Proof.
  unfold live_set. rewrite elem_of_union_list. split.
  - intros (X & (b & -> & Hb)%list_elem_of_fmap & Hi). eauto.
  - intros (b & Hb & Hi). exists (block_set (fst b) (snd b)). split; [|done].
    apply list_elem_of_fmap. by exists b.
Qed.

Lemma live_set_cons b live : live_set (b :: live) = block_set (fst b) (snd b) ∪ live_set live.
Proof. done. Qed.

Lemma live_set_middle live1 b live2 :
  live_set (live1 ++ b :: live2) = live_set (live1 ++ live2) ∪ block_set (fst b) (snd b).
Proof.
  apply set_eq. intros i. rewrite elem_of_union, !live_set_elem.
  setoid_rewrite elem_of_app. setoid_rewrite elem_of_cons. naive_solver.
Qed.

Lemma block_ok_shape p p' f o : same_shape p p' → block_ok p f o → block_ok p' f o.
Proof. intros [Ht _]. unfold block_ok. by rewrite Ht. Qed.

Lemma client_alloc P s s' live order f :
  client_inv P (mkClient s live) → (order ≤ MAX_ORDER)%nat →
  allocated s s' f order → pmm_ok s' →
  client_inv P (mkClient s' ((f, order) :: live)).
Proof.
  intros [_ Hbl Hdj Hfr Hpool] Ho [Hblk Hsub Hset [Hsh _]] Hok'. simpl in *.
  assert (block_set f order ## live_set live) as Hfl by set_solver.
  split; simpl; [done|..].
  - intros g o [[= -> ->]|Hg]%elem_of_cons; [split; [done|by eapply block_ok_shape]|].
    destruct (Hbl g o Hg). split; [done|by eapply block_ok_shape].
  - assert (∀ k g o, live !! k = Some (g, o) → block_set f order ## block_set g o) as Hone.
    { intros k g o Hk i Hi Hi'. apply (Hfl i Hi), live_set_elem. exists (g, o).
      split; [by eapply list_elem_of_lookup_2|done]. }
    intros f1 o1 f2 o2 [|i] [|j] Hne H1 H2; simpl in *; [done|..].
    + injection H1 as <- <-. eauto.
    + injection H2 as <- <-. symmetry. eauto.
    + by apply (Hdj f1 o1 f2 o2 i j); [congruence|..].
  - rewrite Hset, live_set_cons. simpl. set_solver.
  - rewrite <- Hpool, Hset, live_set_cons. simpl. apply set_eq. intros i.
    specialize (Hsub i). destruct (decide (i ∈ block_set f order)); set_solver.
Qed.

Lemma client_free P s s' live1 live2 order f :
  client_inv P (mkClient s (live1 ++ (f, order) :: live2)) →
  released s s' (block_set f order) → client_inv P (mkClient s' (live1 ++ live2)).
Proof.
  intros [_ Hbl Hdj Hfr Hpool] [Hok' Hset [Hsh _]]. simpl in *.
  rewrite live_set_middle in *. simpl in *.
  assert (live_set (live1 ++ live2) ## block_set f order) as Hd.
  { intros i ([g o] & Hb & Hi)%live_set_elem Hi'. simpl in Hi.
    apply list_elem_of_lookup in Hb as [k Hk].
    destruct (decide (k < length live1)%nat) as [Hlt|Hge].
    - rewrite lookup_app_l in Hk by done.
      apply (Hdj g o f order k (length live1)) with i; [lia| |by rewrite list_lookup_middle|done..].
      by rewrite lookup_app_l.
    - rewrite lookup_app_r in Hk by lia.
      apply (Hdj g o f order (S k) (length live1)) with i; [lia| |by rewrite list_lookup_middle|done..].
      rewrite lookup_app_r by lia. by replace (S k - length live1)%nat with (S (k - length live1)) by lia. }
  split; simpl; [done|..].
  - intros g o Hg. destruct (Hbl g o) as [? ?]; [set_solver|].
    split; [done|by eapply block_ok_shape].
  - assert (∀ k b, (live1 ++ live2) !! k = Some b → (live1 ++ (f, order) :: live2) !!
      (if decide (k < length live1)%nat then k else S k) = Some b) as Hshift.
    { intros k b Hk. destruct (decide (k < length live1)%nat).
      - rewrite lookup_app_l in Hk |- * by done. done.
      - rewrite lookup_app_r in Hk |- * by lia.
        by replace (S k - length live1)%nat with (S (k - length live1)) by lia. }
    intros f1 o1 f2 o2 i j Hne H1%Hshift H2%Hshift. eapply Hdj; [|exact H1|exact H2].
    repeat destruct (decide _); lia.
  - rewrite Hset. set_solver.
  - rewrite <- Hpool, Hset. set_solver.
Qed.

Lemma client_start s : pmm_ok s → client_inv (free_set (ps_self s)) (mkClient s []).
Proof. split; simpl; [done|..]; unfold live_set; simpl; intros; set_solver. Qed.

Lemma client_step_inv P c c' : client_inv P c → client_step c c' → client_inv P c'.
Proof.
  intros Hinv Hstep. pose proof (ci_ok _ _ Hinv) as Hok. destruct Hstep; simpl in *.
  - destruct (alloc_inv s order _ s' Hok ltac:(done) ltac:(done)) as [Hok' (g & Hg & Hal)].
    rewrite FRAME_SIZE_val in Hg. assert (g = f) as -> by lia. by apply (client_alloc P s).
  - destruct (alloc_inv s order _ s' Hok ltac:(done) ltac:(done)) as [_ [-> _]]. done.
  - destruct (ci_block _ _ Hinv f order) as [Ho Hblk]; [simpl; set_solver|]. simpl in *.
    apply (client_free P s _ _ _ order f); [done|]. apply free_inv; [done..| |done].
    pose proof (ci_free _ _ Hinv) as Hfr. simpl in Hfr. rewrite live_set_middle in Hfr.
    set_solver.
Qed.

(** C14: safety of clients.  Start from any allocator state in order and let a
    client allocate and release blocks it holds, in any order and any number of
    times.  The blocks it holds never overlap each other or the free frames, the
    frames it holds and the free ones always add up to the frames it started
    from, and the release of any block it holds returns. *)
Theorem client_safe s0 c :
  pmm_ok s0 → rtc client_step (mkClient s0 []) c →
  client_inv (free_set (ps_self s0)) c ∧
  ∀ f o, (f, o) ∈ cl_live c → ∃ s', free_pages (f * FRAME_SIZE) o (cl_pmm c) = Ok (tt, s').
Proof.
  intros Hok Hrtc.
  assert (client_inv (free_set (ps_self s0)) c) as Hinv.
  { revert c Hrtc. apply rtc_ind_r; [by apply client_start|eauto using client_step_inv]. }
  split; [done|]. intros f o Hf. destruct (ci_ok _ _ Hinv) as [L HI].
  destruct (ci_block _ _ Hinv f o Hf) as [Ho Hblk].
  destruct (proj1 (wp_ok _ _ _) (free_pages_spec _ L f o HI Ho Hblk ltac:(
    intros i Hi Hi'; apply (ci_free _ _ Hinv i); [apply live_set_elem; by exists (f, o)|done])))
    as ([] & s' & Heq & _). eauto.
Qed.

(** ** Memory *)
Lemma link_word_in_block p f o g a :
  block_word p f o a →
  a = fb_addr (hhdm_offset p) g + OFF_PREV ∨ a = fb_addr (hhdm_offset p) g + OFF_NEXT →
  in_block f o g.
Proof.
  unfold block_word, fb_addr, in_block, OFF_PREV, OFF_NEXT. rewrite FRAME_SIZE_val.
  intros Ha [->| ->]; lia.
Qed.

Lemma pmm_step_block G s s' f o a :
  pmm_step G s s' → (∀ g, in_block f o g → ¬ G g) → block_word (ps_self s) f o a →
  ps_mem s' !! a = ps_mem s !! a.
Proof.
  intros [_ Hm] HG Ha. apply Hm. intros (g & Hg & Hlink).
  by apply (HG g (link_word_in_block _ _ _ _ _ Ha Hlink)).
Qed.

(** Isolation.  A step of the client leaves every word of every block that is
    live before and after it as it was: the allocator keeps its links in free
    frames only. *)
Theorem live_memory_stable P c c' f o a :
  client_inv P c → client_step c c' → (f, o) ∈ cl_live c → (f, o) ∈ cl_live c' →
  block_word (ps_self (cl_pmm c)) f o a →
  ps_mem (cl_pmm c') !! a = ps_mem (cl_pmm c) !! a.
Proof.
  intros Hinv Hstep Hf Hf' Ha. pose proof (client_step_inv P c c' Hinv Hstep) as Hinv'.
  assert (∀ d, client_inv P d → (f, o) ∈ cl_live d → ∀ g, in_block f o g →
    g ∉ free_set (ps_self (cl_pmm d))) as Hnot.
  { intros d Hd Hfd g Hg Hfree. apply (ci_free _ _ Hd g); [|done].
    apply live_set_elem. exists (f, o). by rewrite elem_of_block_set. }
  pose proof (ci_ok _ _ Hinv) as Hok. destruct Hstep; simpl in *.
  - destruct (alloc_inv s order _ s' Hok ltac:(done) ltac:(done)) as [_ (g & _ & Hal)].
    eapply pmm_step_block; [apply Hal|exact (Hnot _ Hinv Hf)|done].
  - by destruct (alloc_inv s order _ s' Hok ltac:(done) ltac:(done)) as [_ [-> _]].
  - destruct (ci_block _ _ Hinv f0 order) as [Ho Hblk]; [simpl; set_solver|]. simpl in *.
    assert (released s s' (block_set f0 order)) as Hr.
    { apply free_inv; [done..| |done]. pose proof (ci_free _ _ Hinv) as Hfr. simpl in Hfr.
      rewrite live_set_middle in Hfr. set_solver. }
    eapply pmm_step_block; [apply Hr|exact (Hnot _ Hinv' Hf')|done].
Qed.

(** Round trip.  An allocation that succeeds can be released at once, and
    doing so restores the set of free frames and the counter. *)
Theorem alloc_free_roundtrip s order a s1 :
  pmm_ok s → alloc_pages order s = Ok (Some a, s1) →
  ∃ s2, free_pages a order s1 = Ok (tt, s2) ∧
    free_set (ps_self s2) = free_set (ps_self s) ∧
    free_frames (ps_self s2) = free_frames (ps_self s).
Proof.
  intros Hok Heq. destruct (decide (order ≤ MAX_ORDER)%nat) as [Ho|Ho]; cycle 1.
  { exfalso. eapply ok_not_panics; [exact Heq|]. apply alloc_order_panics. lia. }
  destruct (alloc_inv s order _ s1 Hok Ho Heq) as [[L1 HI1] (f & -> & [Hblk Hsub Hset [Hsh _]])].
  destruct (proj1 (wp_ok _ _ _) (free_pages_spec s1 L1 f order HI1 Ho
    (block_ok_shape _ _ _ _ Hsh Hblk) ltac:(rewrite Hset; set_solver)))
    as ([] & s2 & Heq2 & [[L2 HI2] Hset2 _]).
  assert (free_set (ps_self s2) = free_set (ps_self s)) as Hfin.
  { rewrite Hset2, Hset, difference_union_L. set_solver. }
  exists s2. split_and!; [done..|]. destruct Hok as [L HI].
  by rewrite (inv_count _ _ HI2), (inv_count _ _ HI), Hfin.
Qed.

(** [add_range] frees exactly the frames [start .. start + count], whatever
    the alignment of the range, and its loop ends: the range must lie inside the
    machine and hold no free frame. *)
Theorem add_range_frees s start count :
  pmm_ok s → 0 ≤ start → 0 ≤ count → start + count ≤ total_frames (ps_self s) →
  range_set start count ## free_set (ps_self s) →
  ∃ s', add_range start count s = Ok (tt, s') ∧ pmm_ok s' ∧
    free_set (ps_self s') = free_set (ps_self s) ∪ range_set start count ∧
    free_frames (ps_self s') = free_frames (ps_self s) + count.
Proof.
  intros Hok Hs Hc He Hd.
  destruct (proj1 (wp_ok _ _ _) (add_range_loop_spec _ s start count Hok (le_n _) Hs Hc He Hd))
    as ([] & s' & Heq & [Hok' Hset _]).
  exists s'. split_and!; [done..|]. destruct Hok as [L HI], Hok' as [L' HI'].
  rewrite (inv_count _ _ HI'), (inv_count _ _ HI), Hset, size_union by (by symmetry).
  pose proof (size_range_set start count Hc). lia.
Qed.

Lemma fresh_core p m :
  free_lists p = replicate NUM_ORDERS None →
  frame_order p = replicate (Z.to_nat (total_frames p)) ORDER_NONE →
  0 ≤ total_frames p → 0 < hhdm_offset p → hhdm_offset p mod FRAME_SIZE = 0 →
  hhdm_offset p + total_frames p * FRAME_SIZE ≤ 2 ^ 64 → core (mkPS p m) (λ _, []).
Proof.
  intros Hl Ho Ht H1 H2 H3. constructor; simpl; try done.
  - by rewrite Hl, length_replicate.
  - rewrite Ho, length_replicate. lia.
  - intros o Hle. rewrite Hl. apply (lookup_replicate_2 NUM_ORDERS). unfold NUM_ORDERS. lia.
  - intros. apply NoDup_nil_2.
  - intros o f _ Hf. by apply not_elem_of_nil in Hf.
  - intros o i Hle Hi. split; [|intros Hf; by apply not_elem_of_nil in Hf].
    unfold order_of. rewrite Ho, lookup_replicate_2 by lia. intros [= Hc].
    by destruct (order_not_none o).
  - intros i Hi. left. unfold order_of. rewrite Ho. apply lookup_replicate_2. lia.
  - intros o f _ Hf. by apply not_elem_of_nil in Hf.
Qed.

Lemma fresh_free_set p :
  frame_order p = replicate (Z.to_nat (total_frames p)) ORDER_NONE → free_set p = ∅.
Proof.
  intros Ho. apply set_eq. intros i. rewrite elem_of_free_set. split; [|set_solver].
  intros [Hi Hne]. exfalso. apply Hne. unfold order_of. rewrite Ho.
  apply lookup_replicate_2. lia.
Qed.

(** Initialisation.  [Pmm::new] over a metadata slice of the machine's size
    returns an allocator in order with no free frame, whatever memory holds; with
    a slice of any other length it panics. *)
Theorem Pmm_new_ok (fo : list Z) total hhdm (m : mem) (s : pmm_state) :
  0 < hhdm → hhdm mod FRAME_SIZE = 0 → 0 ≤ total → hhdm + total * FRAME_SIZE ≤ 2 ^ 64 →
  if decide (total = Z.of_nat (length fo)) then
    ∃ p, Pmm_new fo total hhdm s = Ok (p, s) ∧ pmm_ok (mkPS p m) ∧
      free_set p = ∅ ∧ total_frames p = total ∧ hhdm_offset p = hhdm
  else panics (Pmm_new fo total hhdm) s.
Proof.
  intros H1 H2 H3 H4. destruct (decide (total = Z.of_nat (length fo))) as [Heq|Hne].
  - unfold Pmm_new, bind, assert_. rewrite (proj2 (Z.eqb_eq _ _) Heq).
    eexists. split; [done|].
    assert (free_set (mkPmm (replicate NUM_ORDERS None) (replicate (length fo) ORDER_NONE)
      total 0 hhdm) = ∅) as Hemp.
    { apply fresh_free_set. simpl. by rewrite Heq, Nat2Z.id. }
    split_and!; [|done..]. eexists. split.
    + apply fresh_core; simpl; try done. by rewrite Heq, Nat2Z.id.
    + cbn [ps_self free_frames]. by rewrite Hemp.
  - apply panics_bind_l, panics_assert. by apply Z.eqb_neq.
Qed.
End theorems.
