(* ===== verification/PmmExamples.v ===== *)
(** * PmmExamples: the physical memory manager on a small machine

    A machine of 16 frames whose frames 1 to 15 are usable, run through the
    definitions of [Pmm]; every theorem of [PmmSpec] that has hypotheses is
    applied here at a state where they hold. *)

From S2P Require Import Prelude Bits Mem Pmm Dll PmmInv PmmList PmmOps PmmSpec.

#[local] Existing Instance dev_profile.

Definition ex_hhdm : Z := 0x100000000.

Definition ex_fresh : pmm_state :=
  mkPS (mkPmm (replicate NUM_ORDERS None) (replicate 16 ORDER_NONE) 16 0 ex_hhdm) ∅.

Definition run_state {St A : Type} (c : M St A) (s : St) : St :=
  match c s with Ok (_, s') => s' | _ => s end.

(** The value a run returns. *)
Definition run_value {St A : Type} (c : M St A) (s : St) : option A :=
  match c s with Ok (a, _) => Some a | _ => None end.

Lemma ran {St A : Type} (c : M St A) s a : run_value c s = Some a → c s = Ok (a, run_state c s).
Proof. unfold run_value, run_state. destruct (c s) as [[b s']| |]; [|done..]. by intros [= ->]. Qed.

(** Frames 1 to 15 are free. *)
Definition ex_pmm : pmm_state := run_state (add_range 1 15) ex_fresh.

(** The block of four frames at frame 4 is allocated. *)
Definition ex_pmm2 : pmm_state := run_state (alloc_pages 2) ex_pmm.

Lemma ex_fresh_ok : pmm_ok ex_fresh.
Proof.
  exists (λ _, []). split; [apply fresh_core; done|]. reflexivity.
Qed.

Lemma ex_range_unused : range_set 1 15 ## free_set (ps_self ex_fresh).
Proof.
  apply (bool_decide_unpack (range_set 1 15 ## free_set (ps_self ex_fresh))).
  vm_compute. exact I.
Qed.

Lemma run_state_wp {St A : Type} (c : M St A) s (Q : St → Prop) :
  wp c s (λ _ s', Q s') → Q (run_state c s).
Proof. unfold wp, run_state. by destruct (c s) as [[a s']|msg|]. Qed.

Lemma ex_pmm_eq : ex_pmm = run_state (add_range 1 15) ex_fresh.
Proof. vm_compute. reflexivity. Qed.

Lemma ex_pmm2_eq : ex_pmm2 = run_state (alloc_pages 2) ex_pmm.
Proof. vm_compute. reflexivity. Qed.

Lemma ex_pmm_released : released ex_fresh ex_pmm (range_set 1 15).
Proof.
  rewrite ex_pmm_eq.
  apply (run_state_wp (add_range 1 15) ex_fresh (λ s', released ex_fresh s' (range_set 1 15))).
  apply add_range_loop_spec; [exact ex_fresh_ok|lia|lia|lia| |exact ex_range_unused].
  vm_compute. intros Hc. discriminate Hc.
Qed.

Lemma ex_pmm_ok : pmm_ok ex_pmm.
Proof. apply ex_pmm_released. Qed.

Lemma ex_pmm2_ok : pmm_ok ex_pmm2.
Proof.
  rewrite ex_pmm2_eq.
  apply (run_state_wp (alloc_pages 2) ex_pmm pmm_ok).
  eapply wp_mono; [apply (alloc_pages_run ex_pmm 2 ex_pmm_ok); unfold MAX_ORDER; lia|].
  intros r s' [Hok _]. exact Hok.
Qed.

(** The run of the code on the machine above: frames, marks and counter. *)
Example ex_pmm_run :
  frame_order (ps_self ex_pmm) = [255; 0; 1; 1; 2; 2; 2; 2; 3; 3; 3; 3; 3; 3; 3; 3] ∧
  free_frames (ps_self ex_pmm) = 15 ∧
  alloc_pages 2 ex_pmm = Ok (Some 0x4000, ex_pmm2) ∧
  frame_order (ps_self ex_pmm2) =
    [255; 0; 1; 1; 255; 255; 255; 255; 3; 3; 3; 3; 3; 3; 3; 3].
Proof. vm_compute. done. Qed.

Lemma pmm_refines_witness :
  pmm_ok ex_pmm ∧ run_op (OpAlloc 2) ex_pmm = Ok (Some 0x4000, ex_pmm2) ∧
  abs_step (abs_of ex_pmm) (OpAlloc 2) (Some 0x4000) (abs_of ex_pmm2).
Proof.
  assert (run_op (OpAlloc 2) ex_pmm = Ok (Some 0x4000, ex_pmm2)) as Hrun
    by (vm_compute; reflexivity).
  split; [exact ex_pmm_ok|]. split; [exact Hrun|].
  exact (proj2 (pmm_refines ex_pmm (OpAlloc 2) (Some 0x4000) ex_pmm2 ex_pmm_ok I Hrun)).
Defined.

Lemma pmm_op_total_witness :
  (∃ r s', run_op (OpFree 0x4000 2) ex_pmm2 = Ok (r, s')) ∧
  panics (run_op (OpFree 0x4000 2)) ex_pmm.
Proof.
  assert (u64_range 0x4000) as Hr by (unfold u64_range; lia).
  split.
  - apply (pmm_op_total ex_pmm2 (OpFree 0x4000 2) ex_pmm2_ok Hr).
    apply (bool_decide_unpack (free_valid ex_pmm2 0x4000 2)). vm_compute. exact I.
  - apply (pmm_op_total ex_pmm (OpFree 0x4000 2) ex_pmm_ok Hr).
    apply (bool_decide_unpack (¬ free_valid ex_pmm 0x4000 2)). vm_compute. exact I.
Defined.

Lemma ex_client_steps :
  rtc client_step (mkClient ex_pmm []) (mkClient ex_pmm2 [(4, 2%nat)]).
Proof.
  apply rtc_once. apply (cs_alloc ex_pmm ex_pmm2 [] 2 4); [unfold MAX_ORDER; lia|].
  vm_compute. reflexivity.
Qed.

Lemma client_safe_witness :
  client_inv (free_set (ps_self ex_pmm)) (mkClient ex_pmm2 [(4, 2%nat)]) ∧
  ∃ s', free_pages (4 * FRAME_SIZE) 2 ex_pmm2 = Ok (tt, s').
Proof.
  destruct (client_safe ex_pmm (mkClient ex_pmm2 [(4, 2%nat)]) ex_pmm_ok ex_client_steps)
    as [Hinv Hfree].
  split; [exact Hinv|]. apply (Hfree 4 2%nat). apply list_elem_of_singleton. reflexivity.
Defined.

Lemma ex_client_inv : client_inv (free_set (ps_self ex_pmm)) (mkClient ex_pmm []).
Proof. exact (client_start ex_pmm ex_pmm_ok). Qed.

(** A client that holds frames 4 to 7, then frame 1 as well. *)
Definition ex_c1 : client := mkClient ex_pmm2 [(4, 2%nat)].

Definition ex_c2 : client :=
  mkClient (run_state (alloc_pages 0) ex_pmm2) [(1, 0%nat); (4, 2%nat)].

Lemma ex_c1_inv : client_inv (free_set (ps_self ex_pmm)) ex_c1.
Proof.
  apply (client_step_inv _ (mkClient ex_pmm [])); [exact ex_client_inv|].
  apply (cs_alloc ex_pmm ex_pmm2 [] 2 4); [unfold MAX_ORDER; lia|].
  vm_compute. reflexivity.
Qed.

Lemma ex_c1_step : client_step ex_c1 ex_c2.
Proof.
  apply (cs_alloc ex_pmm2 _ [(4, 2%nat)] 0 1); [unfold MAX_ORDER; lia|].
  vm_compute. reflexivity.
Qed.

Lemma live_memory_stable_witness :
  ps_mem (cl_pmm ex_c2) !! (0x100004000 : Z) = ps_mem (cl_pmm ex_c1) !! (0x100004000 : Z).
Proof.
  refine (live_memory_stable (free_set (ps_self ex_pmm)) ex_c1 ex_c2 4 2 0x100004000
    ex_c1_inv ex_c1_step _ _ _).
  - apply list_elem_of_singleton. reflexivity.
  - right. apply list_elem_of_singleton. reflexivity.
  - vm_compute. split; [intros Hc; discriminate Hc|reflexivity].
Defined.

Lemma alloc_free_roundtrip_witness :
  ∃ s2, free_pages 0x4000 2 ex_pmm2 = Ok (tt, s2) ∧
    free_set (ps_self s2) = free_set (ps_self ex_pmm) ∧
    free_frames (ps_self s2) = free_frames (ps_self ex_pmm).
Proof.
  apply (alloc_free_roundtrip ex_pmm 2 0x4000 ex_pmm2 ex_pmm_ok). vm_compute. reflexivity.
Defined.

Lemma add_range_frees_witness :
  ∃ s', add_range 1 15 ex_fresh = Ok (tt, s') ∧ pmm_ok s' ∧
    free_set (ps_self s') = free_set (ps_self ex_fresh) ∪ range_set 1 15 ∧
    free_frames (ps_self s') = free_frames (ps_self ex_fresh) + 15.
Proof.
  apply (add_range_frees ex_fresh 1 15 ex_fresh_ok); [lia..| |].
  - vm_compute. intros Hc. discriminate Hc.
  - exact ex_range_unused.
Defined.

Lemma Pmm_new_ok_witness :
  ∃ p, Pmm_new (replicate 16 7) 16 ex_hhdm ex_fresh = Ok (p, ex_fresh) ∧ pmm_ok (mkPS p ∅) ∧
    free_set p = ∅ ∧ total_frames p = 16 ∧ hhdm_offset p = ex_hhdm.
Proof.
  exact (Pmm_new_ok (replicate 16 7) 16 ex_hhdm ∅ ex_fresh ltac:(reflexivity)
    ltac:(reflexivity) ltac:(lia) ltac:(vm_compute; intros Hc; discriminate Hc)).
Defined.
