(* ===== verification/Locks.v ===== *)
(** * Locks: the kernel's locks on one processor ([src/kernel/src/utils.rs])

    [IntLock] is a test-and-set lock that also turns interrupts off while it is
    held; [SpinLock] is the plain lock; [Mutex] (the [lock_api] wrapper) pairs a
    lock with the data it guards; [Singleton] is a mutex around a value that is
    installed once; [critical_section] runs a closure with interrupts off.
    The definitions are parametric in the state [St] that holds the lock and the
    processor's interrupt flag, which they reach through lenses.  A processor
    that spins on a lock it holds itself never gets out of the loop: the model
    reports [NoFuel], for every amount of fuel. *)

From S2P Require Import Prelude.

(** A field of the state. *)
Record lens (St T : Type) := mkLens {
  lget : St → T;
  lset : T → St → St
}.
Arguments mkLens {St T} lget lset.
Arguments lget {St T} l s : rename.
Arguments lset {St T} l v s : rename.

Class LensOk {St T : Type} (l : lens St T) : Prop := {
  lens_get_set v s : lget l (lset l v s) = v;
  lens_set_get s : lset l (lget l s) s = s;
  lens_set_set v w s : lset l v (lset l w s) = lset l v s
}.

(** Two fields that do not overlap. *)
Class LensIndep {St T U : Type} (l : lens St T) (k : lens St U) : Prop := {
  indep_get_l v s : lget l (lset k v s) = lget l s;
  indep_get_r v s : lget k (lset l v s) = lget k s;
  indep_set v w s : lset l v (lset k w s) = lset k w (lset l v s)
}.

Record IntLock := mkIntLock { il_locked : bool; il_saved_if : bool }.

Definition IntLock_INIT : IntLock := mkIntLock false false.

Record SpinLock := mkSpinLock { sl_locked : bool }.

Definition SpinLock_INIT : SpinLock := mkSpinLock false.

Record Mutex (T : Type) := mkMutex { mx_raw : IntLock; mx_data : T }.
Arguments mkMutex {T} mx_raw mx_data.
Arguments mx_raw {T} m : rename.
Arguments mx_data {T} m : rename.

(** A field of a field. *)
Definition lens_comp {St T U : Type} (l : lens St T) (k : lens T U) : lens St U :=
  mkLens (λ s, lget k (lget l s)) (λ v s, lset l (lset k v (lget l s)) s).

Definition raw_lens {T : Type} : lens (Mutex T) IntLock :=
  mkLens mx_raw (λ r m, mkMutex r (mx_data m)).

Definition data_lens {T : Type} : lens (Mutex T) T :=
  mkLens mx_data (λ d m, mkMutex (mx_raw m) d).

Section locks.
Context {St : Type} (cpu : lens St bool).

(** *** [IntLock] *)
Definition int_try_lock (l : lens St IntLock) : M St bool :=
  let! s := gets (lget l) in
  if il_locked s then ret false
  else
    do! modify (lset l (mkIntLock true (il_saved_if s)));
    let! i := gets (lget cpu) in
    do! modify (λ st, lset l (mkIntLock (il_locked (lget l st)) i) st);
    do! modify (lset cpu false);
    ret true.

Fixpoint int_lock (fuel : nat) (l : lens St IntLock) : M St unit :=
  match fuel with
  | O => nofuel
  | S fuel' =>
      let! ok := int_try_lock l in
      if (ok : bool) then ret tt else int_lock fuel' l
  end.

Definition int_unlock (l : lens St IntLock) : M St unit :=
  let! restore := gets (λ st, il_saved_if (lget l st)) in
  do! modify (λ st, lset l (mkIntLock false (il_saved_if (lget l st))) st);
  if (restore : bool) then modify (lset cpu true) else ret tt.

Definition int_is_locked (l : lens St IntLock) : M St bool :=
  gets (λ st, il_locked (lget l st)).

(** *** [SpinLock] *)
Definition spin_try_lock (l : lens St SpinLock) : M St bool :=
  let! s := gets (lget l) in
  if sl_locked s then ret false
  else do! modify (lset l (mkSpinLock true)); ret true.

(** [compare_exchange_weak]: it may fail although the lock is free, in which case
    [spurious] is set. *)
Definition spin_exchange_weak (spurious : bool) (l : lens St SpinLock) : M St bool :=
  let! s := gets (lget l) in
  if sl_locked s || spurious then ret false
  else do! modify (lset l (mkSpinLock true)); ret true.

(** [while self.locked.load() { spin_loop() }] *)
Fixpoint spin_wait (fuel : nat) (l : lens St SpinLock) : M St unit :=
  match fuel with
  | O => nofuel
  | S fuel' =>
      let! s := gets (lget l) in
      if sl_locked s then spin_wait fuel' l else ret tt
  end.

(** The list says which of the exchanges fail spuriously; those beyond its end
    do not. *)
Fixpoint spin_lock (fuel : nat) (spurious : list bool) (l : lens St SpinLock) : M St unit :=
  match fuel with
  | O => nofuel
  | S fuel' =>
      let! ok := spin_exchange_weak (match spurious with b :: _ => b | [] => false end) l in
      if (ok : bool) then ret tt
      else do! spin_wait fuel' l; spin_lock fuel' (tail spurious) l
  end.

Definition spin_unlock (l : lens St SpinLock) : M St unit :=
  modify (lset l (mkSpinLock false)).

Definition spin_is_locked (l : lens St SpinLock) : M St bool :=
  gets (λ st, sl_locked (lget l st)).

(** *** [Mutex] and [Singleton] *)

(** [let mut g = mx.lock(); body] where [g] is dropped at the end. *)
Definition with_lock {T A : Type} (mx : lens St (Mutex T)) (body : M St A) : M St A :=
  do! int_lock 1 (lens_comp mx raw_lens);
  let! r := body in
  do! int_unlock (lens_comp mx raw_lens);
  ret r.

Definition Singleton_new {T : Type} : Mutex (option T) := mkMutex IntLock_INIT None.

Definition singleton_install {T : Type} (mx : lens St (Mutex (option T))) (value : T) : M St unit :=
  with_lock mx (
    let! g := gets (lget (lens_comp mx data_lens)) in
    do! assert_ (match g with None => true | Some _ => false end) "singleton already installed";
    modify (lset (lens_comp mx data_lens) (Some value))).

(** The closure gets the value by mutable reference: it returns its result and
    the new value. *)
Definition singleton_with {T A : Type} (mx : lens St (Mutex (option T))) (f : T → M St (A * T)) : M St A :=
  with_lock mx (
    let! g := gets (lget (lens_comp mx data_lens)) in
    let! v := unwrap g "singleton not installed" in
    let! r := f v in
    do! modify (lset (lens_comp mx data_lens) (Some (snd r)));
    ret (fst r)).

(** *** [critical_section] *)
Definition critical_section {A : Type} (f : M St A) : M St A :=
  let! enabled := gets (lget cpu) in
  do! modify (lset cpu false);
  let! res := f in
  do! (if (enabled : bool) then modify (lset cpu true) else ret tt);
  ret res.

End locks.

#[export] Instance lens_comp_ok {St T U : Type} (l : lens St T) (k : lens T U) :
  LensOk l → LensOk k → LensOk (lens_comp l k).
Proof.
  intros Hl Hk. split; simpl; intros.
  - by rewrite !lens_get_set.
  - by rewrite !lens_set_get.
  - by rewrite lens_get_set, !lens_set_set.
Qed.

#[export] Instance raw_lens_ok {T : Type} : LensOk (@raw_lens T).
Proof. split; by intros; destruct s. Qed.

#[export] Instance data_lens_ok {T : Type} : LensOk (@data_lens T).
Proof. split; by intros; destruct s. Qed.

#[export] Instance lens_indep_comp {St T U V : Type} (l : lens St T) (k : lens T U) (c : lens St V) :
  LensIndep c l → LensIndep c (lens_comp l k).
Proof.
  intros Hi. split; simpl; intros.
  - by rewrite indep_get_l.
  - by rewrite indep_get_r.
  - rewrite indep_get_r. by rewrite indep_set.
Qed.

Section lock_facts.
Context {St : Type} (cpu : lens St bool) `{!LensOk cpu}.

(** Taking a free lock: it becomes held, the interrupt flag is saved and cleared. *)
Lemma int_try_lock_free (l : lens St IntLock) s :
  LensOk l → LensIndep cpu l → il_locked (lget l s) = false →
  int_try_lock cpu l s =
    Ok (true, lset cpu false (lset l (mkIntLock true (lget cpu s)) s)).
Proof.
  intros Hl Hi Hfree. unfold int_try_lock, bind, gets, modify, ret. rewrite Hfree.
  by rewrite lens_get_set, indep_get_l, lens_set_set.
Qed.

Lemma int_try_lock_held (l : lens St IntLock) s :
  il_locked (lget l s) = true → int_try_lock cpu l s = Ok (false, s).
Proof. intros Hheld. unfold int_try_lock, bind, gets. by rewrite Hheld. Qed.

Lemma int_lock_held n (l : lens St IntLock) s :
  il_locked (lget l s) = true → int_lock cpu n l s = NoFuel.
Proof.
  intros Hheld. induction n as [|n IH]; [done|]. simpl. unfold bind.
  by rewrite int_try_lock_held.
Qed.

Lemma int_lock_free n (l : lens St IntLock) s :
  LensOk l → LensIndep cpu l → il_locked (lget l s) = false →
  int_lock cpu (S n) l s = Ok (tt, lset cpu false (lset l (mkIntLock true (lget cpu s)) s)).
Proof. intros. simpl. unfold bind. by rewrite int_try_lock_free. Qed.

(** The rule for a guarded section: the body runs with the lock held and
    interrupts off; if it leaves the lock and the flag alone, the section ends
    with the lock free and the interrupt flag as it was. *)
Lemma wp_with_lock {T A : Type} (mx : lens St (Mutex T)) (body : M St A) s (Q : A → St → Prop) :
  LensOk mx → LensIndep cpu mx → il_locked (mx_raw (lget mx s)) = false →
  let held := lset cpu false (lset mx (mkMutex (mkIntLock true (lget cpu s)) (mx_data (lget mx s))) s) in
  wp body held (λ a s',
    mx_raw (lget mx s') = mkIntLock true (lget cpu s) ∧ lget cpu s' = false ∧
    Q a (lset cpu (lget cpu s)
          (lset mx (mkMutex (mkIntLock false (lget cpu s)) (mx_data (lget mx s'))) s'))) →
  wp (with_lock cpu mx body) s Q.
Proof.
  intros Hmx Hi Hfree held Hbody. unfold with_lock.
  apply wp_bind. unfold wp at 1. rewrite int_lock_free by (exact _ || exact Hfree).
  eapply wp_seq; [exact Hbody|]. intros a s' (Hraw & Hcpu & HQ).
  unfold int_unlock. wp_pure. simpl. rewrite Hraw. cbn [il_saved_if].
  destruct (lget cpu s) eqn:Hif.
  - done.
  - replace (lset cpu false (lset mx (mkMutex (mkIntLock false false) (mx_data (lget mx s'))) s'))
      with (lset mx (mkMutex (mkIntLock false false) (mx_data (lget mx s'))) s') in HQ; [done|].
    rewrite <- Hcpu at 3. rewrite <- (indep_get_l (l := cpu) (k := mx)
      (mkMutex (mkIntLock false false) (mx_data (lget mx s'))) s'). by rewrite lens_set_get.
Qed.
End lock_facts.

(** Reading back what was written through the lenses [cpu] and [mx]. *)
Ltac lens_simpl cpu mx :=
  repeat first
    [ progress simpl
    | rewrite (lens_get_set (l := mx)) | rewrite (lens_get_set (l := cpu))
    | rewrite (indep_get_l (l := cpu) (k := mx)) | rewrite (indep_get_r (l := cpu) (k := mx)) ].

(** ** What the locks promise on one processor *)
Section lock_theorems.
Context {St : Type} (cpu : lens St bool) `{!LensOk cpu}.

Lemma panics_with_lock {T A : Type} (mx : lens St (Mutex T)) (body : M St A) s :
  LensOk mx → LensIndep cpu mx → il_locked (mx_raw (lget mx s)) = false →
  panics body (lset cpu false (lset mx (mkMutex (mkIntLock true (lget cpu s)) (mx_data (lget mx s))) s)) →
  panics (with_lock cpu mx body) s.
Proof.
  intros Hmx Hi Hfree [msg Hbody]. exists msg. unfold with_lock, bind at 1.
  rewrite int_lock_free by (exact _ || exact Hfree). unfold bind at 1. simpl in *. by rewrite Hbody.
Qed.

(** [IntLock::lock] on one processor: a free lock is taken at once, whatever
    the number of attempts allowed; the flag is saved and interrupts are off.  A
    lock that is held is never obtained, however long the loop runs, so taking it
    twice hangs. *)
Theorem int_lock_attempts n (l : lens St IntLock) s :
  LensOk l → LensIndep cpu l →
  if il_locked (lget l s) then int_lock cpu n l s = NoFuel
  else ∃ s', int_lock cpu (S n) l s = Ok (tt, s') ∧ lget l s' = mkIntLock true (lget cpu s) ∧
         lget cpu s' = false ∧ int_lock cpu n l s' = NoFuel ∧
         int_unlock cpu l s' = Ok (tt, lset l (mkIntLock false (lget cpu s)) s).
Proof.
  intros Hl Hi. destruct (il_locked (lget l s)) eqn:Hfree; [by apply int_lock_held|].
  eexists. split; [by apply int_lock_free|].
  assert (lget l (lset cpu false (lset l (mkIntLock true (lget cpu s)) s)) = mkIntLock true (lget cpu s)) as Hg
    by (by rewrite (indep_get_r (l := cpu) (k := l)), lens_get_set).
  split_and!; [done|apply lens_get_set|by apply int_lock_held; rewrite Hg|].
  unfold int_unlock, bind, gets, modify, ret. rewrite Hg. cbn [il_saved_if].
  rewrite <- (indep_set (l := cpu) (k := l)), lens_set_set.
  destruct (lget cpu s) eqn:Hc; rewrite ?lens_set_set; do 2 f_equal.
  - rewrite <- Hc at 1. rewrite <- (indep_get_l (l := cpu) (k := l) (mkIntLock false true) s).
    by rewrite lens_set_get.
  - rewrite <- Hc at 1. rewrite <- (indep_get_l (l := cpu) (k := l) (mkIntLock false false) s).
    by rewrite lens_set_get.
Qed.

Lemma spin_wait_held n (l : lens St SpinLock) s :
  sl_locked (lget l s) = true → spin_wait n l s = NoFuel.
Proof.
  intros Hheld. induction n as [|n IH]; [done|]. simpl. unfold bind, gets. by rewrite Hheld.
Qed.

(** [SpinLock]: a free lock is taken after as many rounds as exchanges fail
    spuriously, at most, and [unlock] then frees it and changes nothing else; a
    lock that is held is never obtained, and [try_lock] says so at once. *)
Theorem spin_lock_correct n spurious (l : lens St SpinLock) s :
  LensOk l →
  if sl_locked (lget l s) then spin_lock n spurious l s = NoFuel ∧ spin_try_lock l s = Ok (false, s)
  else let s' := lset l (mkSpinLock true) s in
       spin_lock (S (length spurious) + n) spurious l s = Ok (tt, s') ∧
       spin_try_lock l s = Ok (true, s') ∧ spin_is_locked l s' = Ok (true, s') ∧
       spin_unlock l s' = Ok (tt, s).
Proof.
  intros Hl. destruct (sl_locked (lget l s)) eqn:Hs.
  - split; [|by unfold spin_try_lock, bind, gets; rewrite Hs]. destruct n as [|n]; [done|]. simpl.
    unfold spin_exchange_weak, bind, gets. rewrite Hs. simpl. by rewrite spin_wait_held.
  - intros s'. split_and!.
    + clear -Hs. induction spurious as [|b sp IH]; simpl;
        unfold spin_exchange_weak, bind, gets; rewrite Hs; [done|].
      destruct b; [|done]. simpl. unfold bind, gets. by rewrite Hs.
    + unfold spin_try_lock, bind, gets. by rewrite Hs.
    + unfold spin_is_locked, gets, s'. by rewrite lens_get_set.
    + unfold spin_unlock, modify, s'. rewrite lens_set_set. do 2 f_equal.
      rewrite <- (lens_set_get (l := l) s) at 2. f_equal. destruct (lget l s). simpl in Hs. by subst.
Qed.

(** A [Singleton] is installed once.  The first [install] succeeds and leaves
    the lock free and the interrupt flag as it was; a second one panics, and so
    does [with] before the first.  Afterwards [with] hands out the value that was
    installed and keeps what the closure leaves. *)
Theorem singleton_once {T A : Type} (mx : lens St (Mutex (option T))) s v w (f : T → M St (A * T)) :
  LensOk mx → LensIndep cpu mx → il_locked (mx_raw (lget mx s)) = false →
  mx_data (lget mx s) = None →
  ∃ s', singleton_install cpu mx v s = Ok (tt, s') ∧ mx_data (lget mx s') = Some v ∧
    il_locked (mx_raw (lget mx s')) = false ∧ lget cpu s' = lget cpu s ∧
    panics (singleton_install cpu mx w) s' ∧ panics (singleton_with cpu mx f) s ∧
    wp (singleton_with cpu mx (λ x, ret (x, w))) s' (λ x s'', x = v ∧ mx_data (lget mx s'') = Some w ∧
      il_locked (mx_raw (lget mx s'')) = false ∧ lget cpu s'' = lget cpu s).
Proof.
  intros Hmx Hi Hfree Hnone.
  destruct (proj1 (wp_ok (singleton_install cpu mx v) s (λ _ s', mx_data (lget mx s') = Some v ∧
    il_locked (mx_raw (lget mx s')) = false ∧ lget cpu s' = lget cpu s))) as ([] & s' & Heq & Hd & Hl & Hc).
  { apply wp_with_lock; [exact _..|exact Hfree|]. apply wp_bind, wp_gets. lens_simpl cpu mx. rewrite Hnone.
    apply wp_bind, wp_assert; [done|]. apply wp_modify. by lens_simpl cpu mx. }
  exists s'. split_and!; [done..| | |].
  - apply panics_with_lock; [exact _..|done|]. apply panics_gets, panics_bind_l, panics_assert.
    lens_simpl cpu mx. by rewrite Hd.
  - apply panics_with_lock; [exact _..|done|]. apply panics_gets, panics_bind_l.
    lens_simpl cpu mx. rewrite Hnone. by eexists.
  - apply wp_with_lock; [exact _..|exact Hl|]. apply wp_bind, wp_gets. lens_simpl cpu mx. rewrite Hd.
    apply wp_bind, wp_ret, wp_bind, wp_ret, wp_bind, wp_modify, wp_ret. by lens_simpl cpu mx.
Qed.

(** [critical_section] runs its closure with interrupts off and afterwards
    the flag is what it was: whatever the closure, as long as it leaves the flag
    alone, the result is the closure's. *)
Theorem critical_section_correct {A : Type} (f : M St A) s r s' :
  f (lset cpu false s) = Ok (r, s') → lget cpu s' = false →
  critical_section cpu f s = Ok (r, lset cpu (lget cpu s) s').
Proof.
  intros Hf Hc. unfold critical_section, bind, gets, modify, ret. rewrite Hf.
  destruct (lget cpu s); [done|]. by rewrite <- Hc, lens_set_get.
Qed.
End lock_theorems.
