(* ===== verification/LockSteps.v ===== *)
(** * LockSteps: [IntLock] under interrupts and other processors

    [Locks] runs the lock of [src/kernel/src/utils.rs] on one processor that
    nothing disturbs.  Here its operations are cut into the steps other parties
    can see (the compare-and-exchange, the store to [saved_if], the instruction
    that turns interrupts off, ...), and the steps of several processors
    interleave.  An interrupt suspends what its processor is doing and starts a
    handler, which may use the lock too.  A processor is therefore a stack of
    activities; the one on top runs. *)

From S2P Require Import Prelude.

(** Where an activity is: outside the lock; in the loop of [lock]; after the
    exchange; after the store to [saved_if]; inside the section; in [unlock] with
    [restore] read; with [locked] cleared. *)
Inductive pc := Out | Spin | Got | Saved | Held | Leaving (restore : bool) | Left (restore : bool).

(** [f_ret] is the interrupt flag of the activity this one interrupted;
    [f_orig] remembers the flag at the call of [lock], for the theorems. *)
Record frame := mkFrame { f_pc : pc; f_ret : bool; f_orig : bool }.

Definition at_pc (p : pc) (f : frame) : frame := mkFrame p (f_ret f) (f_orig f).

Record cpu := mkCpu { c_if : bool; c_stack : list frame }.

Record lock_sys := mkLockSys { l_locked : bool; l_saved : bool; l_cpus : list cpu }.

(** One step of processor [x], with the shared words before and after. *)
Inductive cpu_step : bool → bool → cpu → bool → bool → cpu → Prop :=
| st_call lk sv i f k :
    f_pc f = Out →
    cpu_step lk sv (mkCpu i (f :: k)) lk sv (mkCpu i (mkFrame Spin (f_ret f) i :: k))
| st_cas_ok sv i f k :
    f_pc f = Spin →
    cpu_step false sv (mkCpu i (f :: k)) true sv (mkCpu i (at_pc Got f :: k))
| st_cas_fail sv i f k :
    f_pc f = Spin →
    cpu_step true sv (mkCpu i (f :: k)) true sv (mkCpu i (f :: k))
| st_save lk sv i f k :
    f_pc f = Got →
    cpu_step lk sv (mkCpu i (f :: k)) lk i (mkCpu i (at_pc Saved f :: k))
| st_disable lk sv i f k :
    f_pc f = Saved →
    cpu_step lk sv (mkCpu i (f :: k)) lk sv (mkCpu false (at_pc Held f :: k))
| st_read lk sv i f k :
    f_pc f = Held →
    cpu_step lk sv (mkCpu i (f :: k)) lk sv (mkCpu i (at_pc (Leaving sv) f :: k))
| st_release lk sv i f k r :
    f_pc f = Leaving r →
    cpu_step lk sv (mkCpu i (f :: k)) false sv (mkCpu i (at_pc (Left r) f :: k))
| st_enable lk sv i f k r :
    f_pc f = Left r →
    cpu_step lk sv (mkCpu i (f :: k)) lk sv (mkCpu (if r then true else i) (at_pc Out f :: k))
| st_interrupt lk sv k :
    cpu_step lk sv (mkCpu true k) lk sv (mkCpu false (mkFrame Out true false :: k))
| st_iret lk sv i f g k :
    f_pc f = Out →
    cpu_step lk sv (mkCpu i (f :: g :: k)) lk sv (mkCpu (f_ret f) (g :: k)).

Inductive lock_step : lock_sys → lock_sys → Prop :=
| lock_step_cpu lk sv cpus c x lk' sv' x' :
    cpus !! c = Some x → cpu_step lk sv x lk' sv' x' →
    lock_step (mkLockSys lk sv cpus) (mkLockSys lk' sv' (<[c := x']> cpus)).

(** [IntLock::INIT], and processors that run outside of it. *)
Definition idle_cpu (x : cpu) : Prop := ∃ i r o, x = mkCpu i [mkFrame Out r o].

Definition lock_init (s : lock_sys) : Prop :=
  l_locked s = false ∧ l_saved s = false ∧ Forall idle_cpu (l_cpus s).

(** ** Who holds the lock *)
Definition holding (f : frame) : bool :=
  match f_pc f with Got | Saved | Held | Leaving _ => true | _ => false end.

Definition holders (k : list frame) : nat := length (filter (λ f, holding f = true) k).

Definition all_holders (cpus : list cpu) : nat := sum_list (holders ∘ c_stack <$> cpus).

Lemma holders_cons f k : holders (f :: k) = ((if holding f then 1 else 0) + holders k)%nat.
Proof. unfold holders. rewrite filter_cons. by destruct (holding f). Qed.

Lemma all_holders_cons x cpus : all_holders (x :: cpus) = (holders (c_stack x) + all_holders cpus)%nat.
Proof. done. Qed.

Lemma all_holders_insert cpus c x x' :
  cpus !! c = Some x →
  (all_holders (<[c := x']> cpus) + holders (c_stack x) = all_holders cpus + holders (c_stack x'))%nat.
Proof.
  revert c. induction cpus as [|y cpus IH]; intros [|c]; simpl; intros Hc; [done|done|..].
  - injection Hc as ->. rewrite !all_holders_cons. lia.
  - specialize (IH c Hc). rewrite !all_holders_cons. lia.
Qed.

(** ** The interrupt flag of each activity *)

(** [i] is the flag while the activity runs, or will be when it resumes. *)
Definition frame_ok (i saved : bool) (f : frame) : Prop :=
  match f_pc f with
  | Out => True
  | Spin | Got => i = f_orig f
  | Saved => i = f_orig f ∧ saved = f_orig f
  | Held => i = false ∧ saved = f_orig f
  | Leaving r | Left r => i = false ∧ r = f_orig f
  end.

Fixpoint stack_ok (i saved : bool) (k : list frame) : Prop :=
  match k with
  | [] => True
  | f :: k' => frame_ok i saved f ∧ stack_ok (f_ret f) saved k'
  end.

Definition cpu_ok (saved : bool) (x : cpu) : Prop := stack_ok (c_if x) saved (c_stack x).

Record lock_inv (s : lock_sys) : Prop := {
  li_count : all_holders (l_cpus s) = if l_locked s then 1%nat else 0%nat;
  li_cpus : Forall (cpu_ok (l_saved s)) (l_cpus s)
}.

(** Activities that do not hold the lock do not care about [saved_if]. *)
Lemma stack_ok_saved i saved saved' k :
  holders k = 0%nat → stack_ok i saved k → stack_ok i saved' k.
Proof.
  revert i. induction k as [|f k IH]; intros i; [done|]. rewrite holders_cons.
  intros Hh [Hf Hk]. split; [|apply IH; [lia|done]].
  unfold frame_ok, holding in *. by destruct (f_pc f).
Qed.

Lemma all_holders_elem cpus c x :
  cpus !! c = Some x → (holders (c_stack x) ≤ all_holders cpus)%nat.
Proof.
  revert c. induction cpus as [|y cpus IH]; intros [|c]; simpl; [done|done|intros [= ->]|intros Hc].
  - rewrite all_holders_cons. lia.
  - specialize (IH c Hc). rewrite all_holders_cons. lia.
Qed.

(** The counts before and after a step of one processor. *)
Lemma step_holders lk sv x lk' sv' x' :
  cpu_step lk sv x lk' sv' x' →
  (lk = true ∧ lk' = true ∧ holders (c_stack x') = holders (c_stack x)) ∨
  (lk = false ∧ lk' = true ∧ holders (c_stack x') = S (holders (c_stack x))) ∨
  (lk' = false ∧ S (holders (c_stack x')) = holders (c_stack x)) ∨
  (lk' = lk ∧ holders (c_stack x') = holders (c_stack x)).
Proof.
  intros Hst. destruct Hst; simpl; rewrite ?holders_cons; unfold holding, at_pc; simpl;
    try match goal with E : f_pc _ = _ |- _ => rewrite E end; simpl; tauto.
Qed.

(** Only the holder writes [saved_if]. *)
Lemma step_saved lk sv x lk' sv' x' :
  cpu_step lk sv x lk' sv' x' → sv' = sv ∨ (0 < holders (c_stack x))%nat.
Proof.
  intros Hst. destruct Hst; simpl; auto. right. rewrite holders_cons. unfold holding.
  match goal with E : f_pc _ = _ |- _ => rewrite E end. lia.
Qed.

(** The processor that takes the step keeps its own promises, when the lock is
    held by one activity at most. *)
Lemma step_cpu_ok lk sv x lk' sv' x' :
  cpu_step lk sv x lk' sv' x' → (holders (c_stack x) ≤ 1)%nat → cpu_ok sv x → cpu_ok sv' x'.
Proof.
  intros Hst Hle Hok. unfold cpu_ok in *.
  destruct Hst as [lk sv i f k E|sv i f k E|sv i f k E|lk sv i f k E|lk sv i f k E|lk sv i f k E
    |lk sv i f k r E|lk sv i f k r E|lk sv k|lk sv i f g k E]; simpl in *;
    unfold frame_ok in Hok |- *; try rewrite E in *; simpl; try tauto.
  - destruct Hok as [Hi Hk]. split; [done|]. rewrite holders_cons in Hle. unfold holding in Hle.
    rewrite E in Hle. eapply stack_ok_saved; [lia|done].
Qed.

Lemma lock_init_inv s : lock_init s → lock_inv s.
Proof.
  intros (Hl & Hs & Hc). split.
  - rewrite Hl. clear Hl Hs. induction Hc as [|x cpus (i & r & o & ->) _ IH]; [done|].
    by rewrite all_holders_cons, IH.
  - rewrite Hs. eapply Forall_impl; [exact Hc|]. intros x (i & r & o & ->). by split.
Qed.

Lemma lock_step_inv s s' : lock_inv s → lock_step s s' → lock_inv s'.
Proof.
  intros [Hcnt Hok] Hst. destruct Hst as [lk sv cpus c x lk' sv' x' Hc Hst]. simpl in *.
  pose proof (all_holders_elem cpus c x Hc) as Hle. pose proof (all_holders_insert cpus c x x' Hc) as Hins.
  pose proof (step_holders _ _ _ _ _ _ Hst) as Hh.
  assert (all_holders cpus ≤ 1)%nat as H1 by (rewrite Hcnt; destruct lk; lia).
  split; simpl.
  - destruct Hh as [(-> & -> & ?)|[(-> & -> & ?)|[(-> & ?)|(-> & ?)]]]; try destruct lk; lia.
  - apply Forall_forall. intros y [d Hd]%list_elem_of_lookup.
    apply list_lookup_insert_Some in Hd as [(-> & <- & _)|[Hne Hd]].
    { eapply step_cpu_ok; [done|lia|]. by eapply Forall_lookup_1. }
    pose proof (Forall_lookup_1 _ _ _ _ Hok Hd) as Hy.
    destruct (step_saved _ _ _ _ _ _ Hst) as [->|Hpos]; [done|].
    eapply stack_ok_saved; [|done].
    assert (holders (c_stack x) + holders (c_stack y) ≤ all_holders cpus)%nat; [|lia].
    pose proof (all_holders_insert cpus c x (mkCpu false []) Hc) as Hz. simpl in Hz.
    assert (<[c := mkCpu false []]> cpus !! d = Some y) as Hd' by (by rewrite list_lookup_insert_ne).
    pose proof (all_holders_elem _ _ _ Hd'). change (holders []) with 0%nat in Hz. lia.
Qed.

Lemma lock_reachable_inv s0 s : lock_init s0 → rtc lock_step s0 s → lock_inv s.
Proof. intros H0 Hr. apply lock_init_inv in H0. induction Hr; eauto using lock_step_inv. Qed.

(** C33: mutual exclusion.  Whatever the interleaving of the processors and of the
    interrupts, at most one activity is between the exchange that takes the lock
    and the store that releases it, and [locked] says whether there is one. *)
Theorem int_lock_mutual_exclusion s0 s :
  lock_init s0 → rtc lock_step s0 s →
  (all_holders (l_cpus s) ≤ 1)%nat ∧ (l_locked s = true ↔ all_holders (l_cpus s) = 1%nat).
Proof.
  intros H0 Hr. destruct (lock_reachable_inv s0 s H0 Hr) as [Hcnt _].
  destruct (l_locked s); split; [lia|done|lia|]. split; [done|lia].
Qed.

(** C34: the interrupt flag.  While an activity is inside the section interrupts
    are off on its processor, and when it leaves, the flag is what it was when it
    called [lock]; no other user of the lock can overwrite the saved flag. *)
Theorem int_lock_restores_flag s0 s c i f k r :
  lock_init s0 → rtc lock_step s0 s → l_cpus s !! c = Some (mkCpu i (f :: k)) →
  (f_pc f = Held → i = false) ∧
  (f_pc f = Left r → (if r then true else i) = f_orig f).
Proof.
  intros H0 Hr Hc. destruct (lock_reachable_inv s0 s H0 Hr) as [_ Hok].
  destruct (Forall_lookup_1 _ _ _ _ Hok Hc) as [Hf _]. unfold frame_ok in Hf. simpl in Hf.
  split; intros E; rewrite E in Hf; destruct Hf as [-> Hr']; [done|]. rewrite Hr'. by destruct (f_orig f).
Qed.

(** ** The window between the exchange and the disabling of interrupts *)

(** One processor: a handler spins on the lock that the activity it interrupted
    holds. *)
Definition stuck_sys (s : lock_sys) : Prop :=
  ∃ sv o o', s = mkLockSys true sv [mkCpu false [mkFrame Spin true o; mkFrame Got true o']].

Lemma stuck_step s s' : stuck_sys s → lock_step s s' → s' = s.
Proof.
  intros (sv & o & o' & ->) Hst. inversion Hst as [lk sv1 cpus c x lk' sv' x' Hc Hx]; subst.
  apply list_lookup_singleton_Some in Hc as [-> <-]. by inversion Hx; simplify_eq.
Qed.

(** C35: [try_lock] takes the lock before it turns interrupts off.  On a processor
    whose interrupts are on, an interrupt can arrive in between; if its handler
    takes the same lock it spins forever: the state is reachable from
    [IntLock::INIT], and no step of the machine leaves it. *)
Theorem int_lock_interrupt_deadlock :
  ∃ s0 s, lock_init s0 ∧ rtc lock_step s0 s ∧ l_locked s = true ∧ stuck_sys s ∧
    ∀ s', rtc lock_step s s' → s' = s.
Proof.
  set (s0 := mkLockSys false false [mkCpu true [mkFrame Out true false]]).
  set (s := mkLockSys true false [mkCpu false [mkFrame Spin true false; mkFrame Got true true]]).
  assert (stuck_sys s) as Hs by (by exists false, false, true).
  exists s0, s. split_and!; [|..|done|done|].
  - split_and!; [done..|]. repeat constructor. by exists true, true, false.
  - eapply rtc_l; [eapply (lock_step_cpu _ _ _ 0%nat); [done|by apply st_call]|].
    eapply rtc_l; [eapply (lock_step_cpu _ _ _ 0%nat); [done|by apply st_cas_ok]|].
    eapply rtc_l; [eapply (lock_step_cpu _ _ _ 0%nat); [done|by apply st_interrupt]|].
    eapply rtc_l; [eapply (lock_step_cpu _ _ _ 0%nat); [done|by apply st_call]|]. apply rtc_refl.
  - intros s' Hr. clearbody s. induction Hr as [|s1 s2 s3 Hst _ IH]; [done|].
    apply stuck_step in Hst as ->; [|done]. by apply IH.
Qed.
