(* ===== verification/FrameAlloc.v ===== *)
(** * FrameAlloc: the machine, and what the kernel expects of a frame allocator

    [Sys A] is the state every part of the kernel shares: memory, the
    processor's interrupt flag, the direct-map offset of
    [src/kernel/src/mm/vmm.rs] ([HHDM_OFFSET]) and the allocator's own state [A].
    [FrameAllocator] is the contract the heap and the page tables rely on; the
    physical memory manager discharges it in [PmmGlobal]. *)

From S2P Require Import Prelude Bits Mem Pmm Dll PmmInv PmmList PmmOps PmmSpec Locks.

Record Sys (A : Type) := mkSys {
  sy_mem : mem;
  sy_if : bool;
  sy_hhdm : Z;
  sy_alloc : A
}.
Arguments mkSys {A} sy_mem sy_if sy_hhdm sy_alloc.
Arguments sy_mem {A} s : rename.
Arguments sy_if {A} s : rename.
Arguments sy_hhdm {A} s : rename.
Arguments sy_alloc {A} s : rename.

Definition set_sy_mem {A : Type} (m : mem) (s : Sys A) : Sys A :=
  mkSys m (sy_if s) (sy_hhdm s) (sy_alloc s).

Definition if_lens {A : Type} : lens (Sys A) bool :=
  mkLens sy_if (λ b s, mkSys (sy_mem s) b (sy_hhdm s) (sy_alloc s)).

Definition alloc_lens {A : Type} : lens (Sys A) A :=
  mkLens sy_alloc (λ a s, mkSys (sy_mem s) (sy_if s) (sy_hhdm s) a).

(** Reading and writing a word of memory. *)
Definition load {A : Type} (a : Z) : M (Sys A) Z := gets (λ s, read_word (sy_mem s) a).

Definition store {A : Type} (a v : Z) : M (Sys A) unit :=
  modify (λ s, set_sy_mem (write_word a v (sy_mem s)) s).

(** The words of the frames in [G], through a direct map at offset [h]. *)
Definition frame_words (h : Z) (G : Z → Prop) (a : Z) : Prop :=
  ∃ g, G g ∧ fb_addr h g ≤ a < fb_addr h (g + 1).

(** Two machine states that agree but for memory and the allocator. *)
Definition same_cpu {A : Type} (s s' : Sys A) : Prop :=
  sy_if s' = sy_if s ∧ sy_hhdm s' = sy_hhdm s.

(** Frames that belong to somebody else.  The theorems about a component that takes
    frames from the allocator hold for any such set: the component never gets one of
    them and leaves their memory alone. *)
Class Reserved := reserved : Z → Prop.

Definition nobody : Reserved := λ _, False.

Definition reserved_kept `{!Reserved} {A : Type} (s s' : Sys A) : Prop :=
  ∀ x, frame_words (sy_hhdm s) reserved x → sy_mem s' !! x = sy_mem s !! x.

Class FrameAllocator (A : Type) := {
  fa_alloc : nat → M (Sys A) (option Z);
  fa_release : Z → nat → M (Sys A) unit;
  (** The allocator is in order and reaches memory at offset [h]. *)
  fa_ok : Z → Sys A → Prop;
  fa_free : Sys A → gset Z;
  fa_total : Sys A → Z;

  fa_bounds h s : fa_ok h s →
    0 < h ∧ h mod FRAME_SIZE = 0 ∧ h + fa_total s * FRAME_SIZE ≤ 2 ^ 64 ∧
    ∀ i, i ∈ fa_free s → 0 ≤ i < fa_total s;
  (** Memory outside the free frames, the interrupt flag and [HHDM_OFFSET] are
      none of the allocator's business. *)
  fa_frame h s m b o : fa_ok h s →
    same_outside (λ a, ¬ frame_words h (λ g, g ∈ fa_free s) a) (sy_mem s) m →
    let s' := mkSys m b o (sy_alloc s) in
    fa_ok h s' ∧ fa_free s' = fa_free s ∧ fa_total s' = fa_total s;
  fa_alloc_spec h s order : fa_ok h s → (order ≤ MAX_ORDER)%nat →
    wp (fa_alloc order) s (λ r s', fa_ok h s' ∧ fa_total s' = fa_total s ∧ same_cpu s s' ∧
      match r with
      | None => fa_free s' = fa_free s ∧ sy_mem s' = sy_mem s ∧
                ∀ f, ¬ free_run (fa_free s) f order
      | Some a => ∃ f, a = f * FRAME_SIZE ∧ free_run (fa_free s) f order ∧
                fa_free s' = fa_free s ∖ block_set f order ∧
                same_outside (frame_words h (λ g, g ∈ fa_free s)) (sy_mem s) (sy_mem s')
      end);
  fa_release_spec h s f order : fa_ok h s → (order ≤ MAX_ORDER)%nat →
    0 ≤ f → f mod blk order = 0 → f + blk order ≤ fa_total s →
    block_set f order ## fa_free s →
    wp (fa_release (f * FRAME_SIZE) order) s (λ _ s', fa_ok h s' ∧ fa_total s' = fa_total s ∧
      same_cpu s s' ∧ fa_free s' = fa_free s ∪ block_set f order ∧
      same_outside (frame_words h (λ g, g ∈ fa_free s')) (sy_mem s) (sy_mem s'))
}.

(** The machine together with the state [X] of the component that runs on it. *)
Record Machine (A X : Type) := mkMachine {
  m_sys : Sys A;
  m_own : X
}.
Arguments mkMachine {A X} m_sys m_own.
Arguments m_sys {A X} m : rename.
Arguments m_own {A X} m : rename.

Definition sys_lens {A X : Type} : lens (Machine A X) (Sys A) :=
  mkLens m_sys (λ s m, mkMachine s (m_own m)).

Definition own_lens {A X : Type} : lens (Machine A X) X :=
  mkLens m_own (λ x m, mkMachine (m_sys m) x).

Definition put_mem {A X : Type} (w : mem) (m : Machine A X) : Machine A X :=
  mkMachine (set_sy_mem w (m_sys m)) (m_own m).

(** Run an action of the machine from a component. *)
Definition on_sys {A X B : Type} (c : M (Sys A) B) : M (Machine A X) B :=
  λ m, match c (m_sys m) with
       | Ok (b, s) => Ok (b, mkMachine s (m_own m))
       | Panic msg => Panic msg
       | NoFuel => NoFuel
       end.

#[export] Instance if_lens_ok {A : Type} : LensOk (@if_lens A).
Proof. split; by intros; destruct s. Qed.

#[export] Instance alloc_lens_ok {A : Type} : LensOk (@alloc_lens A).
Proof. split; by intros; destruct s. Qed.

#[export] Instance if_alloc_indep {A : Type} : LensIndep (@if_lens A) (@alloc_lens A).
Proof. split; by intros; destruct s. Qed.

#[export] Instance sys_lens_ok {A X : Type} : LensOk (@sys_lens A X).
Proof. split; by intros; destruct s. Qed.

#[export] Instance own_lens_ok {A X : Type} : LensOk (@own_lens A X).
Proof. split; by intros; destruct s. Qed.

#[export] Instance if_own_indep {A X : Type} :
  LensIndep (lens_comp (@sys_lens A X) if_lens) own_lens.
Proof. split; by intros; destruct s. Qed.

Lemma wp_on_sys {A X B : Type} (c : M (Sys A) B) (m : Machine A X) Q :
  wp c (m_sys m) (λ b s, Q b (mkMachine s (m_own m))) → wp (on_sys c) m Q.
Proof. unfold wp, on_sys. by destruct (c (m_sys m)) as [[b s]|msg|]. Qed.

#[export] Instance same_cpu_refl {A : Type} : Reflexive (@same_cpu A).
Proof. by split. Qed.

#[export] Instance same_cpu_trans {A : Type} : Transitive (@same_cpu A).
Proof. intros s1 s2 s3 [H1 H2] [H3 H4]. split; congruence. Qed.

#[export] Instance reserved_kept_refl `{!Reserved} {A : Type} : Reflexive (@reserved_kept _ A).
Proof. by intros s x Hx. Qed.

Lemma reserved_kept_trans `{!Reserved} {A : Type} (s1 s2 s3 : Sys A) :
  same_cpu s1 s2 → reserved_kept s1 s2 → reserved_kept s2 s3 → reserved_kept s1 s3.
Proof. intros [_ Hh] H1 H2 x Hx. rewrite H2 by (by rewrite Hh). by apply H1. Qed.

(** What a component that is given frames keeps of the rest of the machine. *)
Definition sys_kept `{!Reserved} {A : Type} `{!FrameAllocator A} (s s' : Sys A) : Prop :=
  same_cpu s s' ∧ reserved_kept s s' ∧ fa_total s' = fa_total s.

#[export] Instance sys_kept_refl `{!Reserved} {A : Type} `{!FrameAllocator A} : Reflexive (sys_kept (A := A)).
Proof. by intros s. Qed.

#[export] Instance sys_kept_trans `{!Reserved} {A : Type} `{!FrameAllocator A} : Transitive (sys_kept (A := A)).
Proof.
  intros s1 s2 s3 (Hc & Hr & Ht) (Hc' & Hr' & Ht').
  split_and!; [by etransitivity|by eapply reserved_kept_trans|congruence].
Qed.

(** Writes to frames that are not reserved. *)
Lemma reserved_kept_outside `{!Reserved} {A : Type} (s s' : Sys A) (P : Z → Prop) :
  same_outside P (sy_mem s) (sy_mem s') → (∀ x, P x → ¬ frame_words (sy_hhdm s) reserved x) → reserved_kept s s'.
Proof. intros Hs HP x Hx. apply Hs. intros Hp. by apply (HP x). Qed.

Lemma frame_words_mono h (G G' : Z → Prop) a :
  (∀ g, G g → G' g) → frame_words h G a → frame_words h G' a.
Proof. intros HG (g & Hg & Ha). exists g. auto. Qed.

(** The frame a word belongs to is unique. *)
Lemma frame_words_inj h g g' a :
  fb_addr h g ≤ a < fb_addr h (g + 1) → fb_addr h g' ≤ a < fb_addr h (g' + 1) → g = g'.
Proof. unfold fb_addr. rewrite FRAME_SIZE_val. lia. Qed.

Lemma link_words_frame_words p G a :
  link_words p G a → frame_words (hhdm_offset p) G a.
Proof.
  intros (g & Hg & Ha). exists g. split; [done|].
  unfold fb_addr, OFF_PREV, OFF_NEXT in *. rewrite FRAME_SIZE_val in *. lia.
Qed.

(** A write outside the free frames does not disturb the allocator. *)
Lemma fa_write `{FrameAllocator A} h (s : Sys A) w :
  fa_ok h s → same_outside (λ a, ¬ frame_words h (λ g, g ∈ fa_free s) a) (sy_mem s) w →
  fa_ok h (set_sy_mem w s) ∧ fa_free (set_sy_mem w s) = fa_free s ∧
  fa_total (set_sy_mem w s) = fa_total s.
Proof. intros Hok Hw. exact (fa_frame h s w (sy_if s) (sy_hhdm s) Hok Hw). Qed.

(** A single frame. *)
Lemma free_run_0 (F : gset Z) f : 0 ≤ f → f ∈ F → free_run F f 0.
Proof.
  intros H0 Hf. unfold free_run. split_and!; [done|apply Z.mod_1_r|].
  intros i. rewrite elem_of_block_set; unfold in_block; rewrite blk_0. intros Hi. by replace i with f by lia.
Qed.

Lemma block_set_0 f : block_set f 0 = {[f]}.
Proof. apply set_eq. intros i. rewrite elem_of_block_set; unfold in_block; rewrite blk_0, elem_of_singleton. lia. Qed.
