(* ===== verification/PmmGlobal.v ===== *)
(** * PmmGlobal: the kernel-wide physical memory manager

    The functions of [src/kernel/src/mm/pmm.rs] that the rest of the kernel
    calls: they take the [PMM] mutex, unwrap the manager installed by
    [mm::init], and run one of its methods on it.  The file closes with the
    instance that makes them a [FrameAllocator]. *)

From S2P Require Import Prelude Bits Mem Pmm Dll PmmInv PmmList PmmOps PmmSpec.
From S2P Require Import Locks FrameAlloc.

(** [static PMM: Mutex<IntLock, Option<Pmm>>] *)
Definition PmmLock : Type := Mutex (option Pmm).

Definition PMM : lens (Sys PmmLock) (Mutex (option Pmm)) := alloc_lens.

Definition PMM_INIT : PmmLock := mkMutex IntLock_INIT None.

(** An entry of the boot loader's memory map, and the two types the kernel
    tells apart; their numbers belong to the boot protocol. *)
Record Entry := mkEntry { en_base : Z; en_length : Z; en_type : Z }.

Class Limine := {
  MEMMAP_USABLE : Z;
  MEMMAP_BOOTLOADER_RECLAIMABLE : Z
}.

(** Run a method of the manager inside the guard: [g.as_mut().unwrap().method()]. *)
Definition on_pmm {A : Type} (c : M pmm_state A) : M (Sys PmmLock) A :=
  λ s, match mx_data (sy_alloc s) with
       | None => Panic "called `Option::unwrap()` on a `None` value"
       | Some p =>
           match c (mkPS p (sy_mem s)) with
           | Ok (a, ps) =>
               Ok (a, mkSys (ps_mem ps) (sy_if s) (sy_hhdm s)
                        (mkMutex (mx_raw (sy_alloc s)) (Some (ps_self ps))))
           | Panic msg => Panic msg
           | NoFuel => NoFuel
           end
       end.

Section globals.
Context `{Profile}.

Definition install (p : Pmm) : M (Sys PmmLock) unit :=
  with_lock if_lens PMM (
    let! g := gets (lget (lens_comp PMM data_lens)) in
    do! assert_ (match g with None => true | Some _ => false end) "PMM already installed";
    modify (lset (lens_comp PMM data_lens) (Some p))).

Definition alloc_pages (order : nat) : M (Sys PmmLock) (option Z) :=
  with_lock if_lens PMM (on_pmm (Pmm.alloc_pages order)).

Definition free_pages (addr : Z) (order : nat) : M (Sys PmmLock) unit :=
  with_lock if_lens PMM (on_pmm (Pmm.free_pages addr order)).

Definition alloc_frame : M (Sys PmmLock) (option Z) :=
  with_lock if_lens PMM (on_pmm (Pmm.alloc_pages 0)).

Definition free_frame (addr : Z) : M (Sys PmmLock) unit :=
  with_lock if_lens PMM (on_pmm (Pmm.free_pages addr 0)).

Definition stats : M (Sys PmmLock) (Z * Z) :=
  with_lock if_lens PMM (
    on_pmm (gets (λ ps, (free_frames (ps_self ps), total_frames (ps_self ps))))).

(** The loop of [reclaim_bootloader]; [reclaimed] is the running count. *)
Fixpoint reclaim_loop `{Limine} (memmap : list Entry) (reclaimed : Z) : M pmm_state Z :=
  match memmap with
  | [] => ret reclaimed
  | entry :: rest =>
      if negb (en_type entry =? MEMMAP_BOOTLOADER_RECLAIMABLE) then reclaim_loop rest reclaimed
      else
        let first := u64_shr (en_base entry) FRAME_SHIFT in
        let count := u64_shr (en_length entry) FRAME_SHIFT in
        do! add_range first count;
        let! reclaimed' := u64_add reclaimed count in
        reclaim_loop rest reclaimed'
  end.

(** The message it prints multiplies the count by the frame size. *)
Definition reclaim_bootloader `{Limine} (memmap : list Entry) : M (Sys PmmLock) unit :=
  with_lock if_lens PMM (on_pmm (
    let! reclaimed := reclaim_loop memmap 0 in
    do! u64_mul reclaimed FRAME_SIZE;
    ret tt)).

End globals.

(** ** The contract *)

(** The manager is installed, its lock is free, and its invariant holds. *)
Definition pmm_sys_ok (h : Z) (s : Sys PmmLock) : Prop :=
  il_locked (mx_raw (sy_alloc s)) = false ∧
  ∃ p, mx_data (sy_alloc s) = Some p ∧ hhdm_offset p = h ∧ pmm_ok (mkPS p (sy_mem s)).

Definition pmm_sys_free (s : Sys PmmLock) : gset Z :=
  match mx_data (sy_alloc s) with Some p => free_set p | None => ∅ end.

Definition pmm_sys_total (s : Sys PmmLock) : Z :=
  match mx_data (sy_alloc s) with Some p => total_frames p | None => 0 end.

(** A method run under the guard: what it does to the manager and to memory is
    what the caller sees; the lock and the interrupt flag are as before. *)
Lemma wp_guarded `{Profile} {A : Type} (c : M pmm_state A) (s : Sys PmmLock) p
    (Q : A → Sys PmmLock → Prop) :
  il_locked (mx_raw (sy_alloc s)) = false → mx_data (sy_alloc s) = Some p →
  wp c (mkPS p (sy_mem s)) (λ a ps,
    Q a (mkSys (ps_mem ps) (sy_if s) (sy_hhdm s)
          (mkMutex (mkIntLock false (sy_if s)) (Some (ps_self ps))))) →
  wp (with_lock if_lens PMM (on_pmm c)) s Q.
Proof.
  intros Hfree Hp Hc. apply wp_with_lock; [apply _..|exact Hfree|].
  unfold wp, on_pmm in *. simpl. rewrite Hp.
  by destruct (c (mkPS p (sy_mem s))) as [[a ps]|msg|].
Qed.

(** Memory outside the links of the free frames is not the manager's. *)
Lemma core_mem s L m :
  core s L →
  (∀ a, link_words (ps_self s) (λ g, g ∈ free_set (ps_self s)) a → m !! a = ps_mem s !! a) →
  core (mkPS (ps_self s) m) L.
Proof.
  intros HI Hm. constructor; simpl; try apply HI.
  intros o Ho. eapply dllseg_frame; [|by apply (core_dll _ _ HI)].
  intros a. unfold addrs. rewrite list_elem_of_fmap. intros (f & -> & Hf).
  pose proof (listed_first_free HI o f Ho Hf) as Hfree.
  unfold get_prev, get_next, read_word.
  rewrite !Hm; [done|exists f; eauto..].
Qed.

Lemma pmm_ok_mem p m m' :
  pmm_ok (mkPS p m) →
  same_outside (λ a, ¬ frame_words (hhdm_offset p) (λ g, g ∈ free_set p) a) m m' →
  pmm_ok (mkPS p m').
Proof.
  intros [L [HI Hcnt]] Hm. exists L. split; [|done].
  apply (core_mem (mkPS p m)); [done|]. simpl. intros a Ha. apply Hm.
  intros Hn. by apply Hn, link_words_frame_words.
Qed.

Lemma pmm_step_frame_words G s s' :
  pmm_step G s s' →
  same_outside (frame_words (hhdm_offset (ps_self s)) G) (ps_mem s) (ps_mem s').
Proof.
  intros [_ Hm]. eapply same_outside_weaken; [exact Hm|]. intros a. apply link_words_frame_words.
Qed.

#[export] Program Instance pmm_frame_allocator `{Profile} : FrameAllocator PmmLock := {|
  fa_alloc := alloc_pages;
  fa_release := free_pages;
  fa_ok := pmm_sys_ok;
  fa_free := pmm_sys_free;
  fa_total := pmm_sys_total
|}.
Next Obligation.
  intros Hpr h s (Hl & p & Hp & <- & L & [HI _]). unfold pmm_sys_total, pmm_sys_free.
  rewrite Hp. split_and!; [apply HI..|]. intros i [Hi _]%elem_of_free_set. done.
Qed.
Next Obligation.
  intros Hpr h s m b o (Hl & p & Hp & Hh & Hok) Hm. unfold pmm_sys_free in Hm.
  rewrite Hp in Hm. simpl. unfold pmm_sys_ok, pmm_sys_total, pmm_sys_free. simpl.
  split; [|done]. split; [done|]. exists p. split_and!; [done..|].
  eapply pmm_ok_mem; [exact Hok|]. by rewrite Hh.
Qed.
Next Obligation.
  intros Hpr h s order (Hl & p & Hp & Hh & Hok) Ho.
  apply (wp_guarded _ _ p); [done..|].
  eapply wp_mono; [by apply alloc_pages_run|]. cbv beta. intros r ps [Hok' Hr].
  unfold pmm_sys_ok, pmm_sys_total, pmm_sys_free, same_cpu. simpl. rewrite Hp.
  destruct r as [a|].
  - destruct Hr as (f & -> & [(Hf0 & Ha & _) Hsub Hset Hst]). simpl in *.
    pose proof (st_shape _ _ _ Hst) as [Ht Hh']. simpl in *.
    split_and!; [done| |done..|].
    { exists (ps_self ps). split_and!; [done|congruence|by destruct ps]. }
    exists f. split_and!; [done..|]. rewrite <- Hh. by apply pmm_step_frame_words in Hst.
  - destruct Hr as [-> Hno]. simpl in *. split_and!; eauto.
Qed.
Next Obligation.
  intros Hpr h s f order (Hl & p & Hp & Hh & Hok) Ho Hf0 Ha He Hd.
  unfold pmm_sys_total, pmm_sys_free in He, Hd. rewrite Hp in He, Hd.
  apply (wp_guarded _ _ p); [done..|]. destruct Hok as [L HI].
  eapply wp_mono; [by apply (free_pages_spec _ L)|]. cbv beta. intros [] ps [Hok' Hset Hst].
  unfold pmm_sys_ok, pmm_sys_total, pmm_sys_free, same_cpu. simpl in *. rewrite Hp.
  pose proof (st_shape _ _ _ Hst) as [Ht Hh']. simpl in *. split_and!; [done| |done..|].
  - exists (ps_self ps). split_and!; [done|congruence|by destruct ps].
  - rewrite <- Hh. by apply pmm_step_frame_words in Hst.
Qed.
