(* ===== verification/MmInit.v ===== *)
(** * MmInit: building the physical memory manager at boot

    [align_up], [align_down] and the first half of [mm::init] of
    [src/kernel/src/mm/mod.rs]: from the boot loader's memory map, find how many
    frames the machine has, choose a usable region for the [frame_order]
    metadata, create the manager and hand it every usable frame but those of the
    metadata and frame 0. *)

From S2P Require Import Prelude Bits Mem Pmm Dll PmmInv PmmList PmmOps PmmSpec.
From S2P Require Import Locks FrameAlloc PmmGlobal.

Definition U64_MAX : Z := 2 ^ 64 - 1.

(** Run a method on a manager that is still a local variable. *)
Definition on_local {A : Type} (p : Pmm) (c : M pmm_state A) : M (Sys PmmLock) (A * Pmm) :=
  λ s, match c (mkPS p (sy_mem s)) with
       | Ok (a, ps) => Ok ((a, ps_self ps), set_sy_mem (ps_mem ps) s)
       | Panic msg => Panic msg
       | NoFuel => NoFuel
       end.

Section init.
Context `{Profile} `{Limine}.

Definition align_up {St : Type} (addr align : Z) : M St Z :=
  do! assert_ (is_power_of_two align) "assertion failed: align.is_power_of_two()";
  let! x := u64_add addr align in
  let! y := u64_sub x 1 in
  let! mask := u64_sub align 1 in
  ret (Z.land y (u64_not mask)).

Definition align_down {St : Type} (addr align : Z) : M St Z :=
  do! assert_ (is_power_of_two align) "assertion failed: align.is_power_of_two()";
  let! mask := u64_sub align 1 in
  ret (Z.land addr (u64_not mask)).

(** The end of the highest region. *)
Fixpoint highest_end {St : Type} (memmap : list Entry) (highest : Z) : M St Z :=
  match memmap with
  | [] => ret highest
  | entry :: rest =>
      let! e := u64_add (en_base entry) (en_length entry) in
      highest_end rest (if highest <? e then e else highest)
  end.

(** The first usable region that can hold the metadata. *)
Fixpoint find_order (memmap : list Entry) (order_bytes : Z) : Z :=
  match memmap with
  | [] => U64_MAX
  | entry :: rest =>
      if (en_type entry =? MEMMAP_USABLE) && (order_bytes <=? en_length entry)
      then en_base entry
      else find_order rest order_bytes
  end.

(** One of the two pieces of a region around the metadata. *)
Definition add_piece (s e : Z) : M pmm_state unit :=
  if e <=? s then ret tt
  else
    let s := if s =? 0 then 1 else s in
    if s <? e then
      let! n := u64_sub e s in
      add_range s n
    else ret tt.

Fixpoint add_entries (memmap : list Entry) (order_first order_last : Z) : M pmm_state unit :=
  match memmap with
  | [] => ret tt
  | entry :: rest =>
      if negb (en_type entry =? MEMMAP_USABLE) then add_entries rest order_first order_last
      else
        let entry_first := u64_shr (en_base entry) FRAME_SHIFT in
        let! e := u64_add (en_base entry) (en_length entry) in
        let entry_last := u64_shr e FRAME_SHIFT in
        do! add_piece entry_first (Z.min entry_last order_first);
        do! add_piece (Z.max entry_first order_last) entry_last;
        add_entries rest order_first order_last
  end.

(** [mm::init] up to the installation of the manager; the result is the number
    of free frames, which the caller prints.  The metadata slice is overwritten
    by [Pmm::new] before it is read. *)
Definition init_pmm (memmap : list Entry) (hhdm_offset : Z) : M (Sys PmmLock) Z :=
  let! highest := highest_end memmap 0 in
  let! top := align_up highest FRAME_SIZE in
  let total_frames := u64_shr top FRAME_SHIFT in
  let! order_bytes := align_up total_frames FRAME_SIZE in
  let order_phys := find_order memmap order_bytes in
  do! assert_ (negb (order_phys =? U64_MAX)) "no usable region large enough for frame_order";
  do! u64_add order_phys hhdm_offset;
  let! pmm := Pmm_new (replicate (Z.to_nat total_frames) 0) total_frames hhdm_offset in
  let order_first := u64_shr order_phys FRAME_SHIFT in
  let! order_last := u64_add order_first (u64_shr order_bytes FRAME_SHIFT) in
  let! r := on_local pmm (add_entries memmap order_first order_last) in
  let free := free_frames_count (snd r) in
  do! install (snd r);
  do! u64_mul free FRAME_SIZE;
  ret free.

End init.

(** ** What the boot protocol guarantees of the memory map *)
Section boot.
Context `{Limine}.

Definition usable (e : Entry) : bool := en_type e =? MEMMAP_USABLE.

(** The frames of a region. *)
Definition entry_frames (e : Entry) : gset Z :=
  range_set (en_base e / FRAME_SIZE) (en_length e / FRAME_SIZE).

Definition usable_frames (memmap : list Entry) : gset Z :=
  ⋃ (entry_frames <$> filter (λ e, usable e = true) memmap).

(** The machine's frames and the metadata they need, as [mm::init] computes them. *)
Definition round_up (x k : Z) : Z := (x + k - 1) / k * k.

Definition highest_of (memmap : list Entry) : Z :=
  foldr Z.max 0 ((λ e, en_base e + en_length e) <$> memmap).

Definition boot_frames (memmap : list Entry) : Z :=
  round_up (highest_of memmap) FRAME_SIZE / FRAME_SIZE.

Definition order_frames (memmap : list Entry) : Z :=
  round_up (boot_frames memmap) FRAME_SIZE / FRAME_SIZE.

(** Regions lie below [2^51]; usable ones are made of whole frames and do not
    overlap; the direct map is aligned, not at 0, and has room for all of it. *)
Record memmap_ok (memmap : list Entry) (hhdm : Z) : Prop := {
  mo_range e : e ∈ memmap →
    0 ≤ en_base e ∧ 0 ≤ en_length e ∧ en_base e + en_length e ≤ 2 ^ 51;
  mo_aligned e : e ∈ memmap → usable e = true →
    en_base e mod FRAME_SIZE = 0 ∧ en_length e mod FRAME_SIZE = 0;
  mo_disjoint i j e1 e2 : i ≠ j → memmap !! i = Some e1 → memmap !! j = Some e2 →
    usable e1 = true → usable e2 = true → entry_frames e1 ## entry_frames e2;
  mo_hhdm : 0 < hhdm ∧ hhdm mod FRAME_SIZE = 0 ∧ hhdm + 2 ^ 52 ≤ 2 ^ 64
}.

(** Some usable region can hold the metadata. *)
Definition has_room (memmap : list Entry) : Prop :=
  ∃ e, e ∈ memmap ∧ usable e = true ∧ order_frames memmap * FRAME_SIZE ≤ en_length e.
End boot.

(** ** Rounding *)
Lemma is_power_of_two_pow k : 0 ≤ k → is_power_of_two (2 ^ k) = true.
Proof.
  intros. unfold is_power_of_two. rewrite Z.log2_pow2 by done.
  pose proof (Z.pow_pos_nonneg 2 k). apply andb_true_iff. lia.
Qed.

Lemma round_up_bounds x k : 0 < k → x ≤ round_up x k < x + k.
Proof.
  intros. unfold round_up. pose proof (Z.div_mod (x + k - 1) k).
  pose proof (Z.mod_pos_bound (x + k - 1) k). lia.
Qed.

Lemma round_up_mod x k : 0 < k → round_up x k mod k = 0.
Proof. intros. unfold round_up. apply Z.mod_mul. lia. Qed.

Section rounding.
Context `{Profile}.

Lemma align_up_spec {St : Type} (s : St) addr k :
  0 ≤ k < 64 → 0 ≤ addr → addr + 2 ^ k < 2 ^ 64 →
  wp (align_up addr (2 ^ k)) s (λ r s', s' = s ∧ r = round_up addr (2 ^ k)).
Proof.
  intros Hk Ha Hov. pose proof (Z.pow_pos_nonneg 2 k). unfold align_up. wp_pure.
  apply wp_assert; [apply is_power_of_two_pow; lia|]. wp_pure.
  apply wp_u64_add; [unfold u64_range; lia|]. wp_pure.
  apply wp_u64_sub; [unfold u64_range; lia|]. wp_pure.
  apply wp_u64_sub; [unfold u64_range; lia|]. wp_pure. split; [done|].
  rewrite land_not_mask by lia. unfold round_up.
  pose proof (Z.div_mod (addr + 2 ^ k - 1) (2 ^ k)). lia.
Qed.

Lemma align_down_spec {St : Type} (s : St) addr k :
  0 ≤ k < 64 → u64_range addr →
  wp (align_down addr (2 ^ k)) s (λ r s', s' = s ∧ r = addr - addr mod 2 ^ k).
Proof.
  intros Hk Ha. pose proof (Z.pow_pos_nonneg 2 k).
  assert (2 ^ k < 2 ^ 64) by (apply Z.pow_lt_mono_r; lia).
  unfold align_down. wp_pure. apply wp_assert; [apply is_power_of_two_pow; lia|]. wp_pure.
  apply wp_u64_sub; [unfold u64_range; lia|]. wp_pure. split; [done|].
  by apply land_not_mask.
Qed.
End rounding.

(** ** The memory map *)
Section memmap.
Context `{Profile} `{Limine}.

Lemma highest_of_cons e memmap :
  highest_of (e :: memmap) = Z.max (en_base e + en_length e) (highest_of memmap).
Proof. done. Qed.

Lemma highest_end_spec {St : Type} (s : St) memmap h :
  0 ≤ h →
  (∀ e, e ∈ memmap → 0 ≤ en_base e ∧ 0 ≤ en_length e ∧ en_base e + en_length e ≤ 2 ^ 51) →
  wp (highest_end memmap h) s (λ r s', s' = s ∧ r = Z.max h (highest_of memmap)).
Proof.
  revert h. induction memmap as [|e memmap IH]; intros h Hh Hr; simpl.
  { apply wp_ret. split; [done|]. unfold highest_of. simpl. lia. }
  destruct (Hr e) as (Hb & Hl & He); [left|].
  apply wp_bind, wp_u64_add; [unfold u64_range; lia|].
  eapply wp_mono; [apply IH|].
  - destruct (Z.ltb_spec h (en_base e + en_length e)); lia.
  - intros. apply Hr. by right.
  - intros r s' [-> ->]. split; [done|]. rewrite highest_of_cons.
    destruct (Z.ltb_spec h (en_base e + en_length e)); lia.
Qed.

Lemma highest_of_elem memmap e : e ∈ memmap → en_base e + en_length e ≤ highest_of memmap.
Proof.
  induction memmap as [|e' memmap IH]; [by intros ?%not_elem_of_nil|].
  intros [->|Hin]%elem_of_cons; rewrite highest_of_cons; [lia|]. specialize (IH Hin). lia.
Qed.

Lemma highest_of_bounds memmap hhdm : memmap_ok memmap hhdm → 0 ≤ highest_of memmap ≤ 2 ^ 51.
Proof.
  intros [Hr _ _ _]. induction memmap as [|e memmap IH]; [unfold highest_of; simpl; lia|].
  rewrite highest_of_cons. destruct (Hr e) as (? & ? & ?); [left|]. destruct IH; [|lia].
  intros. apply Hr. by right.
Qed.

Lemma find_order_spec memmap n :
  (∃ e, e ∈ memmap ∧ usable e = true ∧ n ≤ en_length e) →
  ∃ e, e ∈ memmap ∧ usable e = true ∧ n ≤ en_length e ∧ find_order memmap n = en_base e.
Proof.
  induction memmap as [|e memmap IH]; intros (e0 & Hin & Hu & Hn).
  { by apply not_elem_of_nil in Hin. }
  simpl. unfold usable in *. destruct (en_type e =? MEMMAP_USABLE) eqn:He; simpl.
  - destruct (Z.leb_spec n (en_length e)).
    + exists e. split_and!; [left|done..].
    + apply elem_of_cons in Hin as [->|Hin]; [lia|].
      destruct IH as (e1 & ? & ? & ? & ?); [eauto|]. exists e1. split_and!; [by right|done..].
  - apply elem_of_cons in Hin as [->|Hin]; [congruence|].
    destruct IH as (e1 & ? & ? & ? & ?); [eauto|]. exists e1. split_and!; [by right|done..].
Qed.

(** ** Adding the usable frames *)
Lemma released_refl s : pmm_ok s → released s s ∅.
Proof. intros. split; [done|by rewrite union_empty_r_L|done]. Qed.

Lemma add_piece_spec s a b :
  pmm_ok s → 0 ≤ a → b ≤ total_frames (ps_self s) →
  range_set a (b - a) ## free_set (ps_self s) →
  wp (add_piece a b) s (λ _ s', released s s' (range_set a (b - a) ∖ {[0]})).
Proof.
  intros Hok Ha Hb Hd. unfold add_piece.
  assert (∀ B, B = range_set a (b - a) ∖ {[0]} → B = ∅ →
    wp (ret tt) s (λ _ s', released s s' (range_set a (b - a) ∖ {[0]}))) as Hnone.
  { intros B <- ->. by apply wp_ret, released_refl. }
  assert (∀ i, i ∈ range_set a (b - a) ∖ {[0]} ↔ a ≤ i < b ∧ i ≠ 0) as Hel.
  { intros i. rewrite elem_of_difference, elem_of_range_set, elem_of_singleton. lia. }
  destruct (Z.leb_spec b a).
  { eapply Hnone; [done|]. apply set_eq. intros i. rewrite Hel. set_unfold. lia. }
  set (a' := if a =? 0 then 1 else a).
  assert (∀ i, a ≤ i < b ∧ i ≠ 0 ↔ a' ≤ i < b) as Ha'.
  { intros i. unfold a'. destruct (Z.eqb_spec a 0); lia. }
  assert (a ≤ a') by (unfold a'; destruct (Z.eqb_spec a 0); lia).
  destruct (Z.ltb_spec a' b).
  - destruct Hok as [L HI]. pose proof (core_total_bound (inv_core _ _ HI)).
    apply wp_bind, wp_u64_sub; [unfold u64_range; lia|].
    assert (range_set a (b - a) ∖ {[0]} = range_set a' (b - a')) as ->.
    { apply set_eq. intros i. rewrite Hel, Ha', elem_of_range_set. lia. }
    apply add_range_loop_spec; [by exists L|done|lia..|].
    intros i Hi%elem_of_range_set Hf. apply (Hd i); [|done]. apply elem_of_range_set. lia.
  - eapply Hnone; [done|]. apply set_eq. intros i. rewrite Hel, Ha'. set_unfold. lia.
Qed.

Lemma usable_frames_cons e memmap :
  usable_frames (e :: memmap) =
  if usable e then entry_frames e ∪ usable_frames memmap else usable_frames memmap.
Proof. unfold usable_frames. rewrite filter_cons. by destruct (usable e). Qed.

(** The frames of a usable region, cut around the metadata. *)
Lemma entry_pieces e fi la :
  0 ≤ en_base e → 0 ≤ en_length e → fi ≤ la →
  en_base e mod FRAME_SIZE = 0 → en_length e mod FRAME_SIZE = 0 →
  let a := en_base e / FRAME_SIZE in
  let b := (en_base e + en_length e) / FRAME_SIZE in
  0 ≤ a ≤ b ∧
  entry_frames e ∖ range_set fi (la - fi) =
    range_set a (Z.min b fi - a) ∪ range_set (Z.max a la) (b - Z.max a la) ∧
  range_set a (Z.min b fi - a) ## range_set (Z.max a la) (b - Z.max a la).
Proof.
  intros Hb Hl Hol Hbm Hlm a b. rewrite FRAME_SIZE_val in *.
  assert (b = a + en_length e / 4096) as Hba.
  { unfold a, b. pose proof (Z.div_mod (en_base e) 4096). pose proof (Z.div_mod (en_length e) 4096).
    replace (en_base e + en_length e)
      with ((en_base e / 4096 + en_length e / 4096) * 4096) by lia.
    by rewrite Z.div_mul. }
  assert (0 ≤ a) by (by apply Z.div_pos). assert (0 ≤ en_length e / 4096) by (by apply Z.div_pos).
  split_and!; [done|lia| |].
  - frames_solver. unfold entry_frames. rewrite elem_of_range_set.
    change (en_length e / FRAME_SIZE) with (en_length e / 4096). fold a. lia.
  - intros i. rewrite !elem_of_range_set. lia.
Qed.

Lemma cut_sets (E U R N P1 P2 : gset Z) :
  E ∖ R = P1 ∪ P2 → (E ∪ U) ∖ R ∖ N = P1 ∖ N ∪ (P2 ∖ N ∪ U ∖ R ∖ N).
Proof.
  intros Hp. apply set_eq. intros i.
  assert (i ∈ E ∖ R ↔ i ∈ P1 ∪ P2) as Hi by (by rewrite Hp).
  rewrite elem_of_difference, elem_of_union in Hi.
  rewrite !elem_of_union, !elem_of_difference, !elem_of_union. tauto.
Qed.

Lemma add_entries_spec memmap s fi la :
  pmm_ok s → 0 ≤ fi ≤ la →
  (∀ e, e ∈ memmap → 0 ≤ en_base e ∧ 0 ≤ en_length e ∧
     en_base e + en_length e ≤ 2 ^ 51 ∧
     (en_base e + en_length e) / FRAME_SIZE ≤ total_frames (ps_self s)) →
  (∀ e, e ∈ memmap → usable e = true →
     en_base e mod FRAME_SIZE = 0 ∧ en_length e mod FRAME_SIZE = 0) →
  (∀ i j e1 e2, i ≠ j → memmap !! i = Some e1 → memmap !! j = Some e2 →
     usable e1 = true → usable e2 = true → entry_frames e1 ## entry_frames e2) →
  usable_frames memmap ## free_set (ps_self s) →
  wp (add_entries memmap fi la) s (λ _ s',
    released s s' (usable_frames memmap ∖ range_set fi (la - fi) ∖ {[0]})).
Proof.
  revert s. induction memmap as [|e memmap IH]; intros s Hok Hof Hr Hal Hdj Hd.
  { apply wp_ret. assert (usable_frames [] = ∅) as -> by done.
    replace (∅ ∖ range_set fi (la - fi) ∖ {[0]}) with (∅ : gset Z) by set_solver.
    by apply released_refl. }
  rewrite usable_frames_cons in *. simpl. unfold usable in *.
  destruct (en_type e =? MEMMAP_USABLE) eqn:Hu; simpl; cycle 1.
  { apply IH; [done..| | | |done]; [intros; apply Hr; by right|intros; apply Hal; [by right|done]|].
    intros i j e1 e2 Hij H1 H2. by apply (Hdj (S i) (S j)); [congruence|..]. }
  destruct (Hr e) as (Hb0 & Hl0 & He & Het); [left|].
  destruct (Hal e) as [Hbm Hlm]; [left|done|].
  destruct (entry_pieces e fi la) as (Hab & Hpieces & Hpd); [done..|lia|done|done|].
  apply wp_bind, wp_u64_add; [unfold u64_range; lia|].
  rewrite !u64_shr_div by (unfold FRAME_SHIFT; lia). fold FRAME_SIZE.
  set (a := en_base e / FRAME_SIZE) in *. set (b := (en_base e + en_length e) / FRAME_SIZE) in *.
  set (P1 := range_set a (Z.min b fi - a)) in *.
  set (P2 := range_set (Z.max a la) (b - Z.max a la)) in *.
  assert (entry_frames e ## usable_frames memmap) as Hrest.
  { unfold usable_frames. intros i Hi (X & (e2 & -> & Hin)%list_elem_of_fmap & Hi2)%elem_of_union_list.
    apply list_elem_of_filter in Hin as [Hu2 [k Hk]%list_elem_of_lookup].
    by apply (Hdj 0%nat (S k) e e2) with i. }
  assert (P1 ⊆ entry_frames e ∧ P2 ⊆ entry_frames e) as [HP1 HP2] by set_solver.
  eapply wp_seq; [apply (add_piece_spec s a (Z.min b fi)); [done|lia|lia|set_solver]|].
  cbv beta. intros [] s1 Hr1. pose proof Hr1 as [Hok1 Hset1 [[Ht1 _] _]].
  eapply wp_seq; [apply (add_piece_spec s1 (Z.max a la) b); [done|lia|rewrite Ht1; done|]|].
  { rewrite Hset1. fold P1 P2. set_solver. }
  cbv beta. intros [] s2 Hr2. pose proof Hr2 as [Hok2 Hset2 [[Ht2 _] _]].
  fold P1 in Hset1, Hr1. fold P2 in Hset2, Hr2.
  eapply wp_mono; [apply (IH s2 Hok2 Hof)|].
  - intros e' He'. rewrite Ht2, Ht1. apply Hr. by right.
  - intros e' He'. apply Hal. by right.
  - intros i j e1 e2 Hij H1 H2. by apply (Hdj (S i) (S j)); [congruence|..].
  - rewrite Hset2, Hset1. set_solver.
  - intros [] s3 Hr3. pose proof (released_trans _ _ _ _ _ Hr1 (released_trans _ _ _ _ _ Hr2 Hr3)) as Hr'.
    by rewrite (cut_sets _ _ _ _ _ _ Hpieces).
Qed.
End memmap.

(** ** Boot *)
Section boot_proofs.
Context `{Profile} `{Limine}.

(** The numbers [mm::init] computes stay far from the 64-bit bound. *)
Lemma boot_numbers memmap hhdm :
  memmap_ok memmap hhdm →
  let top := round_up (highest_of memmap) FRAME_SIZE in
  0 ≤ top < 2 ^ 52 ∧ top = boot_frames memmap * FRAME_SIZE ∧ 0 ≤ boot_frames memmap < 2 ^ 40 ∧
  round_up (boot_frames memmap) FRAME_SIZE = order_frames memmap * FRAME_SIZE ∧
  0 ≤ order_frames memmap < 2 ^ 41.
Proof.
  intros Hok top. pose proof (highest_of_bounds _ _ Hok) as Hh.
  pose proof (round_up_bounds (highest_of memmap) FRAME_SIZE ltac:(done)) as Ht.
  assert (top = boot_frames memmap * FRAME_SIZE) as Htop.
  { unfold boot_frames. fold top. pose proof (round_up_mod (highest_of memmap) FRAME_SIZE ltac:(done)).
    pose proof (Z.div_mod top FRAME_SIZE ltac:(done)). subst top. lia. }
  fold top in Ht. pose proof (round_up_bounds (boot_frames memmap) FRAME_SIZE ltac:(done)) as Ho.
  assert (round_up (boot_frames memmap) FRAME_SIZE = order_frames memmap * FRAME_SIZE) as Hof.
  { unfold order_frames. pose proof (round_up_mod (boot_frames memmap) FRAME_SIZE ltac:(done)).
    pose proof (Z.div_mod (round_up (boot_frames memmap) FRAME_SIZE) FRAME_SIZE ltac:(done)). lia. }
  rewrite FRAME_SIZE_val in *. split_and!; lia.
Qed.

Lemma align_up_frame {St : Type} (s : St) addr :
  0 ≤ addr < 2 ^ 52 →
  wp (align_up addr FRAME_SIZE) s (λ r s', s' = s ∧ r = round_up addr FRAME_SIZE).
Proof. intros. apply (align_up_spec s addr 12); lia. Qed.

Lemma wp_on_local {A : Type} p (c : M pmm_state A) (s : Sys PmmLock) (Q : A * Pmm → Sys PmmLock → Prop) :
  wp c (mkPS p (sy_mem s)) (λ a ps, Q (a, ps_self ps) (set_sy_mem (ps_mem ps) s)) →
  wp (on_local p c) s Q.
Proof. unfold wp, on_local. by destruct (c _) as [[a ps]|msg|]. Qed.

Lemma install_spec p (s : Sys PmmLock) :
  il_locked (mx_raw (sy_alloc s)) = false → mx_data (sy_alloc s) = None →
  wp (install p) s (λ _ s',
    s' = mkSys (sy_mem s) (sy_if s) (sy_hhdm s) (mkMutex (mkIntLock false (sy_if s)) (Some p))).
Proof.
  intros Hl Hd. apply wp_with_lock; [apply _..|exact Hl|]. wp_pure. simpl. rewrite Hd.
  by apply wp_assert.
Qed.

Lemma entries_fit memmap hhdm e :
  memmap_ok memmap hhdm → e ∈ memmap →
  0 ≤ en_base e ∧ 0 ≤ en_length e ∧ en_base e + en_length e ≤ 2 ^ 51 ∧
  (en_base e + en_length e) / FRAME_SIZE ≤ boot_frames memmap.
Proof.
  intros Hok He. destruct (mo_range _ _ Hok e He) as (? & ? & ?). split_and!; [done..|].
  apply Z.div_le_mono; [done|]. pose proof (highest_of_elem memmap e He).
  pose proof (round_up_bounds (highest_of memmap) FRAME_SIZE ltac:(done)). lia.
Qed.

(** The frame of the metadata. *)
Definition order_start (memmap : list Entry) : Z :=
  find_order memmap (order_frames memmap * FRAME_SIZE) / FRAME_SIZE.

(** The manager as [Pmm::new] makes it at boot. *)
Definition boot_pmm (memmap : list Entry) (hhdm : Z) : Pmm :=
  mkPmm (replicate NUM_ORDERS None) (replicate (Z.to_nat (boot_frames memmap)) ORDER_NONE)
        (boot_frames memmap) 0 hhdm.

(** What [mm::init] leaves free: the usable frames but the metadata and frame 0. *)
Definition boot_free (memmap : list Entry) : gset Z :=
  usable_frames memmap ∖ range_set (order_start memmap) (order_frames memmap) ∖ {[0]}.

Lemma boot_pmm_ok memmap hhdm m :
  memmap_ok memmap hhdm →
  pmm_ok (mkPS (boot_pmm memmap hhdm) m) ∧ free_set (boot_pmm memmap hhdm) = ∅.
Proof.
  intros Hok. destruct (boot_numbers memmap hhdm Hok) as (_ & _ & Hb & _ & _).
  pose proof (mo_hhdm _ _ Hok) as (Hh0 & Hha & Hhe).
  assert (free_set (boot_pmm memmap hhdm) = ∅) as Hf by (by apply fresh_free_set).
  split; [|done]. eexists. split.
  - apply fresh_core; [done..|simpl; lia|done|done|simpl; rewrite FRAME_SIZE_val; lia].
  - cbn [ps_self]. by rewrite Hf.
Qed.

Lemma order_start_bounds memmap hhdm :
  memmap_ok memmap hhdm → has_room memmap → 0 ≤ order_start memmap < 2 ^ 51.
Proof.
  intros Hok Hroom. destruct (find_order_spec memmap (order_frames memmap * FRAME_SIZE) Hroom)
    as (e & He & Hu & Hlen & Hfind).
  destruct (entries_fit memmap hhdm e Hok He) as (He0 & Hl0 & Hel & _).
  unfold order_start. rewrite Hfind, FRAME_SIZE_val. pose proof (Z.div_le_upper_bound (en_base e) 4096 (2 ^ 50)). pose proof (Z.div_pos (en_base e) 4096). rewrite FRAME_SIZE_val in Hlen. lia.
Qed.

Lemma boot_add_entries memmap hhdm (s : Sys PmmLock) :
  memmap_ok memmap hhdm → has_room memmap →
  let last := order_start memmap + order_frames memmap in
  wp (on_local (boot_pmm memmap hhdm) (add_entries memmap (order_start memmap) last)) s
    (λ r s', ∃ m, s' = set_sy_mem m s ∧ pmm_ok (mkPS (snd r) m) ∧ hhdm_offset (snd r) = hhdm ∧
      total_frames (snd r) = boot_frames memmap ∧ free_set (snd r) = boot_free memmap ∧
      same_outside (frame_words hhdm (λ g, g ∈ boot_free memmap)) (sy_mem s) m).
Proof.
  intros Hok Hroom last. destruct (boot_numbers memmap hhdm Hok) as (_ & _ & _ & _ & Ho).
  pose proof (order_start_bounds memmap hhdm Hok Hroom).
  destruct (boot_pmm_ok memmap hhdm (sy_mem s) Hok) as [Hok0 Hf].
  apply wp_on_local. eapply wp_mono.
  - apply (add_entries_spec memmap (mkPS (boot_pmm memmap hhdm) (sy_mem s)) (order_start memmap) last);
      [done|lia|intros; by apply (entries_fit memmap hhdm)|apply Hok|apply Hok|].
    cbn [ps_self]. rewrite Hf. set_solver.
  - cbv beta. intros [] ps [Hok' Hset Hst]. pose proof Hst as [[Ht' Hh'] _]. cbn [ps_self fst snd] in *.
    assert (free_set (ps_self ps) = boot_free memmap) as Hset'
      by (rewrite Hset, Hf, union_empty_l_L; unfold last; by rewrite Z.add_simpl_l).
    exists (ps_mem ps). split_and!; [done|by destruct ps|done|done|done|].
    apply pmm_step_frame_words in Hst. cbn [ps_self ps_mem] in Hst. by rewrite Hset' in Hst.
Qed.

Lemma init_pmm_spec memmap hhdm (s : Sys PmmLock) :
  memmap_ok memmap hhdm → has_room memmap → sy_alloc s = PMM_INIT →
  wp (init_pmm memmap hhdm) s (λ n s',
    pmm_sys_ok hhdm s' ∧ same_cpu s s' ∧ pmm_sys_total s' = boot_frames memmap ∧
    pmm_sys_free s' = boot_free memmap ∧ n = Z.of_nat (size (boot_free memmap)) ∧
    same_outside (frame_words hhdm (λ g, g ∈ boot_free memmap)) (sy_mem s) (sy_mem s')).
Proof.
  intros Hok Hroom Hinit. destruct (boot_numbers memmap hhdm Hok) as (Ht & Htop & Hb & Hob & Ho).
  pose proof (mo_hhdm _ _ Hok) as (Hh0 & Hha & Hhe). pose proof (highest_of_bounds _ _ Hok) as Hhi.
  pose proof (order_start_bounds memmap hhdm Hok Hroom) as Hos.
  destruct (find_order_spec memmap (order_frames memmap * FRAME_SIZE) Hroom)
    as (e & He & Hu & Hlen & Hfind).
  destruct (entries_fit memmap hhdm e Hok He) as (He0 & Hl0 & Hel & _).
  unfold init_pmm. wp_pure.
  eapply wp_mono; [apply highest_end_spec; [lia|apply Hok]|]. intros ? ? [-> ->]. wp_pure.
  rewrite Z.max_r by lia. eapply wp_mono; [apply align_up_frame; lia|]. intros ? ? [-> ->]. wp_pure.
  rewrite u64_shr_div by (unfold FRAME_SHIFT; lia).
  change (round_up (highest_of memmap) FRAME_SIZE / 2 ^ FRAME_SHIFT) with (boot_frames memmap).
  eapply wp_mono; [apply align_up_frame; lia|]. intros ? ? [-> ->]. wp_pure. rewrite Hob, Hfind.
  apply wp_assert; [unfold U64_MAX; destruct (Z.eqb_spec (en_base e) (2 ^ 64 - 1)); lia|]. wp_pure.
  apply wp_u64_add; [unfold u64_range; lia|]. wp_pure.
  unfold Pmm_new. wp_pure. rewrite length_replicate. apply wp_assert; [apply Z.eqb_eq; lia|]. wp_pure.
  rewrite !u64_shr_div by (unfold FRAME_SHIFT; lia). rewrite Z.div_mul by done.
  assert (en_base e / 2 ^ FRAME_SHIFT = order_start memmap) as ->
    by (unfold order_start; by rewrite Hfind).
  apply wp_u64_add; [unfold u64_range; lia|]. wp_pure.
  eapply wp_mono; [by apply boot_add_entries|].
  cbv beta. intros [[] p] ? (m & -> & Hpok & Hh & Htot & Hset & Hmem). cbn [fst snd] in *.
  wp_pure. eapply wp_mono; [apply install_spec; simpl; rewrite Hinit; reflexivity|]. intros [] ? ->. wp_pure.
  assert (free_frames_count p = Z.of_nat (size (boot_free memmap))) as Hcount.
  { destruct Hpok as [L HI]. pose proof (inv_count _ _ HI) as Hc. cbn [ps_self] in Hc. unfold free_frames_count. by rewrite Hc, Hset. }
  rewrite Hcount. apply wp_u64_mul.
  { destruct Hpok as [L [HC _]]. pose proof (free_size_bound HC) as Hsz. cbn [ps_self] in Hsz.
    rewrite Hset in Hsz. unfold u64_range. rewrite FRAME_SIZE_val. lia. }
  wp_pure. split_and!; [|done..]. split; [done|]. exists p. by split_and!.
Qed.
End boot_proofs.
