(* ===== verification/MmBoot.v ===== *)
(** * MmBoot: what the kernel can rely on once the frames are handed over

    The theorems about boot: the frames [mm::init] hands out, what happens when
    no region can hold the metadata, and the frames [reclaim_bootloader] of
    [src/kernel/src/mm/pmm.rs] adds later. *)

From S2P Require Import Prelude Bits Mem Pmm Dll PmmInv PmmList PmmOps PmmSpec.
From S2P Require Import Locks FrameAlloc PmmGlobal MmInit.

Section boot_theorems.
Context `{Profile} `{Limine}.

(** [align_up] rounds up and [align_down] rounds down to the power of two
    [2^k]: the result is the least multiple above, respectively the greatest
    multiple below, as long as the sum fits in 64 bits. *)
Theorem align_correct {St : Type} (s : St) addr k :
  0 ≤ k < 64 → 0 ≤ addr → addr + 2 ^ k < 2 ^ 64 →
  ∃ up down, align_up addr (2 ^ k) s = Ok (up, s) ∧ align_down addr (2 ^ k) s = Ok (down, s) ∧
    up mod 2 ^ k = 0 ∧ addr ≤ up < addr + 2 ^ k ∧
    down mod 2 ^ k = 0 ∧ down ≤ addr < down + 2 ^ k.
Proof.
  intros Hk Ha Hov. pose proof (Z.pow_pos_nonneg 2 k ltac:(lia) ltac:(lia)) as Hp.
  destruct (proj1 (wp_ok _ _ _) (align_up_spec s addr k Hk Ha Hov)) as (u & s1 & Hu & -> & Hur).
  destruct (proj1 (wp_ok _ _ _) (align_down_spec s addr k Hk ltac:(unfold u64_range; lia)))
    as (d & s2 & Hd & -> & Hdr).
  exists u, d. rewrite Hu, Hd. split_and!; [done..|rewrite Hur; by apply round_up_mod| | | | |].
  1-2: pose proof (round_up_bounds addr (2 ^ k) Hp); lia.
  - rewrite Hdr, Zminus_mod_idemp_r, Z.sub_diag. by apply Z.mod_0_l; lia.
  - pose proof (Z.mod_pos_bound addr (2 ^ k) Hp). lia.
  - pose proof (Z.mod_pos_bound addr (2 ^ k) Hp). lia.
Qed.

Lemma find_order_none memmap n :
  (∀ e, e ∈ memmap → usable e = true → en_length e < n) → find_order memmap n = U64_MAX.
Proof.
  induction memmap as [|e memmap IH]; intros Hno; [done|]. simpl.
  rewrite IH by (intros; apply Hno; [by right|done]).
  destruct (en_type e =? MEMMAP_USABLE) eqn:Hu; [|done]. simpl.
  assert (en_length e < n) by (apply Hno; [left|done]). by destruct (Z.leb_spec n (en_length e)); [lia|].
Qed.

(** When no usable region is large enough for the metadata, [mm::init]
    panics with its message; it never installs a manager over memory it does not
    own. *)
Theorem mm_init_no_room memmap hhdm (s : Sys PmmLock) :
  memmap_ok memmap hhdm → (∀ e, e ∈ memmap → usable e = true →
    en_length e < order_frames memmap * FRAME_SIZE) →
  init_pmm memmap hhdm s = Panic "no usable region large enough for frame_order".
Proof.
  intros Hok Hno. destruct (boot_numbers memmap hhdm Hok) as (Ht & Htop & Hb & Hob & Ho).
  pose proof (highest_of_bounds _ _ Hok) as Hhi. unfold init_pmm, bind at 1.
  destruct (proj1 (wp_ok _ _ _) (highest_end_spec s memmap 0 ltac:(lia) (mo_range _ _ Hok)))
    as (h & s1 & -> & -> & ->). rewrite Z.max_r by lia.
  unfold bind at 1.
  destruct (proj1 (wp_ok _ _ _) (align_up_frame s (highest_of memmap) ltac:(lia)))
    as (t & s1 & -> & -> & ->).
  rewrite u64_shr_div by (unfold FRAME_SHIFT; lia).
  change (round_up (highest_of memmap) FRAME_SIZE / 2 ^ FRAME_SHIFT) with (boot_frames memmap).
  unfold bind at 1.
  destruct (proj1 (wp_ok _ _ _) (align_up_frame s (boot_frames memmap) ltac:(lia)))
    as (t & s1 & -> & -> & ->).
  by rewrite Hob, find_order_none.
Qed.

(** C16: from a memory map that obeys the boot protocol, [mm::init] installs a
    manager that is in order, leaves the processor's interrupt flag as it was,
    and whose free frames are exactly the usable frames but those of the
    [frame_order] metadata and frame 0; the count it prints is their number. *)
Theorem mm_init_correct memmap hhdm (s : Sys PmmLock) :
  memmap_ok memmap hhdm → has_room memmap → sy_alloc s = PMM_INIT →
  ∃ n s', init_pmm memmap hhdm s = Ok (n, s') ∧ fa_ok hhdm s' ∧ same_cpu s s' ∧
    fa_total s' = boot_frames memmap ∧ n = Z.of_nat (size (fa_free s')) ∧
    (∀ i, i ∈ fa_free s' ↔ i ≠ 0 ∧ i ∈ usable_frames memmap ∧
       ¬ order_start memmap ≤ i < order_start memmap + order_frames memmap).
Proof.
  intros Hok Hroom Hinit.
  destruct (proj1 (wp_ok _ _ _) (init_pmm_spec memmap hhdm s Hok Hroom Hinit))
    as (n & s' & Heq & Hpok & Hcpu & Htot & Hfree & Hn & _).
  exists n, s'. split_and!; [done..|by rewrite Hn, <- Hfree|]. intros i. simpl. rewrite Hfree.
  unfold boot_free. rewrite !elem_of_difference, elem_of_range_set, elem_of_singleton. tauto.
Qed.

(** ** Reclaiming the boot loader's memory *)
Definition reclaimable (e : Entry) : bool := en_type e =? MEMMAP_BOOTLOADER_RECLAIMABLE.

Definition reclaim_frames (memmap : list Entry) : gset Z :=
  ⋃ (entry_frames <$> filter (λ e, reclaimable e = true) memmap).

Lemma reclaim_frames_cons e memmap :
  reclaim_frames (e :: memmap) =
  if reclaimable e then entry_frames e ∪ reclaim_frames memmap else reclaim_frames memmap.
Proof. unfold reclaim_frames. rewrite filter_cons. by destruct (reclaimable e). Qed.

(** The regions to reclaim do not overlap each other or the free frames, and lie
    inside the machine. *)
Record reclaim_ok (memmap : list Entry) (total : Z) (F : gset Z) : Prop := {
  ro_range e : e ∈ memmap → reclaimable e = true → 0 ≤ en_base e ∧ 0 ≤ en_length e ∧
    en_base e / FRAME_SIZE + en_length e / FRAME_SIZE ≤ total;
  ro_disjoint i j e1 e2 : i ≠ j → memmap !! i = Some e1 → memmap !! j = Some e2 →
    reclaimable e1 = true → reclaimable e2 = true → entry_frames e1 ## entry_frames e2;
  ro_free : reclaim_frames memmap ## F
}.

Lemma reclaim_ok_tail e memmap total F :
  reclaim_ok (e :: memmap) total F → reclaim_ok memmap total F.
Proof.
  intros [Hr Hd Hf]. split.
  - intros. apply Hr; [by right|done].
  - intros i j e1 e2 Hij H1 H2. by apply (Hd (S i) (S j)); [congruence|..].
  - rewrite reclaim_frames_cons in Hf. destruct (reclaimable e); set_solver.
Qed.

Lemma reclaim_head_disjoint e memmap total F :
  reclaim_ok (e :: memmap) total F → reclaimable e = true → entry_frames e ## reclaim_frames memmap.
Proof.
  intros [_ Hd _] Hu. unfold reclaim_frames.
  intros i Hi (X & (e2 & -> & Hin)%list_elem_of_fmap & Hi2)%elem_of_union_list.
  apply list_elem_of_filter in Hin as [Hu2 [k Hk]%list_elem_of_lookup].
  by apply (Hd 0%nat (S k) e e2) with i.
Qed.

Lemma reclaim_loop_spec memmap s reclaimed :
  pmm_ok s → reclaim_ok memmap (total_frames (ps_self s)) (free_set (ps_self s)) →
  0 ≤ reclaimed → reclaimed + Z.of_nat (size (reclaim_frames memmap)) < 2 ^ 64 →
  wp (reclaim_loop memmap reclaimed) s (λ r s',
    released s s' (reclaim_frames memmap) ∧
    r = reclaimed + Z.of_nat (size (reclaim_frames memmap))).
Proof.
  revert s reclaimed. induction memmap as [|e memmap IH]; intros s n Hok Hro Hn Hb.
  { apply wp_ret. split; [by apply released_refl|]. change (reclaim_frames []) with (∅ : gset Z).
    rewrite size_empty. lia. }
  pose proof (reclaim_ok_tail _ _ _ _ Hro) as Hro'. pose proof (ro_free _ _ _ Hro) as Hf.
  pose proof (reclaim_head_disjoint _ _ _ _ Hro) as Hhd.
  rewrite reclaim_frames_cons in *. simpl. unfold reclaimable in *.
  destruct (en_type e =? MEMMAP_BOOTLOADER_RECLAIMABLE) eqn:Hu; simpl; [|by apply IH].
  destruct (ro_range _ _ _ Hro e) as (Hb0 & Hl0 & He); [left|done|]. specialize (Hhd eq_refl).
  rewrite !u64_shr_div by (unfold FRAME_SHIFT; lia). fold FRAME_SIZE.
  assert (0 ≤ en_length e / FRAME_SIZE) by (by apply Z.div_pos).
  pose proof (size_range_set (en_base e / FRAME_SIZE) (en_length e / FRAME_SIZE) ltac:(done)) as Hsz.
  fold (entry_frames e) in Hsz. rewrite size_union, Nat2Z.inj_add, Hsz in Hb |- * by done.
  eapply wp_seq; [apply (add_range_loop_spec _ s); [done|done|by apply Z.div_pos|done|done|]|].
  { fold (entry_frames e). set_solver. }
  cbv beta. intros [] s1 Hr1. pose proof Hr1 as [Hok1 Hset1 [[Ht1 _] _]].
  apply wp_bind, wp_u64_add; [unfold u64_range; lia|].
  eapply wp_mono; [apply IH; [done| |lia|lia]|].
  - rewrite Ht1, Hset1. destruct Hro' as [Hr Hd Hf']. split; [done..|]. fold (entry_frames e). set_solver.
  - intros r s2 [Hr2 ->]. split; [by apply (released_trans _ _ _ _ _ Hr1 Hr2)|lia].
Qed.

(** [reclaim_bootloader] adds to the free frames exactly those of the
    regions the boot loader left to be reclaimed, whatever else the memory map
    holds; the manager stays in order and the interrupt flag is as it was. *)
Theorem reclaim_adds h memmap (s : Sys PmmLock) :
  fa_ok h s → reclaim_ok memmap (fa_total s) (fa_free s) →
  ∃ s', reclaim_bootloader memmap s = Ok (tt, s') ∧ fa_ok h s' ∧ same_cpu s s' ∧
    fa_total s' = fa_total s ∧ fa_free s' = fa_free s ∪ reclaim_frames memmap.
Proof.
  intros (Hl & p & Hp & Hh & Hpok) Hro. simpl in Hro. unfold pmm_sys_total, pmm_sys_free in Hro.
  rewrite Hp in Hro. simpl. unfold pmm_sys_ok, pmm_sys_total, pmm_sys_free. rewrite Hp.
  assert (Z.of_nat (size (reclaim_frames memmap)) < 2 ^ 52) as Hsz.
  { destruct Hpok as [L [HC _]]. pose proof (core_total_bound HC) as Hb. pose proof (core_len _ _ HC) as Hln. cbn [ps_self] in Hb, Hln.
    pose proof (size_range_set 0 (total_frames p)) as Hs.
    assert (reclaim_frames memmap ⊆ range_set 0 (total_frames p)) as Hsub%subseteq_size.
    { unfold reclaim_frames. intros i (X & (e & -> & Hin)%list_elem_of_fmap & Hi)%elem_of_union_list.
      apply list_elem_of_filter in Hin as [Hu Hin]. destruct (ro_range _ _ _ Hro e Hin Hu) as (? & ? & ?).
      apply elem_of_range_set in Hi. apply elem_of_range_set.
      pose proof (Z.div_pos (en_base e) FRAME_SIZE). rewrite FRAME_SIZE_val in *. lia. }
    lia. }
  destruct (proj1 (wp_ok (reclaim_bootloader memmap) s (λ _ s', pmm_sys_ok h s' ∧ same_cpu s s' ∧
    pmm_sys_total s' = total_frames p ∧ pmm_sys_free s' = free_set p ∪ reclaim_frames memmap)))
    as ([] & s' & Heq & ?); [|by exists s'].
  apply (wp_guarded _ _ p); [done..|].
  eapply wp_seq; [apply reclaim_loop_spec; [done|done|lia|lia]|].
  cbv beta. intros r ps [[Hok' Hset [[Ht Hho] _]] ->]. cbn [ps_self] in *.
  apply wp_bind, wp_u64_mul; [unfold u64_range; rewrite FRAME_SIZE_val; lia|]. apply wp_ret.
  split_and!; [|done|done|done]. split; [done|]. exists (ps_self ps).
  split_and!; [done|congruence|by destruct ps].
Qed.
End boot_theorems.
