(* ===== verification/BootExamples.v ===== *)
(** * BootExamples: locks and boot on concrete machines

    A state with one lock, a memory map of four regions, and a machine that
    boots on it; the theorems of [Locks], [LockSteps] and [MmBoot] are applied
    there. *)

From S2P Require Import Prelude Bits Mem Pmm Dll PmmInv PmmList PmmOps PmmSpec PmmExamples.
From S2P Require Import Locks LockSteps FrameAlloc PmmGlobal MmInit MmBoot.

#[local] Existing Instance dev_profile.

(** ** Locks *)
Definition ex_cell : Type := (bool * Mutex (option Z))%type.

Definition ex_cpu : lens ex_cell bool := mkLens fst (λ b s, (b, snd s)).

Definition ex_mx : lens ex_cell (Mutex (option Z)) := mkLens snd (λ m s, (fst s, m)).

#[local] Instance ex_cpu_ok : LensOk ex_cpu.
Proof. split; intros; [reflexivity|destruct s; reflexivity|reflexivity]. Qed.

#[local] Instance ex_mx_ok : LensOk ex_mx.
Proof. split; intros; [reflexivity|destruct s; reflexivity|reflexivity]. Qed.

#[local] Instance ex_indep : LensIndep ex_cpu ex_mx.
Proof. split; intros; reflexivity. Qed.

Definition ex_unset : ex_cell := (true, mkMutex IntLock_INIT None).

Lemma int_lock_attempts_witness :
  ∃ s', int_lock ex_cpu 3 (lens_comp ex_mx raw_lens) ex_unset = Ok (tt, s') ∧
    int_lock ex_cpu 2 (lens_comp ex_mx raw_lens) s' = NoFuel.
Proof.
  destruct (int_lock_attempts ex_cpu 2 (lens_comp ex_mx raw_lens) ex_unset _ _) as (s' & Heq & _ & _ & Hn & _).
  exists s'. split; [exact Heq|exact Hn].
Defined.

(** A spin lock alone, with two exchanges that fail spuriously. *)
Definition ex_spin : lens SpinLock SpinLock := mkLens id (λ v _, v).

#[local] Instance ex_spin_ok : LensOk ex_spin.
Proof. by split. Qed.

Lemma spin_lock_correct_witness :
  spin_lock 3 [true; true] ex_spin SpinLock_INIT = Ok (tt, mkSpinLock true).
Proof.
  exact (proj1 (spin_lock_correct 0 [true; true] ex_spin SpinLock_INIT ex_spin_ok)).
Defined.

Lemma singleton_once_witness :
  ∃ s', singleton_install ex_cpu ex_mx 7 ex_unset = Ok (tt, s') ∧
    panics (singleton_install ex_cpu ex_mx 8) s'.
Proof.
  destruct (singleton_once ex_cpu ex_mx ex_unset 7 8 (λ v, ret (v, v)) _ _ eq_refl eq_refl)
    as (s' & Heq & _ & _ & _ & Hp & _).
  exists s'. split; [exact Heq|exact Hp].
Defined.

Lemma critical_section_correct_witness :
  critical_section ex_cpu (gets (lget ex_cpu)) ex_unset = Ok (false, ex_unset).
Proof.
  exact (critical_section_correct ex_cpu (gets (lget ex_cpu)) ex_unset false
    (false, mkMutex IntLock_INIT None) eq_refl eq_refl).
Defined.

(** Two processors; the first is inside the section, the second spins. *)
Definition ex_lock0 : lock_sys :=
  mkLockSys false false [mkCpu true [mkFrame Out true false]; mkCpu true [mkFrame Out true false]].

Definition ex_lock1 : lock_sys :=
  mkLockSys true true
    [mkCpu false [mkFrame Held true true]; mkCpu true [mkFrame Spin true true]].

Lemma ex_lock0_init : lock_init ex_lock0.
Proof.
  split; [reflexivity|]. split; [reflexivity|].
  repeat constructor; exists true, true, false; reflexivity.
Qed.

Lemma ex_lock_run : rtc lock_step ex_lock0 ex_lock1.
Proof.
  eapply rtc_l; [eapply (lock_step_cpu _ _ _ 1%nat); [reflexivity|apply st_call; reflexivity]|].
  eapply rtc_l; [eapply (lock_step_cpu _ _ _ 0%nat); [reflexivity|apply st_call; reflexivity]|].
  eapply rtc_l; [eapply (lock_step_cpu _ _ _ 0%nat); [reflexivity|apply st_cas_ok; reflexivity]|].
  eapply rtc_l; [eapply (lock_step_cpu _ _ _ 0%nat); [reflexivity|apply st_save; reflexivity]|].
  eapply rtc_l; [eapply (lock_step_cpu _ _ _ 0%nat); [reflexivity|apply st_disable; reflexivity]|].
  apply rtc_refl.
Qed.

Lemma int_lock_mutual_exclusion_witness : (all_holders (l_cpus ex_lock1) ≤ 1)%nat.
Proof. exact (proj1 (int_lock_mutual_exclusion ex_lock0 ex_lock1 ex_lock0_init ex_lock_run)). Defined.

(** The first processor has cleared [locked] and is about to restore the flag. *)
Definition ex_lock2 : lock_sys :=
  mkLockSys false true
    [mkCpu false [mkFrame (Left true) true true]; mkCpu true [mkFrame Spin true true]].

Lemma ex_lock_run2 : rtc lock_step ex_lock0 ex_lock2.
Proof.
  transitivity ex_lock1; [exact ex_lock_run|].
  eapply rtc_l; [eapply (lock_step_cpu _ _ _ 0%nat); [reflexivity|apply st_read; reflexivity]|].
  eapply rtc_l; [eapply (lock_step_cpu _ _ _ 0%nat); [reflexivity|eapply st_release; reflexivity]|].
  apply rtc_refl.
Qed.

Lemma int_lock_restores_flag_witness :
  l_cpus ex_lock2 !! 0%nat = Some (mkCpu false [mkFrame (Left true) true true]) ∧
  (if true then true else false) = f_orig (mkFrame (Left true) true true).
Proof.
  split; [reflexivity|].
  exact (proj2 (int_lock_restores_flag ex_lock0 ex_lock2 0 false (mkFrame (Left true) true true) [] true
    ex_lock0_init ex_lock_run2 eq_refl) eq_refl).
Defined.

(** ** Boot *)
#[local] Instance ex_limine : Limine :=
  {| MEMMAP_USABLE := 0; MEMMAP_BOOTLOADER_RECLAIMABLE := 5 |}.

(** Frames 0 to 3 and 6 to 15 are usable; 4 is reserved, 5 the boot loader's. *)
Definition ex_memmap : list Entry :=
  [mkEntry 0 0x4000 0; mkEntry 0x4000 0x1000 1; mkEntry 0x5000 0x1000 5; mkEntry 0x6000 0xa000 0].

Definition ex_boot0 : Sys PmmLock := mkSys ∅ true 0 PMM_INIT.

Lemma ex_memmap_forall (P : Entry → Prop) :
  P (mkEntry 0 0x4000 0) → P (mkEntry 0x4000 0x1000 1) → P (mkEntry 0x5000 0x1000 5) →
  P (mkEntry 0x6000 0xa000 0) → ∀ e, e ∈ ex_memmap → P e.
Proof.
  intros H1 H2 H3 H4 e He. unfold ex_memmap in He.
  repeat (apply elem_of_cons in He as [->|He]; [assumption|]). by apply not_elem_of_nil in He.
Qed.

Lemma ex_memmap_ok : memmap_ok ex_memmap ex_hhdm.
Proof.
  split.
  - apply (ex_memmap_forall (λ e, 0 ≤ en_base e ∧ 0 ≤ en_length e ∧ en_base e + en_length e ≤ 2 ^ 51));
      simpl; lia.
  - apply (ex_memmap_forall (λ e, usable e = true →
      en_base e mod FRAME_SIZE = 0 ∧ en_length e mod FRAME_SIZE = 0)); intros _; split; reflexivity.
  - intros i j e1 e2 Hij H1 H2 Hu1 Hu2.
    destruct i as [|[|[|[|i]]]], j as [|[|[|[|j]]]]; simplify_eq/=; try discriminate;
      apply (bool_decide_unpack (_ ## _)); vm_compute; exact I.
  - split; [unfold ex_hhdm; lia|]. split; [reflexivity|unfold ex_hhdm; lia].
Qed.

Lemma ex_has_room : has_room ex_memmap.
Proof.
  exists (mkEntry 0 0x4000 0). split; [left|]. split; [reflexivity|].
  vm_compute. intros Hc. discriminate Hc.
Qed.

Definition ex_boot1 : Sys PmmLock := run_state (init_pmm ex_memmap ex_hhdm) ex_boot0.

(** The metadata takes frame 0, so frames 1 to 3 and 6 to 15 are free. *)
Example ex_boot_run :
  init_pmm ex_memmap ex_hhdm ex_boot0 = Ok (13, ex_boot1) ∧ pmm_sys_total ex_boot1 = 16.
Proof. vm_compute. done. Qed.

Lemma mm_init_correct_witness :
  ∃ n s', init_pmm ex_memmap ex_hhdm ex_boot0 = Ok (n, s') ∧ fa_ok ex_hhdm s'.
Proof.
  destruct (mm_init_correct ex_memmap ex_hhdm ex_boot0 ex_memmap_ok ex_has_room eq_refl)
    as (n & s' & Heq & Hok & _).
  exists n, s'. split; [exact Heq|exact Hok].
Defined.

(** A machine whose only usable region is too small for its metadata. *)
Definition ex_tight : list Entry := [mkEntry 0x1000 0x1000 0; mkEntry 0x10000000 0x1000 1].

Lemma mm_init_no_room_witness :
  init_pmm ex_tight ex_hhdm ex_boot0 = Panic "no usable region large enough for frame_order".
Proof.
  apply (mm_init_no_room ex_tight ex_hhdm ex_boot0).
  - split.
    + intros e He. unfold ex_tight in He. apply elem_of_cons in He as [->|He]; [simpl; lia|].
      apply list_elem_of_singleton in He as ->. simpl. lia.
    + intros e He. unfold ex_tight in He. apply elem_of_cons in He as [->|He]; [intros _; split; reflexivity|].
      apply list_elem_of_singleton in He as ->. intros _. split; reflexivity.
    + intros i j e1 e2 Hij H1 H2 Hu1 Hu2.
      destruct i as [|[|i]], j as [|[|j]]; simplify_eq/=; discriminate.
    + split; [unfold ex_hhdm; lia|]. split; [reflexivity|unfold ex_hhdm; lia].
  - intros e He. unfold ex_tight in He. apply elem_of_cons in He as [->|He].
    + intros _. vm_compute. reflexivity.
    + apply list_elem_of_singleton in He as ->. intros Hu. discriminate Hu.
Defined.

Lemma ex_boot1_eq : ex_boot1 = run_state (init_pmm ex_memmap ex_hhdm) ex_boot0.
Proof. vm_compute. reflexivity. Qed.

Lemma ex_boot1_ok : fa_ok ex_hhdm ex_boot1.
Proof.
  rewrite ex_boot1_eq. apply (run_state_wp (init_pmm ex_memmap ex_hhdm) ex_boot0 (fa_ok ex_hhdm)).
  eapply wp_mono; [exact (init_pmm_spec ex_memmap ex_hhdm ex_boot0 ex_memmap_ok ex_has_room eq_refl)|].
  intros n s' [Hok _]. exact Hok.
Qed.

Lemma ex_reclaim_ok : reclaim_ok ex_memmap (fa_total ex_boot1) (fa_free ex_boot1).
Proof.
  split.
  - apply (ex_memmap_forall (λ e, reclaimable e = true → 0 ≤ en_base e ∧ 0 ≤ en_length e ∧
      en_base e / FRAME_SIZE + en_length e / FRAME_SIZE ≤ fa_total ex_boot1));
      intros Hr; try discriminate Hr. vm_compute. split_and!; done.
  - intros i j e1 e2 Hij H1 H2 Hu1 Hu2.
    destruct i as [|[|[|[|i]]]], j as [|[|[|[|j]]]]; simplify_eq/=; discriminate.
  - apply (bool_decide_unpack (_ ## _)). vm_compute. exact I.
Qed.

Lemma reclaim_adds_witness :
  ∃ s', reclaim_bootloader ex_memmap ex_boot1 = Ok (tt, s') ∧
    fa_free s' = fa_free ex_boot1 ∪ reclaim_frames ex_memmap.
Proof.
  destruct (reclaim_adds ex_hhdm ex_memmap ex_boot1 ex_boot1_ok ex_reclaim_ok) as (s' & Heq & _ & _ & _ & Hf).
  exists s'. split; [exact Heq|exact Hf].
Defined.

Lemma align_correct_witness :
  ∃ up down, align_up 0x1234 (2 ^ 12) ex_boot0 = Ok (up, ex_boot0) ∧
    align_down 0x1234 (2 ^ 12) ex_boot0 = Ok (down, ex_boot0) ∧
    up mod 2 ^ 12 = 0 ∧ 0x1234 ≤ up < 0x1234 + 2 ^ 12 ∧
    down mod 2 ^ 12 = 0 ∧ down ≤ 0x1234 < down + 2 ^ 12.
Proof. apply (align_correct ex_boot0 0x1234 12); lia. Defined.
