(* ===== verification/Heap.v ===== *)
(** * Heap: the kernel's allocator ([src/kernel/src/mm/heap.rs])

    Small requests are served from slabs: one frame each, cut into objects of
    one of seven sizes, with a header at the front and the free objects linked
    through their first word.  Larger requests go to the frame allocator.  The
    heap works against any [FrameAllocator]; its own state is the mutex around
    [HeapInner].  A raw pointer is its address, [null] is 0.  What Rust calls
    undefined behaviour ([unwrap_unchecked] of [None], [NonNull::new_unchecked]
    of null) is a panic of the model, which the theorems exclude. *)

From S2P Require Import Prelude Bits Mem Pmm Dll PmmInv PmmList PmmOps PmmSpec.
From S2P Require Import Locks FrameAlloc.

Definition MIN_BUCKET_SHIFT : Z := 4.
Definition MAX_BUCKET_SHIFT : Z := 10.
Definition NUM_BUCKETS : nat := Z.to_nat (MAX_BUCKET_SHIFT - MIN_BUCKET_SHIFT + 1).

Definition SLAB_FRAME_SIZE : Z := FRAME_SIZE.
Definition SLAB_MASK : Z := u64_not (SLAB_FRAME_SIZE - 1).

(** The loop of [make_obj_sizes]; [n] iterations are left. *)
Fixpoint make_obj_sizes_loop (n i : nat) (arr : list Z) : list Z :=
  match n with
  | O => arr
  | S n' => make_obj_sizes_loop n' (S i) (<[i := Z.shiftl 1 (MIN_BUCKET_SHIFT + Z.of_nat i)]> arr)
  end.

Definition make_obj_sizes : list Z := make_obj_sizes_loop NUM_BUCKETS 0 (replicate NUM_BUCKETS 0).

Definition OBJ_SIZE : list Z := make_obj_sizes.

(** [core::alloc::Layout] *)
Record Layout := mkLayout { lay_size : Z; lay_align : Z }.

(** [FreeObj] is one word, [Slab] two: the offsets of their fields. *)
Definition OFF_OBJ_NEXT : Z := 0.
Definition OFF_SLAB_NEXT : Z := 0.
Definition OFF_SLAB_FREE : Z := 8.
Definition SLAB_HEADER_SIZE : Z := 16.

Record HeapInner := mkHeapInner {
  active : list (option Z);
  partial : list (option Z)
}.

Definition set_active (l : list (option Z)) (i : HeapInner) : HeapInner := mkHeapInner l (partial i).

Definition set_partial (l : list (option Z)) (i : HeapInner) : HeapInner := mkHeapInner (active i) l.

(** [struct Heap { inner: Mutex<IntLock, HeapInner> }] *)
Definition Heap : Type := Mutex HeapInner.

Definition Heap_new : Heap :=
  mkMutex IntLock_INIT (mkHeapInner (replicate NUM_BUCKETS None) (replicate NUM_BUCKETS None)).

Definition bucket_for (layout : Layout) : option Z :=
  let need := Z.max (Z.max (lay_size layout) (lay_align layout)) (Z.shiftl 1 MIN_BUCKET_SHIFT) in
  if Z.shiftl 1 MAX_BUCKET_SHIFT <? need then None
  else Some (trailing_zeros (next_power_of_two need) - MIN_BUCKET_SHIFT).

Definition order_for_large (layout : Layout) : option nat :=
  let need := Z.max (lay_size layout) (lay_align layout) in
  let frames := next_power_of_two (div_ceil need SLAB_FRAME_SIZE) in
  let order := Z.to_nat (trailing_zeros frames) in
  if (MAX_ORDER <? order)%nat then None else Some order.

Section heap.
Context `{Profile} {A : Type} `{!FrameAllocator A}.

Abbreviation HM := (M (Machine A Heap)).

Definition heap_if : lens (Machine A Heap) bool := lens_comp sys_lens if_lens.

(** The data of the mutex: its fields by bucket, with Rust's bounds checks. *)
Definition get_active (bucket : Z) : HM (option Z) :=
  let! l := gets (λ m, active (mx_data (m_own m))) in index l bucket.

Definition get_partial (bucket : Z) : HM (option Z) :=
  let! l := gets (λ m, partial (mx_data (m_own m))) in index l bucket.

Definition modify_inner (f : HeapInner → HeapInner) : HM unit :=
  modify (λ m, mkMachine (m_sys m) (mkMutex (mx_raw (m_own m)) (f (mx_data (m_own m))))).

Definition put_active (bucket : Z) (v : option Z) : HM unit :=
  do! get_active bucket;
  modify_inner (λ i, set_active (<[Z.to_nat bucket := v]> (active i)) i).

Definition put_partial (bucket : Z) (v : option Z) : HM unit :=
  do! get_partial bucket;
  modify_inner (λ i, set_partial (<[Z.to_nat bucket := v]> (partial i)) i).

(** A field of type [Option<NonNull<_>>] behind a raw pointer. *)
Definition get_ptr (a : Z) : HM (option Z) :=
  on_sys (let! w := load a in ret (dec_ptr w)).

Definition put_ptr (a : Z) (v : option Z) : HM unit := on_sys (store a (enc_ptr v)).

Definition new_unchecked (p : Z) : HM Z :=
  do! assert_ (negb (p =? 0)) "NonNull::new_unchecked requires that the pointer is non-null";
  ret p.

Definition hhdm : HM Z := gets (λ m, sy_hhdm (m_sys m)).

(** [heap::init]; it looks at [HHDM_OFFSET] only, whatever component runs. *)
Definition heap_init {X : Type} : M (Machine A X) unit :=
  let! h := gets (λ m, sy_hhdm (m_sys m)) in
  debug_assert (negb (h =? 0)) "assertion failed: HHDM_OFFSET.load(Ordering::Relaxed) != 0".

Definition phys_to_virt (p : Z) : HM Z := let! h := hhdm in u64_add p h.

Definition virt_to_phys (v : Z) : HM Z := let! h := hhdm in u64_sub v h.

Definition take_partial (bucket : Z) : HM (option Z) :=
  let! p := get_partial bucket in
  match p with
  | None => ret None
  | Some slab =>
      let! next := get_ptr (slab + OFF_SLAB_NEXT) in
      do! put_partial bucket next;
      do! put_ptr (slab + OFF_SLAB_NEXT) None;
      ret (Some slab)
  end.

(** The loop of [refill]: objects [n - 1] down to [0]. *)
Fixpoint refill_loop (n : nat) (base data_off obj_size : Z) (head : option Z) : HM (option Z) :=
  match n with
  | O => ret head
  | S i =>
      let! k := u64_mul (Z.of_nat i) obj_size in
      let! off := u64_add data_off k in
      let obj_ptr := base + off in
      do! put_ptr (obj_ptr + OFF_OBJ_NEXT) head;
      let! p := new_unchecked obj_ptr in
      refill_loop i base data_off obj_size (Some p)
  end.

Definition refill (bucket : Z) : HM (option Z) :=
  let! obj_size := index OBJ_SIZE bucket in
  let! r := on_sys (fa_alloc 0) in
  match r with
  | None => ret None
  | Some phys =>
      let! base := phys_to_virt phys in
      let header_size := SLAB_HEADER_SIZE in
      let data_off := next_multiple_of header_size obj_size in
      let! room := u64_sub SLAB_FRAME_SIZE data_off in
      let count := room / obj_size in
      do! debug_assert (0 <? count) "assertion failed: count > 0";
      let slab := base in
      let! head := refill_loop (Z.to_nat count) base data_off obj_size None in
      do! put_ptr (slab + OFF_SLAB_NEXT) None;
      do! put_ptr (slab + OFF_SLAB_FREE) head;
      let! s := new_unchecked slab in
      ret (Some s)
  end.

(** The part of [alloc_small] after the active slab was found exhausted. *)
Definition alloc_slow (bucket : Z) : HM Z :=
  do! put_active bucket None;
  let! t := take_partial bucket in
  let! slab_nn := match t with Some s => ret (Some s) | None => refill bucket end in
  match slab_nn with
  | Some slab =>
      do! put_active bucket (Some slab);
      let! free := get_ptr (slab + OFF_SLAB_FREE) in
      let! obj := unwrap free "Option::unwrap_unchecked called on a None value" in
      let! next := get_ptr (obj + OFF_OBJ_NEXT) in
      do! put_ptr (slab + OFF_SLAB_FREE) next;
      ret obj
  | None => ret 0
  end.

Definition alloc_small (bucket : Z) : HM Z :=
  with_lock heap_if own_lens (
    let! act := get_active bucket in
    match act with
    | None => alloc_slow bucket
    | Some slab =>
        let! free := get_ptr (slab + OFF_SLAB_FREE) in
        match free with
        | None => alloc_slow bucket
        | Some obj =>
            let! next := get_ptr (obj + OFF_OBJ_NEXT) in
            do! put_ptr (slab + OFF_SLAB_FREE) next;
            ret obj
        end
    end).

Definition dealloc_small (bucket slab_ptr ptr : Z) : HM unit :=
  with_lock heap_if own_lens (
    let! free := get_ptr (slab_ptr + OFF_SLAB_FREE) in
    let was_full := match free with None => true | Some _ => false end in
    let obj := ptr in
    let! free' := get_ptr (slab_ptr + OFF_SLAB_FREE) in
    do! put_ptr (obj + OFF_OBJ_NEXT) free';
    let! o := new_unchecked obj in
    do! put_ptr (slab_ptr + OFF_SLAB_FREE) (Some o);
    let! act := get_active bucket in
    if match act with Some a => a =? slab_ptr | None => false end then ret tt
    else if was_full then
      let! p := get_partial bucket in
      do! put_ptr (slab_ptr + OFF_SLAB_NEXT) p;
      let! sl := new_unchecked slab_ptr in
      put_partial bucket (Some sl)
    else ret tt).

Definition alloc_large (layout : Layout) : HM Z :=
  match order_for_large layout with
  | None => ret 0
  | Some order =>
      let! r := on_sys (fa_alloc order) in
      match r with
      | Some phys => phys_to_virt phys
      | None => ret 0
      end
  end.

Definition dealloc_large (ptr : Z) (layout : Layout) : HM unit :=
  match order_for_large layout with
  | Some order =>
      let! phys := virt_to_phys ptr in
      on_sys (fa_release phys order)
  | None => ret tt
  end.

Definition alloc (layout : Layout) : HM Z :=
  match bucket_for layout with
  | None => alloc_large layout
  | Some bucket => alloc_small bucket
  end.

Definition dealloc (ptr : Z) (layout : Layout) : HM unit :=
  if ptr =? 0 then ret tt
  else
    match bucket_for layout with
    | None => dealloc_large ptr layout
    | Some bucket =>
        let slab_ptr := Z.land ptr SLAB_MASK in
        dealloc_small bucket slab_ptr ptr
    end.

End heap.
