(* ===== verification/HeapInv.v ===== *)
(** * HeapInv: size classes, slabs and the heap's invariant

    The arithmetic of the size classes and of the objects of a slab, the shape
    of the linked lists the heap keeps in memory, and the invariant that ties
    [HeapInner] and memory to a ghost map [S]: the base of every slab, with its
    bucket and the list of its free objects. *)

From S2P Require Import Prelude Bits Mem Pmm Dll PmmInv PmmList PmmOps PmmSpec.
From S2P Require Import Locks FrameAlloc Heap.

(** The size of the objects of bucket [b]. *)
Definition osz (b : nat) : Z := 2 ^ (4 + Z.of_nat b).

(** [p] is an object of the slab at [a] of bucket [b]. *)
Definition obj_of (a : Z) (b : nat) (p : Z) : Prop :=
  a < p < a + FRAME_SIZE ∧ (p - a) mod osz b = 0.

(** A list linked through the first word of its nodes. *)
Fixpoint chain (m : mem) (o : option Z) (l : list Z) : Prop :=
  match l with
  | [] => o = None
  | p :: l' => o = Some p ∧ chain m (dec_ptr (read_word m p)) l'
  end.

Abbreviation slabs := (gmap Z (nat * list Z)).

Record slab_ok (m : mem) (a : Z) (b : nat) (fl : list Z) : Prop := {
  sk_bucket : (b < NUM_BUCKETS)%nat;
  sk_nodup : NoDup fl;
  sk_objs p : p ∈ fl → obj_of a b p;
  sk_chain : chain m (dec_ptr (read_word m (a + OFF_SLAB_FREE))) fl
}.

(** The lists of one bucket: [P] are its partial slabs. *)
Record bucket_lists (m : mem) (S : slabs) (b : nat) (act part : option Z) (P : list Z) : Prop := {
  bl_chain : chain m part P;
  bl_nodup : NoDup P;
  bl_partial a : a ∈ P → ∃ fl, S !! a = Some (b, fl) ∧ fl ≠ [];
  bl_active a : act = Some a → (a ∉ P) ∧ ∃ fl, S !! a = Some (b, fl);
  bl_complete a fl : S !! a = Some (b, fl) → fl ≠ [] → a ∈ P ∨ act = Some a
}.

Definition bucket_ok (i : HeapInner) (m : mem) (S : slabs) (b : nat) : Prop :=
  ∃ act part P, active i !! b = Some act ∧ partial i !! b = Some part ∧
    bucket_lists m S b act part P.

(** The frame under a slab. *)
Definition slab_frame (h : Z) (F : gset Z) (total a : Z) : Prop :=
  ∃ f, a = fb_addr h f ∧ 0 ≤ f < total ∧ f ∉ F.

Record heap_inv (h : Z) (F : gset Z) (total : Z) (i : HeapInner) (m : mem) (S : slabs) : Prop := {
  hi_active_len : length (active i) = NUM_BUCKETS;
  hi_partial_len : length (partial i) = NUM_BUCKETS;
  hi_frame a b fl : S !! a = Some (b, fl) → slab_frame h F total a;
  hi_slab a b fl : S !! a = Some (b, fl) → slab_ok m a b fl;
  hi_bucket b : (b < NUM_BUCKETS)%nat → bucket_ok i m S b
}.

(** ** Size classes *)
Lemma bucket_cases b (P : nat → Prop) :
  (b < NUM_BUCKETS)%nat → P 0%nat → P 1%nat → P 2%nat → P 3%nat → P 4%nat → P 5%nat → P 6%nat → P b.
Proof.
  intros Hb. change NUM_BUCKETS with 7%nat in Hb.
  do 7 (destruct b as [|b]; [done|]). lia.
Qed.

Lemma osz_pos b : 16 ≤ osz b.
Proof. unfold osz. rewrite Z.pow_add_r by lia. pose proof (Z.pow_pos_nonneg 2 (Z.of_nat b)). lia. Qed.

Lemma osz_divides b : (b < NUM_BUCKETS)%nat → (osz b | FRAME_SIZE).
Proof.
  intros Hb. exists (2 ^ (8 - Z.of_nat b)). unfold osz. change NUM_BUCKETS with 7%nat in Hb.
  rewrite <- Z.pow_add_r by lia. by replace (8 - Z.of_nat b + (4 + Z.of_nat b)) with 12 by lia.
Qed.

Lemma OBJ_SIZE_lookup b : (b < NUM_BUCKETS)%nat → OBJ_SIZE !! b = Some (osz b).
Proof. intros Hb. by apply (bucket_cases b (λ b, OBJ_SIZE !! b = Some (osz b))). Qed.

Lemma slab_layout b :
  (b < NUM_BUCKETS)%nat →
  next_multiple_of SLAB_HEADER_SIZE (osz b) = osz b ∧
  0 < (SLAB_FRAME_SIZE - osz b) / osz b ∧
  osz b * ((SLAB_FRAME_SIZE - osz b) / osz b + 1) = FRAME_SIZE.
Proof.
  intros Hb. by apply (bucket_cases b (λ b, next_multiple_of SLAB_HEADER_SIZE (osz b) = osz b ∧
    0 < (SLAB_FRAME_SIZE - osz b) / osz b ∧
    osz b * ((SLAB_FRAME_SIZE - osz b) / osz b + 1) = FRAME_SIZE)).
Qed.

Lemma trailing_zeros_pow k : 0 ≤ k → trailing_zeros (2 ^ k) = k.
Proof.
  intros Hk. rewrite <- (Z2Nat.id k) by done. induction (Z.to_nat k) as [|n IH]; [done|].
  rewrite Nat2Z.inj_succ, Z.pow_succ_r by lia.
  destruct (2 ^ Z.of_nat n) as [|p|p] eqn:Hp.
  - pose proof (Z.pow_pos_nonneg 2 (Z.of_nat n)). lia.
  - change (2 * Z.pos p) with (Z.pos (xO p)). simpl in *. lia.
  - pose proof (Z.pow_pos_nonneg 2 (Z.of_nat n)). lia.
Qed.

Lemma next_power_of_two_log2 x : 1 ≤ x → next_power_of_two x = 2 ^ Z.log2_up x.
Proof.
  intros Hx. unfold next_power_of_two. destruct (Z.leb_spec x 1); [|done].
  by replace x with 1 by lia.
Qed.

Lemma pow_divides j k : 0 ≤ j → 2 ^ j ≤ 2 ^ k → (2 ^ j | 2 ^ k).
Proof.
  intros Hj Hle. destruct (Z.le_gt_cases 0 k) as [Hk|Hk].
  - apply Z.pow_le_mono_r_iff in Hle; [|lia..]. exists (2 ^ (k - j)).
    rewrite <- Z.pow_add_r by lia. f_equal. lia.
  - rewrite (Z.pow_neg_r 2 k) in Hle by lia. pose proof (Z.pow_pos_nonneg 2 j). lia.
Qed.

(** What [core::alloc::Layout] guarantees. *)
Definition layout_ok (l : Layout) : Prop :=
  0 ≤ lay_size l < 2 ^ 63 ∧ ∃ k, 0 ≤ k < 63 ∧ lay_align l = 2 ^ k.

(** [bucket_for] picks the smallest size class that holds the request and
    respects its alignment; larger requests have none. *)
Lemma bucket_for_spec l :
  layout_ok l →
  match bucket_for l with
  | Some z => ∃ b, z = Z.of_nat b ∧ (b < NUM_BUCKETS)%nat ∧ lay_size l ≤ osz b ∧
      (lay_align l | osz b) ∧
      ∀ b', (b' < b)%nat → osz b' < Z.max (lay_size l) (lay_align l)
  | None => 1024 < Z.max (lay_size l) (lay_align l)
  end.
Proof.
  intros (Hs & k & Hk & Ha). unfold bucket_for, MIN_BUCKET_SHIFT, MAX_BUCKET_SHIFT.
  change (Z.shiftl 1 4) with 16. change (Z.shiftl 1 10) with 1024.
  set (need := Z.max (Z.max (lay_size l) (lay_align l)) 16).
  destruct (Z.ltb_spec 1024 need) as [Hbig|Hsmall]; [lia|].
  assert (16 ≤ need) as Hn by lia. rewrite next_power_of_two_log2 by lia.
  pose proof (Z.log2_up_spec need ltac:(lia)) as [Hlo Hhi].
  assert (4 ≤ Z.log2_up need) by (apply (Z.log2_up_le_mono 16 need); lia).
  assert (Z.log2_up need ≤ 10) by (apply (Z.log2_up_le_mono need 1024); lia).
  rewrite trailing_zeros_pow by lia.
  exists (Z.to_nat (Z.log2_up need - 4)). change NUM_BUCKETS with 7%nat. unfold osz.
  replace (4 + Z.of_nat (Z.to_nat (Z.log2_up need - 4))) with (Z.log2_up need) by lia.
  split_and!; [lia..| |].
  - rewrite Ha. apply pow_divides; lia.
  - intros b' Hb'. assert (16 < 2 ^ Z.log2_up need).
    { apply (Z.pow_lt_mono_r 2 4); lia. }
    pose proof (Z.pow_le_mono_r 2 (4 + Z.of_nat b') (Z.pred (Z.log2_up need)) ltac:(lia) ltac:(lia)).
    assert (16 ≤ 2 ^ (4 + Z.of_nat b')) by apply (osz_pos b'). lia.
Qed.

Lemma div_ceil_bounds x k : 0 < k → k * (div_ceil x k - 1) < x ≤ k * div_ceil x k.
Proof.
  intros Hk. unfold div_ceil. pose proof (Z.div_mod x k ltac:(lia)).
  pose proof (Z.mod_pos_bound x k Hk). destruct (Z.eqb_spec (x mod k) 0); lia.
Qed.

(** [order_for_large] picks the smallest block of frames that holds the request
    and respects its alignment. *)
Lemma order_for_large_spec l :
  layout_ok l →
  match order_for_large l with
  | Some o => (o ≤ MAX_ORDER)%nat ∧ Z.max (lay_size l) (lay_align l) ≤ blk o * FRAME_SIZE ∧
      (lay_align l | blk o * FRAME_SIZE) ∧
      ∀ o', (o' < o)%nat → blk o' * FRAME_SIZE < Z.max (lay_size l) (lay_align l)
  | None => blk MAX_ORDER * FRAME_SIZE < Z.max (lay_size l) (lay_align l)
  end.
Proof.
  intros (Hs & k & Hk & Ha). unfold order_for_large, SLAB_FRAME_SIZE.
  pose proof (Z.pow_pos_nonneg 2 k). set (need := Z.max (lay_size l) (lay_align l)).
  pose proof (div_ceil_bounds need FRAME_SIZE ltac:(done)) as Hd.
  set (n := div_ceil need FRAME_SIZE) in *. rewrite FRAME_SIZE_val in *.
  assert (1 ≤ n) as Hn1 by lia. rewrite next_power_of_two_log2, trailing_zeros_pow by (done || apply Z.log2_up_nonneg).
  pose proof (Z.log2_up_nonneg n) as Hl0. set (lg := Z.log2_up n) in *.
  assert (n ≤ 2 ^ lg) as Hup by (apply Z.log2_log2_up_spec; lia).
  assert (∀ o', (o' < Z.to_nat lg)%nat → blk o' * 4096 < need) as Hmin.
  { intros o' Ho'. assert (1 < n).
    { destruct (Z.eq_dec n 1) as [E|E]; [|lia]. unfold lg in Ho'. rewrite E in Ho'. change (Z.log2_up 1) with 0 in Ho'. lia. }
    pose proof (Z.log2_up_spec n ltac:(lia)) as [Hlo _]. fold lg in Hlo.
    pose proof (Z.pow_le_mono_r 2 (Z.of_nat o') (Z.pred lg) ltac:(lia) ltac:(lia)) as Hp. unfold blk. clear -Hp Hlo Hd. lia. }
  destruct (Nat.ltb_spec MAX_ORDER (Z.to_nat lg)) as [Hlt|Hge]; [by apply Hmin|].
  unfold blk in *. rewrite Z2Nat.id by done. split_and!; [done|lia| |done].
  change 4096 with (2 ^ 12). rewrite <- Z.pow_add_r, Ha by lia. apply pow_divides; [lia|].
  rewrite Z.pow_add_r by lia. lia.
Qed.

(** ** Linked lists *)
Lemma chain_frame m m' o l :
  chain m o l → (∀ p, p ∈ l → m' !! p = m !! p) → chain m' o l.
Proof.
  revert o. induction l as [|p l IH]; intros o; simpl; [done|]. intros [-> Hc] Hm.
  split; [done|]. unfold read_word in *. rewrite Hm by left. apply IH; [done|].
  intros. apply Hm. by right.
Qed.

Lemma chain_head m o l : chain m o l → o = head l.
Proof. destruct l; [done|]. by intros [-> _]. Qed.

Lemma chain_dec m o l : chain m o l → (∀ p, p ∈ l → p ≠ 0) → dec_ptr (enc_ptr o) = o.
Proof.
  intros ->%chain_head Hnz. apply dec_enc_ptr. destruct l as [|p l]; [done|].
  intros [= ->]. by apply (Hnz 0); [left|].
Qed.

(** ** Objects and slabs are apart *)
Lemma obj_of_bounds a b p : (b < NUM_BUCKETS)%nat → obj_of a b p → a + 16 ≤ p ∧ p + osz b ≤ a + FRAME_SIZE.
Proof.
  intros Hb [Hp Hm]. destruct (osz_divides b Hb) as [q Hq]. pose proof (osz_pos b).
  pose proof (Z.div_mod (p - a) (osz b) ltac:(lia)) as Hd. rewrite Hm in Hd.
  set (k := (p - a) / osz b) in *. assert (0 < k) by nia. assert (k + 1 ≤ q) by nia. split; nia.
Qed.

Lemma obj_of_apart a b p q :
  obj_of a b p → obj_of a b q → p ≠ q → p + osz b ≤ q ∨ q + osz b ≤ p.
Proof.
  intros [_ Hp] [_ Hq] Hne. pose proof (osz_pos b).
  pose proof (Z.div_mod (p - a) (osz b) ltac:(lia)) as Hdp. rewrite Hp in Hdp.
  pose proof (Z.div_mod (q - a) (osz b) ltac:(lia)) as Hdq. rewrite Hq in Hdq.
  set (k := (p - a) / osz b) in *. set (j := (q - a) / osz b) in *.
  assert (k < j ∨ j < k) as [|] by nia; nia.
Qed.

Lemma slab_frame_apart h F total a a' :
  slab_frame h F total a → slab_frame h F total a' → a ≠ a' →
  a + FRAME_SIZE ≤ a' ∨ a' + FRAME_SIZE ≤ a.
Proof.
  intros (f & -> & _ & _) (f' & -> & _ & _) Hne. unfold fb_addr in *.
  rewrite FRAME_SIZE_val in *. lia.
Qed.

Lemma slab_frame_mono h F F' total a : F' ⊆ F → slab_frame h F total a → slab_frame h F' total a.
Proof. intros HF (f & Hf & Ht & Hn). exists f. split_and!; [done|lia|lia|]. set_solver. Qed.

Lemma slab_frame_pos h F total a : 0 < h → slab_frame h F total a → 0 < a.
Proof. intros Hh (f & -> & Hf & _). unfold fb_addr. rewrite FRAME_SIZE_val. lia. Qed.

(** The words of the slabs that the invariant is about. *)
Definition meta_word (S : slabs) (x : Z) : Prop :=
  ∃ a b fl, S !! a = Some (b, fl) ∧ (x = a ∨ x = a + OFF_SLAB_FREE ∨ x ∈ fl).

Lemma slab_ok_frame m m' a b fl :
  slab_ok m a b fl → m' !! (a + OFF_SLAB_FREE) = m !! (a + OFF_SLAB_FREE) →
  (∀ p, p ∈ fl → m' !! p = m !! p) → slab_ok m' a b fl.
Proof.
  intros [Hb Hnd Ho Hc] Hf Hm. split; [done..|]. unfold read_word in *. rewrite Hf.
  by eapply chain_frame.
Qed.

Lemma bucket_lists_frame m m' S S' b act part P :
  bucket_lists m S b act part P →
  (∀ a fl, S' !! a = Some (b, fl) ↔ S !! a = Some (b, fl)) →
  (∀ a fl, S !! a = Some (b, fl) → m' !! a = m !! a) →
  bucket_lists m' S' b act part P.
Proof.
  intros [Hc Hnd Hp Ha Hcm] HS Hm. split; [|done| | |].
  - eapply chain_frame; [done|]. intros a (fl & Hfl & _)%Hp. eauto.
  - intros a (fl & Hfl & Hne)%Hp. exists fl. split; [by apply HS|done].
  - intros a [Hn [fl Hfl]]%Ha. split; [done|]. exists fl. by apply HS.
  - intros a fl Hfl%HS. by apply Hcm.
Qed.

(** ** How the invariant moves *)
Section moves.
Context (h : Z) (F : gset Z) (total : Z).

Lemma heap_inv_mem F' i m m' S :
  heap_inv h F total i m S →
  (∀ a b fl, S !! a = Some (b, fl) → slab_frame h F' total a) →
  (∀ x, meta_word S x → m' !! x = m !! x) →
  heap_inv h F' total i m' S.
Proof.
  intros [Hal Hpl Hf Hs Hb] HF' Hm. split; [done..| |].
  - intros a b fl Hl. eapply slab_ok_frame; [by apply Hs|..].
    + apply Hm. exists a, b, fl. auto.
    + intros p Hp. apply Hm. exists a, b, fl. auto.
  - intros b Hlt. destruct (Hb b Hlt) as (act & part & P & ? & ? & Hbl).
    exists act, part, P. split_and!; [done..|]. eapply bucket_lists_frame; [done..|].
    intros a fl Hl. apply Hm. exists a, b, fl. auto.
Qed.

(** One slab of bucket [b] changes, and with it the lists of that bucket; memory
    changes inside that slab only. *)
Lemma heap_inv_update i m S i' m' a b fl' act part P :
  heap_inv h F total i m S → (b < NUM_BUCKETS)%nat → slab_frame h F total a →
  (∀ b' fl, S !! a = Some (b', fl) → b' = b) →
  active i' = <[b := act]> (active i) → partial i' = <[b := part]> (partial i) →
  slab_ok m' a b fl' → bucket_lists m' (<[a := (b, fl')]> S) b act part P →
  same_outside (λ x, a ≤ x < a + FRAME_SIZE) m m' →
  heap_inv h F total i' m' (<[a := (b, fl')]> S).
Proof.
  intros [Hal Hpl Hf Hs Hb] Hlt Hfa Hold Hact Hpart Hslab Hbl Hm.
  assert (∀ a' b' fl x, a' ≠ a → S !! a' = Some (b', fl) → a' ≤ x < a' + FRAME_SIZE →
    m' !! x = m !! x) as Hother.
  { intros a' b' fl x Hne Hl Hx. apply Hm.
    destruct (slab_frame_apart h F total a' a (Hf _ _ _ Hl) Hfa Hne); lia. }
  split.
  - by rewrite Hact, length_insert.
  - by rewrite Hpart, length_insert.
  - intros a' b' fl [[<- [= <- <-]]|[Hne Hl]]%lookup_insert_Some; [done|by eapply Hf].
  - intros a' b' fl [[<- [= <- <-]]|[Hne Hl]]%lookup_insert_Some; [done|].
    pose proof (Hs _ _ _ Hl) as Hok. eapply slab_ok_frame; [done|..].
    + eapply Hother; [done..|]. unfold OFF_SLAB_FREE. rewrite FRAME_SIZE_val. lia.
    + intros p Hp. eapply Hother; [done..|]. pose proof (proj1 (sk_objs _ _ _ _ Hok p Hp)). lia.
  - intros b' Hlt'. destruct (decide (b' = b)) as [->|Hne].
    + exists act, part, P. rewrite Hact, Hpart, !list_lookup_insert_eq by lia. done.
    + destruct (Hb b' Hlt') as (act' & part' & P' & Ha' & Hp' & Hbl').
      exists act', part', P'. rewrite Hact, Hpart, !list_lookup_insert_ne by done.
      split_and!; [done..|]. eapply bucket_lists_frame; [done|..].
      * intros a' fl. destruct (decide (a' = a)) as [->|]; [|by rewrite lookup_insert_ne].
        rewrite lookup_insert_eq. split; [congruence|]. intros Hl%Hold. congruence.
      * intros a' fl Hl. eapply (Hother a'); [|done|rewrite FRAME_SIZE_val; lia].
        intros ->. apply Hold in Hl. congruence.
Qed.

(** Only the lists of bucket [b] change. *)
Lemma heap_inv_lists i m S i' b act part P :
  heap_inv h F total i m S → (b < NUM_BUCKETS)%nat →
  active i' = <[b := act]> (active i) → partial i' = <[b := part]> (partial i) →
  bucket_lists m S b act part P → heap_inv h F total i' m S.
Proof.
  intros [Hal Hpl Hf Hs Hb] Hlt Hact Hpart Hbl. split; [..|done|done|].
  - by rewrite Hact, length_insert.
  - by rewrite Hpart, length_insert.
  - intros b' Hlt'. destruct (decide (b' = b)) as [->|Hne].
    + exists act, part, P. rewrite Hact, Hpart, !list_lookup_insert_eq by lia. done.
    + destruct (Hb b' Hlt') as (act' & part' & P' & Ha' & Hp' & Hbl').
      exists act', part', P'. by rewrite Hact, Hpart, !list_lookup_insert_ne by done.
Qed.
End moves.

(** The active slab of the bucket, if any, has no free object. *)
Definition exhausted (S : slabs) (b : nat) (act : option Z) : Prop :=
  ∀ a, act = Some a → S !! a = Some (b, []).

Section lists.
Context (m m' : mem) (S : slabs) (b : nat) (act part : option Z) (P : list Z) (a : Z).

(** The free list of one slab changes, the lists of the bucket do not. *)
Lemma bl_set fl fl' :
  bucket_lists m S b act part P → S !! a = Some (b, fl) →
  (a ∈ P → fl' ≠ []) → (fl' ≠ [] → a ∈ P ∨ act = Some a) →
  (∀ x, x ∈ P → m' !! x = m !! x) →
  bucket_lists m' (<[a := (b, fl')]> S) b act part P.
Proof.
  intros [Hc Hnd Hp Ha Hcm] Hl Hin Hout Hm. split; [by eapply chain_frame|done|..].
  - intros x Hx. destruct (decide (x = a)) as [->|].
    + exists fl'. rewrite lookup_insert_eq. auto.
    + rewrite lookup_insert_ne by done. by apply Hp.
  - intros x [Hn Hx]%Ha. split; [done|]. destruct (decide (x = a)) as [->|].
    + exists fl'. by rewrite lookup_insert_eq.
    + by rewrite lookup_insert_ne.
  - intros x flx [[<- [= <-]]|[Hne Hx]]%lookup_insert_Some; [done|by apply Hcm].
Qed.

(** The first partial slab becomes the active one. *)
Lemma bl_take fl fl' :
  bucket_lists m S b act part (a :: P) → exhausted S b act → S !! a = Some (b, fl) →
  (∀ x, x ∈ P → m' !! x = m !! x) →
  bucket_lists m' (<[a := (b, fl')]> S) b (Some a) (dec_ptr (read_word m a)) P.
Proof.
  intros [[_ Hc] Hnd Hp Ha Hcm] Hex Hl Hm. apply NoDup_cons in Hnd as [Hn Hnd].
  split; [by eapply chain_frame|done|..].
  - intros x Hx. rewrite lookup_insert_ne by congruence. apply Hp. by right.
  - intros x [= <-]. split; [done|]. exists fl'. by rewrite lookup_insert_eq.
  - intros x flx [[<- _]|[Hne Hx]]%lookup_insert_Some Hflx; [by right|].
    destruct (Hcm x flx Hx Hflx) as [[->|]%elem_of_cons|Hax]; [done|by left|].
    apply Hex in Hax. congruence.
Qed.

(** A new slab becomes the active one of a bucket with no partial slabs. *)
Lemma bl_fresh fl' :
  bucket_lists m S b act part [] → exhausted S b act →
  bucket_lists m' (<[a := (b, fl')]> S) b (Some a) None [].
Proof.
  intros [_ _ _ Ha Hcm] Hex. split; [done|by constructor|..].
  - intros x Hx. by apply not_elem_of_nil in Hx.
  - intros x [= <-]. split; [apply not_elem_of_nil|]. exists fl'. by rewrite lookup_insert_eq.
  - intros x flx [[<- _]|[Hne Hx]]%lookup_insert_Some Hflx; [by right|].
    destruct (Hcm x flx Hx Hflx) as [Hx'%not_elem_of_nil|Hax]; [done|].
    apply Hex in Hax. congruence.
Qed.

(** A full slab that gets an object back joins the partial ones. *)
Lemma bl_push p :
  bucket_lists m S b act part P → S !! a = Some (b, []) → act ≠ Some a →
  (∀ x, x ∈ P → x ≠ a → m' !! x = m !! x) → dec_ptr (read_word m' a) = part →
  bucket_lists m' (<[a := (b, [p])]> S) b act (Some a) (a :: P).
Proof.
  intros [Hc Hnd Hp Ha Hcm] Hl Hact Hm Hnext.
  assert (a ∉ P) as HaP by (intros (fl & Hfl & Hne)%Hp; congruence).
  split.
  - split; [done|]. rewrite Hnext. eapply chain_frame; [done|]. intros x Hx. apply Hm; congruence.
  - by constructor.
  - intros x [->|Hx]%elem_of_cons; [exists [p]; by rewrite lookup_insert_eq|].
    rewrite lookup_insert_ne by congruence. by apply Hp.
  - intros x Hx. destruct (Ha x Hx) as [Hn [fl Hfl]]. split.
    + intros [->|]%elem_of_cons; congruence.
    + exists fl. rewrite lookup_insert_ne; [done|congruence].
  - intros x flx [[<- _]|[Hne Hx]]%lookup_insert_Some Hflx; [left; left|].
    destruct (Hcm x flx Hx Hflx); [left; by right|by right].
Qed.

(** An exhausted slab can be let go. *)
Lemma bl_drop :
  bucket_lists m S b act part P → exhausted S b act → bucket_lists m S b None part P.
Proof.
  intros [Hc Hnd Hp Ha Hcm] Hex. split; [done..|].
  intros x flx Hx Hflx. destruct (Hcm x flx Hx Hflx) as [|Hax]; [by left|].
  apply Hex in Hax. congruence.
Qed.
End lists.
