(* ===== verification/HeapOps.v ===== *)
(** * HeapOps: what each operation of the heap does to the slabs

    The bodies of [alloc_small] and [dealloc_small] and the functions they call,
    specified on the ghost map of slabs: a request takes the first free object
    of a slab or cuts a fresh frame; a release gives the object back to its slab
    and lists the slab again when it had none left. *)

From S2P Require Import Prelude Bits Mem Pmm Dll PmmInv PmmList PmmOps PmmSpec.
From S2P Require Import Locks FrameAlloc Heap HeapInv.

(** ** Free lists *)
Lemma dec_enc_dec w : dec_ptr (enc_ptr (dec_ptr w)) = dec_ptr w.
Proof. unfold dec_ptr. destruct (Z.eqb_spec w 0) as [|Hw]; [done|]. simpl. by destruct (Z.eqb_spec w 0). Qed.

Lemma dec_ptr_nz p : p ≠ 0 → dec_ptr p = Some p.
Proof. intros. unfold dec_ptr. by destruct (Z.eqb_spec p 0). Qed.

Lemma slab_pop m a b p fl :
  slab_ok m a b (p :: fl) →
  slab_ok (write_word (a + OFF_SLAB_FREE) (enc_ptr (dec_ptr (read_word m (p + OFF_OBJ_NEXT)))) m) a b fl.
Proof.
  intros [Hb [Hn Hnd]%NoDup_cons Ho [_ Hc]]. split; [done..| |].
  - intros q Hq. apply Ho. by right.
  - rewrite read_write_eq, dec_enc_dec. unfold OFF_OBJ_NEXT. rewrite Z.add_0_r.
    eapply chain_frame; [done|]. intros q Hq. unfold write_word. apply lookup_insert_ne.
    destruct (obj_of_bounds a b q Hb (Ho q ltac:(by right))). unfold OFF_SLAB_FREE. lia.
Qed.

Lemma slab_push m a b p fl :
  slab_ok m a b fl → obj_of a b p → p ∉ fl → 0 < a →
  slab_ok (write_word (a + OFF_SLAB_FREE) p
            (write_word (p + OFF_OBJ_NEXT) (enc_ptr (dec_ptr (read_word m (a + OFF_SLAB_FREE)))) m))
    a b (p :: fl).
Proof.
  intros [Hb Hnd Ho Hc] Hp Hn Ha. destruct (obj_of_bounds a b p Hb Hp).
  unfold OFF_OBJ_NEXT, OFF_SLAB_FREE in *. rewrite Z.add_0_r. split; [done|by constructor| |].
  - by intros q [->|Hq]%elem_of_cons; [|apply Ho].
  - rewrite read_write_eq, (dec_ptr_nz p) by lia. split; [done|].
    rewrite read_write_ne, read_write_eq, dec_enc_dec by lia. eapply chain_frame; [done|].
    intros q Hq. destruct (obj_of_bounds a b q Hb (Ho q Hq)). unfold write_word.
    rewrite !lookup_insert_ne; [done|congruence|lia].
Qed.

(** The objects of a fresh slab, in the order of its free list. *)
Definition objs_from (a : Z) (b : nat) (start n : Z) : list Z :=
  (λ k, a + (osz b + k * osz b)) <$> seqZ start n.

Definition all_objs (a : Z) (b : nat) : list Z :=
  objs_from a b 0 ((SLAB_FRAME_SIZE - osz b) / osz b).

Lemma elem_of_all_objs a b p : (b < NUM_BUCKETS)%nat → p ∈ all_objs a b ↔ obj_of a b p.
Proof.
  intros Hb. unfold all_objs, objs_from. rewrite list_elem_of_fmap.
  destruct (slab_layout b Hb) as (_ & Hc & Hf). set (n := (SLAB_FRAME_SIZE - osz b) / osz b) in *.
  pose proof (osz_pos b). split.
  - intros (k & -> & Hk%elem_of_seqZ). split; [nia|].
    replace (a + (osz b + k * osz b) - a) with ((k + 1) * osz b) by lia. apply Z.mod_mul. lia.
  - intros [Hp Hm]. pose proof (Z.div_mod (p - a) (osz b) ltac:(lia)) as Hd. rewrite Hm in Hd.
    set (k := (p - a) / osz b) in *. exists (k - 1). split; [lia|]. apply elem_of_seqZ. nia.
Qed.

Lemma NoDup_all_objs a b : NoDup (all_objs a b).
Proof.
  apply NoDup_fmap_2_strong; [|apply NoDup_seqZ].
  intros k j _ _ Hkj. pose proof (osz_pos b). nia.
Qed.

Lemma all_objs_cons a b : (b < NUM_BUCKETS)%nat → ∃ p fl, all_objs a b = p :: fl.
Proof.
  intros Hb. destruct (slab_layout b Hb) as (_ & Hc & Hf). unfold all_objs, objs_from.
  rewrite seqZ_cons by done. by eexists _, _.
Qed.

Section ops.
Context `{Profile} {A : Type} `{!FrameAllocator A}.
Implicit Types m : Machine A Heap.

Abbreviation mem_of m := (sy_mem (m_sys m)).
Abbreviation free_of m := (fa_free (m_sys m)).
Abbreviation total_of m := (fa_total (m_sys m)).

Definition put_inner (i : HeapInner) m : Machine A Heap :=
  mkMachine (m_sys m) (mkMutex (mx_raw (m_own m)) i).

(** What an operation leaves alone. *)
Definition hstep m m' : Prop :=
  mx_raw (m_own m') = mx_raw (m_own m) ∧ same_cpu (m_sys m) (m_sys m') ∧ total_of m' = total_of m.

Lemma hstep_trans m1 m2 m3 : hstep m1 m2 → hstep m2 m3 → hstep m1 m3.
Proof.
  intros (H1 & H2 & H3) (H4 & H5 & H6).
  split_and!; [by rewrite H4|by etransitivity|by rewrite H6].
Qed.

Record heap_core (h : Z) m (S : slabs) : Prop := {
  hc_fa : fa_ok h (m_sys m);
  hc_hhdm : sy_hhdm (m_sys m) = h;
  hc_inv : heap_inv h (free_of m) (total_of m) (mx_data (m_own m)) (mem_of m) S
}.

(** *** Rules for the primitives *)
Lemma wp_get_active b v m (Q : _ → _ → Prop) :
  active (mx_data (m_own m)) !! b = Some v → Q v m → wp (get_active (Z.of_nat b)) m Q.
Proof. intros Hv HQ. apply wp_bind, wp_gets, (wp_index _ _ v); [by rewrite Nat2Z.id|done]. Qed.

Lemma wp_get_partial b v m (Q : _ → _ → Prop) :
  partial (mx_data (m_own m)) !! b = Some v → Q v m → wp (get_partial (Z.of_nat b)) m Q.
Proof. intros Hv HQ. apply wp_bind, wp_gets, (wp_index _ _ v); [by rewrite Nat2Z.id|done]. Qed.

Lemma wp_put_active b o v m (Q : _ → _ → Prop) :
  active (mx_data (m_own m)) !! b = Some o →
  Q tt (put_inner (set_active (<[b := v]> (active (mx_data (m_own m)))) (mx_data (m_own m))) m) →
  wp (put_active (Z.of_nat b) v) m Q.
Proof.
  intros Ho HQ. apply wp_bind. eapply wp_get_active; [done|]. apply wp_modify. by rewrite Nat2Z.id.
Qed.

Lemma wp_put_partial b o v m (Q : _ → _ → Prop) :
  partial (mx_data (m_own m)) !! b = Some o →
  Q tt (put_inner (set_partial (<[b := v]> (partial (mx_data (m_own m)))) (mx_data (m_own m))) m) →
  wp (put_partial (Z.of_nat b) v) m Q.
Proof.
  intros Ho HQ. apply wp_bind. eapply wp_get_partial; [done|]. apply wp_modify. by rewrite Nat2Z.id.
Qed.

Lemma wp_get_ptr x m (Q : _ → _ → Prop) :
  Q (dec_ptr (read_word (mem_of m) x)) m → wp (get_ptr x) m Q.
Proof. by destruct m. Qed.

Lemma wp_put_ptr x v m (Q : _ → _ → Prop) :
  Q tt (put_mem (write_word x (enc_ptr v) (mem_of m)) m) → wp (put_ptr x v) m Q.
Proof. done. Qed.

Lemma wp_new_unchecked p m (Q : _ → _ → Prop) : 0 < p → Q p m → wp (new_unchecked p) m Q.
Proof. intros Hp HQ. apply wp_bind, wp_assert; [|done]. by destruct (Z.eqb_spec p 0); [lia|]. Qed.

(** *** Writing to slabs does not disturb the frame allocator *)
Lemma slab_words_not_free h F total a x g :
  slab_frame h F total a → a ≤ x < a + FRAME_SIZE → g ∈ F →
  ¬ (fb_addr h g ≤ x < fb_addr h (g + 1)).
Proof.
  intros (f & -> & _ & Hn) Hx Hg Hw. apply Hn.
  assert (fb_addr h (f + 1) = fb_addr h f + FRAME_SIZE) by (unfold fb_addr; lia).
  by rewrite <- (frame_words_inj h g f x Hw ltac:(lia)).
Qed.

Lemma heap_core_write h m S a i' w' S' :
  heap_core h m S → slab_frame h (free_of m) (total_of m) a →
  same_outside (λ x, a ≤ x < a + FRAME_SIZE) (mem_of m) w' →
  heap_inv h (free_of m) (total_of m) i' w' S' →
  let m' := put_inner i' (put_mem w' m) in
  heap_core h m' S' ∧ hstep m m' ∧ free_of m' = free_of m.
Proof.
  intros [Hfa Hh _] Hf Hw Hinv m'.
  destruct (fa_frame h (m_sys m) w' (sy_if (m_sys m)) (sy_hhdm (m_sys m)) Hfa) as (Hok & Hfree & Htot).
  { intros x Hx. apply Hw. intros Ha. apply Hx. intros (g & Hg & Hgx).
    by eapply slab_words_not_free. }
  change (mkSys _ _ _ _) with (m_sys m') in Hok, Hfree, Htot.
  split; [split; [done|done|by rewrite Hfree, Htot]|]. by split_and!.
Qed.

(** *** A fresh slab *)
Lemma objs_from_snoc a b i l :
  objs_from a b 0 (Z.of_nat i) ++ (a + (osz b + Z.of_nat i * osz b)) :: l =
  objs_from a b 0 (Z.of_nat (S i)) ++ l.
Proof.
  unfold objs_from. by rewrite seqZ_S, fmap_app, <- app_assoc.
Qed.

Lemma refill_loop_spec n base b head l m :
  0 < base → osz b * (Z.of_nat n + 1) ≤ FRAME_SIZE →
  chain (mem_of m) head l → (∀ p, p ∈ l → base + (osz b + Z.of_nat n * osz b) ≤ p) →
  wp (refill_loop n base (osz b) (osz b) head) m (λ r m', ∃ w, m' = put_mem w m ∧
    chain w r (objs_from base b 0 (Z.of_nat n) ++ l) ∧
    same_outside (λ x, base ≤ x < base + FRAME_SIZE) (mem_of m) w).
Proof.
  revert head l m. pose proof (osz_pos b). rewrite FRAME_SIZE_val.
  induction n as [|i IH]; intros head l m Hb Hfit Hc Hl; simpl.
  { apply wp_ret. exists (mem_of m). split_and!; [by destruct m as [[] []]|done|done]. }
  set (p := base + (osz b + Z.of_nat i * osz b)) in *.
  apply wp_bind, wp_u64_mul; [unfold u64_range; nia|].
  apply wp_bind, wp_u64_add; [unfold u64_range; nia|]. fold p.
  unfold OFF_OBJ_NEXT. rewrite Z.add_0_r.
  apply wp_bind, wp_put_ptr, wp_bind, wp_new_unchecked; [nia|].
  eapply wp_mono; [apply (IH (Some p) (p :: l)); [done|nia| |]|].
  - split; [done|]. simpl. rewrite read_write_eq.
    rewrite (chain_dec _ _ _ Hc) by (intros q Hq; specialize (Hl q Hq); nia).
    eapply chain_frame; [done|]. intros q Hq. specialize (Hl q Hq). unfold write_word.
    apply lookup_insert_ne. nia.
  - intros q [->|Hq]%elem_of_cons; [done|]. specialize (Hl q Hq). nia.
  - cbv beta. intros r m' (w & -> & Hcw & Hw). exists w. split_and!; [done| |].
    + by rewrite objs_from_snoc in Hcw.
    + etransitivity; [|exact Hw]. apply same_outside_write. nia.
Qed.

(** A word of a fresh slab lies in the frame it was cut from. *)
Lemma fresh_words h (F : gset Z) f x :
  f ∈ F → fb_addr h f ≤ x < fb_addr h f + FRAME_SIZE → frame_words h (λ g, g ∈ F) x.
Proof. intros Hf Hx. exists f. split; [done|]. unfold fb_addr in *. lia. Qed.

Lemma slab_disjoint_free h F total i w S x :
  heap_inv h F total i w S → meta_word S x → ¬ frame_words h (λ g, g ∈ F) x.
Proof.
  intros HI (a & b & fl & Hl & Hx) (g & Hg & Hgx).
  eapply (slab_words_not_free h F total a x g); [by eapply hi_frame| |done|done].
  unfold OFF_SLAB_FREE in Hx. rewrite FRAME_SIZE_val. destruct Hx as [->|[->|Hx]]; [lia..|].
  pose proof (proj1 (sk_objs _ _ _ _ (hi_slab _ _ _ _ _ _ HI _ _ _ Hl) x Hx)) as Hp.
  rewrite FRAME_SIZE_val in Hp. lia.
Qed.

(** The slab header, written over a chain of all the objects. *)
Lemma fresh_slab_ok w r a b :
  0 < a → (b < NUM_BUCKETS)%nat → chain w r (all_objs a b) →
  let w' := write_word (a + OFF_SLAB_FREE) (enc_ptr r) (write_word (a + OFF_SLAB_NEXT) (enc_ptr None) w) in
  slab_ok w' a b (all_objs a b) ∧ same_outside (λ x, a ≤ x < a + FRAME_SIZE) w w'.
Proof.
  intros Ha Hb Hc. unfold OFF_SLAB_FREE, OFF_SLAB_NEXT.
  assert (∀ p, p ∈ all_objs a b → a + 16 ≤ p) as Hobj.
  { intros p Hp%elem_of_all_objs; [|done]. by apply (obj_of_bounds a b p). }
  split; [split; [done|apply NoDup_all_objs| |]|].
  - intros p. by apply elem_of_all_objs.
  - unfold OFF_SLAB_FREE. rewrite read_write_eq, (chain_dec _ _ _ Hc) by (intros p Hp%Hobj; lia).
    eapply chain_frame; [done|]. intros p Hp%Hobj. unfold write_word. rewrite !lookup_insert_ne; [done|lia..].
  - rewrite FRAME_SIZE_val. etransitivity; apply same_outside_write; lia.
Qed.

(** The old slabs and the frame allocator after a frame was taken and written to. *)
Lemma heap_core_fresh h m S s f w' :
  heap_core h m S → fa_ok h s → fa_total s = total_of m → same_cpu (m_sys m) s →
  f ∈ free_of m → fa_free s = free_of m ∖ {[f]} →
  same_outside (frame_words h (λ g, g ∈ free_of m)) (mem_of m) (sy_mem s) →
  same_outside (λ x, fb_addr h f ≤ x < fb_addr h f + FRAME_SIZE) (sy_mem s) w' →
  let m' := mkMachine (set_sy_mem w' s) (m_own m) in
  heap_core h m' S ∧ hstep m m' ∧ free_of m' = free_of m ∖ {[f]} ∧
  same_outside (frame_words h (λ g, g ∈ free_of m)) (mem_of m) w'.
Proof.
  intros [Hfa Hh HI] Hok Htot Hcpu Hf Hfree Hs Hw m'.
  assert (same_outside (frame_words h (λ g, g ∈ free_of m)) (mem_of m) w') as Hall.
  { etransitivity; [exact Hs|]. eapply same_outside_weaken; [exact Hw|]. intros x. by apply fresh_words. }
  destruct (fa_frame h s w' (sy_if s) (sy_hhdm s) Hok) as (Hok' & Hfree' & Htot').
  { intros x Hx. apply Hw. intros Ha. apply Hx. intros (g & Hg & Hgx).
    rewrite Hfree in Hg. assert (g = f); [|set_solver].
    apply (frame_words_inj h g f x Hgx). unfold fb_addr in *. lia. }
  change (mkSys _ _ _ _) with (m_sys m') in Hok', Hfree', Htot'.
  assert (free_of m' = free_of m ∖ {[f]}) as Hfm by congruence.
  split_and!; [split|split_and!; [done|done|by rewrite Htot', Htot]|done|done].
  - done.
  - simpl. by rewrite (proj2 Hcpu).
  - rewrite Hfm. replace (total_of m') with (total_of m) by congruence.
    eapply heap_inv_mem; [exact HI| |].
    + intros a b fl Hl. eapply slab_frame_mono; [|by eapply hi_frame]. set_solver.
    + intros x Hx. apply Hall. by eapply slab_disjoint_free.
Qed.

(** [refill] cuts a frame into objects, or finds no free frame. *)
Lemma refill_spec h m S b :
  heap_core h m S → (b < NUM_BUCKETS)%nat →
  wp (refill (Z.of_nat b)) m (λ r m', hstep m m' ∧ m_own m' = m_own m ∧ heap_core h m' S ∧
    match r with
    | None => free_of m = ∅ ∧ free_of m' = free_of m ∧ mem_of m' = mem_of m
    | Some a => ∃ f, a = fb_addr h f ∧ f ∈ free_of m ∧ 0 ≤ f < total_of m ∧
        free_of m' = free_of m ∖ {[f]} ∧ slab_ok (mem_of m') a b (all_objs a b) ∧
        same_outside (frame_words h (λ g, g ∈ free_of m)) (mem_of m) (mem_of m')
    end).
Proof.
  intros Hcore Hb. pose proof Hcore as [Hfa Hh HI].
  destruct (fa_bounds h _ Hfa) as (Hh0 & Hhm & Hhe & Hin).
  destruct (slab_layout b Hb) as (Hnext & Hcnt & Hfit). pose proof (osz_pos b).
  unfold refill. apply wp_bind, (wp_index _ _ (osz b)); [rewrite Nat2Z.id; by apply OBJ_SIZE_lookup|].
  apply wp_bind, wp_on_sys. eapply wp_mono; [apply (fa_alloc_spec h _ 0 Hfa); lia|].
  cbv beta. intros [phys|] s (Hok & Htot & Hcpu & Hr); cycle 1.
  { destruct Hr as (Hfr & Hm & Hno). apply wp_ret. unfold hstep. simpl.
    split_and!; [done|done|done|done| | |done|done].
    - split; [done|simpl; by rewrite (proj2 Hcpu)|simpl; by rewrite Hfr, Htot, Hm].
    - apply set_eq. intros f. split; [|set_solver]. intros Hf. destruct (Hno f).
      apply free_run_0; [apply Hin|]; done. }
  destruct Hr as (f & -> & (_ & _ & Hrun) & Hfree & Hs). rewrite block_set_0 in Hrun, Hfree.
  assert (f ∈ free_of m) as Hf by set_solver. pose proof (Hin f Hf) as Hft.
  apply wp_bind. unfold phys_to_virt, hhdm. apply wp_bind, wp_gets. simpl.
  rewrite (proj2 Hcpu), Hh. apply wp_u64_add; [unfold u64_range; rewrite FRAME_SIZE_val in *; lia|].
  fold (fb_addr h f). assert (0 < fb_addr h f) by (unfold fb_addr; rewrite FRAME_SIZE_val; lia).
  rewrite Hnext. apply wp_bind, wp_u64_sub.
  { unfold u64_range, SLAB_FRAME_SIZE. rewrite FRAME_SIZE_val in *. nia. }
  apply wp_bind, wp_debug_assert; [lia|].
  eapply wp_seq; [apply (refill_loop_spec _ _ b None []); [done|lia|done|]|].
  { intros p Hp. by apply not_elem_of_nil in Hp. }
  cbv beta. intros r m' (w & -> & Hc & Hw). rewrite app_nil_r, Z2Nat.id in Hc by lia.
  fold (all_objs (fb_addr h f) b) in Hc. destruct (fresh_slab_ok w r _ b ltac:(done) Hb Hc) as [Hsl Hw'].
  apply wp_bind, wp_put_ptr, wp_bind, wp_put_ptr, wp_bind, wp_new_unchecked, wp_ret; [done|].
  assert (same_outside (λ x, fb_addr h f ≤ x < fb_addr h f + FRAME_SIZE) (sy_mem s)
    (write_word (fb_addr h f + OFF_SLAB_FREE) (enc_ptr r)
      (write_word (fb_addr h f + OFF_SLAB_NEXT) (enc_ptr None) w))) as Hwall
    by (etransitivity; [exact Hw|exact Hw']).
  destruct (heap_core_fresh h m S s f _ Hcore Hok Htot Hcpu Hf Hfree Hs Hwall) as (Hc' & Hst & Hfr & Hall).
  split_and!; [done..|exact Hc'|]. exists f. split_and!; [done|done|lia|lia|exact Hfr|exact Hsl|exact Hall].
Qed.

(** *** Taking an object *)

(** The memory after the first free object [p] of the slab at [a] is taken. *)
Definition pop_mem (a p : Z) (w : mem) : mem :=
  write_word (a + OFF_SLAB_FREE) (enc_ptr (dec_ptr (read_word w (p + OFF_OBJ_NEXT)))) w.

(** The ways a request of bucket [b] can end: nothing is left; an object of a
    slab that had one; the first object of a fresh slab. *)
Inductive taken (h : Z) m m' (S : slabs) (b : nat) : Z → Prop :=
| taken_none :
    (∀ a fl, S !! a = Some (b, fl) → fl = []) → free_of m = ∅ → free_of m' = free_of m →
    heap_core h m' S → mem_of m' = mem_of m → taken h m m' S b 0
| taken_old a p fl :
    S !! a = Some (b, p :: fl) → free_of m' = free_of m →
    heap_core h m' (<[a := (b, fl)]> S) →
    same_outside (λ x, x = a ∨ x = a + OFF_SLAB_FREE) (mem_of m) (mem_of m') →
    taken h m m' S b p
| taken_new f p fl :
    f ∈ free_of m → free_of m' = free_of m ∖ {[f]} → 0 ≤ f < total_of m →
    S !! fb_addr h f = None → all_objs (fb_addr h f) b = p :: fl →
    heap_core h m' (<[fb_addr h f := (b, fl)]> S) →
    same_outside (frame_words h (λ g, g ∈ free_of m)) (mem_of m) (mem_of m') →
    taken h m m' S b p.

Lemma taken_sys h m1 m m' S b p :
  m_sys m1 = m_sys m → mx_raw (m_own m1) = mx_raw (m_own m) →
  hstep m1 m' ∧ taken h m1 m' S b p → hstep m m' ∧ taken h m m' S b p.
Proof.
  intros Hs Hraw [Hst Htk]. unfold hstep in *. rewrite Hs, Hraw in Hst. split; [done|].
  destruct Htk; rewrite Hs in *; [by apply taken_none|by eapply taken_old|by eapply taken_new].
Qed.

Lemma put_inner_id m : put_inner (mx_data (m_own m)) m = m.
Proof. by destruct m as [? []]. Qed.

Lemma heap_core_bucket h m S b :
  heap_core h m S → (b < NUM_BUCKETS)%nat →
  ∃ act part P, active (mx_data (m_own m)) !! b = Some act ∧
    partial (mx_data (m_own m)) !! b = Some part ∧ bucket_lists (mem_of m) S b act part P.
Proof. intros Hc. apply (hi_bucket _ _ _ _ _ _ (hc_inv _ _ _ Hc)). Qed.

Lemma heap_core_slab h m S a b fl :
  heap_core h m S → S !! a = Some (b, fl) →
  slab_frame h (free_of m) (total_of m) a ∧ slab_ok (mem_of m) a b fl ∧ 0 < a.
Proof.
  intros [Hfa _ HI] Hl. pose proof (hi_frame _ _ _ _ _ _ HI _ _ _ Hl) as Hf.
  split_and!; [done|by eapply hi_slab|]. eapply slab_frame_pos; [|done]. by apply (fa_bounds h _ Hfa).
Qed.

(** The head of a slab's free list, as the code reads it. *)
Lemma slab_head w a b fl : slab_ok w a b fl → dec_ptr (read_word w (a + OFF_SLAB_FREE)) = head fl.
Proof. intros Hs. by eapply chain_head, sk_chain. Qed.

Lemma pop_words w a b p fl :
  slab_ok w a b (p :: fl) → same_outside (λ x, x = a ∨ x = a + OFF_SLAB_FREE) w (pop_mem a p w).
Proof. intros _. apply same_outside_write. by right. Qed.

Lemma header_words w w' a :
  same_outside (λ x, x = a ∨ x = a + OFF_SLAB_FREE) w w' →
  same_outside (λ x, a ≤ x < a + FRAME_SIZE) w w'.
Proof.
  intros Hw. eapply same_outside_weaken; [exact Hw|]. unfold OFF_SLAB_FREE. rewrite FRAME_SIZE_val. lia.
Qed.

(** The header of another slab is not touched. *)
Lemma other_header h m S a x b fl w' :
  heap_core h m S → slab_frame h (free_of m) (total_of m) a → S !! x = Some (b, fl) → x ≠ a →
  same_outside (λ y, a ≤ y < a + FRAME_SIZE) (mem_of m) w' → w' !! x = mem_of m !! x.
Proof.
  intros Hc Hf Hl Hne Hw. destruct (heap_core_slab _ _ _ _ _ _ Hc Hl) as (Hf' & _ & _).
  apply Hw. destruct (slab_frame_apart _ _ _ _ _ Hf Hf' ltac:(done)); rewrite FRAME_SIZE_val in *; lia.
Qed.

(** The active slab has a free object. *)
Lemma take_active h m S b a p fl part P :
  heap_core h m S → (b < NUM_BUCKETS)%nat → S !! a = Some (b, p :: fl) →
  active (mx_data (m_own m)) !! b = Some (Some a) →
  partial (mx_data (m_own m)) !! b = Some part →
  bucket_lists (mem_of m) S b (Some a) part P →
  let m' := put_mem (pop_mem a p (mem_of m)) m in hstep m m' ∧ taken h m m' S b p.
Proof.
  intros Hc Hb Hl Hact Hpart Hbl m'. destruct (heap_core_slab _ _ _ _ _ _ Hc Hl) as (Hf & Hs & Ha).
  pose proof (pop_words _ _ _ _ _ Hs) as Hw. pose proof (header_words _ _ _ Hw) as Hw'.
  destruct (bl_active _ _ _ _ _ _ Hbl a eq_refl) as [HaP _].
  destruct (heap_core_write h m S a (mx_data (m_own m)) _ (<[a := (b, fl)]> S) Hc Hf Hw') as (Hc' & Hst & Hfr).
  - eapply (heap_inv_update h _ _ _ _ _ _ _ a b fl (Some a) part P); [apply Hc|done|done| | | | | |done].
    + intros. congruence.
    + by rewrite list_insert_id.
    + by rewrite list_insert_id.
    + by apply slab_pop.
    + eapply bl_set; [done|done|done|by right|]. intros x Hx.
      destruct (bl_partial _ _ _ _ _ _ Hbl _ Hx) as (fl' & Hl' & _).
      eapply (other_header h m S a x); [done..|congruence|done].
  - change (put_inner _ _) with (put_inner (mx_data (m_own m')) m') in Hc', Hst, Hfr.
    rewrite put_inner_id in Hc', Hst, Hfr. split; [done|]. by eapply taken_old.
Qed.

(** The bucket's first partial slab becomes active and gives its first object. *)
Lemma take_first_partial h m S b a p fl part P :
  heap_core h m S → (b < NUM_BUCKETS)%nat → S !! a = Some (b, p :: fl) →
  active (mx_data (m_own m)) !! b = Some None →
  partial (mx_data (m_own m)) !! b = Some part →
  bucket_lists (mem_of m) S b None part (a :: P) →
  let i := mx_data (m_own m) in
  let i' := mkHeapInner (<[b := Some a]> (active i))
              (<[b := dec_ptr (read_word (mem_of m) (a + OFF_SLAB_NEXT))]> (partial i)) in
  let w := write_word (a + OFF_SLAB_NEXT) (enc_ptr None) (mem_of m) in
  let m' := put_inner i' (put_mem (pop_mem a p w) m) in
  slab_ok w a b (p :: fl) ∧ hstep m m' ∧ taken h m m' S b p.
Proof.
  intros Hc Hb Hl Hact Hpart Hbl i i' w m'.
  destruct (heap_core_slab _ _ _ _ _ _ Hc Hl) as (Hf & Hs & Ha).
  assert (same_outside (λ x, x = a ∨ x = a + OFF_SLAB_FREE) (mem_of m) w) as Hw1
    by (apply same_outside_write; unfold OFF_SLAB_NEXT; lia).
  assert (slab_ok w a b (p :: fl)) as Hs1.
  { eapply slab_ok_frame; [exact Hs|..]; [|intros q Hq; destruct (obj_of_bounds a b q Hb (sk_objs _ _ _ _ Hs q Hq))];
      unfold w, write_word, OFF_SLAB_NEXT, OFF_SLAB_FREE; apply lookup_insert_ne; lia. }
  assert (same_outside (λ x, x = a ∨ x = a + OFF_SLAB_FREE) (mem_of m) (pop_mem a p w)) as Hw2
    by (etransitivity; [exact Hw1|by eapply pop_words]).
  pose proof (header_words _ _ _ Hw2) as Hw.
  destruct (heap_core_write h m S a i' _ (<[a := (b, fl)]> S) Hc Hf Hw) as (Hc' & Hst & Hfr).
  - eapply (heap_inv_update h _ _ _ _ _ _ _ a b fl); [apply Hc|done|done| |done|done| | |done].
    + intros. congruence.
    + by apply slab_pop.
    + unfold OFF_SLAB_NEXT. rewrite Z.add_0_r. eapply bl_take; [done|by intros ?|done|].
      intros x Hx. destruct (bl_partial _ _ _ _ _ _ Hbl x) as (fl' & Hl' & _); [by right|].
      eapply (other_header h m S a x); [done..| |done].
      intros ->. pose proof (bl_nodup _ _ _ _ _ _ Hbl) as [Hn _]%NoDup_cons. done.
  - split_and!; [done|done|]. by eapply taken_old.
Qed.

(** A fresh slab becomes active and gives its first object. *)
Lemma take_fresh h m m1 S b f p fl part act :
  heap_core h m1 S → (b < NUM_BUCKETS)%nat → hstep m m1 → m_own m1 = m_own m →
  f ∈ free_of m → 0 ≤ f < total_of m → free_of m1 = free_of m ∖ {[f]} →
  heap_core h m S → all_objs (fb_addr h f) b = p :: fl →
  slab_ok (mem_of m1) (fb_addr h f) b (all_objs (fb_addr h f) b) →
  same_outside (frame_words h (λ g, g ∈ free_of m)) (mem_of m) (mem_of m1) →
  active (mx_data (m_own m1)) !! b = Some act → exhausted S b act →
  partial (mx_data (m_own m1)) !! b = Some part →
  bucket_lists (mem_of m1) S b act part [] →
  let i := mx_data (m_own m1) in
  let i' := set_active (<[b := Some (fb_addr h f)]> (active i)) i in
  let m' := put_inner i' (put_mem (pop_mem (fb_addr h f) p (mem_of m1)) m1) in
  hstep m m' ∧ taken h m m' S b p.
Proof.
  intros Hc Hb Hst1 Hown Hf Hft Hfr1 Hc0 Hobj Hs Hm Hact Hex Hpart Hbl i i' m'.
  set (a := fb_addr h f) in *. rewrite Hobj in Hs.
  assert (slab_frame h (free_of m1) (total_of m1) a) as Hfa.
  { exists f. destruct Hst1 as (_ & _ & Ht). rewrite Ht, Hfr1. split_and!; [done|lia|lia|set_solver]. }
  assert (S !! a = None) as Hnone.
  { destruct (S !! a) as [[b' fl']|] eqn:Hl; [|done].
    destruct (heap_core_slab _ _ _ _ _ _ Hc0 Hl) as ((f' & Hf' & _ & Hn) & _ & _).
    assert (f = f') as ->; [|done]. unfold a, fb_addr in Hf'. rewrite FRAME_SIZE_val in Hf'. lia. }
  pose proof (header_words _ _ _ (pop_words _ _ _ _ _ Hs)) as Hw.
  assert (part = None) as -> by apply (bl_chain _ _ _ _ _ _ Hbl).
  destruct (heap_core_write h m1 S a i' _ (<[a := (b, fl)]> S) Hc Hfa Hw) as (Hc' & Hst & Hfr).
  - eapply (heap_inv_update h _ _ _ _ _ _ _ a b fl); [apply Hc|done|done| |done| | | |done].
    + intros. congruence.
    + by rewrite list_insert_id.
    + by apply slab_pop.
    + by eapply bl_fresh.
  - split.
    + by eapply hstep_trans.
    + eapply (taken_new h m m' S b f p fl); [done|by etransitivity|done|done|done|done|].
      etransitivity; [exact Hm|]. eapply same_outside_weaken; [exact Hw|].
      intros x. by apply fresh_words.
Qed.

(** The end of [alloc_slow], once there is a slab with a free object. *)
Lemma wp_slow_tail m a b p fl o (Q : Z → Machine A Heap → Prop) :
  slab_ok (mem_of m) a b (p :: fl) → active (mx_data (m_own m)) !! b = Some o →
  Q p (put_mem (pop_mem a p (mem_of m))
        (put_inner (set_active (<[b := Some a]> (active (mx_data (m_own m)))) (mx_data (m_own m))) m)) →
  wp (do! put_active (Z.of_nat b) (Some a);
      let! free := get_ptr (a + OFF_SLAB_FREE) in
      let! obj := unwrap free "Option::unwrap_unchecked called on a None value" in
      let! next := get_ptr (obj + OFF_OBJ_NEXT) in
      do! put_ptr (a + OFF_SLAB_FREE) next;
      ret obj) m Q.
Proof.
  intros Hs Ho HQ. apply wp_bind. eapply wp_put_active; [done|]. apply wp_bind, wp_get_ptr.
  apply wp_bind, wp_unwrap with p; [exact (slab_head _ _ _ _ Hs)|done].
Qed.

Lemma alloc_slow_spec h m S b act :
  heap_core h m S → (b < NUM_BUCKETS)%nat →
  active (mx_data (m_own m)) !! b = Some act → exhausted S b act →
  wp (alloc_slow (Z.of_nat b)) m (λ p m', hstep m m' ∧ taken h m m' S b p).
Proof.
  intros Hc Hb Hact Hex. destruct (heap_core_bucket _ _ _ _ Hc Hb) as (act' & part & P & Ha' & Hpart & Hbl).
  assert (act' = act) as -> by congruence. apply bl_drop in Hbl; [|done].
  pose proof (lookup_lt_Some _ _ _ Hact) as Hlen.
  unfold alloc_slow. apply wp_bind. eapply wp_put_active; [done|].
  set (i1 := set_active _ _). set (m1 := put_inner i1 m).
  assert (heap_core h m1 S) as Hc1.
  { split; [apply Hc..|]. eapply (heap_inv_lists h _ _ _ _ _ i1 b None part); [apply Hc|done|done| |done].
    by rewrite list_insert_id. }
  assert (active i1 !! b = Some None) as Hact1 by (by apply list_lookup_insert_eq).
  unfold take_partial. eapply wp_mono; [|intros ? ? Hres; by apply (taken_sys h m1 m) in Hres; [exact Hres|..]].
  destruct P as [|a P].
  - assert (part = None) as -> by apply (bl_chain _ _ _ _ _ _ Hbl).
    do 2 apply wp_bind. eapply wp_get_partial; [done|]. apply wp_ret.
    eapply wp_seq; [by apply (refill_spec h m1 S b)|]. cbv beta. intros [a|] m2 (Hst & Hown & Hc2 & Hr).
    + destruct Hr as (f & -> & Hf & Hft & Hfr & Hs & Hm).
      destruct (all_objs_cons (fb_addr h f) b Hb) as (p & fl & Hobj). pose proof Hs as Hs'. rewrite Hobj in Hs'.
      eapply wp_slow_tail; [done|by rewrite Hown|].
      assert (bucket_lists (mem_of m2) S b None None []) as Hbl2
        by (eapply bucket_lists_frame; [exact Hbl|done|]; intros x fl' Hx; apply Hm;
            eapply slab_disjoint_free; [apply Hc|]; exists x, b, fl'; auto).
      by eapply (take_fresh h m1 m2 S b f p fl None None); try done; rewrite ?Hown.
    + destruct Hr as (Hfree & Hfr & Hm). apply wp_ret. split; [done|]. apply taken_none; [|done..].
      intros x fl Hx. destruct fl as [|p fl]; [done|].
      by destruct (bl_complete _ _ _ _ _ _ Hbl x (p :: fl) Hx) as [?%not_elem_of_nil|].
  - destruct (bl_partial _ _ _ _ _ _ Hbl a) as ([|p fl] & Hl & Hne); [left|done|].
    destruct (take_first_partial h m1 S b a p fl part P Hc1 Hb Hl Hact1 Hpart Hbl) as (Hs & Hst & Htk).
    destruct (bl_chain _ _ _ _ _ _ Hbl) as [-> _].
    do 2 apply wp_bind. eapply wp_get_partial; [done|]. apply wp_bind, wp_get_ptr, wp_bind.
    eapply wp_put_partial; [done|]. apply wp_bind, wp_put_ptr, wp_ret, wp_bind, wp_ret.
    eapply wp_slow_tail; [done|done|]. by split.
Qed.

(** The body of [alloc_small]. *)
Lemma alloc_small_body h m S b :
  heap_core h m S → (b < NUM_BUCKETS)%nat →
  wp (let! act := get_active (Z.of_nat b) in
      match act with
      | None => alloc_slow (Z.of_nat b)
      | Some slab =>
          let! free := get_ptr (slab + OFF_SLAB_FREE) in
          match free with
          | None => alloc_slow (Z.of_nat b)
          | Some obj =>
              let! next := get_ptr (obj + OFF_OBJ_NEXT) in
              do! put_ptr (slab + OFF_SLAB_FREE) next;
              ret obj
          end
      end) m (λ p m', hstep m m' ∧ taken h m m' S b p).
Proof.
  intros Hc Hb. destruct (heap_core_bucket _ _ _ _ Hc Hb) as (act & part & P & Hact & Hpart & Hbl).
  apply wp_bind. eapply wp_get_active; [done|]. destruct act as [a|].
  - destruct (bl_active _ _ _ _ _ _ Hbl a eq_refl) as [HaP [fl Hl]].
    destruct (heap_core_slab _ _ _ _ _ _ Hc Hl) as (Hf & Hs & Ha).
    apply wp_bind, wp_get_ptr. rewrite (slab_head _ _ _ _ Hs). destruct fl as [|p fl]; simpl.
    + eapply alloc_slow_spec; [done..|]. intros x [= <-]. done.
    + apply wp_bind, wp_get_ptr, wp_bind, wp_put_ptr, wp_ret. by eapply take_active.
  - eapply alloc_slow_spec; [done..|]. by intros x.
Qed.

(** *** Giving an object back *)

(** The memory after [p] is pushed on the free list of the slab at [a]. *)
Definition push_mem (a p : Z) (w : mem) : mem :=
  write_word (a + OFF_SLAB_FREE) p
    (write_word (p + OFF_OBJ_NEXT) (enc_ptr (dec_ptr (read_word w (a + OFF_SLAB_FREE)))) w).

(** What a release leaves: the object is on its slab's free list, and memory
    changed only in the slab's header and in the object's first word. *)
Definition given_back (h : Z) m m' (S : slabs) (a : Z) (b : nat) (p : Z) (fl : list Z) : Prop :=
  hstep m m' ∧ heap_core h m' (<[a := (b, p :: fl)]> S) ∧ free_of m' = free_of m ∧
  same_outside (λ x, x = a ∨ x = a + OFF_SLAB_FREE ∨ x = p) (mem_of m) (mem_of m').

(** The slab is active or partial already: its lists stay. *)
Lemma give_listed h m S a b p fl act part P :
  heap_core h m S → (b < NUM_BUCKETS)%nat → S !! a = Some (b, fl) → obj_of a b p → p ∉ fl →
  active (mx_data (m_own m)) !! b = Some act → partial (mx_data (m_own m)) !! b = Some part →
  bucket_lists (mem_of m) S b act part P → (a ∈ P ∨ act = Some a) →
  given_back h m (put_mem (push_mem a p (mem_of m)) m) S a b p fl.
Proof.
  intros Hc Hb Hl Hp Hn Hact Hpart Hbl Hin. destruct (heap_core_slab _ _ _ _ _ _ Hc Hl) as (Hf & Hs & Ha).
  destruct (obj_of_bounds a b p Hb Hp) as [Hp1 Hp2]. pose proof (osz_pos b).
  assert (same_outside (λ x, x = a + OFF_SLAB_FREE ∨ x = p) (mem_of m) (push_mem a p (mem_of m))) as Hw.
  { etransitivity; apply same_outside_write; [right; apply Z.add_0_r|by left]. }
  assert (same_outside (λ x, a ≤ x < a + FRAME_SIZE) (mem_of m) (push_mem a p (mem_of m))) as Hws.
  { eapply same_outside_weaken; [exact Hw|]. unfold OFF_SLAB_FREE. rewrite FRAME_SIZE_val in *. lia. }
  destruct (heap_core_write h m S a (mx_data (m_own m)) _ (<[a := (b, p :: fl)]> S) Hc Hf Hws)
    as (Hc' & Hst & Hfr).
  - eapply (heap_inv_update h _ _ _ _ _ _ _ a b (p :: fl) act part P);
      [apply Hc|done|done| |by rewrite list_insert_id|by rewrite list_insert_id| | |done].
    + intros. congruence.
    + by apply slab_push.
    + eapply bl_set; [done..|]. intros x Hx. destruct (bl_partial _ _ _ _ _ _ Hbl _ Hx) as (fl' & Hl' & _).
      destruct (decide (x = a)) as [->|]; [|by eapply (other_header h m S a x)].
      apply Hw. unfold OFF_SLAB_FREE. lia.
  - change (put_inner _ _) with
      (put_inner (mx_data (m_own (put_mem (push_mem a p (mem_of m)) m)))
        (put_mem (push_mem a p (mem_of m)) m)) in Hc', Hst, Hfr.
    rewrite put_inner_id in Hc', Hst, Hfr. split_and!; [apply Hst..|done|done|].
    eapply same_outside_weaken; [exact Hw|]. tauto.
Qed.

(** The slab was full and not active: it joins the partial slabs. *)
Lemma give_full h m S a b p act part P :
  heap_core h m S → (b < NUM_BUCKETS)%nat → S !! a = Some (b, []) → obj_of a b p →
  active (mx_data (m_own m)) !! b = Some act → act ≠ Some a →
  partial (mx_data (m_own m)) !! b = Some part → bucket_lists (mem_of m) S b act part P →
  let i := mx_data (m_own m) in
  let w := write_word (a + OFF_SLAB_NEXT) (enc_ptr part) (push_mem a p (mem_of m)) in
  given_back h m (put_inner (set_partial (<[b := Some a]> (partial i)) i) (put_mem w m)) S a b p [].
Proof.
  intros Hc Hb Hl Hp Hact Hne Hpart Hbl i w. destruct (heap_core_slab _ _ _ _ _ _ Hc Hl) as (Hf & Hs & Ha).
  destruct (obj_of_bounds a b p Hb Hp) as [Hp1 Hp2]. pose proof (osz_pos b).
  assert (same_outside (λ x, x = a ∨ x = a + OFF_SLAB_FREE ∨ x = p) (mem_of m) w) as Hw.
  { etransitivity; [etransitivity|]; apply same_outside_write; unfold OFF_OBJ_NEXT, OFF_SLAB_NEXT; lia. }
  assert (same_outside (λ x, a ≤ x < a + FRAME_SIZE) (mem_of m) w) as Hws.
  { eapply same_outside_weaken; [exact Hw|]. unfold OFF_SLAB_FREE. rewrite FRAME_SIZE_val in *. lia. }
  assert (dec_ptr (read_word w a) = part) as Hnext.
  { unfold w, OFF_SLAB_NEXT. rewrite Z.add_0_r, read_write_eq.
    apply (chain_dec (mem_of m) part P); [apply Hbl|]. intros x Hx.
    destruct (bl_partial _ _ _ _ _ _ Hbl _ Hx) as (fl' & Hl' & _).
    destruct (heap_core_slab _ _ _ _ _ _ Hc Hl') as (_ & _ & ?). lia. }
  destruct (heap_core_write h m S a (set_partial (<[b := Some a]> (partial i)) i) _
    (<[a := (b, [p])]> S) Hc Hf Hws) as (Hc' & Hst & Hfr).
  - eapply (heap_inv_update h _ _ _ _ _ _ _ a b [p] act (Some a) (a :: P));
      [apply Hc|done|done| |symmetry; by apply list_insert_id|done| | |done].
    + intros. congruence.
    + eapply slab_ok_frame; [apply (slab_push (mem_of m) a b p []); [done|done|apply not_elem_of_nil|done]|..];
        [|intros q ->%list_elem_of_singleton];
        unfold w, write_word, push_mem, OFF_SLAB_NEXT, OFF_SLAB_FREE; rewrite lookup_insert_ne; done || lia.
    + eapply bl_push; [done..| |done]. intros x Hx Hxa.
      destruct (bl_partial _ _ _ _ _ _ Hbl _ Hx) as (fl' & Hl' & _).
      by eapply (other_header h m S a x).
  - split_and!; [apply Hst..|done|done|done].
Qed.

(** The body of [dealloc_small], for an object that is in use. *)
Lemma dealloc_small_body h m S a b p fl :
  heap_core h m S → S !! a = Some (b, fl) → obj_of a b p → p ∉ fl →
  wp (let! free := get_ptr (a + OFF_SLAB_FREE) in
      let was_full := match free with None => true | Some _ => false end in
      let obj := p in
      let! free' := get_ptr (a + OFF_SLAB_FREE) in
      do! put_ptr (obj + OFF_OBJ_NEXT) free';
      let! o := new_unchecked obj in
      do! put_ptr (a + OFF_SLAB_FREE) (Some o);
      let! act := get_active (Z.of_nat b) in
      if match act with Some a' => a' =? a | None => false end then ret tt
      else if was_full then
        let! q := get_partial (Z.of_nat b) in
        do! put_ptr (a + OFF_SLAB_NEXT) q;
        let! sl := new_unchecked a in
        put_partial (Z.of_nat b) (Some sl)
      else ret tt) m (λ _ m', given_back h m m' S a b p fl).
Proof.
  intros Hc Hl Hp Hn. destruct (heap_core_slab _ _ _ _ _ _ Hc Hl) as (Hf & Hs & Ha).
  pose proof (sk_bucket _ _ _ _ Hs) as Hb. destruct (obj_of_bounds a b p Hb Hp) as [Hp1 Hp2].
  destruct (heap_core_bucket _ _ _ _ Hc Hb) as (act & part & P & Hact & Hpart & Hbl).
  apply wp_bind, wp_get_ptr, wp_bind, wp_get_ptr, wp_bind, wp_put_ptr, wp_bind, wp_new_unchecked; [lia|].
  apply wp_bind, wp_put_ptr, wp_bind. eapply wp_get_active; [exact Hact|].
  rewrite (slab_head _ _ _ _ Hs).
  assert (match act with Some a' => a' =? a | None => false end = bool_decide (act = Some a)) as ->.
  { destruct act as [x|]; [|done]. case_bool_decide as E; [injection E as ->; lia|].
    destruct (Z.eqb_spec x a); congruence. }
  case_bool_decide as Heq.
  { apply wp_ret. rewrite <- (slab_head _ _ _ _ Hs). by eapply (give_listed h m S a b p fl); eauto. }
  destruct fl as [|q fl]; cbn [head].
  - apply wp_bind. eapply wp_get_partial; [exact Hpart|]. apply wp_bind, wp_put_ptr, wp_bind, wp_new_unchecked; [done|].
    eapply wp_put_partial; [exact Hpart|].
    pose proof (give_full h m S a b p act part P Hc Hb Hl Hp Hact Heq Hpart Hbl) as Hg.
    unfold push_mem in Hg. rewrite (slab_head _ _ _ _ Hs) in Hg. exact Hg.
  - apply wp_ret. pose proof (give_listed h m S a b p (q :: fl) act part P Hc Hb Hl Hp Hn Hact Hpart Hbl) as Hg.
    unfold push_mem in Hg. rewrite (slab_head _ _ _ _ Hs) in Hg. apply Hg. by eapply bl_complete.
Qed.

End ops.
