(* ===== verification/HeapLive.v ===== *)
(** * HeapLive: the allocations in use

    The client's view of the heap is a map [live] from the pointers it holds to
    the layouts it asked for.  [live_ok] ties that map to the slabs and the free
    frames: a small allocation is an object that is not on its slab's free list,
    a large one a block of frames that is neither free nor under a slab, and
    every object that is not free is live. *)

From S2P Require Import Prelude Bits Mem Pmm Dll PmmInv PmmList PmmOps PmmSpec.
From S2P Require Import Locks FrameAlloc Heap HeapInv HeapOps.

(** How much memory a layout gets. *)
Definition extent (l : Layout) : Z :=
  match bucket_for l with
  | Some z => osz (Z.to_nat z)
  | None => match order_for_large l with Some o => blk o * FRAME_SIZE | None => 0 end
  end.

Definition region (p : Z) (l : Layout) (x : Z) : Prop := p ≤ x < p + extent l.

(** A large allocation is an aligned block of frames in use. *)
Definition large_at (h : Z) (F : gset Z) (total p : Z) (l : Layout) : Prop :=
  ∃ o f, order_for_large l = Some o ∧ (o ≤ MAX_ORDER)%nat ∧ p = fb_addr h f ∧ 0 ≤ f ∧
    f mod blk o = 0 ∧ f + blk o ≤ total ∧ block_set f o ## F.

Record live_ok (h : Z) (F : gset Z) (total : Z) (S : slabs) (live : gmap Z Layout) : Prop := {
  lo_slab a b fl : S !! a = Some (b, fl) →
    slab_frame h F total a ∧ (b < NUM_BUCKETS)%nat ∧ NoDup fl ∧ ∀ p, p ∈ fl → obj_of a b p;
  lo_layout p l : live !! p = Some l → layout_ok l;
  lo_small p l b : live !! p = Some l → bucket_for l = Some (Z.of_nat b) →
    ∃ a fl, S !! a = Some (b, fl) ∧ obj_of a b p ∧ p ∉ fl;
  lo_used a b fl p : S !! a = Some (b, fl) → obj_of a b p → p ∉ fl →
    ∃ l, live !! p = Some l ∧ bucket_for l = Some (Z.of_nat b);
  lo_large p l : live !! p = Some l → bucket_for l = None → large_at h F total p l;
  lo_large_slab p l a b fl : live !! p = Some l → bucket_for l = None → S !! a = Some (b, fl) →
    a + FRAME_SIZE ≤ p ∨ p + extent l ≤ a;
  lo_large_large p l p' l' : live !! p = Some l → live !! p' = Some l' → p ≠ p' →
    bucket_for l = None → bucket_for l' = None → p + extent l ≤ p' ∨ p' + extent l' ≤ p
}.

Lemma extent_small l b : bucket_for l = Some (Z.of_nat b) → extent l = osz b.
Proof. intros Hb. unfold extent. by rewrite Hb, Nat2Z.id. Qed.

Lemma bucket_is_nat l z : layout_ok l → bucket_for l = Some z → ∃ b, z = Z.of_nat b ∧ (b < NUM_BUCKETS)%nat.
Proof. intros Hl Hb. pose proof (bucket_for_spec l Hl) as Hs. rewrite Hb in Hs. destruct Hs as (b & ? & ? & _). eauto. Qed.

Lemma extent_size l : layout_ok l →
  (bucket_for l = None → order_for_large l ≠ None) → lay_size l ≤ extent l.
Proof.
  intros Hl Hlarge. unfold extent. pose proof (bucket_for_spec l Hl) as Hb. destruct (bucket_for l) as [z|].
  - destruct Hb as (b & -> & _ & Hs & _). by rewrite Nat2Z.id.
  - pose proof (order_for_large_spec l Hl) as Ho. destruct (order_for_large l); [|by destruct Hlarge].
    destruct Ho as (_ & ? & _). lia.
Qed.

(** ** Live memory is apart from everything else *)
Section live.
Context {h : Z} {F : gset Z} {total : Z} {S : slabs} {live : gmap Z Layout}.
Context (HL : live_ok h F total S live).

(** A small allocation: its slab and where it lies in it. *)
Lemma small_place p l :
  live !! p = Some l → bucket_for l ≠ None →
  ∃ a b fl, bucket_for l = Some (Z.of_nat b) ∧ (b < NUM_BUCKETS)%nat ∧ extent l = osz b ∧
    S !! a = Some (b, fl) ∧ obj_of a b p ∧ (p ∉ fl) ∧ a + 16 ≤ p ∧ p + extent l ≤ a + FRAME_SIZE.
Proof.
  intros Hl Hb. destruct (bucket_for l) as [z|] eqn:Hz; [|done].
  destruct (bucket_is_nat l z) as (b & -> & Hlt); [by eapply lo_layout|done|].
  destruct (lo_small _ _ _ _ _ HL p l b Hl Hz) as (a & fl & Ha & Ho & Hn).
  pose proof (extent_small l b Hz) as He. destruct (obj_of_bounds a b p Hlt Ho).
  exists a, b, fl. rewrite He. by split_and!.
Qed.

Lemma slabs_apart a b fl a' b' fl' :
  S !! a = Some (b, fl) → S !! a' = Some (b', fl') → a ≠ a' →
  a + FRAME_SIZE ≤ a' ∨ a' + FRAME_SIZE ≤ a.
Proof.
  intros Ha Ha'. apply (slab_frame_apart h F total).
  - by apply (lo_slab _ _ _ _ _ HL a b fl).
  - by apply (lo_slab _ _ _ _ _ HL a' b' fl').
Qed.

Lemma regions_apart p l p' l' :
  live !! p = Some l → live !! p' = Some l' → p ≠ p' →
  p + extent l ≤ p' ∨ p' + extent l' ≤ p.
Proof.
  intros Hl Hl' Hne. destruct (bucket_for l) eqn:Hb, (bucket_for l') eqn:Hb'.
  - destruct (small_place p l Hl ltac:(congruence)) as (a & b & fl & _ & Hlt & He & Ha & Ho & _ & ? & ?).
    destruct (small_place p' l' Hl' ltac:(congruence)) as (a' & b' & fl' & _ & _ & He' & Ha' & Ho' & _ & ? & ?).
    destruct (decide (a = a')) as [<-|Haa]; [|destruct (slabs_apart _ _ _ _ _ _ Ha Ha' Haa); lia].
    rewrite He, He'. assert (b' = b) as -> by congruence. by apply (obj_of_apart a b).
  - destruct (small_place p l Hl ltac:(congruence)) as (a & b & fl & _ & Hlt & He & Ha & Ho & _ & ? & ?).
    destruct (lo_large_slab _ _ _ _ _ HL p' l' a b fl Hl' Hb' Ha); lia.
  - destruct (small_place p' l' Hl' ltac:(congruence)) as (a & b & fl & _ & Hlt & He & Ha & Ho & _ & ? & ?).
    destruct (lo_large_slab _ _ _ _ _ HL p l a b fl Hl Hb Ha); lia.
  - by apply (lo_large_large _ _ _ _ _ HL p l p' l').
Qed.

Lemma meta_in_slab a b fl x :
  S !! a = Some (b, fl) → x = a ∨ x = a + OFF_SLAB_FREE ∨ x ∈ fl → a ≤ x < a + FRAME_SIZE.
Proof.
  intros Ha Hx. destruct (lo_slab _ _ _ _ _ HL a b fl Ha) as (_ & _ & _ & Hobj).
  destruct Hx as [->|[->|Hx]]; [unfold OFF_SLAB_FREE; rewrite FRAME_SIZE_val; lia..|].
  pose proof (proj1 (Hobj x Hx)). lia.
Qed.

(** The words of a block of frames. *)
Lemma block_words f o x g :
  fb_addr h f ≤ x < fb_addr h f + blk o * FRAME_SIZE →
  fb_addr h g ≤ x < fb_addr h (g + 1) → g ∈ block_set f o.
Proof.
  intros Hx Hg. apply elem_of_block_set. unfold in_block, fb_addr in *. rewrite FRAME_SIZE_val in *. lia.
Qed.

Lemma live_words p l x :
  live !! p = Some l → region p l x → ¬ meta_word S x ∧ ¬ frame_words h (λ g, g ∈ F) x.
Proof.
  intros Hl Hx. unfold region in Hx. destruct (bucket_for l) eqn:Hb.
  - destruct (small_place p l Hl ltac:(congruence)) as (a & b & fl & _ & Hlt & He & Ha & Ho & Hn & ? & ?).
    destruct (lo_slab _ _ _ _ _ HL a b fl Ha) as (Hf & _ & _ & Hobj). split.
    + intros (a' & b' & fl' & Ha' & Hx'). destruct (decide (a = a')) as [<-|Haa].
      * assert (b' = b ∧ fl' = fl) as [-> ->] by (split; congruence).
        unfold OFF_SLAB_FREE in Hx'. destruct Hx' as [->|[->|Hx']]; [lia..|].
        destruct (obj_of_apart a b p x Ho (Hobj x Hx')); [congruence|lia..].
      * pose proof (meta_in_slab a' b' fl' x Ha' Hx').
        destruct (slabs_apart _ _ _ _ _ _ Ha Ha' Haa); lia.
    + intros (g & Hg & Hgx). by eapply (slab_words_not_free h F total a x g); [|lia|..].
  - destruct (lo_large _ _ _ _ _ HL p l Hl Hb) as (o & f & Ho & Hmax & -> & Hf & _ & Ht & Hd).
    assert (extent l = blk o * FRAME_SIZE) as He by (unfold extent; by rewrite Hb, Ho). split.
    + intros (a' & b' & fl' & Ha' & Hx').
      pose proof (meta_in_slab a' b' fl' x Ha' Hx'). destruct (lo_large_slab _ _ _ _ _ HL _ l a' b' fl' Hl Hb Ha'); lia.
    + intros (g & Hg & Hgx). rewrite He in Hx. apply (Hd g); [by apply (block_words f o x)|done].
Qed.

(** A pointer belongs to one slab only. *)
Lemma slab_unique a b fl a' b' fl' p :
  S !! a = Some (b, fl) → S !! a' = Some (b', fl') → obj_of a b p → obj_of a' b' p → a = a'.
Proof.
  intros Ha Ha' [Hp _] [Hp' _]. destruct (decide (a = a')) as [|Hne]; [done|].
  destruct (slabs_apart _ _ _ _ _ _ Ha Ha' Hne); lia.
Qed.

(** A free object is not live, nor is an address in a free frame. *)
Lemma free_object_not_live a b fl p :
  S !! a = Some (b, fl) → p ∈ fl → live !! p = None.
Proof.
  intros Ha Hp. destruct (live !! p) as [l|] eqn:Hl; [|done]. exfalso.
  assert (0 < extent l) as Hpos.
  { destruct (bucket_for l) eqn:Hb.
    - destruct (small_place p l Hl ltac:(congruence)) as (_ & b' & _ & _ & _ & -> & _).
      pose proof (osz_pos b'). lia.
    - destruct (lo_large _ _ _ _ _ HL p l Hl Hb) as (o & f & Ho & _). unfold extent. rewrite Hb, Ho.
      pose proof (blk_pos o). rewrite FRAME_SIZE_val. lia. }
  destruct (live_words p l p Hl) as [Hm _]; [unfold region; lia|]. apply Hm. exists a, b, fl. auto.
Qed.

(** ** How the allocations in use change *)

(** A fresh slab, all of its objects free. *)
Lemma live_fresh_slab f b :
  f ∈ F → 0 ≤ f < total → S !! fb_addr h f = None → (b < NUM_BUCKETS)%nat →
  live_ok h (F ∖ {[f]}) total (<[fb_addr h f := (b, all_objs (fb_addr h f) b)]> S) live.
Proof.
  intros Hf Hft Hnone Hb. split.
  - intros a b' fl [[<- [= <- <-]]|[Hne Ha]]%lookup_insert_Some.
    + split_and!; [exists f; split_and!; [done|lia|lia|set_solver]|done|apply NoDup_all_objs|].
      intros p. by apply elem_of_all_objs.
    + destruct (lo_slab _ _ _ _ _ HL a b' fl Ha) as (Hfr & ?). split; [|done].
      eapply slab_frame_mono; [|done]. set_solver.
  - apply HL.
  - intros p l b' Hl Hbl. destruct (lo_small _ _ _ _ _ HL p l b' Hl Hbl) as (a & fl & Ha & ?).
    exists a, fl. rewrite lookup_insert_ne by congruence. done.
  - intros a b' fl p [[<- [= <- <-]]|[Hne Ha]]%lookup_insert_Some Ho Hn.
    + by apply elem_of_all_objs in Ho.
    + by apply (lo_used _ _ _ _ _ HL a b' fl).
  - intros p l Hl Hbl. destruct (lo_large _ _ _ _ _ HL p l Hl Hbl) as (o & g & ? & ? & ? & ? & ? & ? & ?).
    exists o, g. split_and!; [done..|set_solver].
  - intros p l a b' fl Hl Hbl [[<- [= <- <-]]|[Hne Ha]]%lookup_insert_Some;
      [|by apply (lo_large_slab _ _ _ _ _ HL p l a b' fl)].
    destruct (lo_large _ _ _ _ _ HL p l Hl Hbl) as (o & g & Ho & _ & -> & ? & _ & _ & Hd).
    unfold extent. rewrite Hbl, Ho. assert (f ∉ block_set g o) as Hng by set_solver.
    rewrite elem_of_block_set in Hng. unfold in_block, fb_addr in *. rewrite FRAME_SIZE_val. lia.
  - apply HL.
Qed.

(** The first free object of a slab goes to the client. *)
Lemma live_take a b p fl l :
  S !! a = Some (b, p :: fl) → layout_ok l → bucket_for l = Some (Z.of_nat b) →
  live_ok h F total (<[a := (b, fl)]> S) (<[p := l]> live).
Proof.
  intros Ha Hlok Hbl. pose proof (free_object_not_live a b _ p Ha ltac:(left)) as Hnew.
  destruct (lo_slab _ _ _ _ _ HL a b _ Ha) as (Hf & Hb & [Hn Hnd]%NoDup_cons & Hobj). split.
  - intros a' b' fl' [[<- [= <- <-]]|[Hne Ha']]%lookup_insert_Some; [|by apply HL].
    split_and!; [done..|]. intros q Hq. apply Hobj. by right.
  - intros q l' [[<- <-]|[Hne Hq]]%lookup_insert_Some; [done|by eapply lo_layout].
  - intros q l' b' [[<- <-]|[Hne Hq]]%lookup_insert_Some Hb'.
    + assert (b' = b) as -> by (apply Nat2Z.inj; congruence). exists a, fl. rewrite lookup_insert_eq.
      split_and!; [done|apply Hobj; left|done].
    + destruct (lo_small _ _ _ _ _ HL q l' b' Hq Hb') as (a' & fl' & Ha' & Ho & Hn').
      destruct (decide (a' = a)) as [->|]; [|exists a', fl'; by rewrite lookup_insert_ne].
      exists a, fl. rewrite lookup_insert_eq. assert (b' = b) as -> by congruence.
      split_and!; [done..|]. assert (fl' = p :: fl) as -> by congruence. apply not_elem_of_cons in Hn'. tauto.
  - intros a' b' fl' q [[<- [= <- <-]]|[Hne Ha']]%lookup_insert_Some Ho Hn'.
    + destruct (decide (q = p)) as [->|Hqp]; [exists l; by rewrite lookup_insert_eq|].
      rewrite lookup_insert_ne by done. apply (lo_used _ _ _ _ _ HL a b (p :: fl) q Ha Ho).
      by apply not_elem_of_cons.
    + destruct (lo_used _ _ _ _ _ HL a' b' fl' q Ha' Ho Hn') as (l' & Hl' & ?).
      exists l'. rewrite lookup_insert_ne by congruence. done.
  - intros q l' [[<- <-]|[Hne Hq]]%lookup_insert_Some Hb'; [congruence|by apply HL].
  - intros q l' a' b' fl' [[<- <-]|[Hne Hq]]%lookup_insert_Some Hb'; [congruence|].
    intros [[<- _]|[Hne' Ha']]%lookup_insert_Some; eapply lo_large_slab; done.
  - intros q l1 q' l2 [[<- <-]|[Hne Hq]]%lookup_insert_Some; [congruence|].
    intros [[<- <-]|[Hne' Hq']]%lookup_insert_Some; [congruence|by apply HL].
Qed.

(** An object in use goes back to its slab. *)
Lemma live_give a b p fl l :
  S !! a = Some (b, fl) → obj_of a b p → p ∉ fl → live !! p = Some l →
  bucket_for l = Some (Z.of_nat b) →
  live_ok h F total (<[a := (b, p :: fl)]> S) (delete p live).
Proof.
  intros Ha Ho Hn Hl Hbl. destruct (lo_slab _ _ _ _ _ HL a b _ Ha) as (Hf & Hb & Hnd & Hobj). split.
  - intros a' b' fl' [[<- [= <- <-]]|[Hne Ha']]%lookup_insert_Some; [|by apply HL].
    split_and!; [done|done|by constructor|]. by intros q [->|Hq]%elem_of_cons; [|apply Hobj].
  - intros q l' [_ Hq]%lookup_delete_Some. by eapply lo_layout.
  - intros q l' b' [Hqp Hq]%lookup_delete_Some Hb'.
    destruct (lo_small _ _ _ _ _ HL q l' b' Hq Hb') as (a' & fl' & Ha' & Ho' & Hn').
    destruct (decide (a' = a)) as [->|]; [|exists a', fl'; by rewrite lookup_insert_ne].
    assert (b' = b ∧ fl' = fl) as [-> ->] by (split; congruence).
    exists a, (p :: fl). rewrite lookup_insert_eq. split_and!; [done..|]. apply not_elem_of_cons. auto.
  - intros a' b' fl' q [[<- [= <- <-]]|[Hne Ha']]%lookup_insert_Some Ho' Hn'.
    + apply not_elem_of_cons in Hn' as [Hqp Hn']. rewrite lookup_delete_ne by done.
      by apply (lo_used _ _ _ _ _ HL a b fl q).
    + rewrite lookup_delete_ne; [by apply (lo_used _ _ _ _ _ HL a' b' fl')|].
      intros <-. apply Hne. by eapply (slab_unique a b fl a' b' fl' p).
  - intros q l' [Hqp Hq]%lookup_delete_Some. by apply HL.
  - intros q l' a' b' fl' [Hqp Hq]%lookup_delete_Some Hb'.
    intros [[<- _]|[Hne' Ha']]%lookup_insert_Some; eapply lo_large_slab; done.
  - intros q l1 q' l2 [Hqp Hq]%lookup_delete_Some [Hqp' Hq']%lookup_delete_Some. by apply HL.
Qed.

(** Blocks of frames with no frame in common are apart. *)
Lemma blocks_apart f o g k :
  block_set f o ## block_set g k →
  fb_addr h f + blk o * FRAME_SIZE ≤ fb_addr h g ∨ fb_addr h g + blk k * FRAME_SIZE ≤ fb_addr h f.
Proof.
  intros Hd. pose proof (blk_pos o). pose proof (blk_pos k). unfold fb_addr. rewrite FRAME_SIZE_val.
  destruct (Z.le_gt_cases (f + blk o) g); [lia|]. destruct (Z.le_gt_cases (g + blk k) f); [lia|].
  exfalso. apply (Hd (Z.max f g)); apply elem_of_block_set; unfold in_block; lia.
Qed.

Lemma apart_blocks f o g k :
  fb_addr h f + blk o * FRAME_SIZE ≤ fb_addr h g ∨ fb_addr h g + blk k * FRAME_SIZE ≤ fb_addr h f →
  block_set f o ## block_set g k.
Proof.
  unfold fb_addr. rewrite FRAME_SIZE_val. intros Hap i. rewrite !elem_of_block_set. unfold in_block. lia.
Qed.

Lemma large_extent l o : bucket_for l = None → order_for_large l = Some o → extent l = blk o * FRAME_SIZE.
Proof. intros Hb Ho. unfold extent. by rewrite Hb, Ho. Qed.

(** No object lies at the start of a free frame. *)
Lemma object_not_free a b fl f : S !! a = Some (b, fl) → obj_of a b (fb_addr h f) → f ∉ F.
Proof.
  intros Ha [Hob _] Hf. destruct (lo_slab _ _ _ _ _ HL a b fl Ha) as (Hfr & _).
  eapply (slab_words_not_free h F total a (fb_addr h f) f Hfr); [lia|done|].
  unfold fb_addr. rewrite FRAME_SIZE_val. lia.
Qed.

(** A block of free frames goes to the client. *)
Lemma live_large_take l o f :
  layout_ok l → bucket_for l = None → order_for_large l = Some o → free_run F f o →
  f + blk o ≤ total → live !! fb_addr h f = None ∧
  live_ok h (F ∖ block_set f o) total S (<[fb_addr h f := l]> live).
Proof.
  intros Hlok Hbl Ho (Hf & Hal & Hsub) Htot. pose proof (blk_pos o).
  assert (f ∈ F) as HfF by (apply Hsub, elem_of_block_set; unfold in_block; lia).
  pose proof (order_for_large_spec l Hlok) as Hspec. rewrite Ho in Hspec. destruct Hspec as [Hmax _].
  assert (∀ q l', live !! q = Some l' → bucket_for l' = None →
    q + extent l' ≤ fb_addr h f ∨ fb_addr h f + blk o * FRAME_SIZE ≤ q) as Hother.
  { intros q l' Hq Hb'. destruct (lo_large _ _ _ _ _ HL q l' Hq Hb') as (k & g & Hk & _ & -> & _ & _ & _ & Hd).
    rewrite (large_extent l' k Hb' Hk). apply blocks_apart. set_solver. }
  split.
  { destruct (live !! fb_addr h f) as [l'|] eqn:Hl'; [|done]. exfalso. destruct (bucket_for l') eqn:Hb'.
    - destruct (small_place _ l' Hl' ltac:(congruence)) as (a & b & fl & _ & _ & _ & Ha & Hob & _).
      by apply (object_not_free a b fl f).
    - destruct (lo_large _ _ _ _ _ HL _ l' Hl' Hb') as (k & g & Hk & _ & Heq & _ & _ & _ & Hd).
      pose proof (blk_pos k). rewrite Heq in Hl'. destruct (Hother _ l' Hl' Hb') as [Hap|Hap];
        rewrite ?(large_extent l' k Hb' Hk), Heq, FRAME_SIZE_val in Hap; lia. }
  split.
  - intros a b fl Ha. destruct (lo_slab _ _ _ _ _ HL a b fl Ha) as (Hfr & ?). split; [|done].
    eapply slab_frame_mono; [|done]. set_solver.
  - intros q l' [[<- <-]|[Hne Hq]]%lookup_insert_Some; [done|by eapply lo_layout].
  - intros q l' b' [[<- <-]|[Hne Hq]]%lookup_insert_Some Hb'; [congruence|by apply (lo_small _ _ _ _ _ HL q l')].
  - intros a b fl q Ha Hob Hn. destruct (lo_used _ _ _ _ _ HL a b fl q Ha Hob Hn) as (l' & Hl' & Hb').
    exists l'. split; [|done]. rewrite lookup_insert_ne; [done|]. intros <-.
    by apply (object_not_free a b fl f).
  - intros q l' [[<- <-]|[Hne Hq]]%lookup_insert_Some Hb'.
    + exists o, f. split_and!; [done..|set_solver].
    + destruct (lo_large _ _ _ _ _ HL q l' Hq Hb') as (k & g & ? & ? & ? & ? & ? & ? & ?).
      exists k, g. split_and!; [done..|set_solver].
  - intros q l' a b fl [[<- <-]|[Hne Hq]]%lookup_insert_Some Hb' Ha; [|by eapply lo_large_slab].
    destruct (lo_slab _ _ _ _ _ HL a b fl Ha) as ((g & -> & _ & Hg) & _).
    rewrite (large_extent l o Hbl Ho). replace (fb_addr h g + FRAME_SIZE) with (fb_addr h g + blk 0 * FRAME_SIZE)
      by (rewrite blk_0; lia). apply blocks_apart. rewrite block_set_0. set_solver.
  - intros q l1 q' l2 [[<- <-]|[Hne Hq]]%lookup_insert_Some [[<- <-]|[Hne' Hq']]%lookup_insert_Some Hqq Hb1 Hb2.
    + done.
    + rewrite (large_extent l o Hbl Ho). destruct (Hother q' l2 Hq' Hb2); lia.
    + rewrite (large_extent l o Hbl Ho). destruct (Hother q l1 Hq Hb1); lia.
    + by apply (lo_large_large _ _ _ _ _ HL q l1 q' l2).
Qed.

(** A block of frames in use goes back to the free frames. *)
Lemma live_large_give l o f :
  live !! fb_addr h f = Some l → bucket_for l = None → order_for_large l = Some o →
  live_ok h (F ∪ block_set f o) total S (delete (fb_addr h f) live).
Proof.
  intros Hl Hbl Ho. pose proof (large_extent l o Hbl Ho) as He. split.
  - intros a b fl Ha. destruct (lo_slab _ _ _ _ _ HL a b fl Ha) as ((g & -> & Hg & Hn) & ?).
    split; [|done]. exists g. split_and!; [done|lia|lia|].
    assert (block_set g 0 ## block_set f o) as Hd.
    { apply apart_blocks. rewrite blk_0, Z.mul_1_l, <- He. by eapply lo_large_slab. }
    rewrite block_set_0 in Hd. set_solver.
  - intros q l' [_ Hq]%lookup_delete_Some. by eapply lo_layout.
  - intros q l' b' [_ Hq]%lookup_delete_Some. by apply (lo_small _ _ _ _ _ HL q l').
  - intros a b fl q Ha Hob Hn. destruct (lo_used _ _ _ _ _ HL a b fl q Ha Hob Hn) as (l' & Hl' & Hb').
    exists l'. split; [|done]. rewrite lookup_delete_ne; [done|]. intros <-. congruence.
  - intros q l' [Hne Hq]%lookup_delete_Some Hb'.
    pose proof (lo_large_large _ _ _ _ _ HL _ l q l' Hl Hq ltac:(done) Hbl Hb') as Hap.
    destruct (lo_large _ _ _ _ _ HL q l' Hq Hb') as (k & g & Hk & ? & -> & ? & ? & ? & ?).
    exists k, g. split_and!; [done..|]. rewrite He, (large_extent l' k Hb' Hk) in Hap.
    apply apart_blocks in Hap. set_solver.
  - intros q l' a b fl [_ Hq]%lookup_delete_Some. by apply (lo_large_slab _ _ _ _ _ HL).
  - intros q l1 q' l2 [_ Hq]%lookup_delete_Some [_ Hq']%lookup_delete_Some. by apply (lo_large_large _ _ _ _ _ HL).
Qed.
End live.

(** ** The frames of the heap *)

(** A frame that is free, under a slab, or part of a large allocation. *)
Definition heap_dom (h : Z) (F : gset Z) (S : slabs) (live : gmap Z Layout) (g : Z) : Prop :=
  g ∈ F ∨ is_Some (S !! fb_addr h g) ∨
  ∃ p l, live !! p = Some l ∧ bucket_for l = None ∧ region p l (fb_addr h g).

Section heap_dom.
Context {h : Z} {F : gset Z} {total : Z} {S : slabs} {live : gmap Z Layout}.
Context (HL : live_ok h F total S live).

Lemma dom_slab_word F' a b fl x :
  S !! a = Some (b, fl) → a ≤ x < a + FRAME_SIZE → frame_words h (heap_dom h F' S live) x.
Proof.
  intros Ha Hx. destruct (lo_slab _ _ _ _ _ HL a b fl Ha) as ((f & -> & _ & _) & _).
  exists f. split; [right; left; eauto|]. unfold fb_addr in *. lia.
Qed.

Lemma dom_free_word x : frame_words h (λ g, g ∈ F) x → frame_words h (heap_dom h F S live) x.
Proof. apply frame_words_mono. by left. Qed.

Lemma dom_region_word F' p l x : live !! p = Some l → region p l x → frame_words h (heap_dom h F' S live) x.
Proof.
  intros Hl Hx. destruct (bucket_for l) eqn:Hb.
  - destruct (small_place HL p l Hl ltac:(congruence)) as (a & b & fl & _ & _ & He & Ha & _ & _ & ? & ?).
    unfold region in Hx. eapply dom_slab_word; [exact Ha|lia].
  - destruct (lo_large _ _ _ _ _ HL p l Hl Hb) as (o & f & Ho & _ & -> & _).
    unfold region in Hx. rewrite (large_extent l o Hb Ho) in Hx. pose proof (blk_pos o).
    exists ((x - h) / FRAME_SIZE). pose proof (Z.div_mod (x - h) FRAME_SIZE ltac:(done)) as Hd.
    pose proof (Z.mod_pos_bound (x - h) FRAME_SIZE ltac:(done)). set (g := (x - h) / FRAME_SIZE) in *.
    unfold fb_addr in *. rewrite FRAME_SIZE_val in *. split; [|lia]. right; right.
    exists (f * 4096 + h), l. split_and!; [done|done|]. unfold region, fb_addr.
    rewrite (large_extent l o Hb Ho), FRAME_SIZE_val. lia.
Qed.

(** Where the frames of a changed heap come from. *)
Lemma dom_grow F' S' live' g :
  (∀ i, i ∈ F' → heap_dom h F S live i) →
  (∀ i, is_Some (S' !! fb_addr h i) → is_Some (S !! fb_addr h i) ∨ i ∈ F) →
  (∀ p l i, live' !! p = Some l → bucket_for l = None → region p l (fb_addr h i) → live !! p = Some l ∨ i ∈ F) →
  heap_dom h F' S' live' g → heap_dom h F S live g.
Proof.
  intros HF HS Hlive [Hg|[Hg|(p & l & Hp & Hb & Hr)]].
  - by apply HF.
  - destruct (HS g Hg); [by right; left|by left].
  - destruct (Hlive p l g Hp Hb Hr); [right; right; eauto|by left].
Qed.

(** The heap's own frames are not free. *)
Lemma dom_not_free g : heap_dom h ∅ S live g → g ∉ F.
Proof.
  intros [?%elem_of_empty|[[[b fl] Ha]|(p & l & Hl & Hb & Hr)]]; [done|..].
  - destruct (lo_slab _ _ _ _ _ HL _ b fl Ha) as ((f & Heq & _ & Hn) & _).
    unfold fb_addr in Heq. rewrite FRAME_SIZE_val in Heq. by replace g with f by lia.
  - destruct (lo_large _ _ _ _ _ HL p l Hl Hb) as (o & f & Ho & _ & -> & _ & _ & _ & Hd).
    unfold region in Hr. rewrite (large_extent l o Hb Ho) in Hr. intros Hg. apply (Hd g); [|done].
    apply (block_words (h := h) f o (fb_addr h g) g Hr). unfold fb_addr. rewrite FRAME_SIZE_val. lia.
Qed.

(** The slabs and the live allocations do not care which other frames are free. *)
Lemma live_ok_free F' :
  (∀ g, heap_dom h ∅ S live g → g ∉ F') → live_ok h F' total S live.
Proof.
  intros Hd. split; [..|apply HL|apply HL].
  - intros a b fl Ha. destruct (lo_slab _ _ _ _ _ HL a b fl Ha) as ((f & -> & Hf & _) & ?). split; [|done].
    exists f. split_and!; [done|lia|lia|]. apply Hd. right; left. eauto.
  - apply HL.
  - apply HL.
  - apply HL.
  - intros p l Hl Hb. destruct (lo_large _ _ _ _ _ HL p l Hl Hb) as (o & f & Ho & ? & -> & ? & ? & ? & _).
    exists o, f. split_and!; [done..|]. intros g Hg Hf. apply (Hd g); [|done]. right; right.
    exists (fb_addr h f), l. split_and!; [done..|]. unfold region. rewrite (large_extent l o Hb Ho).
    apply elem_of_block_set in Hg. unfold in_block in Hg. unfold fb_addr. rewrite FRAME_SIZE_val. lia.
Qed.
End heap_dom.
