(* ===== verification/HeapSpec.v ===== *)
(** * HeapSpec: the heap keeps its promises

    The theorems about [alloc] and [dealloc] of [src/kernel/src/mm/heap.rs], for
    any frame allocator: what they return, that they never panic, that live
    allocations never overlap, that the heap never touches them, and that a
    client is free to write to them. *)

From S2P Require Import Prelude Bits Mem Pmm Dll PmmInv PmmList PmmOps PmmSpec.
From S2P Require Import Locks FrameAlloc Heap HeapInv HeapOps HeapLive.

Section spec.
Context `{Profile} {A : Type} `{!FrameAllocator A} `{Res : !Reserved}.
Implicit Types m : Machine A Heap.

Abbreviation mem_of m := (sy_mem (m_sys m)).
Abbreviation free_of m := (fa_free (m_sys m)).
Abbreviation total_of m := (fa_total (m_sys m)).

(** No reserved frame is free or belongs to the heap. *)
Definition dom_apart (h : Z) m (S : slabs) (live : gmap Z Layout) : Prop :=
  ∀ g, reserved g → ¬ heap_dom h (free_of m) S live g.

(** The heap is in order, its lock is free, and [live] is what clients hold. *)
Definition heap_rel (h : Z) m (live : gmap Z Layout) : Prop :=
  il_locked (mx_raw (m_own m)) = false ∧
  ∃ S, heap_core h m S ∧ live_ok h (free_of m) (total_of m) S live ∧ dom_apart h m S live.

(** What the heap writes is its own. *)
Lemma dom_kept h m S live s P :
  heap_core h m S → dom_apart h m S live → same_cpu (m_sys m) s → fa_total s = total_of m →
  same_outside P (mem_of m) (sy_mem s) → (∀ x, P x → frame_words h (heap_dom h (free_of m) S live) x) →
  sys_kept (m_sys m) s.
Proof.
  intros Hc Hap Hcpu Ht Hm HP. split_and!; [done| |done]. eapply reserved_kept_outside; [exact Hm|].
  rewrite (hc_hhdm _ _ _ Hc). intros x (g & Hg & Hx)%HP (g' & Hg' & Hx').
  assert (g' = g) as -> by (by eapply frame_words_inj). by apply (Hap g).
Qed.

(** Memory of the allocations in [live] is as it was. *)
Definition data_kept (live : gmap Z Layout) m m' : Prop :=
  ∀ p l x, live !! p = Some l → region p l x → mem_of m' !! x = mem_of m !! x.

(** There is nothing left for the layout. *)
Definition out_of_memory m (l : Layout) : Prop :=
  match bucket_for l with
  | Some _ => free_of m = ∅
  | None => match order_for_large l with
            | Some o => ∀ f, ¬ free_run (free_of m) f o
            | None => True
            end
  end.

(** *** The lock and the interrupt flag do not matter to the slabs *)
Definition relock (b : bool) (raw : IntLock) m : Machine A Heap :=
  mkMachine (mkSys (mem_of m) b (sy_hhdm (m_sys m)) (sy_alloc (m_sys m)))
            (mkMutex raw (mx_data (m_own m))).

Lemma relock_core h m S b raw :
  heap_core h m S →
  heap_core h (relock b raw m) S ∧ free_of (relock b raw m) = free_of m ∧
  total_of (relock b raw m) = total_of m.
Proof.
  intros [Hfa Hh HI]. destruct (fa_frame h (m_sys m) (mem_of m) b (sy_hhdm (m_sys m)) Hfa) as (Hok & Hf & Ht);
    [done|]. change (mkSys _ _ _ _) with (m_sys (relock b raw m)) in Hok, Hf, Ht.
  split_and!; [split; [done|done|]|done|done]. by rewrite Hf, Ht.
Qed.

(** A guarded section of the heap. *)
Lemma wp_heap_lock {B : Type} (body : M (Machine A Heap) B) m (Q : B → Machine A Heap → Prop) :
  il_locked (mx_raw (m_own m)) = false →
  let held := relock false (mkIntLock true (sy_if (m_sys m))) m in
  wp body held (λ r m', hstep held m' ∧
    Q r (relock (sy_if (m_sys m)) (mkIntLock false (sy_if (m_sys m))) m')) →
  wp (with_lock heap_if own_lens body) m Q.
Proof.
  intros Hfree held Hbody. apply wp_with_lock; [apply _..|exact Hfree|].
  eapply wp_mono; [exact Hbody|]. cbv beta. intros r m' [(Hraw & [Hif _] & _) HQ].
  split_and!; [exact Hraw|exact Hif|exact HQ].
Qed.

Lemma taken_relock h m m' S b p b1 raw1 b2 raw2 :
  heap_core h m S → taken h (relock b1 raw1 m) m' S b p →
  taken h m (relock b2 raw2 m') S b p.
Proof.
  intros Hc Htk. destruct (relock_core h m S b1 raw1 Hc) as (_ & Hf & Ht).
  destruct Htk as [Hno Hfr Hfr' Hc' Hm|a p fl Hl Hfr Hc' Hm|f p fl Hin Hfr Hft Hn Hobj Hc' Hm];
    destruct (relock_core h m' _ b2 raw2 Hc') as (Hc2 & Hf2 & Ht2); rewrite ?Hf, ?Ht in *.
  - apply taken_none; [done..|by rewrite Hf2|done|done].
  - eapply taken_old; [done|by rewrite Hf2|done|done].
  - eapply taken_new; [done|by rewrite Hf2|done..].
Qed.

Lemma alloc_small_spec h m S b :
  il_locked (mx_raw (m_own m)) = false → heap_core h m S → (b < NUM_BUCKETS)%nat →
  wp (alloc_small (Z.of_nat b)) m (λ p m', il_locked (mx_raw (m_own m')) = false ∧
    same_cpu (m_sys m) (m_sys m') ∧ total_of m' = total_of m ∧ taken h m m' S b p).
Proof.
  intros Hl Hc Hb. apply wp_heap_lock; [done|]. set (raw := mkIntLock true _).
  destruct (relock_core h m S false raw Hc) as (Hc1 & Hf1 & Ht1).
  eapply wp_mono; [by apply (alloc_small_body h _ S b)|]. cbv beta.
  intros p m' [Hst Htk]. split; [done|]. destruct Hst as (_ & [_ Hhh] & Ht).
  split_and!; [done|by split| |by eapply taken_relock].
  assert (∃ S', heap_core h m' S') as [S' Hc'] by (destruct Htk; eauto).
  destruct (relock_core h m' S' (sy_if (m_sys m)) (mkIntLock false (sy_if (m_sys m))) Hc') as (_ & _ & ->).
  by rewrite Ht.
Qed.

Lemma dealloc_small_spec h m S a b p fl :
  il_locked (mx_raw (m_own m)) = false → heap_core h m S →
  S !! a = Some (b, fl) → obj_of a b p → p ∉ fl →
  wp (dealloc_small (Z.of_nat b) a p) m (λ _ m', il_locked (mx_raw (m_own m')) = false ∧
    same_cpu (m_sys m) (m_sys m') ∧ total_of m' = total_of m ∧ free_of m' = free_of m ∧
    heap_core h m' (<[a := (b, p :: fl)]> S) ∧
    same_outside (λ x, x = a ∨ x = a + OFF_SLAB_FREE ∨ x = p) (mem_of m) (mem_of m')).
Proof.
  intros Hl Hc Ha Ho Hn. apply wp_heap_lock; [done|]. set (raw := mkIntLock true _).
  destruct (relock_core h m S false raw Hc) as (Hc1 & Hf1 & Ht1).
  eapply wp_mono; [by apply (dealloc_small_body h _ S a b p fl)|]. cbv beta.
  intros [] m' (Hst & Hc' & Hfr & Hm). split; [done|]. destruct Hst as (_ & [_ Hhh] & Ht).
  destruct (relock_core h m' _ (sy_if (m_sys m)) (mkIntLock false (sy_if (m_sys m))) Hc') as (Hc2 & Hf2 & Ht2).
  split_and!; [done|by split| | |done|done]; [by rewrite Ht2, Ht|by rewrite Hf2, Hfr].
Qed.

(** *** Pointers *)
Lemma slab_aligned h F total a : h mod FRAME_SIZE = 0 → slab_frame h F total a → a mod FRAME_SIZE = 0.
Proof.
  intros Hh (f & -> & _ & _). unfold fb_addr.
  rewrite Z.add_mod, Hh, Z.mod_mul by done. done.
Qed.

(** The slab of an object is found by clearing the low bits of its address. *)
Lemma slab_of_object a b p :
  0 ≤ p < 2 ^ 64 → a mod FRAME_SIZE = 0 → obj_of a b p → Z.land p SLAB_MASK = a.
Proof.
  intros Hp Ha [Hap _]. unfold SLAB_MASK, SLAB_FRAME_SIZE. change FRAME_SIZE with (2 ^ 12) in *.
  rewrite land_not_mask by lia. pose proof (Z.div_mod a (2 ^ 12) ltac:(lia)) as Hd. rewrite Ha in Hd.
  assert (p mod 2 ^ 12 = p - a) as ->; [|lia]. symmetry. apply (Z.mod_unique p (2 ^ 12) (a / 2 ^ 12)); lia.
Qed.

(** *** Keeping data *)
Lemma data_kept_outside live h m m' S (P : Z → Prop) :
  live_ok h (free_of m) (total_of m) S live → same_outside P (mem_of m) (mem_of m') →
  (∀ x, P x → meta_word S x ∨ frame_words h (λ g, g ∈ free_of m) x) → data_kept live m m'.
Proof.
  intros HL Hm HP p l x Hl Hx. apply Hm. intros Hpx.
  destruct (live_words HL p l x Hl Hx). destruct (HP x Hpx); done.
Qed.

(** What a request that was served guarantees. *)
Definition served (h : Z) m m' (live : gmap Z Layout) (l : Layout) (p : Z) : Prop :=
  0 < p ∧ live !! p = None ∧ heap_rel h m' (<[p := l]> live) ∧ lay_size l ≤ extent l ∧
  (lay_align l ≤ FRAME_SIZE ∨ (lay_align l | h) → (lay_align l | p)).

Lemma object_aligned a b p l :
  layout_ok l → bucket_for l = Some (Z.of_nat b) → (b < NUM_BUCKETS)%nat → a mod FRAME_SIZE = 0 →
  obj_of a b p → lay_size l ≤ extent l ∧ (lay_align l | p).
Proof.
  intros Hlok Hbl Hb Ha [_ Hm]. pose proof (bucket_for_spec l Hlok) as Hs. rewrite Hbl in Hs.
  destruct Hs as (b' & Hbb & _ & Hsz & Hal & _). apply Nat2Z.inj in Hbb as <-.
  rewrite (extent_small l b Hbl). split; [done|]. pose proof (osz_pos b).
  replace p with ((p - a) + a) by lia. apply Z.divide_add_r.
  - etransitivity; [exact Hal|]. by apply Z.mod_divide; [lia|].
  - etransitivity; [exact Hal|]. etransitivity; [by apply osz_divides|]. by apply Z.mod_divide.
Qed.

(** An object more in use takes no frame. *)
Lemma apart_object h m m' S live a b fl fl' p l z :
  dom_apart h m S live → bucket_for l = Some z →
  (∀ i, i ∈ free_of m' → i ∈ free_of m) →
  (S !! a = Some (b, fl) ∨ ∃ f, a = fb_addr h f ∧ f ∈ free_of m) →
  dom_apart h m' (<[a := (b, fl')]> S) (<[p := l]> live).
Proof.
  intros Hap Hbl HF Ha g Hg Hd. apply (Hap g Hg). eapply dom_grow; [| | |exact Hd].
  - intros i Hi. left. by apply HF.
  - intros i. destruct (decide (a = fb_addr h i)) as [E|]; [|rewrite lookup_insert_ne by done; auto].
    intros _. destruct Ha as [Ha|(f & -> & Hf)]; [left; rewrite <- E; eauto|right].
    assert (i = f) as -> by (unfold fb_addr in E; rewrite FRAME_SIZE_val in E; lia). done.
  - intros q lq i [[<- <-]|[_ Hq]]%lookup_insert_Some Hb _; [congruence|by left].
Qed.

(** One object more in use, from a slab that had it free. *)
Lemma served_object h m m' live S a b p fl l :
  il_locked (mx_raw (m_own m')) = false → heap_core h m' (<[a := (b, fl)]> S) →
  dom_apart h m' (<[a := (b, fl)]> S) (<[p := l]> live) →
  live_ok h (free_of m') (total_of m') (<[a := (b, p :: fl)]> S) live →
  layout_ok l → bucket_for l = Some (Z.of_nat b) → served h m m' live l p.
Proof.
  intros Hl Hc Hap HL Hlok Hbl. pose proof (lookup_insert_eq S a (b, p :: fl)) as Ha.
  destruct (lo_slab _ _ _ _ _ HL a b _ Ha) as (Hf & Hb & _ & Hobj).
  destruct (fa_bounds h _ (hc_fa _ _ _ Hc)) as (Hh0 & Hhm & _).
  pose proof (slab_frame_pos _ _ _ _ Hh0 Hf). assert (obj_of a b p) as Ho by (apply Hobj; left).
  destruct (object_aligned a b p l Hlok Hbl Hb (slab_aligned _ _ _ _ Hhm Hf) Ho) as [Hsz Hal].
  split_and!; [destruct Ho; lia|by apply (free_object_not_live HL a b (p :: fl)); [|left]| |done|done].
  split; [done|]. exists (<[a := (b, fl)]> S). split; [done|]. split; [|done].
  pose proof (live_take HL a b p fl l Ha Hlok Hbl) as HL'. by rewrite insert_insert_eq in HL'.
Qed.

Lemma taken_served h m m' S live l b p :
  il_locked (mx_raw (m_own m')) = false → heap_core h m S →
  live_ok h (free_of m) (total_of m) S live → dom_apart h m S live → layout_ok l →
  bucket_for l = Some (Z.of_nat b) → (b < NUM_BUCKETS)%nat → same_cpu (m_sys m) (m_sys m') →
  total_of m' = total_of m → taken h m m' S b p →
  sys_kept (m_sys m) (m_sys m') ∧ data_kept live m m' ∧
  (p = 0 ∧ out_of_memory m l ∧ heap_rel h m' live ∨ served h m m' live l p).
Proof.
  intros Hl Hc HL Hap Hlok Hbl Hb Hcpu Ht Htk.
  destruct Htk as [Hno Hfr Hfr' Hc' Hm|a p fl Ha Hfr Hc' Hm|f p fl Hin Hfr Hft Hn Hobj Hc' Hm].
  - split; [split_and!; [done|intros x _; by rewrite Hm|done]|].
    split; [intros q lq x _ _; by rewrite Hm|]. left. split_and!; [done| |].
    + unfold out_of_memory. by rewrite Hbl.
    + split; [done|]. exists S. unfold dom_apart. by rewrite Hfr', Ht.
  - split; [eapply dom_kept; [done..|]|split].
    + intros x Hx. eapply (dom_slab_word HL _ a); [done|]. unfold OFF_SLAB_FREE in Hx. rewrite FRAME_SIZE_val. lia.
    + eapply data_kept_outside; [done..|]. intros x Hx. left. exists a, b, (p :: fl). destruct Hx as [->| ->]; auto.
    + right. eapply served_object; [done..| | |done|done]; [|by rewrite Hfr, Ht, insert_id].
      eapply apart_object; [done..| |by left]. by rewrite Hfr.
  - split; [eapply dom_kept; [done..|]; intros x; apply dom_free_word|].
    split; [eapply data_kept_outside; [done..|]; auto|]. right.
    eapply served_object; [done..| | |done|done].
    + eapply (apart_object h m m' S live _ b []); [done..|set_solver|right; eauto].
    + rewrite Hfr, Ht, <- Hobj. by apply live_fresh_slab.
Qed.

(** A block of [2^o] frames is aligned for any layout it was chosen for. *)
Lemma block_aligned h f o l :
  layout_ok l → h mod FRAME_SIZE = 0 → f mod blk o = 0 → (lay_align l | blk o * FRAME_SIZE) →
  lay_align l ≤ FRAME_SIZE ∨ (lay_align l | h) → (lay_align l | fb_addr h f).
Proof.
  intros Hlok Hhm Hf Hal Hh. pose proof (blk_pos o). unfold fb_addr. apply Z.divide_add_r.
  - etransitivity; [exact Hal|]. apply Z.mul_divide_mono_r. by apply Z.mod_divide; [lia|].
  - destruct Hh as [Hle|]; [|done]. transitivity FRAME_SIZE; [|by apply Z.mod_divide].
    destruct Hlok as (_ & k & Hk & Hk2). rewrite Hk2 in *. apply (pow_divides k 12); [lia|exact Hle].
Qed.

(** The frame allocator moved, and with it the free frames, but no slab did. *)
Lemma heap_core_frames h m S live s F live' :
  heap_core h m S → fa_ok h s → fa_total s = total_of m → same_cpu (m_sys m) s → fa_free s = F →
  live_ok h F (total_of m) S live' → (∀ g, reserved g → ¬ heap_dom h F S live' g) →
  same_outside (λ x, ¬ meta_word S x) (mem_of m) (sy_mem s) →
  live_ok h (free_of m) (total_of m) S live →
  il_locked (mx_raw (m_own m)) = false → heap_rel h (mkMachine s (m_own m)) live'.
Proof.
  intros [Hfa Hh HI] Hok Htot Hcpu Hfr HL' Hap Hm HL Hl. split; [done|]. exists S. unfold dom_apart. simpl.
  rewrite Hfr, Htot. split; [|done]. split; [done|simpl; by rewrite (proj2 Hcpu)|]. simpl. rewrite Hfr, Htot.
  eapply heap_inv_mem; [exact HI| |].
  - intros a b fl Ha. by destruct (lo_slab _ _ _ _ _ HL' a b fl Ha).
  - intros x Hx. apply Hm. auto.
Qed.

Lemma alloc_large_spec h m live l :
  heap_rel h m live → layout_ok l → bucket_for l = None →
  wp (alloc_large l) m (λ p m', sys_kept (m_sys m) (m_sys m') ∧ data_kept live m m' ∧
    (p = 0 ∧ out_of_memory m l ∧ heap_rel h m' live ∨ served h m m' live l p)).
Proof.
  intros (Hl & S & Hc & HL & Hap) Hlok Hbl. pose proof Hc as [Hfa Hh HI]. unfold alloc_large.
  destruct (fa_bounds h _ Hfa) as (Hh0 & Hhm & Hhe & Hin).
  pose proof (order_for_large_spec l Hlok) as Hspec. pose proof (extent_size l Hlok) as Hsz.
  unfold out_of_memory. rewrite Hbl. destruct (order_for_large l) as [o|] eqn:Ho; cycle 1.
  { apply wp_ret. split; [done|]. split; [done|]. left. do 3 (split; [done|]). by exists S. }
  destruct Hspec as (Hmax & Hneed & Hal & _).
  apply wp_bind, wp_on_sys. eapply wp_mono; [by apply (fa_alloc_spec h _ o Hfa)|].
  cbv beta. intros [phys|] s (Hok & Htot & Hcpu & Hr); cycle 1.
  { destruct Hr as (Hfr & Hm & Hno). apply wp_ret. split; [|split].
    - split_and!; [done|intros x _; simpl; by rewrite Hm|done].
    - intros q lq x _ _. simpl. by rewrite Hm.
    - left. split; [done|]. split; [done|]. eapply heap_core_frames; try done. by rewrite Hm. }
  destruct Hr as (f & -> & Hrun & Hfr & Hm). pose proof Hrun as (Hf0 & Hfa' & Hsub). pose proof (blk_pos o).
  assert (f + blk o ≤ total_of m) as Hft.
  { assert (f + blk o - 1 ∈ free_of m) as [_ ?]%Hin; [|lia].
    apply Hsub, elem_of_block_set. unfold in_block. lia. }
  unfold phys_to_virt, hhdm. apply wp_bind, wp_gets. simpl. rewrite (proj2 Hcpu), Hh.
  apply wp_u64_add; [unfold u64_range; rewrite FRAME_SIZE_val in *; lia|]. fold (fb_addr h f).
  destruct (live_large_take HL l o f Hlok Hbl Ho Hrun Hft) as [Hnew HL'].
  split; [eapply dom_kept; [done..|]; intros x; apply dom_free_word|].
  split; [eapply data_kept_outside; [exact HL|exact Hm|]; auto|].
  right. split_and!; [unfold fb_addr; rewrite FRAME_SIZE_val; lia|done| |by apply Hsz|by eapply block_aligned].
  eapply heap_core_frames; try done.
  - intros g Hg Hd. apply (Hap g Hg). eapply dom_grow; [| | |exact Hd]; [intros i Hi; left; set_solver|auto|].
    intros q lq i [[<- <-]|[_ Hq]]%lookup_insert_Some _ Hr; [right|by left]. apply Hsub, (block_words (h := h) f o (fb_addr h i)).
    + rewrite <- (large_extent l o Hbl Ho). exact Hr.
    + unfold fb_addr. rewrite FRAME_SIZE_val. lia.
  - eapply same_outside_weaken; [exact Hm|]. intros x Hx Hmeta. by eapply slab_disjoint_free.
Qed.

Lemma dealloc_large_spec h m live l p :
  heap_rel h m live → live !! p = Some l → bucket_for l = None →
  wp (dealloc_large p l) m (λ _ m', sys_kept (m_sys m) (m_sys m') ∧
    heap_rel h m' (delete p live) ∧ data_kept (delete p live) m m').
Proof.
  intros (Hl & S & Hc & HL & Hap) Hp Hbl. pose proof Hc as [Hfa Hh HI].
  destruct (fa_bounds h _ Hfa) as (Hh0 & Hhm & Hhe & Hin).
  destruct (lo_large _ _ _ _ _ HL p l Hp Hbl) as (o & f & Ho & Hmax & -> & Hf0 & Hfa' & Hft & Hd).
  pose proof (live_large_give HL l o f Hp Hbl Ho) as HL'. pose proof (blk_pos o).
  unfold dealloc_large, virt_to_phys, hhdm. rewrite Ho. apply wp_bind, wp_bind, wp_gets. rewrite Hh.
  apply wp_u64_sub; [unfold u64_range, fb_addr; rewrite FRAME_SIZE_val in *; lia|].
  replace (fb_addr h f - h) with (f * FRAME_SIZE) by (unfold fb_addr; lia).
  apply wp_on_sys. eapply wp_mono; [by apply (fa_release_spec h _ f o)|]. cbv beta.
  intros [] s (Hok & Htot & Hcpu & Hfr & Hm). rewrite Hfr in Hm.
  assert (∀ i, i ∈ free_of m ∪ block_set f o → heap_dom h (free_of m) S live i) as Hdom.
  { intros i [?|Hi]%elem_of_union; [by left|]. right; right. exists (fb_addr h f), l. split_and!; [done..|].
    unfold region. rewrite (large_extent l o Hbl Ho). apply elem_of_block_set in Hi. unfold in_block in Hi.
    unfold fb_addr. rewrite FRAME_SIZE_val. lia. }
  split; [eapply dom_kept; [done..|]; intros x; by apply frame_words_mono|].
  assert (∀ x, frame_words h (λ g, g ∈ free_of m ∪ block_set f o) x →
    ¬ meta_word S x ∧ ∀ q lq, delete (fb_addr h f) live !! q = Some lq → ¬ region q lq x) as Hout.
  { intros x Hx. split; [|intros q lq Hq Hr; by destruct (live_words HL' q lq x Hq Hr)].
    intros (a & b & fl & Ha & Hax). destruct Hx as (g & Hg & Hgx).
    eapply (slab_words_not_free h (free_of m ∪ block_set f o) (total_of m) a x g); [|by eapply (meta_in_slab HL')|done..].
    by destruct (lo_slab _ _ _ _ _ HL' a b fl Ha). }
  split.
  - eapply heap_core_frames; try done.
    + intros g Hg Hgd. apply (Hap g Hg). eapply dom_grow; [| | |exact Hgd]; [exact Hdom|auto|].
      intros q lq i [_ Hq]%lookup_delete_Some _ _. by left.
    + eapply same_outside_weaken; [exact Hm|]. intros x Hx. by apply Hout.
  - intros q lq x Hq Hr. apply Hm. intros Hx. by apply (proj2 (Hout x Hx) q lq).
Qed.

Lemma alloc_spec h m live l :
  heap_rel h m live → layout_ok l →
  wp (alloc l) m (λ p m', sys_kept (m_sys m) (m_sys m') ∧ data_kept live m m' ∧
    (p = 0 ∧ out_of_memory m l ∧ heap_rel h m' live ∨ served h m m' live l p)).
Proof.
  intros Hrel Hlok. unfold alloc. destruct (bucket_for l) as [z|] eqn:Hbl; [|by apply alloc_large_spec].
  destruct (bucket_is_nat l z Hlok Hbl) as (b & -> & Hb). destruct Hrel as (Hl & S & Hc & HL & Hap).
  eapply wp_mono; [by apply (alloc_small_spec h m S b)|]. cbv beta. intros p m' (Hl' & Hcpu & Ht & Htk).
  by eapply taken_served.
Qed.

Lemma dealloc_spec h m live l p :
  heap_rel h m live → live !! p = Some l →
  wp (dealloc p l) m (λ _ m', sys_kept (m_sys m) (m_sys m') ∧
    heap_rel h m' (delete p live) ∧ data_kept (delete p live) m m').
Proof.
  intros Hrel Hp. unfold dealloc. destruct (bucket_for l) as [z|] eqn:Hbl.
  - destruct Hrel as (Hl & S & Hc & HL & Hap). destruct (fa_bounds h _ (hc_fa _ _ _ Hc)) as (Hh0 & Hhm & Hhe & _).
    destruct (small_place HL p l Hp ltac:(congruence)) as (a & b & fl & Hb & Hlt & He & Ha & Ho & Hn & ? & ?).
    destruct (lo_slab _ _ _ _ _ HL a b fl Ha) as (Hfr & _). pose proof (slab_frame_pos _ _ _ _ Hh0 Hfr).
    destruct (Z.eqb_spec p 0); [lia|]. assert (z = Z.of_nat b) as -> by congruence.
    rewrite (slab_of_object a b p); [| |by eapply slab_aligned|done].
    2:{ destruct Ho as [Ho _]. destruct Hfr as (f & -> & Hf & _). unfold fb_addr in *.
        rewrite FRAME_SIZE_val in *. lia. }
    eapply wp_mono; [by apply (dealloc_small_spec h m S a b p fl)|]. cbv beta.
    intros [] m' (Hl' & Hcpu & Ht & Hf & Hc' & Hm). split; [eapply dom_kept; [done..|]|split].
    + intros x Hx. eapply (dom_slab_word HL _ a); [done|]. destruct Ho as [Ho _].
      unfold OFF_SLAB_FREE in Hx. rewrite FRAME_SIZE_val in *. lia.
    + split; [done|]. exists (<[a := (b, p :: fl)]> S). split; [done|]. rewrite Ht, Hf. split; [by eapply live_give|].
      intros g Hg Hd. apply (Hap g Hg). rewrite Hf in Hd. eapply dom_grow; [| | |exact Hd]; [by left| |].
      * intros i. destruct (decide (a = fb_addr h i)) as [<-|]; [left; eauto|rewrite lookup_insert_ne by done; auto].
      * intros q lq i [_ Hq]%lookup_delete_Some _ _. by left.
    + intros q lq x [Hne Hq]%lookup_delete_Some Hr. apply Hm. intros [->|[->| ->]].
      * destruct (live_words HL q lq a Hq Hr) as [Hmw _]. apply Hmw. exists a, b, fl. auto.
      * destruct (live_words HL q lq _ Hq Hr) as [Hmw _]. apply Hmw. exists a, b, fl. auto.
      * unfold region in Hr. pose proof (osz_pos b). destruct (regions_apart HL p l q lq Hp Hq Hne); lia.
  - destruct (Z.eqb_spec p 0) as [->|]; [|by apply dealloc_large_spec].
    destruct Hrel as (Hl & S & Hc & HL & _). destruct (fa_bounds h _ (hc_fa _ _ _ Hc)) as (Hh0 & _).
    destruct (lo_large _ _ _ _ _ HL 0 l Hp Hbl) as (o & f & _ & _ & Hf & ? & _).
    unfold fb_addr in Hf. rewrite FRAME_SIZE_val in Hf. lia.
Qed.

(** A client writes to an allocation it holds. *)
Lemma client_write h m live p l w :
  heap_rel h m live → live !! p = Some l → same_outside (region p l) (mem_of m) w →
  heap_rel h (put_mem w m) live.
Proof.
  intros (Hl & S & Hc & HL & Hap) Hp Hw. split; [done|]. exists S. pose proof Hc as [Hfa Hh HI].
  destruct (fa_frame h (m_sys m) w (sy_if (m_sys m)) (sy_hhdm (m_sys m)) Hfa) as (Hok & Hfr & Ht).
  { intros x Hx. apply Hw. intros Hr. destruct (live_words HL p l x Hp Hr). tauto. }
  change (mkSys _ _ _ _) with (m_sys (put_mem w m)) in Hok, Hfr, Ht. unfold dom_apart. rewrite Hfr, Ht.
  split; [|done]. split; [done|done|]. rewrite Hfr, Ht. eapply heap_inv_mem; [exact HI| |].
  - intros a b fl Ha. by destruct (lo_slab _ _ _ _ _ HL a b fl Ha).
  - intros x Hx. apply Hw. intros Hr. by destruct (live_words HL p l x Hp Hr).
Qed.

(** The size classes are right: [bucket_for] picks the smallest of the seven
    object sizes that holds the request and is a multiple of its alignment, and
    leaves to [order_for_large] only what exceeds 1024 bytes; [order_for_large]
    picks the smallest power-of-two block of frames likewise, and refuses only
    what exceeds the largest block. *)
Theorem size_classes_correct l :
  layout_ok l →
  match bucket_for l with
  | Some z => ∃ b, z = Z.of_nat b ∧ OBJ_SIZE !! b = Some (osz b) ∧ lay_size l ≤ osz b ∧
      (lay_align l | osz b) ∧ ∀ b', (b' < b)%nat → osz b' < Z.max (lay_size l) (lay_align l)
  | None => 1024 < Z.max (lay_size l) (lay_align l) ∧
      match order_for_large l with
      | Some o => (o ≤ MAX_ORDER)%nat ∧ lay_size l ≤ blk o * FRAME_SIZE ∧
          (lay_align l | blk o * FRAME_SIZE) ∧
          ∀ o', (o' < o)%nat → blk o' * FRAME_SIZE < Z.max (lay_size l) (lay_align l)
      | None => blk MAX_ORDER * FRAME_SIZE < Z.max (lay_size l) (lay_align l)
      end
  end.
Proof.
  intros Hl. pose proof (bucket_for_spec l Hl) as Hb. pose proof (order_for_large_spec l Hl) as Ho.
  destruct (bucket_for l) as [z|].
  - destruct Hb as (b & -> & Hlt & Hb). exists b. by rewrite OBJ_SIZE_lookup.
  - split; [done|]. destruct (order_for_large l) as [o|]; [|done].
    destruct Ho as (? & ? & ? & ?). split_and!; [done|lia|done|done].
Qed.


(** C15: [dealloc] of an allocation the client holds never panics; afterwards the
    heap is in order without it, and the data of every other live allocation and
    the reserved frames are untouched. *)
Theorem heap_dealloc_correct h m live l p :
  heap_rel h m live → live !! p = Some l →
  ∃ m', dealloc p l m = Ok (tt, m') ∧ sys_kept (m_sys m) (m_sys m') ∧
    heap_rel h m' (delete p live) ∧ data_kept (delete p live) m m'.
Proof.
  intros Hrel Hl. destruct (proj1 (wp_ok _ _ _) (dealloc_spec h m live l p Hrel Hl)) as ([] & m' & Heq & ?).
  by exists m'.
Qed.

(** What clients hold never overlaps: two live allocations have no byte in
    common, and no byte of a live allocation belongs to a free frame. *)
Theorem heap_no_overlap h m live p l q k x :
  heap_rel h m live → live !! p = Some l → live !! q = Some k → p ≠ q → region p l x →
  ¬ region q k x ∧ ¬ frame_words h (λ g, g ∈ free_of m) x.
Proof.
  intros (_ & S & Hc & HL & _) Hp Hq Hne Hx. split; [|by destruct (live_words HL p l x Hp Hx)].
  unfold region in *. destruct (regions_apart HL p l q k Hp Hq Hne); lia.
Qed.

(** A new heap holds no slab. *)
Lemma heap_new_core h (s : Sys A) :
  fa_ok h s → sy_hhdm s = h →
  heap_core h (mkMachine s Heap_new) ∅ ∧ live_ok h (fa_free s) (fa_total s) ∅ ∅ ∧ ∀ g, ¬ heap_dom h ∅ ∅ ∅ g.
Proof.
  intros Hfa Hh. split; [|split; [by split|]]; cycle 1.
  { intros g [?%elem_of_empty|[[? ?]|(p & l & ? & _)]]; done. }
  split; [done|done|]. split; [done|done|by intros|by intros|]. intros b Hb. exists None, None, [].
  split; [by apply lookup_replicate_2|]. split; [by apply lookup_replicate_2|].
  split; [done|by constructor|by intros ? ?%not_elem_of_nil|done|done].
Qed.

Lemma heap_new_rel h (s : Sys A) :
  fa_ok h s → sy_hhdm s = h → (∀ g, reserved g → g ∉ fa_free s) → heap_rel h (mkMachine s Heap_new) ∅.
Proof.
  intros Hfa Hh Hap. destruct (heap_new_core h s Hfa Hh) as (Hc & HL & Hd). split; [done|]. exists ∅.
  split_and!; [done|done|]. intros g Hg [?|Hdom]; [by apply (Hap g)|]. apply (Hd g). by right.
Qed.

(** A heap as [Heap::new] makes it is in order with nothing live, whatever
    the state of the frame allocator, and [heap::init] accepts the direct map the
    allocator works with. *)
Theorem heap_new_correct h (s : Sys A) :
  fa_ok h s → sy_hhdm s = h → (∀ g, reserved g → g ∉ fa_free s) →
  heap_rel h (mkMachine s Heap_new) ∅ ∧
  heap_init (mkMachine s Heap_new) = Ok (tt, mkMachine s Heap_new).
Proof.
  intros Hfa Hh Hap. split; [by apply heap_new_rel|]. destruct (fa_bounds h s Hfa) as (Hh0 & _).
  unfold heap_init, hhdm, bind, gets, debug_assert, assert_. simpl. rewrite Hh.
  destruct (Z.eqb_spec h 0); [lia|]. by destruct debug_assertions.
Qed.

(** ** A client of the heap *)
Inductive heap_event :=
| HAlloc (l : Layout) (p : Z)
| HFree (p : Z)
| HWrite (p x v : Z).

(** What the client believes: the allocations it holds and the words it wrote
    there and has not given back. *)
Record hclient := mkHClient { c_live : gmap Z Layout; c_data : gmap Z Z }.

Inductive hclient_step : Machine A Heap * hclient → heap_event → Machine A Heap * hclient → Prop :=
| hc_alloc m m' c l p :
    layout_ok l → alloc l m = Ok (p, m') → p ≠ 0 →
    hclient_step (m, c) (HAlloc l p) (m', mkHClient (<[p := l]> (c_live c)) (c_data c))
| hc_alloc_fail m m' c l :
    layout_ok l → alloc l m = Ok (0, m') → hclient_step (m, c) (HAlloc l 0) (m', c)
| hc_free m m' c p l :
    c_live c !! p = Some l → dealloc p l m = Ok (tt, m') →
    hclient_step (m, c) (HFree p)
      (m', mkHClient (delete p (c_live c)) (filter (λ kv, ¬ (p ≤ kv.1 < p + extent l)) (c_data c)))
| hc_write m c p l x v :
    c_live c !! p = Some l → region p l x →
    hclient_step (m, c) (HWrite p x v)
      (put_mem (write_word x v (mem_of m)) m, mkHClient (c_live c) (<[x := v]> (c_data c))).

Inductive hclient_run : Machine A Heap * hclient → list heap_event → Machine A Heap * hclient → Prop :=
| cr_nil s : hclient_run s [] s
| cr_cons s1 e s2 es s3 : hclient_step s1 e s2 → hclient_run s2 es s3 → hclient_run s1 (e :: es) s3.

Record hclient_ok (h : Z) (s : Machine A Heap * hclient) : Prop := {
  co_rel : heap_rel h (fst s) (c_live (snd s));
  co_data x v : c_data (snd s) !! x = Some v →
    mem_of (fst s) !! x = Some v ∧ ∃ p l, c_live (snd s) !! p = Some l ∧ region p l x
}.

Lemma hclient_step_ok h s e s' : hclient_ok h s → hclient_step s e s' → hclient_ok h s'.
Proof.
  intros [Hrel Hdata] Hstep. destruct Hstep as
    [m m' c l p Hlok Heq Hp|m m' c l Hlok Heq|m m' c p l Hl Heq|m c p l x v Hl Hx]; simpl in *.
  - pose proof (alloc_spec h m _ l Hrel Hlok) as Hwp. unfold wp in Hwp. rewrite Heq in Hwp.
    destruct Hwp as (_ & Hk & [[-> _]|(_ & Hnew & Hrel' & _)]); [done|]. split; [done|]. simpl.
    intros x v (Hm & q & lq & Hq & Hr)%Hdata. split; [by rewrite (Hk q lq x)|].
    exists q, lq. rewrite lookup_insert_ne by congruence. done.
  - pose proof (alloc_spec h m _ l Hrel Hlok) as Hwp. unfold wp in Hwp. rewrite Heq in Hwp.
    destruct Hwp as (_ & Hk & [(_ & _ & Hrel')|[? _]]); [|lia]. split; [done|]. simpl.
    intros x v (Hm & q & lq & Hq & Hr)%Hdata. split; [by rewrite (Hk q lq x)|eauto].
  - pose proof (dealloc_spec h m _ l p Hrel Hl) as Hwp. unfold wp in Hwp. rewrite Heq in Hwp.
    destruct Hwp as (_ & Hrel' & Hk). split; [done|]. simpl.
    intros x v [(Hm & q & lq & Hq & Hr)%Hdata Hout]%map_lookup_filter_Some. simpl in Hout.
    assert (p ≠ q) as Hne by (intros <-; apply Hout; by simplify_eq).
    assert (delete p (c_live c) !! q = Some lq) as Hq' by (by rewrite lookup_delete_ne).
    split; [by rewrite (Hk q lq x)|eauto].
  - split; simpl.
    + eapply client_write; [done..|]. by apply same_outside_write.
    + intros y w [[<- <-]|[Hne (Hm & q & lq & Hq & Hr)%Hdata]]%lookup_insert_Some.
      * split; [apply lookup_insert_eq|eauto].
      * split; [by rewrite <- Hm; apply lookup_insert_ne|eauto].
Qed.

(** A client may allocate, write and release in any order: at the end of any
    run, what it wrote to an allocation it still holds is what it reads back, and
    the heap is in order. *)
Theorem heap_client_data h s es s' x v :
  hclient_ok h s → hclient_run s es s' → c_data (snd s') !! x = Some v →
  heap_rel h (fst s') (c_live (snd s')) ∧ read_word (mem_of (fst s')) x = v.
Proof.
  intros Hok Hrun. assert (hclient_ok h s') as [Hrel Hdata].
  { induction Hrun; [done|]. apply IHHrun. by eapply hclient_step_ok. }
  intros [Hm _]%Hdata. split; [done|]. unfold read_word. by rewrite Hm.
Qed.

(** No run gets stuck: in a state a client can reach, every request returns,
    and so does every release of a live allocation. *)
Theorem heap_client_progress h s es s' :
  hclient_ok h s → hclient_run s es s' →
  (∀ l, layout_ok l → ∃ p s'', hclient_step s' (HAlloc l p) s'') ∧
  (∀ p l, c_live (snd s') !! p = Some l → ∃ s'', hclient_step s' (HFree p) s'').
Proof.
  intros Hok Hrun. assert (hclient_ok h s') as [Hrel _].
  { induction Hrun; [done|]. apply IHHrun. by eapply hclient_step_ok. }
  destruct s' as [m c]. simpl in *. split.
  - intros l Hlok. destruct (proj1 (wp_ok _ _ _) (alloc_spec h m _ l Hrel Hlok)) as (p & m' & Heq & _).
    destruct (decide (p = 0)) as [->|Hp]; eexists _, _; [by apply hc_alloc_fail|by apply hc_alloc].
  - intros p l Hl. destruct (proj1 (wp_ok _ _ _) (dealloc_spec h m _ l p Hrel Hl)) as ([] & m' & Heq & _).
    eexists. by eapply hc_free.
Qed.

End spec.
