(* ===== verification/HeapExamples.v ===== *)
(** * HeapExamples: the heap on the machine of [PmmExamples]

    The heap over the physical memory manager, run on a machine of 16 frames:
    a small and a large allocation, a write and a release.  The theorems of
    [HeapSpec] are applied at the states of that run. *)

From S2P Require Import Prelude Bits Mem Pmm Dll PmmInv PmmList PmmOps PmmSpec PmmExamples.
From S2P Require Import Locks FrameAlloc PmmGlobal Heap HeapInv HeapOps HeapLive HeapSpec.

#[local] Existing Instance nobody.
#[local] Existing Instance dev_profile.

Definition ex_sys : Sys PmmLock :=
  mkSys (ps_mem ex_pmm) true ex_hhdm (mkMutex IntLock_INIT (Some (ps_self ex_pmm))).

Definition ex_heap0 : Machine PmmLock Heap := mkMachine ex_sys Heap_new.

Definition ex_small : Layout := mkLayout 24 8.

Definition ex_large : Layout := mkLayout 5000 16.

(** A small object, then two frames. *)
Definition ex_p1 : Z := 0x100001020.
Definition ex_heap1 : Machine PmmLock Heap := run_state (alloc ex_small) ex_heap0.
Definition ex_p2 : Z := 0x100002000.
Definition ex_heap2 : Machine PmmLock Heap := run_state (alloc ex_large) ex_heap1.

Definition ex_live1 : gmap Z Layout := {[ex_p1 := ex_small]}.
Definition ex_live2 : gmap Z Layout := <[ex_p2 := ex_large]> ex_live1.

Lemma ex_alloc1 : alloc ex_small ex_heap0 = Ok (ex_p1, ex_heap1).
Proof. vm_compute. reflexivity. Qed.

Lemma ex_alloc2 : alloc ex_large ex_heap1 = Ok (ex_p2, ex_heap2).
Proof. vm_compute. reflexivity. Qed.

Lemma ex_sys_ok : fa_ok ex_hhdm ex_sys.
Proof.
  split; [reflexivity|]. exists (ps_self ex_pmm). split_and!; [reflexivity|vm_compute; reflexivity|].
  exact ex_pmm_ok.
Qed.

Lemma ex_small_ok : layout_ok ex_small.
Proof. split; [simpl; lia|]. exists 3. split; [lia|reflexivity]. Qed.

Lemma ex_large_ok : layout_ok ex_large.
Proof. split; [simpl; lia|]. exists 4. split; [lia|reflexivity]. Qed.

Lemma ex_rel0 : heap_rel ex_hhdm ex_heap0 ∅.
Proof. exact (heap_new_rel ex_hhdm ex_sys ex_sys_ok eq_refl (λ g, False_ind _)). Qed.

(** What a successful [alloc] leaves. *)
Lemma alloc_rel h (m m' : Machine PmmLock Heap) live l p :
  heap_rel h m live → layout_ok l → alloc l m = Ok (p, m') → 0 < p →
  heap_rel h m' (<[p := l]> live).
Proof.
  intros Hrel Hl Heq Hp. pose proof (alloc_spec h m live l Hrel Hl) as Hwp. unfold wp in Hwp.
  rewrite Heq in Hwp. destruct Hwp as (_ & _ & [[? _]|(_ & _ & ? & _)]); [lia|done].
Qed.

Lemma ex_rel1 : heap_rel ex_hhdm ex_heap1 ex_live1.
Proof.
  exact (alloc_rel ex_hhdm ex_heap0 ex_heap1 ∅ ex_small ex_p1 ex_rel0 ex_small_ok ex_alloc1
    ltac:(unfold ex_p1; lia)).
Qed.

Lemma ex_rel2 : heap_rel ex_hhdm ex_heap2 ex_live2.
Proof.
  exact (alloc_rel ex_hhdm ex_heap1 ex_heap2 ex_live1 ex_large ex_p2 ex_rel1 ex_large_ok ex_alloc2
    ltac:(unfold ex_p2; lia)).
Qed.

Lemma ex_live2_small : ex_live2 !! ex_p1 = Some ex_small.
Proof. vm_compute. reflexivity. Qed.

Lemma ex_live2_large : ex_live2 !! ex_p2 = Some ex_large.
Proof. vm_compute. reflexivity. Qed.

Lemma size_classes_correct_witness :
  bucket_for ex_small = Some 1 ∧ bucket_for ex_large = None ∧ order_for_large ex_large = Some 1%nat ∧
  match bucket_for ex_small with
  | Some z => ∃ b, z = Z.of_nat b ∧ lay_size ex_small ≤ osz b
  | None => False
  end.
Proof.
  split; [reflexivity|]. split; [reflexivity|]. split; [reflexivity|].
  destruct (size_classes_correct ex_small ex_small_ok) as (b & Hb & _ & Hs & _).
  exists b. split; [exact Hb|exact Hs].
Defined.


Lemma heap_dealloc_correct_witness :
  ∃ m', dealloc ex_p1 ex_small ex_heap2 = Ok (tt, m') ∧
    heap_rel ex_hhdm m' (delete ex_p1 ex_live2) ∧ data_kept (delete ex_p1 ex_live2) ex_heap2 m'.
Proof.
  destruct (heap_dealloc_correct ex_hhdm ex_heap2 ex_live2 ex_small ex_p1 ex_rel2 ex_live2_small)
    as (m' & Heq & _ & Hrel & Hk).
  exists m'. split; [exact Heq|]. split; [exact Hrel|exact Hk].
Defined.

Lemma heap_no_overlap_witness :
  ¬ region ex_p2 ex_large ex_p1 ∧ ¬ frame_words ex_hhdm (λ g, g ∈ fa_free (m_sys ex_heap2)) ex_p1.
Proof.
  exact (heap_no_overlap ex_hhdm ex_heap2 ex_live2 ex_p1 ex_small ex_p2 ex_large ex_p1
    ex_rel2 ex_live2_small ex_live2_large ltac:(unfold ex_p1, ex_p2; lia)
    ltac:(vm_compute; split; [intros Hc; discriminate Hc|reflexivity])).
Defined.

Lemma heap_new_correct_witness : heap_rel ex_hhdm (mkMachine ex_sys Heap_new) ∅.
Proof. exact (proj1 (heap_new_correct ex_hhdm ex_sys ex_sys_ok eq_refl (λ g, False_ind _))). Defined.

(** A client that allocates 24 bytes and writes 42 to the second word. *)
Definition ex_c0 : Machine PmmLock Heap * hclient := (ex_heap0, mkHClient ∅ ∅).
Definition ex_ca : Machine PmmLock Heap * hclient := (ex_heap1, mkHClient ex_live1 ∅).
Definition ex_cw : Machine PmmLock Heap * hclient :=
  (put_mem (write_word (ex_p1 + 8) 42 (sy_mem (m_sys ex_heap1))) ex_heap1,
   mkHClient ex_live1 {[ex_p1 + 8 := 42]}).

Lemma ex_c0_ok : hclient_ok ex_hhdm ex_c0.
Proof. split; [exact ex_rel0|]. intros x v Hx. simpl in Hx. rewrite lookup_empty in Hx. discriminate Hx. Qed.

Lemma ex_client_run : hclient_run ex_c0 [HAlloc ex_small ex_p1; HWrite ex_p1 (ex_p1 + 8) 42] ex_cw.
Proof.
  apply (cr_cons _ _ ex_ca).
  { exact (hc_alloc ex_heap0 ex_heap1 (mkHClient ∅ ∅) ex_small ex_p1 ex_small_ok ex_alloc1
      ltac:(unfold ex_p1; lia)). }
  apply (cr_cons _ _ ex_cw); [|apply cr_nil].
  refine (hc_write ex_heap1 (mkHClient ex_live1 ∅) ex_p1 ex_small (ex_p1 + 8) 42 _ _).
  - vm_compute. reflexivity.
  - vm_compute. split; [intros Hc; discriminate Hc|reflexivity].
Qed.

Lemma heap_client_data_witness : read_word (sy_mem (m_sys (fst ex_cw))) (ex_p1 + 8) = 42.
Proof.
  refine (proj2 (heap_client_data ex_hhdm ex_c0 _ ex_cw (ex_p1 + 8) 42 ex_c0_ok ex_client_run _)).
  vm_compute. reflexivity.
Defined.

Lemma heap_client_progress_witness : ∃ p s'', hclient_step ex_cw (HAlloc ex_large p) s''.
Proof.
  destruct (heap_client_progress ex_hhdm ex_c0 _ ex_cw ex_c0_ok ex_client_run) as [Halloc _].
  exact (Halloc ex_large ex_large_ok).
Defined.
