(* ===== verification/Paging.v ===== *)
(** * Paging: the [x86] crate's paging types

    The kernel builds its page tables with the types of the [x86] crate, which
    is not part of the repository.  [X86Paging] lists what the kernel calls, and
    [PagingLaws] what the crate and the processor manual document of it: which
    bits of an address select an entry, where an entry keeps its address, its
    present bit and its page-size bit.  Levels count from the leaves: 0 is a page
    table (PT), 1 a page directory (PD), 2 a PDPT, 3 the PML4.  [x86_64_paging]
    is the architecture's format, written out. *)

From S2P Require Import Prelude Bits Mem.

(** [ENTRY_ADDR_MASK] of [src/kernel/src/mm/vmm.rs] *)
Definition ENTRY_ADDR_MASK : Z := 0x000FFFFFFFFFF000.

Class X86Paging := {
  BASE_PAGE_SIZE : Z;
  LARGE_PAGE_SIZE : Z;
  HUGE_PAGE_SIZE : Z;
  PAGE_SIZE_ENTRIES : nat;
  (** [pt_index], [pd_index], [pdpt_index], [pml4_index] *)
  table_index : nat → Z → Z;
  (** [PTEntry::new], [PDEntry::new], [PDPTEntry::new], [PML4Entry::new] *)
  entry_new : nat → Z → Z → Z;
  entry_address : nat → Z → Z;
  entry_is_present : nat → Z → bool;
  entry_is_page : nat → Z → bool;
  (** [PTFlags], [PDFlags], [PDPTFlags], [PML4Flags] by level *)
  FLAG_P : nat → Z;
  FLAG_RW : nat → Z;
  FLAG_US : nat → Z;
  FLAG_PS : nat → Z;
  PTFlags_PWT : Z;
  PTFlags_PCD : Z;
  PTFlags_G : Z;
  PTFlags_XD : Z;
  flags_from_bits_truncate : nat → Z → Z;
  pte_flags : Z → Z
}.

(** A physical address that fits an entry. *)
Definition entry_addr_ok (p : Z) : Prop := 0 ≤ p < 2 ^ 52 ∧ p mod 4096 = 0.

(** Bits an entry may carry beside the address. *)
Definition flag_bits_ok (f : Z) : Prop := 0 ≤ f < 2 ^ 64 ∧ Z.land f ENTRY_ADDR_MASK = 0.

Class PagingLaws `{X86Paging} : Prop := {
  base_page_size : BASE_PAGE_SIZE = 2 ^ 12;
  large_page_size : LARGE_PAGE_SIZE = 2 ^ 21;
  huge_page_size : HUGE_PAGE_SIZE = 2 ^ 30;
  page_size_entries : PAGE_SIZE_ENTRIES = 512%nat;
  index_spec l v : (l < 4)%nat →
    table_index l v = Z.land (Z.shiftr v (12 + 9 * Z.of_nat l)) 511;
  entry_new_spec l p f : (l < 4)%nat → entry_addr_ok p → flag_bits_ok f →
    entry_new l p f = Z.lor p f;
  address_spec l e : (l < 4)%nat → entry_address l e = Z.land e ENTRY_ADDR_MASK;
  is_present_spec l e : (l < 4)%nat → entry_is_present l e = Z.testbit e 0;
  is_page_spec l e : (0 < l < 3)%nat → entry_is_page l e = Z.testbit e 7;
  FLAG_P_spec l : (l < 4)%nat → FLAG_P l = 1;
  FLAG_PS_spec l : (0 < l < 3)%nat → FLAG_PS l = 2 ^ 7;
  flags_parent l : (l < 4)%nat → flag_bits_ok (FLAG_RW l) ∧ flag_bits_ok (FLAG_US l) ∧
    Z.testbit (FLAG_RW l) 7 = false ∧ Z.testbit (FLAG_US l) 7 = false;
  flags_leaf : flag_bits_ok PTFlags_PWT ∧ flag_bits_ok PTFlags_PCD ∧ flag_bits_ok PTFlags_XD;
  truncate_ok l f : (l < 4)%nat → flag_bits_ok (flags_from_bits_truncate l f);
  (** Truncation keeps the bits that are flags and forgets the others, among
      them the address. *)
  truncate_addr l p f : (l < 4)%nat → entry_addr_ok p →
    flags_from_bits_truncate l (Z.lor p f) = flags_from_bits_truncate l f;
  pte_flags_spec e : pte_flags e = flags_from_bits_truncate 0 e
}.

(** ** The architecture's format *)

(** The flags of an entry: bits 0 to 8 and the execute-disable bit 63. *)
Definition x86_flag_mask : Z := 0x80000000000001FF.

Definition x86_64_paging : X86Paging := {|
  BASE_PAGE_SIZE := 4096;
  LARGE_PAGE_SIZE := 2097152;
  HUGE_PAGE_SIZE := 1073741824;
  PAGE_SIZE_ENTRIES := 512;
  table_index l v := Z.land (Z.shiftr v (12 + 9 * Z.of_nat l)) 511;
  entry_new l p f := Z.lor p f;
  entry_address l e := Z.land e ENTRY_ADDR_MASK;
  entry_is_present l e := Z.testbit e 0;
  entry_is_page l e := Z.testbit e 7;
  FLAG_P l := 1;
  FLAG_RW l := 2;
  FLAG_US l := 4;
  FLAG_PS l := 128;
  PTFlags_PWT := 8;
  PTFlags_PCD := 16;
  PTFlags_G := 256;
  PTFlags_XD := 2 ^ 63;
  flags_from_bits_truncate l f := Z.land f x86_flag_mask;
  pte_flags e := Z.land e x86_flag_mask
|}.

Lemma addr_mask_bits n : 0 ≤ n → Z.testbit ENTRY_ADDR_MASK n = (12 <=? n) && (n <? 52).
Proof.
  intros Hn. replace ENTRY_ADDR_MASK with (Z.shiftl (Z.ones 40) 12) by done.
  rewrite Z.shiftl_spec by done. rewrite Z.testbit_ones by lia.
  destruct (Z.leb_spec 12 n), (Z.ltb_spec n 52), (Z.leb_spec 0 (n - 12)), (Z.ltb_spec (n - 12) 40); done || lia.
Qed.

(** An address that fits is unchanged by the mask and has no low bits. *)
Lemma addr_bits p n : entry_addr_ok p → 0 ≤ n → ¬ 12 ≤ n < 52 → Z.testbit p n = false.
Proof.
  intros [Hp Hm] Hn Hout. destruct (Z.lt_ge_cases n 12).
  - change 4096 with (2 ^ 12) in Hm. rewrite <- (Z.mod_pow2_bits_low p 12 n) by lia.
    by rewrite Hm, Z.bits_0.
  - destruct (Z.eq_dec p 0) as [->|]; [apply Z.bits_0|].
    apply Z.bits_above_log2; [lia|]. apply Z.log2_lt_pow2; [lia|].
    apply (Z.lt_le_trans _ (2 ^ 52)); [lia|]. apply Z.pow_le_mono_r; lia.
Qed.

Lemma addr_land_mask p : entry_addr_ok p → Z.land p ENTRY_ADDR_MASK = p.
Proof.
  intros Hp. apply Z.bits_inj'. intros n Hn. rewrite Z.land_spec, addr_mask_bits by done.
  destruct (decide (12 ≤ n < 52)).
  - destruct (Z.leb_spec 12 n), (Z.ltb_spec n 52); try lia. apply andb_true_r.
  - by rewrite addr_bits.
Qed.

Lemma land_bound e m k : 0 ≤ k → Z.land m (Z.ones k) = m → 0 ≤ Z.land e m < 2 ^ k.
Proof.
  intros Hk Hm. rewrite <- Hm, Z.land_assoc, Z.land_ones by done.
  apply Z.mod_pos_bound, Z.pow_pos_nonneg; lia.
Qed.

Lemma land_mask_addr e : entry_addr_ok (Z.land e ENTRY_ADDR_MASK).
Proof.
  split; [by apply (land_bound e ENTRY_ADDR_MASK 52)|].
  change 4096 with (2 ^ 12). rewrite <- Z.land_ones by lia. apply Z.bits_inj'. intros n Hn.
  rewrite !Z.land_spec, addr_mask_bits, Z.bits_0, Z.testbit_ones by lia.
  destruct (Z.leb_spec 12 n), (Z.leb_spec 0 n), (Z.ltb_spec n 12); try lia;
    rewrite ?andb_false_r; done.
Qed.

Lemma lor_bound a b k : 0 ≤ k → 0 ≤ a < 2 ^ k → 0 ≤ b < 2 ^ k → 0 ≤ Z.lor a b < 2 ^ k.
Proof.
  intros Hk Ha Hb. assert (Z.lor a b = Z.land (Z.lor a b) (Z.ones k)) as ->.
  { rewrite Z.land_lor_distr_l, !Z.land_ones, !Z.mod_small by lia. done. }
  rewrite Z.land_ones by done. apply Z.mod_pos_bound, Z.pow_pos_nonneg; lia.
Qed.

Lemma flag_bits_lor f g : flag_bits_ok f → flag_bits_ok g → flag_bits_ok (Z.lor f g).
Proof.
  intros [Hf Hfm] [Hg Hgm]. split; [by apply lor_bound|]. by rewrite Z.land_lor_distr_l, Hfm, Hgm.
Qed.

(** The parts of an entry can be read back. *)
Lemma entry_parts p f :
  entry_addr_ok p → flag_bits_ok f →
  Z.land (Z.lor p f) ENTRY_ADDR_MASK = p ∧
  ∀ n, 0 ≤ n → ¬ 12 ≤ n < 52 → Z.testbit (Z.lor p f) n = Z.testbit f n.
Proof.
  intros Hp [_ Hf]. split.
  - by rewrite Z.land_lor_distr_l, Hf, addr_land_mask, Z.lor_0_r.
  - intros n Hn Hout. by rewrite Z.lor_spec, (addr_bits p n).
Qed.

Lemma x86_64_laws : @PagingLaws x86_64_paging.
Proof.
  split; try done.
  - intros l f _. simpl. split.
    + by apply (land_bound f x86_flag_mask 64).
    + rewrite <- Z.land_assoc. change (Z.land x86_flag_mask ENTRY_ADDR_MASK) with 0. apply Z.land_0_r.
  - intros l p f _ Hp. simpl. rewrite Z.land_lor_distr_l.
    assert (Z.land p x86_flag_mask = 0) as ->; [|done].
    rewrite <- (addr_land_mask p Hp), <- Z.land_assoc.
    change (Z.land ENTRY_ADDR_MASK x86_flag_mask) with 0. apply Z.land_0_r.
Qed.
