(* ===== verification/Vmm.v ===== *)
(** * Vmm: the kernel's page tables ([src/kernel/src/mm/vmm.rs])

    Four levels of tables, each a frame of 512 entries reached through the direct
    map.  [map] and [unmap] walk them, allocate the tables that are missing, give
    back those that become empty, and undo what they allocated when memory runs
    out; [clone_table] copies the boot loader's tables into frames the kernel
    owns.  The code works against any [FrameAllocator] and any [X86Paging].

    The machine's part of the state ([VmmHw]) is the [VMM] singleton, the [CR3]
    register and the log of TLB invalidations.  The kernel's own accesses go
    through the direct map and are not translated by the tables modelled here. *)

From S2P Require Import Prelude Bits Mem Pmm Dll PmmInv PmmList PmmOps PmmSpec.
From S2P Require Import Locks FrameAlloc Paging.

Inductive PageSize := Base | Large | Huge.

#[export] Instance PageSize_eq_dec : EqDecision PageSize.
Proof. solve_decision. Defined.

Inductive MapError := AlreadyMapped | OutOfMemory | MapNonCanonical | MapMisaligned.

Inductive UnmapError := NotMapped | UnmapNonCanonical | UnmapMisaligned.

Inductive VmmError := OutOfFrames.

(** [struct Vmm { top_level: PAddr }] *)
Record Vmm := mkVmm { top_level : Z }.

Inductive tlb_op := TlbFlush (addr : Z) | TlbFlushAll.

Record VmmHw := mkVmmHw {
  vh_vmm : Mutex (option Vmm);
  vh_cr3 : Z;
  vh_tlb : list tlb_op
}.

Definition vmm_lens : lens VmmHw (Mutex (option Vmm)) :=
  mkLens vh_vmm (λ v s, mkVmmHw v (vh_cr3 s) (vh_tlb s)).

Definition VMM {A : Type} : lens (Machine A VmmHw) (Mutex (option Vmm)) := lens_comp own_lens vmm_lens.

Definition vmm_if {A : Type} : lens (Machine A VmmHw) bool := lens_comp sys_lens if_lens.

Definition is_canonical (virt : Z) : bool :=
  let hi := u64_shr virt 47 in
  (hi =? 0) || (hi =? 0x1ffff).

Section vmm.
Context `{Profile} {A : Type} `{!FrameAllocator A} `{!X86Paging}.

Abbreviation VM := (M (Machine A VmmHw)).

Definition PageSize_bytes (size : PageSize) : Z :=
  match size with
  | Base => BASE_PAGE_SIZE
  | Large => LARGE_PAGE_SIZE
  | Huge => HUGE_PAGE_SIZE
  end.

(** *** The processor and memory *)
Definition load_hhdm : VM Z := gets (λ m, sy_hhdm (m_sys m)).

Definition read_mem (a : Z) : VM Z := on_sys (load a).

Definition write_mem (a v : Z) : VM unit := on_sys (store a v).

Definition alloc_frame : VM (option Z) := on_sys (fa_alloc 0).

Definition free_frame (p : Z) : VM unit := on_sys (fa_release p 0).

Definition tlb_log (op : tlb_op) : VM unit :=
  modify (λ m, mkMachine (m_sys m)
    (mkVmmHw (vh_vmm (m_own m)) (vh_cr3 (m_own m)) (vh_tlb (m_own m) ++ [op]))).

Definition tlb_flush (addr : Z) : VM unit := tlb_log (TlbFlush addr).

Definition tlb_flush_all : VM unit := tlb_log TlbFlushAll.

Definition cr3 : VM Z := gets (λ m, vh_cr3 (m_own m)).

Definition cr3_write (v : Z) : VM unit :=
  modify (λ m, mkMachine (m_sys m) (mkVmmHw (vh_vmm (m_own m)) v (vh_tlb (m_own m)))).

(** *** Tables *)
Definition table_mut (phys hhdm_offset : Z) : VM Z := u64_add phys hhdm_offset.

(** The address of entry [i] of a table; the index is checked. *)
Definition slot (table i : Z) : VM Z :=
  do! assert_ (i <? Z.of_nat PAGE_SIZE_ENTRIES) "index out of bounds";
  ret (table + 8 * i).

(** [core::ptr::write_bytes(ptr, 0, BASE_PAGE_SIZE)], word by word *)
Definition zero_frame (phys hhdm_offset : Z) : VM unit :=
  let! ptr := u64_add phys hhdm_offset in
  for_range 0 (Z.to_nat (BASE_PAGE_SIZE / 8)) (λ i, write_mem (ptr + 8 * i) 0).

Definition pml4_parent : Z := Z.lor (Z.lor (FLAG_P 3) (FLAG_RW 3)) (FLAG_US 3).

Definition pdpt_parent : Z := Z.lor (Z.lor (FLAG_P 2) (FLAG_RW 2)) (FLAG_US 2).

Definition pd_parent : Z := Z.lor (Z.lor (FLAG_P 1) (FLAG_RW 1)) (FLAG_US 1).

Definition leaf_common (leaf : Z) : Z :=
  Z.land leaf
    (Z.lor (Z.lor (Z.lor (Z.lor (Z.lor (FLAG_RW 0) (FLAG_US 0)) PTFlags_PWT) PTFlags_PCD) PTFlags_G) PTFlags_XD).

Definition pdpt_leaf (leaf : Z) : Z :=
  Z.lor (Z.lor (flags_from_bits_truncate 2 (leaf_common leaf)) (FLAG_P 2)) (FLAG_PS 2).

Definition pd_leaf (leaf : Z) : Z :=
  Z.lor (Z.lor (flags_from_bits_truncate 1 (leaf_common leaf)) (FLAG_P 1)) (FLAG_PS 1).

(** No entry from [i] on is present. *)
Fixpoint all_absent (entries i : Z) (n : nat) : VM bool :=
  match n with
  | O => ret true
  | S n' =>
      let! e := read_mem (entries + 8 * i) in
      if Z.land e 1 =? 0 then all_absent entries (i + 1) n' else ret false
  end.

Definition is_empty (phys hhdm_offset : Z) : VM bool :=
  let! entries := table_mut phys hhdm_offset in
  all_absent entries 0 PAGE_SIZE_ENTRIES.

(** The end of [reclaim_pt], [reclaim_pd] and [reclaim_pdpt]. *)
Definition reclaim_if_empty (parent phys hhdm : Z) : VM unit :=
  let! empty := is_empty phys hhdm in
  if (empty : bool) then
    do! write_mem parent 0;
    do! free_frame phys;
    tlb_flush_all
  else ret tt.

Definition reclaim_pt (parent pt_phys hhdm : Z) : VM unit :=
  let! e := read_mem parent in
  if entry_is_page 1 e then ret tt else reclaim_if_empty parent pt_phys hhdm.

Definition reclaim_pd (parent pd_phys hhdm : Z) : VM unit :=
  let! e := read_mem parent in
  if entry_is_page 2 e then ret tt else reclaim_if_empty parent pd_phys hhdm.

Definition reclaim_pdpt (parent pdpt_phys hhdm : Z) : VM unit :=
  reclaim_if_empty parent pdpt_phys hhdm.

(** *** [Vmm::translate] *)
Definition translate_page (e size virt : Z) (l : nat) (flags : Z) : VM (option (Z * Z)) :=
  let! phys := u64_add (entry_address l e) (Z.land virt (size - 1)) in
  ret (Some (phys, flags)).

Definition Vmm_translate (self : Vmm) (virt : Z) : VM (option (Z * Z)) :=
  if negb (is_canonical virt) then ret None
  else
    let! hhdm := load_hhdm in
    let! pml4 := table_mut (top_level self) hhdm in
    let! a4 := slot pml4 (table_index 3 virt) in
    let! pml4e := read_mem a4 in
    if negb (entry_is_present 3 pml4e) then ret None
    else
      let! pdpt := table_mut (entry_address 3 pml4e) hhdm in
      let! a3 := slot pdpt (table_index 2 virt) in
      let! pdpte := read_mem a3 in
      if negb (entry_is_present 2 pdpte) then ret None
      else if entry_is_page 2 pdpte then
        translate_page pdpte HUGE_PAGE_SIZE virt 2 (flags_from_bits_truncate 0 pdpte)
      else
        let! pd := table_mut (entry_address 2 pdpte) hhdm in
        let! a2 := slot pd (table_index 1 virt) in
        let! pde := read_mem a2 in
        if negb (entry_is_present 1 pde) then ret None
        else if entry_is_page 1 pde then
          translate_page pde LARGE_PAGE_SIZE virt 1 (flags_from_bits_truncate 0 pde)
        else
          let! pt := table_mut (entry_address 1 pde) hhdm in
          let! a1 := slot pt (table_index 0 virt) in
          let! pte := read_mem a1 in
          if negb (entry_is_present 0 pte) then ret None
          else translate_page pte BASE_PAGE_SIZE virt 0 (pte_flags pte).

(** *** [Vmm::map] *)

(** [if new_pd { *pdpt_slot = PDPTEntry(0); pmm::free_frame(pd_phys); }] and the
    like: what is undone, for a table this call made, when another one cannot be
    allocated. *)
Definition undo_table (parent phys : Z) : VM unit :=
  do! write_mem parent 0; free_frame phys.

(** The last step: the entry that maps the page, unless something is there. *)
Definition put_leaf (l : nat) (a phys flags virt : Z) : VM (result unit MapError) :=
  let! e := read_mem a in
  if entry_is_present l e then ret (RErr AlreadyMapped)
  else
    do! write_mem a (entry_new l phys flags);
    do! tlb_flush virt;
    ret (ROk tt).

(** From the page table on. *)
Definition map_pt (pt_phys hhdm virt phys flags : Z) : VM (result unit MapError) :=
  let! pt := table_mut pt_phys hhdm in
  let! pt_slot := slot pt (table_index 0 virt) in
  put_leaf 0 pt_slot phys (Z.lor flags (FLAG_P 0)) virt.

(** From the page directory on; [undo] releases the tables allocated so far. *)
Definition map_pd (pd_phys hhdm virt phys flags : Z) (size : PageSize) (undo : VM unit) :
    VM (result unit MapError) :=
  let! pd := table_mut pd_phys hhdm in
  let! pd_slot := slot pd (table_index 1 virt) in
  if decide (size = Large) then put_leaf 1 pd_slot phys (pd_leaf flags) virt
  else
    let! e := read_mem pd_slot in
    if entry_is_present 1 e && entry_is_page 1 e then ret (RErr AlreadyMapped)
    else if entry_is_present 1 e then map_pt (entry_address 1 e) hhdm virt phys flags
    else
      let! r := alloc_frame in
      match r with
      | None => do! undo; ret (RErr OutOfMemory)
      | Some frame =>
          do! zero_frame frame hhdm;
          do! write_mem pd_slot (entry_new 1 frame pd_parent);
          map_pt frame hhdm virt phys flags
      end.

(** From the page-directory-pointer table on. *)
Definition map_pdpt (pdpt_phys hhdm virt phys flags : Z) (size : PageSize) (undo : VM unit) :
    VM (result unit MapError) :=
  let! pdpt := table_mut pdpt_phys hhdm in
  let! pdpt_slot := slot pdpt (table_index 2 virt) in
  if decide (size = Huge) then put_leaf 2 pdpt_slot phys (pdpt_leaf flags) virt
  else
    let! e := read_mem pdpt_slot in
    if entry_is_present 2 e && entry_is_page 2 e then ret (RErr AlreadyMapped)
    else if entry_is_present 2 e then
      map_pd (entry_address 2 e) hhdm virt phys flags size undo
    else
      let! r := alloc_frame in
      match r with
      | None => do! undo; ret (RErr OutOfMemory)
      | Some frame =>
          do! zero_frame frame hhdm;
          do! write_mem pdpt_slot (entry_new 2 frame pdpt_parent);
          map_pd frame hhdm virt phys flags size (do! undo_table pdpt_slot frame; undo)
      end.

Definition Vmm_map (self : Vmm) (virt phys flags : Z) (size : PageSize) : VM (result unit MapError) :=
  if negb (is_canonical virt) then ret (RErr MapNonCanonical)
  else
    let align := PageSize_bytes size in
    if negb (is_multiple_of virt align) || negb (is_multiple_of phys align) then
      ret (RErr MapMisaligned)
    else
      let! hhdm := load_hhdm in
      let! pml4 := table_mut (top_level self) hhdm in
      let! pml4_slot := slot pml4 (table_index 3 virt) in
      let! e := read_mem pml4_slot in
      if entry_is_present 3 e then
        map_pdpt (entry_address 3 e) hhdm virt phys flags size (ret tt)
      else
        let! r := alloc_frame in
        match r with
        | None => ret (RErr OutOfMemory)
        | Some frame =>
            do! zero_frame frame hhdm;
            do! write_mem pml4_slot (entry_new 3 frame pml4_parent);
            map_pdpt frame hhdm virt phys flags size (do! undo_table pml4_slot frame; ret tt)
        end.

(** *** [Vmm::unmap] *)
Definition Vmm_unmap (self : Vmm) (virt : Z) (size : PageSize) : VM (result unit UnmapError) :=
  if negb (is_canonical virt) then ret (RErr UnmapNonCanonical)
  else if negb (is_multiple_of virt (PageSize_bytes size)) then ret (RErr UnmapMisaligned)
  else
    let! hhdm := load_hhdm in
    let! pml4 := table_mut (top_level self) hhdm in
    let! pml4_slot := slot pml4 (table_index 3 virt) in
    let! e4 := read_mem pml4_slot in
    if negb (entry_is_present 3 e4) then ret (RErr NotMapped)
    else
      let pdpt_phys := entry_address 3 e4 in
      let! pdpt := table_mut pdpt_phys hhdm in
      let! pdpt_slot := slot pdpt (table_index 2 virt) in
      let! e3 := read_mem pdpt_slot in
      if decide (size = Huge) then
        if negb (entry_is_present 2 e3) || negb (entry_is_page 2 e3) then ret (RErr NotMapped)
        else
          do! write_mem pdpt_slot 0;
          do! tlb_flush virt;
          do! reclaim_pdpt pml4_slot pdpt_phys hhdm;
          ret (ROk tt)
      else if negb (entry_is_present 2 e3) || entry_is_page 2 e3 then ret (RErr NotMapped)
      else
        let pd_phys := entry_address 2 e3 in
        let! pd := table_mut pd_phys hhdm in
        let! pd_slot := slot pd (table_index 1 virt) in
        let! e2 := read_mem pd_slot in
        if decide (size = Large) then
          if negb (entry_is_present 1 e2) || negb (entry_is_page 1 e2) then ret (RErr NotMapped)
          else
            do! write_mem pd_slot 0;
            do! tlb_flush virt;
            do! reclaim_pd pdpt_slot pd_phys hhdm;
            do! reclaim_pdpt pml4_slot pdpt_phys hhdm;
            ret (ROk tt)
        else if negb (entry_is_present 1 e2) || entry_is_page 1 e2 then ret (RErr NotMapped)
        else
          let pt_phys := entry_address 1 e2 in
          let! pt := table_mut pt_phys hhdm in
          let! pt_slot := slot pt (table_index 0 virt) in
          let! e1 := read_mem pt_slot in
          if negb (entry_is_present 0 e1) then ret (RErr NotMapped)
          else
            do! write_mem pt_slot 0;
            do! tlb_flush virt;
            do! reclaim_pt pd_slot pt_phys hhdm;
            do! reclaim_pd pdpt_slot pd_phys hhdm;
            do! reclaim_pdpt pml4_slot pdpt_phys hhdm;
            ret (ROk tt).

(** *** Ranges *)

(** The loop that takes back the first pages of a failed [map_range]. *)
Definition unmap_back (self : Vmm) (virt stride : Z) (size : PageSize) (i : nat) : VM unit :=
  for_range 0 i (λ j,
    let! back := u64_mul j stride in
    let! v := u64_add virt back in
    do! Vmm_unmap self v size;
    ret tt).

(** Pages [i .. i + n]. *)
Fixpoint map_range_loop (self : Vmm) (virt phys flags stride : Z) (size : PageSize) (i n : nat) :
    VM (result unit MapError) :=
  match n with
  | O => ret (ROk tt)
  | S n' =>
      let! step := u64_mul (Z.of_nat i) stride in
      let! v := u64_add virt step in
      let! p := u64_add phys step in
      let! r := Vmm_map self v p flags size in
      match r with
      | RErr e => do! unmap_back self virt stride size i; ret (RErr e)
      | ROk _ => map_range_loop self virt phys flags stride size (S i) n'
      end
  end.

Definition Vmm_map_range (self : Vmm) (virt phys pages flags : Z) (size : PageSize) :
    VM (result unit MapError) :=
  map_range_loop self virt phys flags (PageSize_bytes size) size 0 (Z.to_nat pages).

Fixpoint unmap_range_loop (self : Vmm) (virt stride : Z) (size : PageSize) (i n : nat) :
    VM (result unit UnmapError) :=
  match n with
  | O => ret (ROk tt)
  | S n' =>
      let! step := u64_mul (Z.of_nat i) stride in
      let! v := u64_add virt step in
      let! r := Vmm_unmap self v size in
      match r with
      | RErr e => ret (RErr e)
      | ROk _ => unmap_range_loop self virt stride size (S i) n'
      end
  end.

Definition Vmm_unmap_range (self : Vmm) (virt pages : Z) (size : PageSize) :
    VM (result unit UnmapError) :=
  unmap_range_loop self virt (PageSize_bytes size) size 0 (Z.to_nat pages).

(** *** The kernel-wide functions *)

(** [VMM.with(|vmm| ...)]; none of the methods assigns to [top_level]. *)
Definition with_vmm {B : Type} (f : Vmm → VM B) : VM B :=
  singleton_with vmm_if VMM (λ vmm, let! r := f vmm in ret (r, vmm)).

Definition translate (virt : Z) : VM (option (Z * Z)) :=
  with_vmm (λ vmm, Vmm_translate vmm virt).

Definition map (virt phys flags : Z) (size : PageSize) : VM (result unit MapError) :=
  with_vmm (λ vmm, Vmm_map vmm virt phys flags size).

Definition map_hhdm (phys flags : Z) (size : PageSize) : VM (result Z MapError) :=
  let! h := load_hhdm in
  let! virt := u64_add phys h in
  let! r := map virt phys flags size in
  match r with
  | RErr e => ret (RErr e)
  | ROk _ => ret (ROk virt)
  end.

Definition unmap (virt : Z) (size : PageSize) : VM (result unit UnmapError) :=
  with_vmm (λ vmm, Vmm_unmap vmm virt size).

Definition map_range (virt phys pages flags : Z) (size : PageSize) : VM (result unit MapError) :=
  with_vmm (λ vmm, Vmm_map_range vmm virt phys pages flags size).

Definition unmap_range (virt pages : Z) (size : PageSize) : VM (result unit UnmapError) :=
  with_vmm (λ vmm, Vmm_unmap_range vmm virt pages size).

(** *** Cloning the boot loader's tables *)
Definition is_leaf_entry (level : nat) (entry : Z) : bool :=
  (level =? 0)%nat || ((level <=? 2)%nat && negb (Z.land entry (Z.shiftl 1 7) =? 0)).

(** The loop of [free_cloned_table]; [rec] frees a table one level down. *)
Fixpoint free_loop (rec : Z → VM unit) (level : nat) (table i : Z) (n : nat) : VM unit :=
  match n with
  | O => ret tt
  | S n' =>
      let! entry := read_mem (table + 8 * i) in
      if Z.land entry 1 =? 0 then free_loop rec level table (i + 1) n'
      else
        do! (if is_leaf_entry level entry then ret tt else rec (Z.land entry ENTRY_ADDR_MASK));
        free_loop rec level table (i + 1) n'
  end.

(** [level - 1] at level 0 would overflow. *)
Fixpoint free_cloned_table (level : nat) (phys hhdm : Z) : VM unit :=
  let! table := u64_add phys hhdm in
  do! free_loop
        (match level with
         | O => λ _, panic "attempt to subtract with overflow"
         | S l => λ c, free_cloned_table l c hhdm
         end) level table 0 PAGE_SIZE_ENTRIES;
  free_frame phys.

(** The loop of [clone_table]: [false] when memory ran out, after the copy made
    so far was freed. *)
Fixpoint clone_loop (rec : Z → VM (option Z)) (level : nat) (src dst dst_frame hhdm i : Z) (n : nat) :
    VM bool :=
  match n with
  | O => ret true
  | S n' =>
      let! entry := read_mem (src + 8 * i) in
      if Z.land entry 1 =? 0 then clone_loop rec level src dst dst_frame hhdm (i + 1) n'
      else if is_leaf_entry level entry then
        do! write_mem (dst + 8 * i) entry;
        clone_loop rec level src dst dst_frame hhdm (i + 1) n'
      else
        let child_phys := Z.land entry ENTRY_ADDR_MASK in
        let! c := rec child_phys in
        match c with
        | None => do! free_cloned_table level dst_frame hhdm; ret false
        | Some new_child =>
            let flags := Z.land entry (u64_not ENTRY_ADDR_MASK) in
            do! write_mem (dst + 8 * i) (Z.lor (Z.land new_child ENTRY_ADDR_MASK) flags);
            clone_loop rec level src dst dst_frame hhdm (i + 1) n'
        end
  end.

Fixpoint clone_table (level : nat) (src_phys hhdm : Z) : VM (option Z) :=
  let! r := alloc_frame in
  match r with
  | None => ret None
  | Some dst_frame =>
      do! zero_frame dst_frame hhdm;
      let! src := u64_add src_phys hhdm in
      let! dst := u64_add dst_frame hhdm in
      let! ok := clone_loop
        (match level with
         | O => λ _, panic "attempt to subtract with overflow"
         | S l => λ c, clone_table l c hhdm
         end) level src dst dst_frame hhdm 0 PAGE_SIZE_ENTRIES in
      if (ok : bool) then ret (Some dst_frame) else ret None
  end.

Definition take_ownership (hhdm_offset : Z) : VM (result Z VmmError) :=
  let! old_cr3 := cr3 in
  let old_pml4 := Z.land old_cr3 ENTRY_ADDR_MASK in
  let! r := clone_table 3 old_pml4 hhdm_offset in
  match r with
  | None => ret (RErr OutOfFrames)
  | Some new_pml4 =>
      let new_cr3 := Z.lor (Z.land new_pml4 ENTRY_ADDR_MASK)
                           (Z.land old_cr3 (u64_not ENTRY_ADDR_MASK)) in
      do! cr3_write new_cr3;
      ret (ROk new_pml4)
  end.

End vmm.
