(* ===== verification/Walk.v ===== *)
(** * Walk: page tables as a tree

    The reference reading of a page table: a recursive walk down the levels.
    [tables_ok] says that a set [T] of frames, each with its level, is a tree of
    tables: every entry that points to a table points into [T], one level down,
    and no table has two parents.  The lemmas tell what one change of the tree
    (an entry written, a table linked, a table unlinked) does to the walk of
    every address.  Levels count from the leaves, as in [Paging]. *)

From S2P Require Import Prelude Bits Mem Pmm Dll PmmInv PmmList PmmOps PmmSpec.
From S2P Require Import Locks FrameAlloc Paging.

(** Entry [i] of the table at [p], read through the direct map at [h]. *)
Definition ent (m : mem) (h p i : Z) : Z := read_word m (p + h + 8 * i).

Definition presentb (e : Z) : bool := Z.testbit e 0.

(** The entry maps a page: always at level 0, by the page-size bit at 1 and 2. *)
Definition leafb (l : nat) (e : Z) : bool := (l =? 0)%nat || ((l <=? 2)%nat && Z.testbit e 7).

Definition addr (e : Z) : Z := Z.land e ENTRY_ADDR_MASK.

Section walk.
Context `{!X86Paging} `{!PagingLaws}.
Context (h : Z).

Fixpoint walk (m : mem) (l : nat) (t v : Z) : option (nat * Z) :=
  let e := ent m h t (table_index l v) in
  if presentb e then
    if leafb l e then Some (l, e)
    else match l with O => None | S l' => walk m l' (addr e) v end
  else None.

(** The table at level [k] that the walk of [v] from [top] goes through. *)
Inductive reach (m : mem) (top v : Z) : nat → Z → Prop :=
| reach_top : reach m top v 3 top
| reach_down k p e :
    reach m top v (S k) p → e = ent m h p (table_index (S k) v) →
    presentb e = true → leafb (S k) e = false → reach m top v k (addr e).

Abbreviation tables := (gmap Z nat).

(** An entry that points to a table. *)
Definition points (m : mem) (l : nat) (p i c : Z) : Prop :=
  presentb (ent m h p i) = true ∧ leafb l (ent m h p i) = false ∧ addr (ent m h p i) = c.

Record tables_ok (F : gset Z) (total : Z) (m : mem) (top : Z) (T : tables) : Prop := {
  to_top : T !! top = Some 3%nat;
  to_frame p l : T !! p = Some l → (l ≤ 3)%nat ∧ ∃ f, p = f * FRAME_SIZE ∧ 0 ≤ f < total ∧ f ∉ F;
  to_child p l i c : T !! p = Some l → 0 ≤ i < 512 → points m l p i c →
    ∃ k, l = S k ∧ T !! c = Some k;
  to_inj p l i p' l' i' c : T !! p = Some l → T !! p' = Some l' → 0 ≤ i < 512 → 0 ≤ i' < 512 →
    points m l p i c → points m l' p' i' c → p = p' ∧ i = i'
}.

Definition no_entries (m : mem) (p : Z) : Prop :=
  ∀ i, 0 ≤ i < 512 → presentb (ent m h p i) = false.

(** The addresses that share the entry of [v] at level [k]. *)
Definition same_path (k : nat) (v v' : Z) : Prop :=
  ∀ j, (k ≤ j ≤ 3)%nat → table_index j v = table_index j v'.

Lemma same_path_forall k v v' :
  same_path k v v' ↔ Forall (λ j, table_index j v = table_index j v') (seq k (4 - k)).
Proof.
  unfold same_path. rewrite Forall_forall. split; intros Hs j Hj.
  - apply elem_of_seq in Hj. apply Hs. lia.
  - apply Hs, elem_of_seq. lia.
Qed.

#[export] Instance same_path_dec k v v' : Decision (same_path k v v').
Proof.
  destruct (decide (Forall (λ j, table_index j v = table_index j v') (seq k (4 - k)))) as [Hf|Hf];
    [left|right]; by rewrite same_path_forall.
Defined.

Lemma index_bounds l v : (l ≤ 3)%nat → 0 ≤ table_index l v < 512.
Proof.
  intros Hl. rewrite index_spec by lia. by apply (land_bound _ 511 9).
Qed.

(** Entries of different tables, or with different indices, are different words. *)
Lemma slot_inj p i p' i' :
  p mod FRAME_SIZE = 0 → p' mod FRAME_SIZE = 0 → 0 ≤ i < 512 → 0 ≤ i' < 512 →
  p + h + 8 * i = p' + h + 8 * i' → p = p' ∧ i = i'.
Proof.
  rewrite FRAME_SIZE_val. intros Hp Hp' Hi Hi' Heq.
  pose proof (Z.div_mod p 4096). pose proof (Z.div_mod p' 4096). lia.
Qed.

Lemma reach_level m top v k p : reach m top v k p → (k ≤ 3)%nat.
Proof. intros Hr. induction Hr as [|k p e Hr IH He Hp Hl]; [apply le_n|lia]. Qed.

Section tree.
Context {F : gset Z} {total : Z} {m : mem} {top : Z} {T : tables}.
Context (HT : tables_ok F total m top T).

Lemma table_aligned p l : T !! p = Some l → p mod FRAME_SIZE = 0.
Proof. intros Hp. destruct (to_frame _ _ _ _ _ HT p l Hp) as (_ & f & -> & _). by apply Z.mod_mul. Qed.

Lemma reach_table v k p : reach m top v k p → T !! p = Some k ∧ (k ≤ 3)%nat.
Proof.
  induction 1 as [|k p e Hr [Hp Hk] -> Hpr Hlf].
  - split; [apply HT|lia].
  - split; [|lia]. destruct (to_child _ _ _ _ _ HT p (S k) (table_index (S k) v)
      (addr (ent m h p (table_index (S k) v))) Hp) as (k' & [= <-] & Hc); [by apply index_bounds|done|done].
Qed.

Lemma walk_reach v k p : reach m top v k p → walk m 3 top v = walk m k p v.
Proof.
  induction 1 as [|k p e Hr IH -> Hpr Hlf]; [done|]. rewrite IH. simpl. by rewrite Hpr, Hlf.
Qed.

(** Two addresses whose walks meet at a table have the same indices above it. *)
Lemma reach_indices v v' k p :
  reach m top v k p → reach m top v' k p →
  ∀ j, (k < j ≤ 3)%nat → table_index j v = table_index j v'.
Proof.
  intros Hr. induction Hr as [|k p e Hr IH -> Hpr Hlf]; intros Hr' j Hj; [lia|].
  inversion Hr' as [E1 E2|k' p' e' Hr2 -> Hpr' Hlf' E1 E2].
  - destruct (reach_table v (S k) p Hr). lia.
  - destruct (reach_table v (S k) p Hr) as [Hp _]. destruct (reach_table v' (S k) p' Hr2) as [Hp' ?].
    destruct (to_inj _ _ _ _ _ HT p (S k) (table_index (S k) v) p' (S k) (table_index (S k) v')
      (addr (ent m h p (table_index (S k) v)))) as [<- Hi];
      [done|done|by apply index_bounds|by apply index_bounds|done|by split_and!|].
    destruct (decide (j = S k)) as [->|]; [done|]. apply IH; [done|lia].
Qed.

(** Addresses with the same indices above a level reach the same table there. *)
Lemma reach_same v v' k p :
  reach m top v k p → (∀ j, (k < j ≤ 3)%nat → table_index j v = table_index j v') →
  reach m top v' k p.
Proof.
  induction 1 as [|k p e Hr IH -> Hpr Hlf]; intros Hj; [constructor|].
  destruct (reach_table v (S k) p Hr) as [_ ?].
  pose proof (Hj (S k) ltac:(lia)) as Hi. rewrite Hi in *.
  eapply reach_down; [apply IH; intros j ?; apply Hj; lia|done|done|done].
Qed.
End tree.

(** ** One entry changes *)
Section write.
Context {F : gset Z} {total : Z} {m m' : mem} {top : Z} {T : tables} (p i : Z) (k : nat).
Context (HT : tables_ok F total m top T) (Hp : T !! p = Some k) (Hi : 0 ≤ i < 512).
Context (Hsame : ∀ q l j, T !! q = Some l → 0 ≤ j < 512 → q ≠ p ∨ j ≠ i → ent m' h q j = ent m h q j).

Lemma points_other q l j c :
  T !! q = Some l → 0 ≤ j < 512 → q ≠ p ∨ j ≠ i → points m' l q j c → points m l q j c.
Proof. intros Hq Hj Hne. unfold points. by rewrite (Hsame q l j). Qed.

(** Walks that do not use the entry are unchanged. *)
Lemma walk_elsewhere v l t :
  reach m top v l t → ¬ (reach m top v k p ∧ table_index k v = i) → walk m' l t v = walk m l t v.
Proof.
  intros Hr Hno. revert t Hr. induction l as [|l IH]; intros t Hr;
    destruct (reach_table HT _ _ _ Hr) as [Ht Hl].
  - assert (ent m' h t (table_index 0 v) = ent m h t (table_index 0 v)) as He.
    { apply (Hsame t 0%nat); [done|by apply index_bounds|]. destruct (decide (t = p)) as [->|]; [|by left].
      right. intros <-. apply Hno. assert (k = 0%nat) as -> by congruence. done. }
    simpl. by rewrite He.
  - assert (ent m' h t (table_index (S l) v) = ent m h t (table_index (S l) v)) as He.
    { apply (Hsame t (S l)); [done|by apply index_bounds|]. destruct (decide (t = p)) as [->|]; [|by left].
      right. intros <-. apply Hno. assert (k = S l) as -> by congruence. done. }
    simpl. rewrite He. set (e := ent m h t (table_index (S l) v)).
    destruct (presentb e) eqn:Hpr; [|done]. destruct (leafb (S l) e) eqn:Hlf; [done|].
    apply IH. by eapply reach_down.
Qed.

(** The tables above the entry are reached as before. *)
Lemma reach_above v l t : (k ≤ l)%nat → reach m top v l t → reach m' top v l t.
Proof.
  intros Hkl Hr. induction Hr as [|l q e Hr IH -> Hpr Hlf]; [constructor|].
  destruct (reach_table HT _ _ _ Hr) as [Hq ?].
  assert (ent m' h q (table_index (S l) v) = ent m h q (table_index (S l) v)) as He.
  { apply (Hsame q (S l)); [done|by apply index_bounds|]. left. intros ->. assert (k = S l) by congruence. lia. }
  rewrite <- He. eapply reach_down; [apply IH; lia|done|by rewrite He|by rewrite He].
Qed.

(** A walk that uses the entry ends up as the new entry says. *)
Lemma walk_through v : reach m top v k p → walk m' 3 top v = walk m' k p v.
Proof. intros Hr. apply walk_reach, reach_above; [lia|done]. Qed.

(** Writing an entry that points to no table keeps the tree. *)
Lemma tables_write :
  presentb (ent m' h p i) = false ∨ leafb k (ent m' h p i) = true →
  tables_ok F total m' top T.
Proof.
  intros He.
  assert (∀ q l j c, T !! q = Some l → 0 ≤ j < 512 → points m' l q j c → points m l q j c) as Hback.
  { intros q l j c Hq Hj Hpt. destruct (decide (q = p ∧ j = i)) as [[-> ->]|Hne].
    - assert (l = k) as -> by congruence. destruct Hpt as (Hpr & Hlf & _). destruct He; congruence.
    - apply points_other; [done|done| |done]. destruct (decide (q = p)); [right|by left]. naive_solver. }
  split; [apply HT|apply HT| |].
  - intros q l j c Hq Hj Hpt. by eapply (to_child _ _ _ _ _ HT q l j), Hback.
  - intros q l j q' l' j' c Hq Hq' Hj Hj' Hpt Hpt'.
    by eapply (to_inj _ _ _ _ _ HT q l j q' l' j' c); [..|apply Hback|apply Hback].
Qed.

(** What every walk becomes when an entry on the path of [v0] is written. *)
Lemma walk_write v0 v :
  reach m top v0 k p → table_index k v0 = i →
  if decide (same_path k v0 v) then
    table_index k v = i ∧ reach m top v k p ∧
    walk m' 3 top v = walk m' k p v ∧ walk m 3 top v = walk m k p v
  else walk m' 3 top v = walk m 3 top v.
Proof.
  intros Hr0 Hi0. destruct (reach_table HT _ _ _ Hr0) as [_ Hk3]. case_decide as Hsp.
  - assert (reach m top v k p) as Hr by (eapply (reach_same HT v0); [done|]; intros; apply Hsp; lia).
    split_and!; [rewrite <- Hi0; symmetry; apply Hsp; lia|done|by apply walk_through|by apply walk_reach].
  - apply walk_elsewhere; [constructor|]. intros [Hr Hv]. apply Hsp. intros j Hj.
    destruct (decide (j = k)) as [->|]; [congruence|]. apply (reach_indices HT v0 v k p); [done|done|lia].
Qed.
End write.

(** ** A table is linked *)
Section link.
Context {F F' : gset Z} {total : Z} {m m' : mem} {top : Z} {T : tables} (p i : Z) (k : nat) (c f : Z).
Context (HT : tables_ok F total m top T) (Hp : T !! p = Some (S k)) (Hi : 0 ≤ i < 512).
Context (Hc : c = f * FRAME_SIZE) (Hf : 0 ≤ f < total) (HfF' : f ∉ F') (HF : F' ⊆ F) (HcT : T !! c = None).
Context (Hsame : ∀ q l j, T !! q = Some l → 0 ≤ j < 512 → q ≠ p ∨ j ≠ i → ent m' h q j = ent m h q j).
Context (Hpt : points m' (S k) p i c) (Hempty : no_entries m' c).

Lemma tables_link : tables_ok F' total m' top (<[c := k]> T).
Proof.
  destruct (to_frame _ _ _ _ _ HT p (S k) Hp) as (Hk3 & _).
  assert (∀ q l j d, <[c := k]> T !! q = Some l → 0 ≤ j < 512 → points m' l q j d →
    q = p ∧ j = i ∧ d = c ∨ T !! q = Some l ∧ points m l q j d ∧ d ≠ c) as Hcases.
  { intros q l j d [[<- <-]|[Hne Hq]]%lookup_insert_Some Hj Hd.
    - destruct Hd as [Hpr _]. by rewrite Hempty in Hpr.
    - destruct (decide (q = p ∧ j = i)) as [[-> ->]|Hne'].
      + left. split_and!; [done|done|]. destruct Hd as (_ & _ & <-), Hpt as (_ & _ & <-). done.
      + right. assert (points m l q j d) as Hd'.
        { unfold points in *. rewrite <- (Hsame q l j); [done|done|done|].
          destruct (decide (q = p)); [right|by left]. naive_solver. }
        split_and!; [done|done|]. intros ->.
        destruct (to_child _ _ _ _ _ HT q l j c Hq Hj Hd') as (k' & _ & ?). congruence. }
  split.
  - rewrite lookup_insert_ne; [apply HT|]. intros ->. pose proof (to_top _ _ _ _ _ HT). congruence.
  - intros q l [[<- <-]|[Hne Hq]]%lookup_insert_Some; [split; [lia|by exists f]|].
    destruct (to_frame _ _ _ _ _ HT q l Hq) as (? & g & ? & ? & ?). split; [done|].
    exists g. split_and!; [done|lia|lia|set_solver].
  - intros q l j d Hq Hj Hd. destruct (Hcases q l j d Hq Hj Hd) as [(-> & -> & ->)|(Hq' & Hd' & Hne)].
    + exists k. assert (p ≠ c) by congruence. rewrite lookup_insert_ne in Hq by done.
      rewrite lookup_insert_eq. split; congruence.
    + destruct (to_child _ _ _ _ _ HT q l j d Hq' Hj Hd') as (k' & -> & Hk').
      exists k'. rewrite lookup_insert_ne by done. done.
  - intros q l j q' l' j' d Hq Hq' Hj Hj' Hd Hd'.
    destruct (Hcases q l j d Hq Hj Hd) as [(-> & -> & ->)|(Hq1 & Hd1 & Hne)],
      (Hcases q' l' j' _ Hq' Hj' Hd') as [(-> & -> & E)|(Hq2 & Hd2 & Hne')]; try done.
    by eapply (to_inj _ _ _ _ _ HT q l j q' l' j' d).
Qed.

(** An address whose walk ended at the absent entry now ends in the empty table. *)
Lemma walk_link v0 v :
  presentb (ent m h p i) = false → reach m top v0 (S k) p → table_index (S k) v0 = i →
  walk m' 3 top v = walk m 3 top v.
Proof.
  intros Habs Hr0 Hi0. destruct (to_frame _ _ _ _ _ HT p (S k) Hp) as (Hk3 & _).
  pose proof (walk_write p i (S k) HT Hp Hi Hsame v0 v Hr0 Hi0) as Hw.
  case_decide; [|done]. destruct Hw as (Hv & Hr & -> & ->). simpl. rewrite Hv, Habs.
  destruct Hpt as (-> & -> & ->). destruct k; simpl; by rewrite Hempty by (apply index_bounds; lia).
Qed.
End link.

(** ** A table is unlinked *)
Section unlink.
Context {F F' : gset Z} {total : Z} {m m' : mem} {top : Z} {T : tables} (p i : Z) (k : nat) (c : Z).
Context (HT : tables_ok F total m top T) (Hp : T !! p = Some (S k)) (Hi : 0 ≤ i < 512).
Context (Hpt : points m (S k) p i c) (Hempty : no_entries m c).
Context (Hsame : ∀ q l j, T !! q = Some l → q ≠ c → 0 ≤ j < 512 → q ≠ p ∨ j ≠ i →
  ent m' h q j = ent m h q j).
Context (Habs : presentb (ent m' h p i) = false).
Context (HF : ∀ q l f, T !! q = Some l → q ≠ c → q = f * FRAME_SIZE → f ∉ F → f ∉ F').

Lemma unlink_child : T !! c = Some k.
Proof.
  destruct (to_child _ _ _ _ _ HT p (S k) i c Hp Hi Hpt) as (k' & [= <-] & Hc). done.
Qed.

Lemma tables_unlink : tables_ok F' total m' top (delete c T).
Proof.
  pose proof unlink_child as Hc. destruct (to_frame _ _ _ _ _ HT p (S k) Hp) as (Hk3 & _).
  assert (∀ q l j d, delete c T !! q = Some l → 0 ≤ j < 512 → points m' l q j d →
    T !! q = Some l ∧ points m l q j d ∧ d ≠ c) as Hcases.
  { intros q l j d [Hqc Hq]%lookup_delete_Some Hj Hd. split; [done|].
    destruct (decide (q = p ∧ j = i)) as [[-> ->]|Hne].
    - destruct Hd as [Hpr _]. congruence.
    - assert (points m l q j d) as Hd'.
      { unfold points in *. rewrite <- (Hsame q l j); [done|done|done|done|].
        destruct (decide (q = p)); [right|by left]. naive_solver. }
      split; [done|]. intros ->. apply Hne.
      destruct (to_inj _ _ _ _ _ HT q l j p (S k) i c); [done..|]. done. }
  split.
  - rewrite lookup_delete_ne; [apply HT|]. intros ->. pose proof (to_top _ _ _ _ _ HT) as Ht.
    rewrite Ht in Hc. injection Hc as <-. lia.
  - intros q l [Hqc Hq]%lookup_delete_Some. destruct (to_frame _ _ _ _ _ HT q l Hq) as (? & g & ? & ? & ?).
    split; [done|]. exists g. split_and!; [done|lia|lia|by eapply HF].
  - intros q l j d Hq Hj Hd. destruct (Hcases q l j d Hq Hj Hd) as (Hq' & Hd' & Hne).
    destruct (to_child _ _ _ _ _ HT q l j d Hq' Hj Hd') as (k' & -> & Hk').
    exists k'. by rewrite lookup_delete_ne.
  - intros q l j q' l' j' d Hq Hq' Hj Hj' Hd Hd'.
    destruct (Hcases q l j d Hq Hj Hd) as (Hq1 & Hd1 & _), (Hcases q' l' j' _ Hq' Hj' Hd') as (Hq2 & Hd2 & _).
    by eapply (to_inj _ _ _ _ _ HT q l j q' l' j' d).
Qed.

(** The table that goes was empty, so no walk got anywhere through it. *)
Lemma walk_unlink v0 v :
  (∀ q l j, T !! q = Some l → 0 ≤ j < 512 → q ≠ p ∨ j ≠ i → ent m' h q j = ent m h q j) →
  reach m top v0 (S k) p → table_index (S k) v0 = i → walk m' 3 top v = walk m 3 top v.
Proof.
  intros Hall Hr0 Hi0. destruct (to_frame _ _ _ _ _ HT p (S k) Hp) as (Hk3 & _).
  pose proof (walk_write p i (S k) HT Hp Hi Hall v0 v Hr0 Hi0) as Hw.
  case_decide; [|done]. destruct Hw as (Hv & Hr & -> & ->). simpl. rewrite Hv, Habs.
  destruct Hpt as (-> & -> & ->). destruct k; simpl; by rewrite Hempty by (apply index_bounds; lia).
Qed.
End unlink.

(** ** Entries that mean the same *)

(** Every table of [T] holds the same present entries in [m] and in [m']. *)
Definition same_entries (T : tables) (m m' : mem) : Prop :=
  ∀ q l j, T !! q = Some l → 0 ≤ j < 512 →
    presentb (ent m' h q j) = presentb (ent m h q j) ∧
    (presentb (ent m h q j) = true → ent m' h q j = ent m h q j).

#[export] Instance same_entries_refl T : Reflexive (same_entries T).
Proof. by intros m q l j. Qed.

#[export] Instance same_entries_trans T : Transitive (same_entries T).
Proof.
  intros m1 m2 m3 H12 H23 q l j Hq Hj. destruct (H12 q l j Hq Hj) as [Hp12 He12].
  destruct (H23 q l j Hq Hj) as [Hp23 He23]. split; [congruence|]. intros Hp.
  rewrite He23 by congruence. by apply He12.
Qed.

Lemma same_entries_eq T m m' :
  (∀ q l j, T !! q = Some l → 0 ≤ j < 512 → ent m' h q j = ent m h q j) → same_entries T m m'.
Proof. intros He q l j Hq Hj. by rewrite (He q l j). Qed.

Lemma same_entries_points T m m' q l j c :
  same_entries T m m' → T !! q = Some l → 0 ≤ j < 512 → points m' l q j c ↔ points m l q j c.
Proof.
  intros Hs Hq Hj. destruct (Hs q l j Hq Hj) as [Hp He]. unfold points. rewrite Hp.
  destruct (presentb (ent m h q j)); [by rewrite He|]. split; by intros [? _].
Qed.

Section same.
Context {F F' : gset Z} {total : Z} {m m' : mem} {top : Z} {T : tables}.
Context (HT : tables_ok F total m top T) (Hs : same_entries T m m').

Lemma tables_same :
  (∀ q l f, T !! q = Some l → q = f * FRAME_SIZE → f ∉ F → f ∉ F') → tables_ok F' total m' top T.
Proof.
  intros HF. split; [apply HT| | |].
  - intros q l Hq. destruct (to_frame _ _ _ _ _ HT q l Hq) as (? & f & ? & ? & ?).
    split; [done|]. exists f. split_and!; [done|lia|lia|by eapply HF].
  - intros q l j c Hq Hj Hpt. apply (same_entries_points T m m') in Hpt; [|done..].
    by apply (to_child _ _ _ _ _ HT q l j c).
  - intros q l j q' l' j' c Hq Hq' Hj Hj' Hpt Hpt'.
    apply (same_entries_points T m m') in Hpt, Hpt'; [|done..].
    by eapply (to_inj _ _ _ _ _ HT q l j q' l' j' c).
Qed.

Lemma walk_same_entries l t v : T !! t = Some l → walk m' l t v = walk m l t v.
Proof.
  revert t. induction l as [|l IH]; intros t Ht; destruct (to_frame _ _ _ _ _ HT t _ Ht) as [Hl3 _];
    simpl; destruct (Hs t _ (table_index _ v) Ht (index_bounds _ v Hl3)) as [Hp He]; rewrite Hp.
  - destruct (presentb (ent m h t (table_index 0 v))) eqn:E; [|done]. by rewrite He.
  - destruct (presentb (ent m h t (table_index (S l) v))) eqn:E; [|done]. rewrite He by done.
    destruct (leafb (S l) (ent m h t (table_index (S l) v))) eqn:Hlf; [done|]. apply IH.
    destruct (to_child _ _ _ _ _ HT t (S l) (table_index (S l) v)
      (addr (ent m h t (table_index (S l) v))) Ht) as (k & [= <-] & ?); [by apply index_bounds|done|done].
Qed.

Lemma reach_same_entries v k p : reach m top v k p → reach m' top v k p.
Proof.
  induction 1 as [|k p e Hr IH -> Hpr Hlf]; [constructor|].
  destruct (reach_table HT _ _ _ Hr) as [Hp ?].
  destruct (Hs p _ (table_index (S k) v) Hp (index_bounds _ v ltac:(done))) as [Hpp He].
  rewrite <- He by done. eapply reach_down; [done|done|by rewrite He|by rewrite He].
Qed.
End same.
End walk.
