(* ===== verification/VmmInv.v ===== *)
(** * VmmInv: the invariant of the page tables, and their primitive operations

    What it means that the kernel's tables are in order ([vmm_ok]), which pages
    an entry covers, and the rules for the primitives [map] and [unmap] are made
    of: reading and writing an entry, allocating and linking an empty table,
    unlinking and releasing one. *)

From S2P Require Import Prelude Bits Mem Pmm Dll PmmInv PmmList PmmOps PmmSpec.
From S2P Require Import Locks FrameAlloc Paging Vmm Walk.

(** ** Addresses *)

(** The shift of the page offset of an entry at level [k]. *)
Definition page_shift (k : nat) : Z := 12 + 9 * Z.of_nat k.

Lemma canonical_bits v n :
  is_canonical v = true → 47 ≤ n < 64 → Z.testbit v n = Z.testbit v 47.
Proof.
  unfold is_canonical, u64_shr. intros Hc Hn.
  assert (∀ j, 47 ≤ j → Z.testbit v j = Z.testbit (Z.shiftr v 47) (j - 47)) as Hs.
  { intros j Hj. rewrite Z.shiftr_spec by lia. f_equal. lia. }
  rewrite (Hs n), (Hs 47) by lia. apply orb_true_iff in Hc as [->%Z.eqb_eq| ->%Z.eqb_eq].
  - by rewrite !Z.bits_0.
  - change 0x1ffff with (Z.ones 17). rewrite !Z.testbit_ones by lia.
    destruct (Z.leb_spec 0 (n - 47)), (Z.ltb_spec (n - 47) 17); lia || done.
Qed.

Section pages.
Context `{!X86Paging} `{!PagingLaws}.

Lemma index_bits j v b :
  (j ≤ 3)%nat → 0 ≤ b < 9 → Z.testbit (table_index j v) b = Z.testbit v (page_shift j + b).
Proof.
  intros Hj Hb. rewrite index_spec by lia. change 511 with (Z.ones 9). unfold page_shift.
  rewrite Z.land_spec, Z.shiftr_spec, Z.testbit_ones by lia.
  destruct (Z.leb_spec 0 b), (Z.ltb_spec b 9); try lia. rewrite andb_true_r. f_equal. lia.
Qed.

(** Canonical addresses share the entry at level [k] when they are in the same page. *)
Lemma same_path_page k v v' :
  (k ≤ 3)%nat → u64_range v → u64_range v' → is_canonical v = true → is_canonical v' = true →
  same_path k v v' ↔ Z.shiftr v (page_shift k) = Z.shiftr v' (page_shift k).
Proof.
  intros Hk Hv Hv' Hc Hc'. unfold same_path. split.
  - intros Hs. assert (∀ n, page_shift k ≤ n < 48 → Z.testbit v n = Z.testbit v' n) as Hlow.
    { intros n Hn. unfold page_shift in Hn. set (j := Z.to_nat ((n - 12) / 9)).
      assert (0 ≤ (n - 12) / 9) by (apply Z.div_pos; lia). assert ((n - 12) / 9 < 4) by (apply Z.div_lt_upper_bound; lia).
      assert (Z.of_nat k ≤ (n - 12) / 9) by (apply Z.div_le_lower_bound; lia).
      pose proof (Z.mod_pos_bound (n - 12) 9 ltac:(lia)). pose proof (Z.div_mod (n - 12) 9 ltac:(lia)).
      replace n with (page_shift j + (n - 12) mod 9) by (unfold page_shift, j; lia).
      rewrite <- !index_bits by (unfold j; lia). by rewrite (Hs j) by (unfold j; lia). }
    apply Z.bits_inj'. intros n Hn. rewrite !Z.shiftr_spec by done. set (x := n + page_shift k).
    assert (page_shift k ≤ x) by (unfold x; lia). assert (page_shift k ≤ 47) by (unfold page_shift; lia).
    destruct (Z.lt_ge_cases x 48); [apply Hlow; lia|]. destruct (Z.lt_ge_cases x 64).
    + rewrite (canonical_bits v x), (canonical_bits v' x) by (done || lia). apply Hlow. lia.
    + by rewrite !testbit_above_64 by (done || lia).
  - intros Heq j Hj. rewrite !index_spec by lia.
    replace (12 + 9 * Z.of_nat j) with (page_shift k + 9 * (Z.of_nat j - Z.of_nat k)) by (unfold page_shift; lia).
    rewrite <- !Z.shiftr_shiftr by lia. by rewrite Heq.
Qed.
End pages.

(** ** The tables in order *)
Section vmm_inv.
Context `{Profile} {A : Type} `{!FrameAllocator A} `{!X86Paging} `{!PagingLaws} `{Res : !Reserved}.
Implicit Types m : Machine A VmmHw.

Abbreviation mem_of m := (sy_mem (m_sys m)).
Abbreviation free_of m := (fa_free (m_sys m)).
Abbreviation total_of m := (fa_total (m_sys m)).
Abbreviation tables := (gmap Z nat).

Record vmm_ok (h : Z) m (top : Z) (T : tables) : Prop := {
  vo_fa : fa_ok h (m_sys m);
  vo_hhdm : sy_hhdm (m_sys m) = h;
  vo_total : total_of m ≤ 2 ^ 40;
  vo_tables : tables_ok h (free_of m) (total_of m) (mem_of m) top T;
  vo_apart g : reserved g → (g ∉ free_of m) ∧ T !! (g * FRAME_SIZE) = None
}.

(** What no operation on tables changes. *)
Definition same_rest m m' : Prop :=
  m_own m' = m_own m ∧ same_cpu (m_sys m) (m_sys m') ∧ total_of m' = total_of m.

#[export] Instance same_rest_trans : Transitive same_rest.
Proof. intros m1 m2 m3 (Ho & Hc & Ht) (Ho' & Hc' & Ht'). split_and!; [congruence|by etransitivity|congruence]. Qed.

#[export] Instance same_rest_refl : Reflexive same_rest.
Proof. by intros m. Qed.

Definition kept_rest m m' : Prop :=
  m_own m' = m_own m ∧ sys_kept (m_sys m) (m_sys m') ∧ total_of m' = total_of m.

#[export] Instance kept_rest_trans : Transitive kept_rest.
Proof. intros m1 m2 m3 (Ho & Hc & Ht) (Ho' & Hc' & Ht'). split_and!; [congruence|by etransitivity|congruence]. Qed.

#[export] Instance kept_rest_refl : Reflexive kept_rest.
Proof. by intros m. Qed.

(** Reserved words are neither in free frames nor in tables. *)
Lemma reserved_not_free h m top T x :
  vmm_ok h m top T → frame_words h (λ g, g ∈ free_of m) x → ¬ frame_words h reserved x.
Proof.
  intros Hok (g & Hg & Hx) (g' & Hg' & Hx'). assert (g = g') as -> by (by eapply frame_words_inj).
  by destruct (vo_apart _ _ _ _ Hok g' Hg').
Qed.

Lemma reserved_not_table h m top T p l x :
  vmm_ok h m top T → T !! p = Some l → p + h ≤ x < p + h + FRAME_SIZE → ¬ frame_words h reserved x.
Proof.
  intros Hok Hp Hx (g & Hg & Hgx). destruct (vo_apart _ _ _ _ Hok g Hg) as [_ Hn].
  destruct (to_frame _ _ _ _ _ _ (vo_tables _ _ _ _ Hok) p l Hp) as (_ & f & -> & _ & _).
  assert (g = f) as ->; [|congruence]. unfold fb_addr in Hgx. rewrite FRAME_SIZE_val in *. lia.
Qed.

(** A word of a table is not in a free frame. *)
Lemma table_word h m top T p l i :
  vmm_ok h m top T → T !! p = Some l → 0 ≤ i < 512 →
  ¬ frame_words h (λ g, g ∈ free_of m) (p + h + 8 * i).
Proof.
  intros Hok Hp Hi (g & Hg & Hw). destruct (to_frame _ _ _ _ _ _ (vo_tables _ _ _ _ Hok) p l Hp)
    as (_ & f & -> & _ & Hn). apply Hn. replace f with g; [done|].
  unfold fb_addr in Hw. rewrite FRAME_SIZE_val in Hw. lia.
Qed.

Lemma table_bounds h m top T p l :
  vmm_ok h m top T → T !! p = Some l →
  0 ≤ p ∧ p mod FRAME_SIZE = 0 ∧ p + h + FRAME_SIZE ≤ 2 ^ 64 ∧ 0 < h ∧ p + FRAME_SIZE ≤ 2 ^ 52.
Proof.
  intros [Hfa _ Hb HT _] Hp. destruct (fa_bounds h _ Hfa) as (Hh & _ & He & _).
  destruct (to_frame _ _ _ _ _ _ HT p l Hp) as (_ & f & -> & Hf & _).
  rewrite FRAME_SIZE_val in *. split_and!; [lia|by apply Z.mod_mul|lia..].
Qed.

(** *** Reading *)
Lemma wp_read_mem a m (Q : Z → Machine A VmmHw → Prop) :
  Q (read_word (mem_of m) a) m → wp (read_mem a) m Q.
Proof. by destruct m. Qed.

Lemma wp_load_hhdm h m top T (Q : Z → Machine A VmmHw → Prop) :
  vmm_ok h m top T → Q h m → wp load_hhdm m Q.
Proof. intros Hok HQ. apply wp_gets. by rewrite (vo_hhdm _ _ _ _ Hok). Qed.

Lemma wp_table_mut h m top T p l (Q : Z → Machine A VmmHw → Prop) :
  vmm_ok h m top T → T !! p = Some l → Q (p + h) m → wp (table_mut p h) m Q.
Proof.
  intros Hok Hp HQ. destruct (table_bounds _ _ _ _ _ _ Hok Hp) as (? & ? & ? & ? & ?).
  apply wp_u64_add; [unfold u64_range; rewrite FRAME_SIZE_val in *; lia|done].
Qed.

Lemma wp_slot t l v m (Q : Z → Machine A VmmHw → Prop) :
  (l ≤ 3)%nat → Q (t + 8 * table_index l v) m → wp (slot t (table_index l v)) m Q.
Proof.
  intros Hl HQ. apply wp_bind, wp_assert; [|done]. rewrite page_size_entries.
  pose proof (index_bounds l v Hl). change (Z.of_nat 512) with 512. apply Z.ltb_lt. lia.
Qed.

(** Where the entry of [v] is, and what it holds. *)
Lemma wp_entry {B : Type} h m top T p l v (c : Z → Z → M (Machine A VmmHw) B) Q :
  vmm_ok h m top T → T !! p = Some l → (l ≤ 3)%nat →
  wp (c (p + h + 8 * table_index l v) (ent (mem_of m) h p (table_index l v))) m Q →
  wp (let! t := table_mut p h in
      let! a := slot t (table_index l v) in
      let! e := read_mem a in c a e) m Q.
Proof.
  intros Hok Hp Hl HQ. apply wp_bind. eapply wp_table_mut; [done..|].
  apply wp_bind, wp_slot, wp_bind, wp_read_mem; done.
Qed.

(** *** Writing an entry *)
Lemma wp_write_mem a v m (Q : unit → Machine A VmmHw → Prop) :
  Q tt (put_mem (write_word a v (mem_of m)) m) → wp (write_mem a v) m Q.
Proof. done. Qed.

(** The frame allocator after a table entry was written. *)
Lemma write_entry h m top T p l i e :
  vmm_ok h m top T → T !! p = Some l → 0 ≤ i < 512 →
  let m' := put_mem (write_word (p + h + 8 * i) e (mem_of m)) m in
  fa_ok h (m_sys m') ∧ free_of m' = free_of m ∧ kept_rest m m' ∧ ent (mem_of m') h p i = e ∧
  (∀ q k j, T !! q = Some k → 0 ≤ j < 512 → q ≠ p ∨ j ≠ i →
     ent (mem_of m') h q j = ent (mem_of m) h q j).
Proof.
  intros Hok Hp Hi m'. pose proof (vo_tables _ _ _ _ Hok) as HT.
  destruct (fa_write h (m_sys m) (write_word (p + h + 8 * i) e (mem_of m)) (vo_fa _ _ _ _ Hok)) as (Hfa & Hfr & Ht).
  { apply same_outside_write. by eapply table_word. }
  split_and!; [done|done|split_and!; [done|split_and!; [done| |done]|done]|apply read_write_eq|].
  { eapply reserved_kept_outside; [by apply (same_outside_write (λ x, p + h ≤ x < p + h + FRAME_SIZE)); rewrite FRAME_SIZE_val; lia|].
    rewrite (vo_hhdm _ _ _ _ Hok). intros x Hx. by eapply reserved_not_table. }
  intros q k j Hq Hj Hne. apply read_write_ne.
  intros Heq. apply slot_inj in Heq as [<- <-]; [naive_solver|..|done|done]; by eapply table_aligned.
Qed.

(** The tables are still in order when the entries are. *)
Lemma vmm_ok_write h m m' top T :
  vmm_ok h m top T → fa_ok h (m_sys m') → free_of m' = free_of m → total_of m' = total_of m →
  sy_hhdm (m_sys m') = sy_hhdm (m_sys m) → tables_ok h (free_of m) (total_of m) (mem_of m') top T → vmm_ok h m' top T.
Proof.
  intros Hok Hfa Hfr Htot Hh HT. split; [done|rewrite Hh; apply Hok|rewrite Htot; apply Hok|by rewrite Hfr, Htot|].
  rewrite Hfr. apply Hok.
Qed.

(** *** A fresh table *)
Lemma zero_frame_spec c h m :
  0 ≤ c + h → c + h + FRAME_SIZE ≤ 2 ^ 64 →
  wp (zero_frame c h) m (λ _ m', ∃ w, m' = put_mem w m ∧ no_entries h w c ∧
    same_outside (λ x, c + h ≤ x < c + h + FRAME_SIZE) (mem_of m) w).
Proof.
  intros Hc0 Hb. rewrite FRAME_SIZE_val in *. unfold zero_frame.
  apply wp_bind, wp_u64_add; [unfold u64_range; lia|]. rewrite base_page_size.
  apply (wp_for_range (λ n m', ∃ w, m' = put_mem w m ∧ (∀ i, 0 ≤ i < n → read_word w (c + h + 8 * i) = 0) ∧
    same_outside (λ x, c + h ≤ x < c + h + 4096) (mem_of m) w)).
  - exists (mem_of m). split_and!; [by destruct m as [[] ?]|intros; lia|done].
  - intros i m' Hi (w & -> & Hz & Hw). apply wp_write_mem. eexists. split; [done|]. split.
    + intros j Hj. destruct (decide (j = i)) as [->|]; [apply read_write_eq|].
      rewrite read_write_ne by lia. apply Hz. lia.
    + etransitivity; [exact Hw|]. apply same_outside_write. change (2 ^ 12 / 8) with 512 in Hi. lia.
  - intros m' (w & -> & Hz & Hw). exists w. split_and!; [done| |done].
    intros i Hi. unfold ent. rewrite Hz; [done|]. change (2 ^ 12 / 8) with 512. lia.
Qed.
(** *** Entries the code writes *)
Definition parent_flags (l : nat) : Z := Z.lor (Z.lor (FLAG_P l) (FLAG_RW l)) (FLAG_US l).

Lemma flag_P_ok l : (l < 4)%nat → flag_bits_ok (FLAG_P l).
Proof. intros Hl. rewrite FLAG_P_spec by done. by split. Qed.

(** An entry that points to a table. *)
Lemma parent_entry l c :
  (0 < l ≤ 3)%nat → entry_addr_ok c →
  let e := entry_new l c (parent_flags l) in
  presentb e = true ∧ leafb l e = false ∧ addr e = c.
Proof.
  intros Hl Hc. destruct (flags_parent l ltac:(lia)) as (Hrw & Hus & Hrw7 & Hus7).
  assert (flag_bits_ok (parent_flags l)) as Hok
    by (apply flag_bits_lor; [apply flag_bits_lor; [apply flag_P_ok; lia|done]|done]).
  cbv zeta. rewrite entry_new_spec by (done || lia). destruct (entry_parts c _ Hc Hok) as [Ha Hb].
  unfold presentb, leafb, addr. rewrite Ha, !Hb by lia. unfold parent_flags.
  rewrite !Z.lor_spec, Hrw7, Hus7, FLAG_P_spec by lia. split_and!; [done| |done].
  destruct l as [|l]; [lia|]. simpl. by rewrite andb_false_r.
Qed.

(** An entry that maps a page: [flags] carry the present bit and, above level 0,
    the page-size bit. *)
Lemma leaf_entry l p fl :
  (l ≤ 2)%nat → entry_addr_ok p → flag_bits_ok fl → Z.testbit fl 0 = true →
  ((0 < l)%nat → Z.testbit fl 7 = true) →
  let e := entry_new l p fl in presentb e = true ∧ leafb l e = true ∧ addr e = p ∧ e = Z.lor p fl.
Proof.
  intros Hl Hp Hok Hf0 H7. cbv zeta. rewrite entry_new_spec by (done || lia).
  destruct (entry_parts p _ Hp Hok) as [Ha Hb].
  unfold presentb, leafb, addr. rewrite Ha, !Hb by lia. split_and!; [done| |done|done].
  destruct (Nat.eqb_spec l 0); [done|]. rewrite H7 by lia. by destruct (Nat.leb_spec l 2); [|lia].
Qed.

Lemma frame_addr_ok f total : 0 ≤ f < total → total ≤ 2 ^ 40 → entry_addr_ok (f * FRAME_SIZE).
Proof.
  intros Hf Ht. rewrite FRAME_SIZE_val. split; [lia|by apply Z.mod_mul].
Qed.

(** ** States that differ in nothing that matters *)
Definition like (h top : Z) (T : tables) m m' : Prop :=
  vmm_ok h m' top T ∧ kept_rest m m' ∧ free_of m' = free_of m ∧
  same_entries h T (mem_of m) (mem_of m').

Lemma like_refl h top T m : vmm_ok h m top T → like h top T m m.
Proof. intros Hok. by split_and!. Qed.

(** The outcome of [alloc_frame]. *)
Lemma alloc_frame_spec h m top T :
  vmm_ok h m top T →
  wp alloc_frame m (λ r m1, match r with
    | None => like h top T m m1 ∧ free_of m = ∅
    | Some c => ∃ f, c = f * FRAME_SIZE ∧ f ∈ free_of m ∧ 0 ≤ f < total_of m ∧
        fa_ok h (m_sys m1) ∧ kept_rest m m1 ∧ free_of m1 = free_of m ∖ {[f]} ∧
        same_outside (frame_words h (λ g, g ∈ free_of m)) (mem_of m) (mem_of m1)
    end).
Proof.
  intros Hok0. pose proof Hok0 as [Hfa Hh Ht HT Hap]. destruct (fa_bounds h _ Hfa) as (_ & _ & _ & Hin).
  apply wp_on_sys. eapply wp_mono; [apply (fa_alloc_spec h _ 0 Hfa); lia|].
  cbv beta. intros [a|] s (Hok & Htot & Hcpu & Hr); simpl.
  - destruct Hr as (f & -> & (_ & _ & Hrun) & Hfree & Hs). rewrite block_set_0 in Hrun, Hfree.
    assert (f ∈ free_of m) as Hf by set_solver. exists f. split_and!; try done; try (by apply Hin).
    split_and!; [done|split_and!; [done| |done]|done]. eapply reserved_kept_outside; [exact Hs|]. rewrite Hh. intros x. by apply reserved_not_free with (1 := Hok0).
  - destruct Hr as (Hfr & Hm & Hno). split.
    + split_and!; [|split_and!; [done|split_and!; [done| |exact Htot]|exact Htot]|done|simpl; by rewrite Hm].
      * split; simpl; [done|by rewrite (proj2 Hcpu)|by rewrite Htot|by rewrite Hfr, Htot, Hm|by rewrite Hfr].
      * intros x _. simpl. by rewrite Hm.
    + apply set_eq. intros f. split; [|set_solver]. intros Hf. destruct (Hno f).
      apply free_run_0; [apply Hin|]; done.
Qed.

End vmm_inv.
