(* ===== verification/VmmOps.v ===== *)
(** * VmmOps: linking and unlinking tables

    The two changes [map] and [unmap] make to the tree of tables: an absent entry
    gets a fresh empty table, and an empty table is taken out and released.
    Neither changes what any address translates to, and unlinking undoes
    linking. *)

From S2P Require Import Prelude Bits Mem Pmm Dll PmmInv PmmList PmmOps PmmSpec.
From S2P Require Import Locks FrameAlloc Paging Vmm Walk VmmInv.

Section ops.
Context `{Profile} {A : Type} `{!FrameAllocator A} `{!X86Paging} `{!PagingLaws} `{Res : !Reserved}.
Context (h top : Z).
Implicit Types m : Machine A VmmHw.

Abbreviation mem_of m := (sy_mem (m_sys m)).
Abbreviation free_of m := (fa_free (m_sys m)).
Abbreviation total_of m := (fa_total (m_sys m)).
Abbreviation tables := (gmap Z nat).

(** ** Linking *)

(** [m2] is [m] with the fresh table [c] under the entry of [v] at level [k + 1]. *)
Record linked (T : tables) m m2 (p : Z) (k : nat) (v c : Z) : Prop := {
  lk_ok : vmm_ok h m2 top (<[c := k]> T);
  lk_rest : kept_rest m m2;
  lk_frame : ∃ f, c = f * FRAME_SIZE ∧ f ∈ free_of m ∧ free_of m2 = free_of m ∖ {[f]};
  lk_new : T !! c = None;
  lk_points : points h (mem_of m2) (S k) p (table_index (S k) v) c;
  lk_empty : no_entries h (mem_of m2) c;
  lk_absent : presentb (ent (mem_of m) h p (table_index (S k) v)) = false;
  lk_same q l j : T !! q = Some l → 0 ≤ j < 512 → q ≠ p ∨ j ≠ table_index (S k) v →
    ent (mem_of m2) h q j = ent (mem_of m) h q j;
  lk_walk v' : walk h (mem_of m2) 3 top v' = walk h (mem_of m) 3 top v';
  lk_reach : reach h (mem_of m2) top v k c
}.

(** A free frame is not a table. *)
Lemma free_not_table T m f : vmm_ok h m top T → f ∈ free_of m → T !! (f * FRAME_SIZE) = None.
Proof.
  intros Hok Hf. destruct (T !! (f * FRAME_SIZE)) as [l|] eqn:Hl; [|done].
  destruct (to_frame _ _ _ _ _ _ (vo_tables _ _ _ _ Hok) _ _ Hl) as (_ & g & Hg & _ & Hn).
  rewrite FRAME_SIZE_val in Hg. assert (g = f) as -> by lia. done.
Qed.

(** The words of a table lie in its frame. *)
Lemma slot_in_frame f j : 0 ≤ j < 512 →
  f * FRAME_SIZE + h ≤ f * FRAME_SIZE + h + 8 * j < f * FRAME_SIZE + h + FRAME_SIZE.
Proof. rewrite FRAME_SIZE_val. lia. Qed.

(** Memory in which the fresh frame was cleared and linked: the rest. *)
Lemma link_memory T m m1 w f p k i e :
  vmm_ok h m top T → T !! p = Some k → 0 ≤ i < 512 → f ∈ free_of m → 0 ≤ f < total_of m →
  fa_ok h (m_sys m1) → kept_rest m m1 → free_of m1 = free_of m ∖ {[f]} →
  same_outside (frame_words h (λ g, g ∈ free_of m)) (mem_of m) (mem_of m1) →
  no_entries h w (f * FRAME_SIZE) →
  same_outside (λ x, f * FRAME_SIZE + h ≤ x < f * FRAME_SIZE + h + FRAME_SIZE) (mem_of m1) w →
  let m2 := put_mem (write_word (p + h + 8 * i) e w) m1 in
  fa_ok h (m_sys m2) ∧ free_of m2 = free_of m ∖ {[f]} ∧ kept_rest m m2 ∧
  ent (mem_of m2) h p i = e ∧ no_entries h (mem_of m2) (f * FRAME_SIZE) ∧
  ∀ q l j, T !! q = Some l → 0 ≤ j < 512 → q ≠ p ∨ j ≠ i → ent (mem_of m2) h q j = ent (mem_of m) h q j.
Proof.
  intros Hok Hp Hi Hf Hft Hfa Hrest Hfr Hm Hz Hw m2. pose proof (vo_tables _ _ _ _ Hok) as HT.
  pose proof (free_not_table T m f Hok Hf) as Hfresh.
  assert (f * FRAME_SIZE ≠ p) as Hfp by congruence.
  assert ((f * FRAME_SIZE) mod FRAME_SIZE = 0) as Hfm by (by apply Z.mod_mul).
  destruct (fa_write h (m_sys m1) (write_word (p + h + 8 * i) e w) Hfa) as (Hfa2 & Hfr2 & Ht2).
  { intros x Hx. unfold write_word. rewrite lookup_insert_ne.
    - apply Hw. intros Hxf. apply Hx. intros (g & Hg & Hgx). rewrite Hfr in Hg.
      assert (g = f); [|set_solver]. unfold fb_addr in Hgx. rewrite FRAME_SIZE_val in *. lia.
    - intros <-. apply Hx. intros Hwf. eapply (table_word h m top T p k i Hok Hp Hi).
      eapply frame_words_mono; [|exact Hwf]. intros g. rewrite Hfr. set_solver. }
  split_and!; [done|by rewrite <- Hfr| |apply read_write_eq| |].
  - etransitivity; [exact Hrest|]. split_and!; [done|split_and!; [done| |done]|done]. destruct Hrest as (_ & [[_ Hh1] _] & _).
    rewrite (vo_hhdm _ _ _ _ Hok) in Hh1.
    eapply (reserved_kept_outside _ _ (λ x, (f * FRAME_SIZE + h ≤ x < f * FRAME_SIZE + h + FRAME_SIZE) ∨
                                           p + h ≤ x < p + h + FRAME_SIZE)).
    + intros x Hx. simpl. unfold write_word. rewrite lookup_insert_ne; [apply Hw; tauto|].
      intros <-. apply Hx. right. rewrite FRAME_SIZE_val. lia.
    + rewrite Hh1. intros x [Hx|Hx].
      * apply (reserved_not_free h m top T x Hok). exists f. split; [done|]. unfold fb_addr. rewrite FRAME_SIZE_val in *. lia.
      * by eapply reserved_not_table.
  - intros j Hj. unfold ent. simpl. rewrite read_write_ne; [by apply Hz|]. intros Heq.
    apply slot_inj in Heq as [? _]; [done|by eapply (table_aligned h HT)|done|done|done].
  - intros q l j Hq Hj Hne. unfold ent. simpl. rewrite read_write_ne.
    + unfold read_word. rewrite Hw, Hm; [done|by eapply (table_word h m top T q l j)|]. intros Hxf.
      destruct (to_frame _ _ _ _ _ _ HT q l Hq) as (_ & g & -> & _ & Hn).
      assert (g = f) as ->; [|done]. pose proof (slot_in_frame g j Hj). rewrite FRAME_SIZE_val in *. lia.
    + intros Heq. apply slot_inj in Heq as [<- <-]; [naive_solver|..|done|done]; by eapply (table_aligned h HT).
Qed.

Lemma wp_link {B : Type} T m m1 p k v f (K : M (Machine A VmmHw) B) Q :
  vmm_ok h m top T → reach h (mem_of m) top v (S k) p →
  presentb (ent (mem_of m) h p (table_index (S k) v)) = false →
  f ∈ free_of m → 0 ≤ f < total_of m → fa_ok h (m_sys m1) → kept_rest m m1 →
  free_of m1 = free_of m ∖ {[f]} →
  same_outside (frame_words h (λ g, g ∈ free_of m)) (mem_of m) (mem_of m1) →
  (∀ m2, linked T m m2 p k v (f * FRAME_SIZE) → wp K m2 Q) →
  wp (do! zero_frame (f * FRAME_SIZE) h;
      do! write_mem (p + h + 8 * table_index (S k) v) (entry_new (S k) (f * FRAME_SIZE) (parent_flags (S k)));
      K) m1 Q.
Proof.
  intros Hok Hr Habs Hf Hft Hfa Hrest Hfr Hm HK. pose proof Hok as [Hfa0 Hh Ht HT Hap].
  destruct (fa_bounds h _ Hfa0) as (Hh0 & _ & Hhe & _). destruct (reach_table h HT _ _ _ Hr) as [Hp Hk3].
  pose proof (index_bounds (S k) v Hk3) as Hi.
  eapply wp_seq; [apply zero_frame_spec; rewrite FRAME_SIZE_val in *; lia|].
  cbv beta. intros [] ? (w & -> & Hz & Hw). apply wp_bind, wp_write_mem. cbn [m_sys put_mem set_sy_mem sy_mem].
  destruct (link_memory T m m1 w f p (S k) (table_index (S k) v)
    (entry_new (S k) (f * FRAME_SIZE) (parent_flags (S k))) Hok Hp Hi Hf Hft Hfa Hrest Hfr Hm Hz Hw)
    as (Hfa2 & Hfr2 & Hrest2 & He & Hempty & Hsame).
  destruct (parent_entry (S k) (f * FRAME_SIZE)) as (Hpr & Hlf & Had);
    [lia|by eapply frame_addr_ok|].
  apply HK. set (m2 := put_mem _ m1) in *.
  assert (points h (mem_of m2) (S k) p (table_index (S k) v) (f * FRAME_SIZE)) as Hpt
    by (unfold points; by rewrite He).
  pose proof (free_not_table T m f Hok Hf) as Hnew. pose proof Hrest2 as (Hown & [Hcpu _] & Htot).
  assert (tables_ok h (free_of m2) (total_of m2) (mem_of m2) top (<[f * FRAME_SIZE := k]> T)) as HT2.
  { rewrite Htot. eapply (tables_link h p (table_index (S k) v) k _ f HT); try done.
    - rewrite Hfr2. set_solver.
    - rewrite Hfr2. set_solver. }
  change (put_mem _ (put_mem w m1)) with m2. split; try done.
  - split; [done|by rewrite (proj2 Hcpu)|by rewrite Htot|done|]. intros g Hg. destruct (Hap g Hg) as [Hn1 Hn2].
    rewrite Hfr2. split; [set_solver|]. rewrite lookup_insert_ne; [done|]. rewrite FRAME_SIZE_val.
    intros E. assert (f = g) as -> by lia. done.
  - exists f. done.
  - intros v'. by eapply (walk_link h p (table_index (S k) v) k (f * FRAME_SIZE) HT).
  - replace (f * FRAME_SIZE) with (addr (ent (mem_of m2) h p (table_index (S k) v))) by (by rewrite He).
    eapply reach_down; [|done|by rewrite He|by rewrite He]. by eapply (reach_above h p _ (S k) HT).
Qed.

(** ** Unlinking *)

(** [m'] is [m] without the empty table [c]. *)
Record unlinked (T : tables) m m' (p i c : Z) (k : nat) : Prop := {
  ul_ok : vmm_ok h m' top (delete c T);
  ul_rest : kept_rest m m';
  ul_frame : ∃ f, c = f * FRAME_SIZE ∧ free_of m' = free_of m ∪ {[f]};
  ul_absent : presentb (ent (mem_of m') h p i) = false;
  ul_same q l j : delete c T !! q = Some l → 0 ≤ j < 512 → q ≠ p ∨ j ≠ i →
    ent (mem_of m') h q j = ent (mem_of m) h q j
}.

Lemma wp_unlink T m p i c k :
  vmm_ok h m top T → T !! p = Some (S k) → 0 ≤ i < 512 →
  points h (mem_of m) (S k) p i c → no_entries h (mem_of m) c →
  wp (do! write_mem (p + h + 8 * i) 0; free_frame c) m (λ _ m', unlinked T m m' p i c k).
Proof.
  intros Hok Hp Hi Hpt Hempty. pose proof Hok as [Hfa Hh Ht HT Hap].
  destruct (write_entry h m top T p (S k) i 0 Hok Hp Hi) as (Hfa1 & Hfr1 & Hrest1 & He1 & Hsame1).
  apply wp_bind, wp_write_mem. set (m1 := put_mem _ m) in *.
  pose proof (unlink_child h p i k c HT Hp Hi Hpt) as Hc.
  destruct (to_frame _ _ _ _ _ _ HT c k Hc) as (_ & f & -> & Hf & Hn).
  pose proof Hrest1 as (Hown1 & [Hcpu1 _] & Htot1).
  apply wp_on_sys. eapply wp_mono; [apply (fa_release_spec h _ f 0)|].
  - done.
  - lia.
  - lia.
  - by rewrite blk_0, Z.mod_1_r.
  - rewrite blk_0, Htot1. lia.
  - rewrite block_set_0, Hfr1. set_solver.
  - cbv beta. intros [] s (Hfa2 & Htot2 & Hcpu2 & Hfr2 & Hm2). rewrite block_set_0, Hfr1 in Hfr2.
    assert (∀ q l j, delete (f * FRAME_SIZE) T !! q = Some l → 0 ≤ j < 512 →
      ent (sy_mem s) h q j = ent (mem_of m1) h q j) as Hkeep.
    { intros q l j [Hqc Hq]%lookup_delete_Some Hj. unfold ent, read_word. rewrite Hm2; [done|].
      intros (g & Hg & Hgw). rewrite Hfr2 in Hg.
      destruct (to_frame _ _ _ _ _ _ HT q l Hq) as (_ & g' & -> & _ & Hn').
      assert (g = g') as -> by (unfold fb_addr in Hgw; rewrite FRAME_SIZE_val in *; lia).
      apply elem_of_union in Hg as [Hg|Hg%elem_of_singleton]; [done|]. congruence. }
    assert (p ≠ f * FRAME_SIZE) as Hpc.
    { intros ->. rewrite Hc in Hp. injection Hp. lia. }
    assert (presentb (ent (sy_mem s) h p i) = false) as Habs.
    { rewrite (Hkeep p (S k)); [by rewrite He1|by rewrite lookup_delete_ne|done]. }
    assert (tables_ok h (fa_free s) (fa_total s) (sy_mem s) top (delete (f * FRAME_SIZE) T)) as HT2.
    { rewrite Htot2, Htot1. eapply (tables_unlink h p i k _ HT Hp Hi Hpt Hempty); [|done|].
      - intros q l j Hq Hqc Hj Hne. rewrite (Hkeep q l j); [by eapply Hsame1|by rewrite lookup_delete_ne|done].
      - intros q l g Hq Hqc -> Hg. rewrite Hfr2. intros [?|?%elem_of_singleton]%elem_of_union; congruence. }
    split; simpl.
    + split; simpl; [done|by rewrite (proj2 Hcpu2), (proj2 Hcpu1)|by rewrite Htot2, Htot1|done|].
      intros g Hg. destruct (Hap g Hg) as [Hn1 Hn2]. rewrite Hfr2, lookup_delete_None. split; [|by right].
      intros [?|?%elem_of_singleton]%elem_of_union; [done|]. subst. congruence.
    + etransitivity; [exact Hrest1|]. split_and!; [done|split_and!; [done| |exact Htot2]|exact Htot2].
      eapply reserved_kept_outside; [exact Hm2|]. rewrite (proj2 Hcpu1), Hh. intros x (g & Hg & Hx) (g' & Hg' & Hx').
      assert (g = g') as -> by (by eapply frame_words_inj). destruct (Hap g' Hg') as [Hn1 Hn2].
      rewrite Hfr2 in Hg. apply elem_of_union in Hg as [?|?%elem_of_singleton]; [done|]. subst. congruence.
    + by exists f.
    + done.
    + intros q l j Hq Hj Hne. rewrite (Hkeep q l j Hq Hj). apply lookup_delete_Some in Hq as [_ Hq].
      by eapply Hsame1.
Qed.
(** Unlinking a table that was just linked leads back. *)
Lemma unlink_undoes T m m2 m2' m3 p k v c :
  linked T m m2 p k v c → like h top (<[c := k]> T) m2 m2' →
  unlinked (<[c := k]> T) m2' m3 p (table_index (S k) v) c k → like h top T m m3.
Proof.
  intros Hlk (Hok2 & Hrest2 & Hfr2 & Hent2) [Hok3 Hrest3 (f & Hcf & Hfr3) Habs3 Hsame3].
  rewrite delete_insert_id in Hok3 by apply Hlk. destruct (lk_frame _ _ _ _ _ _ _ Hlk) as (g & Hcg & Hg & Hfr).
  assert (g = f) as -> by (rewrite FRAME_SIZE_val in *; lia). split_and!; [done| | |].
  - etransitivity; [apply Hlk|]. etransitivity; [exact Hrest2|exact Hrest3].
  - rewrite Hfr3, Hfr2, Hfr. apply set_eq. intros x. rewrite elem_of_union, elem_of_difference, elem_of_singleton.
    destruct (decide (x = f)) as [->|]; tauto.
  - intros q l j Hq Hj. assert (q ≠ c) as Hqc by (pose proof (lk_new _ _ _ _ _ _ _ Hlk); congruence).
    destruct (decide (q = p ∧ j = table_index (S k) v)) as [[-> ->]|Hne].
    + rewrite Habs3, (lk_absent _ _ _ _ _ _ _ Hlk). done.
    + assert (q ≠ p ∨ j ≠ table_index (S k) v) as Hne' by (destruct (decide (q = p)); naive_solver).
      rewrite (Hsame3 q l j); [|by rewrite delete_insert_id by apply Hlk|done|done].
      rewrite <- (lk_same _ _ _ _ _ _ _ Hlk q l j) by done. apply (Hent2 q l j); [|done].
      by rewrite lookup_insert_ne.
Qed.

Lemma wp_undo_table T m m2 m2' p k v c :
  linked T m m2 p k v c → reach h (mem_of m) top v (S k) p → vmm_ok h m top T →
  like h top (<[c := k]> T) m2 m2' →
  wp (undo_table (p + h + 8 * table_index (S k) v) c) m2' (λ _ m3, like h top T m m3).
Proof.
  intros Hlk Hr Hok Hlike. pose proof Hlike as (Hok2 & _ & _ & Hent).
  destruct (reach_table h (vo_tables _ _ _ _ Hok) _ _ _ Hr) as [Hp Hk3].
  pose proof (index_bounds (S k) v Hk3) as Hi. pose proof (lk_new _ _ _ _ _ _ _ Hlk) as Hnew.
  assert (<[c := k]> T !! p = Some (S k)) as Hp2 by (rewrite lookup_insert_ne; [done|congruence]).
  eapply wp_mono; [apply (wp_unlink (<[c := k]> T) m2' p (table_index (S k) v) c k Hok2 Hp2 Hi)|].
  - eapply (same_entries_points h (<[c := k]> T)); [done..|]. apply Hlk.
  - intros j Hj. destruct (Hent c k j) as [-> _]; [by rewrite lookup_insert_eq|done|]. by apply Hlk.
  - cbv beta. intros [] m3 Hul. by eapply unlink_undoes.
Qed.

(** ** The stages of [map] *)

(** Is the entry of [v] at level [k] free to be used, from the table [t] at level
    [l] on? *)
Fixpoint can_map (w : mem) (k l : nat) (t v : Z) : bool :=
  let e := ent w h t (table_index l v) in
  if (l =? k)%nat then negb (presentb e)
  else if presentb e then
    if leafb l e then false else match l with O => false | S l' => can_map w k l' (addr e) v end
  else true.

Lemma can_map_reach w k l v p :
  reach h w top v l p → (k ≤ l)%nat → can_map w k 3 top v = can_map w k l p v.
Proof.
  induction 1 as [|l p e Hr IH -> Hpr Hlf]; intros Hk; [done|]. rewrite IH by lia. cbn [can_map].
  destruct (Nat.eqb_spec (S l) k); [lia|]. by rewrite Hpr, Hlf.
Qed.

Definition undoes (T0 : tables) m0 (T : tables) m (undo : M (Machine A VmmHw) unit) : Prop :=
  ∀ m', like h top T m m' → wp undo m' (λ _ m'', like h top T0 m0 m'').

(** [map] started at [m0] and is now at [m], about to use the table [p] at level
    [k]: either nothing was allocated yet, or [p] is a fresh table. *)
Record stage (T0 : tables) m0 (T : tables) m (v : Z) (k : nat) (p : Z) (undo : M (Machine A VmmHw) unit) : Prop := {
  sg_ok : vmm_ok h m top T;
  sg_reach : reach h (mem_of m) top v k p;
  sg_rest : kept_rest m0 m;
  sg_free : free_of m ⊆ free_of m0;
  sg_size : (size (free_of m0) ≤ size (free_of m) + (3 - k))%nat;
  sg_walk v' : walk h (mem_of m) 3 top v' = walk h (mem_of m0) 3 top v';
  sg_undo : undoes T0 m0 T m undo;
  sg_tables : T0 ⊆ T;
  sg_old : (T = T0 ∧ m = m0) ∨
    no_entries h (mem_of m) p ∧ ∀ j, (j ≤ k)%nat → can_map (mem_of m0) j 3 top v = true
}.

Lemma stage_start T m v :
  vmm_ok h m top T → stage T m T m v 3 top (ret tt).
Proof.
  intros Hok. split; try done; [constructor|lia|intros m' Hm'; by apply wp_ret|by left].
Qed.

(** The entry points to a table: go down. *)
Lemma stage_descend T0 m0 T m v k p undo :
  stage T0 m0 T m v (S k) p undo →
  let e := ent (mem_of m) h p (table_index (S k) v) in
  presentb e = true → leafb (S k) e = false →
  T = T0 ∧ m = m0 ∧ stage T0 m0 T m v k (addr e) undo.
Proof.
  intros [Hok Hr Hrest Hfr Hsz Hw Hu HTs Hold] e Hpr Hlf.
  destruct (reach_table h (vo_tables _ _ _ _ Hok) _ _ _ Hr) as [_ Hk3].
  destruct Hold as [[-> ->]|[Hempty _]].
  - split_and!; [done|done|]. split; try done; [by eapply reach_down|lia|by left].
  - unfold e in Hpr. rewrite Hempty in Hpr; [done|by apply index_bounds].
Qed.

(** The entry is absent: link a fresh table. *)
Lemma stage_link T0 m0 T m v k p undo m2 c :
  stage T0 m0 T m v (S k) p undo → linked T m m2 p k v c →
  stage T0 m0 (<[c := k]> T) m2 v k c
    (do! undo_table (p + h + 8 * table_index (S k) v) c; undo).
Proof.
  intros [Hok Hr Hrest Hfr Hsz Hw Hu HTs Hold] Hlk.
  destruct (lk_frame _ _ _ _ _ _ _ Hlk) as (f & Hcf & Hf & Hfr2).
  destruct (reach_table h (vo_tables _ _ _ _ Hok) _ _ _ Hr) as [_ Hk3]. split.
  - apply Hlk.
  - apply Hlk.
  - etransitivity; [exact Hrest|apply Hlk].
  - set_solver.
  - assert (size (free_of m) = S (size (free_of m2))) as Hs; [|lia].
    rewrite Hfr2. rewrite (union_difference_L {[f]} (free_of m)) at 1 by set_solver.
    rewrite size_union, size_singleton by set_solver. lia.
  - intros v'. by rewrite (lk_walk _ _ _ _ _ _ _ Hlk).
  - intros m' Hm'. eapply wp_seq; [by eapply wp_undo_table|]. cbv beta. intros [] m3 Hm3. by apply Hu.
  - etransitivity; [exact HTs|]. apply insert_subseteq, Hlk.
  - right. split; [apply Hlk|]. intros j Hj. destruct Hold as [[-> ->]|[_ Hcan]]; [|apply Hcan; lia].
    rewrite (can_map_reach _ _ (S k) v p) by (done || lia). cbn [can_map].
    destruct (Nat.eqb_spec (S k) j); [lia|]. by rewrite (lk_absent _ _ _ _ _ _ _ Hlk).
Qed.

End ops.
