(* ===== verification/VmmMap.v ===== *)
(** * VmmMap: [map] on every branch

    The proof that [Vmm::map] of [src/kernel/src/mm/vmm.rs] does what it should,
    stage by stage: it writes the one entry that covers the page, after linking
    the tables that were missing; finds it occupied and changes nothing; or runs
    out of frames and takes back what it had linked. *)

From S2P Require Import Prelude Bits Mem Pmm Dll PmmInv PmmList PmmOps PmmSpec.
From S2P Require Import Locks FrameAlloc Paging Vmm Walk VmmInv VmmOps.

(** The level of the entries that map pages of a size. *)
Definition size_level (size : PageSize) : nat :=
  match size with Base => 0 | Large => 1 | Huge => 2 end.

Section map.
Context `{Profile} {A : Type} `{!FrameAllocator A} `{!X86Paging} `{!PagingLaws} `{Res : !Reserved}.
Context (h top : Z).
Implicit Types m : Machine A VmmHw.

Abbreviation mem_of m := (sy_mem (m_sys m)).
Abbreviation free_of m := (fa_free (m_sys m)).
Abbreviation total_of m := (fa_total (m_sys m)).
Abbreviation tables := (gmap Z nat).

Definition log_flush m (ops : list tlb_op) : VmmHw :=
  mkVmmHw (vh_vmm (m_own m)) (vh_cr3 (m_own m)) (vh_tlb (m_own m) ++ ops).

(** What [map] of the page of [v] at level [k] with the entry [e] may do. *)
Definition map_post (T0 : tables) m0 (v : Z) (k : nat) (e : Z) (r : result unit MapError) m' : Prop :=
  match r with
  | ROk _ => can_map h (mem_of m0) k 3 top v = true ∧
      (∃ T', vmm_ok h m' top T' ∧ T0 ⊆ T') ∧ sys_kept (m_sys m0) (m_sys m') ∧
      total_of m' = total_of m0 ∧ free_of m' ⊆ free_of m0 ∧ m_own m' = log_flush m0 [TlbFlush v] ∧
      ∀ v', walk h (mem_of m') 3 top v' =
        if decide (same_path k v v') then Some (k, e) else walk h (mem_of m0) 3 top v'
  | RErr AlreadyMapped => m' = m0 ∧ can_map h (mem_of m0) k 3 top v = false
  | RErr OutOfMemory => like h top T0 m0 m' ∧ (size (free_of m0) ≤ 2)%nat
  | RErr _ => False
  end.

(** The flags of the entry [map] writes. *)
Definition leaf_flags (k : nat) (flags : Z) : Z :=
  match k with
  | O => Z.lor flags (FLAG_P 0)
  | S O => pd_leaf flags
  | _ => pdpt_leaf flags
  end.

Lemma big_leaf_flags_ok l flags :
  (0 < l < 3)%nat →
  let fl := Z.lor (Z.lor (flags_from_bits_truncate l (leaf_common flags)) (FLAG_P l)) (FLAG_PS l) in
  flag_bits_ok fl ∧ Z.testbit fl 0 = true ∧ Z.testbit fl 7 = true.
Proof.
  intros Hl. cbv zeta. rewrite FLAG_PS_spec by done. split_and!.
  - apply flag_bits_lor; [apply flag_bits_lor; [apply truncate_ok; lia|apply flag_P_ok; lia]|by split].
  - rewrite FLAG_P_spec, !Z.lor_spec by lia. by rewrite orb_true_r.
  - rewrite Z.lor_spec. by rewrite orb_true_r.
Qed.

Lemma leaf_flags_ok k flags :
  (k ≤ 2)%nat → flag_bits_ok flags →
  flag_bits_ok (leaf_flags k flags) ∧ Z.testbit (leaf_flags k flags) 0 = true ∧
  ((0 < k)%nat → Z.testbit (leaf_flags k flags) 7 = true).
Proof.
  intros Hk Hf. destruct k as [|[|[|k]]]; [| | |lia]; cbn [leaf_flags].
  - rewrite FLAG_P_spec by lia. split_and!; [apply flag_bits_lor; [done|by split]| |lia].
    rewrite Z.lor_spec. by rewrite orb_true_r.
  - destruct (big_leaf_flags_ok 1 flags ltac:(lia)) as (? & ? & ?). by split_and!.
  - destruct (big_leaf_flags_ok 2 flags ltac:(lia)) as (? & ? & ?). by split_and!.
Qed.

(** *** The last step *)
Lemma put_leaf_spec T0 m0 T m v k p undo phys fl :
  stage h top T0 m0 T m v k p undo → (k ≤ 2)%nat → entry_addr_ok phys →
  flag_bits_ok fl → Z.testbit fl 0 = true → ((0 < k)%nat → Z.testbit fl 7 = true) →
  wp (put_leaf k (p + h + 8 * table_index k v) phys fl v) m
    (map_post T0 m0 v k (Z.lor phys fl)).
Proof.
  intros Hsg Hk Hph Hfl Hf0 Hf7. pose proof Hsg as [Hok Hr Hrest Hfr Hsz Hw Hu HTs Hold].
  pose proof (vo_tables _ _ _ _ Hok) as HT. destruct (reach_table h HT _ _ _ Hr) as [Hp Hk3].
  pose proof (index_bounds k v Hk3) as Hi. pose proof (can_map_reach h top (mem_of m) k k v p Hr (le_n _)) as Hcan.
  assert (can_map h (mem_of m) k k p v = negb (presentb (ent (mem_of m) h p (table_index k v)))) as Hcan'.
  { destruct k; cbn [can_map]; by rewrite Nat.eqb_refl. }
  unfold put_leaf. apply wp_bind, wp_read_mem. fold (ent (mem_of m) h p (table_index k v)).
  rewrite is_present_spec by lia. fold (presentb (ent (mem_of m) h p (table_index k v))).
  destruct (presentb (ent (mem_of m) h p (table_index k v))) eqn:Hpr.
  { apply wp_ret. destruct Hold as [[-> ->]|[Hempty _]]; [|by rewrite Hempty in Hpr].
    split; [done|]. by rewrite Hcan, Hcan'. }
  destruct (leaf_entry k phys fl Hk Hph Hfl Hf0 Hf7) as (Hep & Hel & _ & Heq).
  destruct (write_entry h m top T p k _ (entry_new k phys fl) Hok Hp Hi) as (Hfa' & Hfr' & Hrest' & He' & Hsame').
  apply wp_bind, wp_write_mem. set (m1 := put_mem _ m) in *. apply wp_bind, wp_modify, wp_ret.
  destruct Hrest as (Hown & Hcpu & Htot), Hrest' as (Hown' & Hcpu' & Htot').
  assert (vmm_ok h m1 top T) as Hok1.
  { eapply vmm_ok_write; [done|done|done|done|apply Hcpu'|].
    apply (tables_write h p (table_index k v) k HT Hp Hi Hsame'). right. by rewrite He'. }
  split_and!; cbn [m_sys m_own].
  - destruct Hold as [[-> ->]|[_ Hc]]; [by rewrite Hcan, Hcan'|by apply Hc].
  - exists T. split; [|done]. split; apply Hok1.
  - by etransitivity.
  - by rewrite <- Htot.
  - by rewrite Hfr'.
  - unfold log_flush. by rewrite Hown', Hown.
  - intros v'. rewrite <- Heq.
    pose proof (walk_write h p (table_index k v) k HT Hp Hi Hsame' v v' Hr eq_refl) as Hww.
    case_decide; [|by rewrite Hww]. destruct Hww as (Hv' & _ & Hw' & _). rewrite Hw'.
    destruct k; cbn [walk]; by rewrite Hv', He', Hep, Hel.
Qed.

(** *** The stages *)
Lemma map_pt_spec T0 m0 T m v p undo phys flags :
  stage h top T0 m0 T m v 0 p undo → entry_addr_ok phys → flag_bits_ok flags →
  wp (map_pt p h v phys flags) m (map_post T0 m0 v 0 (Z.lor phys (leaf_flags 0 flags))).
Proof.
  intros Hsg Hph Hfl. pose proof (sg_ok _ _ _ _ _ _ _ _ _ _ Hsg) as Hok.
  destruct (reach_table h (vo_tables _ _ _ _ Hok) _ _ _ (sg_reach _ _ _ _ _ _ _ _ _ _ Hsg)) as [Hp _].
  destruct (leaf_flags_ok 0 flags) as (? & ? & ?); [lia|done|].
  unfold map_pt. apply wp_bind. eapply wp_table_mut; [done..|]. apply wp_bind, wp_slot; [lia|].
  by apply (put_leaf_spec T0 m0 T m v 0 p undo phys (leaf_flags 0 flags)); [|lia|..].
Qed.

(** The entry at level [k + 1] is not a page: what is below it, or a fresh table. *)
Lemma stage_next T0 m0 T m v k p undo (K : M (Machine A VmmHw) unit → Z → M (Machine A VmmHw) (result unit MapError)) lv e0 :
  stage h top T0 m0 T m v (S k) p undo →
  let e := ent (mem_of m) h p (table_index (S k) v) in
  presentb e && leafb (S k) e = false →
  (∀ T' m' c undo', stage h top T0 m0 T' m' v k c undo' → wp (K undo' c) m' (map_post T0 m0 v lv e0)) →
  wp (if presentb e then K undo (addr e)
      else
        let! r := alloc_frame in
        match r with
        | None => do! undo; ret (RErr OutOfMemory)
        | Some frame =>
            do! zero_frame frame h;
            do! write_mem (p + h + 8 * table_index (S k) v) (entry_new (S k) frame (parent_flags (S k)));
            K (do! undo_table (p + h + 8 * table_index (S k) v) frame; undo) frame
        end) m (map_post T0 m0 v lv e0).
Proof.
  intros Hsg e Hnl HK. pose proof Hsg as [Hok Hr Hrest Hfr Hsz Hw Hu HTs Ho].
  destruct (presentb e) eqn:Hpr.
  { destruct (stage_descend _ _ _ _ _ _ _ _ _ _ Hsg Hpr Hnl) as (_ & _ & Hsg'). by eapply HK. }
  eapply wp_seq; [by apply (alloc_frame_spec h m top T)|]. cbv beta. intros [c|] m1 Hr1.
  - destruct Hr1 as (f & -> & Hf & Hft & Hfa & Hrest1 & Hfr1 & Hm1).
    eapply wp_link; [done..|]. intros m2 Hlk. eapply HK. by eapply stage_link.
  - destruct Hr1 as [Hlike Hemp]. eapply wp_seq; [by apply Hu|]. cbv beta. intros [] m2 Hm2. apply wp_ret.
    split; [done|]. rewrite Hemp, size_empty in Hsz. lia.
Qed.
(** A page at level [k + 1] is in the way. *)
Lemma stage_blocked T0 m0 T m v k p undo lv e0 :
  stage h top T0 m0 T m v (S k) p undo → (lv ≤ k)%nat →
  let e := ent (mem_of m) h p (table_index (S k) v) in
  presentb e && leafb (S k) e = true →
  wp (ret (RErr AlreadyMapped)) m (map_post T0 m0 v lv e0).
Proof.
  intros [Hok Hr Hrest Hfr Hsz Hw Hu HTs Hold] Hlv e [Hpr Hlf]%andb_true_iff. apply wp_ret.
  destruct (reach_table h (vo_tables _ _ _ _ Hok) _ _ _ Hr) as [_ Hk3].
  destruct Hold as [[-> ->]|[Hempty _]]; cycle 1.
  { unfold e in Hpr. rewrite Hempty in Hpr; [done|by apply index_bounds]. }
  split; [done|]. rewrite (can_map_reach h top _ lv (S k) v p) by (done || lia). cbn [can_map].
  destruct (Nat.eqb_spec (S k) lv); [lia|]. unfold e in Hpr, Hlf. by rewrite Hpr, Hlf.
Qed.

(** What the code asks of an entry at level 1 or 2. *)
Lemma entry_tests l e :
  (0 < l < 3)%nat →
  entry_is_present l e = presentb e ∧ entry_is_page l e = leafb l e ∧ entry_address l e = addr e.
Proof.
  intros Hl. rewrite is_present_spec, is_page_spec, address_spec by lia. split_and!; [done| |done].
  unfold leafb. destruct (Nat.eqb_spec l 0); [lia|]. by destruct (Nat.leb_spec l 2); [|lia].
Qed.

Lemma map_pd_spec T0 m0 T m v p undo phys flags size :
  stage h top T0 m0 T m v 1 p undo → entry_addr_ok phys → flag_bits_ok flags → size ≠ Huge →
  wp (map_pd p h v phys flags size undo) m
    (map_post T0 m0 v (size_level size) (Z.lor phys (leaf_flags (size_level size) flags))).
Proof.
  intros Hsg Hph Hfl Hsz. pose proof (sg_ok _ _ _ _ _ _ _ _ _ _ Hsg) as Hok.
  destruct (reach_table h (vo_tables _ _ _ _ Hok) _ _ _ (sg_reach _ _ _ _ _ _ _ _ _ _ Hsg)) as [Hp _].
  unfold map_pd. apply wp_bind. eapply wp_table_mut; [done..|]. apply wp_bind, wp_slot; [lia|].
  case_decide as Hs.
  { rewrite Hs. destruct (leaf_flags_ok 1 flags) as (? & ? & ?); [lia|done|].
    by apply (put_leaf_spec T0 m0 T m v 1 p undo phys (leaf_flags 1 flags)); [|lia|..]. }
  assert (size = Base) as -> by (by destruct size). cbn [size_level].
  apply wp_bind, wp_read_mem. fold (ent (mem_of m) h p (table_index 1 v)).
  destruct (entry_tests 1 (ent (mem_of m) h p (table_index 1 v)) ltac:(lia)) as (-> & -> & ->).
  destruct (presentb _ && leafb 1 _) eqn:Hb; [eapply stage_blocked; [done|lia|done]|].
  apply (stage_next T0 m0 T m v 0 p undo (λ _ c, map_pt c h v phys flags)); [done|done|].
  intros T' m' c undo' Hsg'. by eapply map_pt_spec.
Qed.

Lemma map_pdpt_spec T0 m0 T m v p undo phys flags size :
  stage h top T0 m0 T m v 2 p undo → entry_addr_ok phys → flag_bits_ok flags →
  wp (map_pdpt p h v phys flags size undo) m
    (map_post T0 m0 v (size_level size) (Z.lor phys (leaf_flags (size_level size) flags))).
Proof.
  intros Hsg Hph Hfl. pose proof (sg_ok _ _ _ _ _ _ _ _ _ _ Hsg) as Hok.
  destruct (reach_table h (vo_tables _ _ _ _ Hok) _ _ _ (sg_reach _ _ _ _ _ _ _ _ _ _ Hsg)) as [Hp _].
  unfold map_pdpt. apply wp_bind. eapply wp_table_mut; [done..|]. apply wp_bind, wp_slot; [lia|].
  case_decide as Hs.
  { rewrite Hs. destruct (leaf_flags_ok 2 flags) as (? & ? & ?); [lia|done|].
    by apply (put_leaf_spec T0 m0 T m v 2 p undo phys (leaf_flags 2 flags)); [|lia|..]. }
  apply wp_bind, wp_read_mem. fold (ent (mem_of m) h p (table_index 2 v)).
  destruct (entry_tests 2 (ent (mem_of m) h p (table_index 2 v)) ltac:(lia)) as (-> & -> & ->).
  destruct (presentb _ && leafb 2 _) eqn:Hb.
  { eapply stage_blocked; [done| |done]. destruct size; simpl; done || lia. }
  apply (stage_next T0 m0 T m v 1 p undo (λ u c, map_pd c h v phys flags size u)); [done|done|].
  intros T' m' c undo' Hsg'. by eapply map_pd_spec.
Qed.

(** [map] of a canonical, aligned page. *)
Lemma map_spec T m v phys flags size :
  vmm_ok h m top T → is_canonical v = true → v mod PageSize_bytes size = 0 →
  phys mod PageSize_bytes size = 0 → entry_addr_ok phys → flag_bits_ok flags →
  wp (Vmm_map (mkVmm top) v phys flags size) m
    (map_post T m v (size_level size) (Z.lor phys (leaf_flags (size_level size) flags))).
Proof.
  intros Hok Hc Hv Hp Hph Hfl. unfold Vmm_map, is_multiple_of. rewrite Hc, Hv, Hp. simpl negb. cbn [orb].
  pose proof (stage_start h top T m v Hok) as Hsg. pose proof (to_top _ _ _ _ _ _ (vo_tables _ _ _ _ Hok)) as Htop.
  apply wp_bind. eapply wp_load_hhdm; [done|]. apply wp_bind. eapply wp_table_mut; [done..|].
  apply wp_bind, wp_slot; [lia|]. apply wp_bind, wp_read_mem. cbn [top_level].
  fold (ent (mem_of m) h top (table_index 3 v)). rewrite is_present_spec, address_spec by lia.
  fold (presentb (ent (mem_of m) h top (table_index 3 v))) (addr (ent (mem_of m) h top (table_index 3 v))).
  apply (stage_next T m T m v 2 top (ret tt) (λ u c, map_pdpt c h v phys flags size u));
    [done|apply andb_false_r|].
  intros T' m' c undo' Hsg'. by eapply map_pdpt_spec.
Qed.
End map.
