(* ===== verification/VmmUnmap.v ===== *)
(** * VmmUnmap: [translate] and [unmap]

    [Vmm::translate] reads what the reference walk of [Walk] finds; [Vmm::unmap]
    clears the entry that maps the page and gives back the tables that became
    empty, without changing any other translation. *)

From S2P Require Import Prelude Bits Mem Pmm Dll PmmInv PmmList PmmOps PmmSpec.
From S2P Require Import Locks FrameAlloc Paging Vmm Walk VmmInv VmmOps VmmMap.

Section unmap.
Context `{Profile} {A : Type} `{!FrameAllocator A} `{!X86Paging} `{!PagingLaws} `{Res : !Reserved}.
Context (h top : Z).
Implicit Types m : Machine A VmmHw.

Abbreviation mem_of m := (sy_mem (m_sys m)).
Abbreviation free_of m := (fa_free (m_sys m)).
Abbreviation total_of m := (fa_total (m_sys m)).
Abbreviation tables := (gmap Z nat).

(** ** Translation *)

(** What an entry at level [k] makes of an address. *)
Definition page_of (k : nat) (e v : Z) : Z * Z :=
  (addr e + Z.land v (2 ^ page_shift k - 1), flags_from_bits_truncate 0 e).

Definition translation (w : mem) (v : Z) : option (Z * Z) :=
  if is_canonical v then
    match walk h w 3 top v with Some (k, e) => Some (page_of k e v) | None => None end
  else None.

(** The same with the level of the entry. *)
Definition leaf_at (w : mem) (v : Z) : option (nat * (Z * Z)) :=
  if is_canonical v then
    match walk h w 3 top v with Some (k, e) => Some (k, page_of k e v) | None => None end
  else None.

Lemma translation_leaf w v : translation w v = snd <$> leaf_at w v.
Proof. unfold translation, leaf_at. destruct (is_canonical v); [|done]. by destruct (walk h w 3 top v) as [[]|]. Qed.

Lemma wp_translate_page m k e v size flags (Q : _ → _ → Prop) :
  (k ≤ 2)%nat → size = 2 ^ page_shift k → flags = flags_from_bits_truncate 0 e →
  Q (Some (page_of k e v)) m → wp (translate_page e size v k flags) m Q.
Proof.
  intros Hk -> -> HQ. unfold translate_page. rewrite address_spec by lia.
  apply wp_bind, wp_u64_add; [|done]. fold (addr e). pose proof (land_mask_addr e) as [Ha _]. fold (addr e) in Ha.
  rewrite land_mask by (unfold page_shift; lia).
  pose proof (Z.mod_pos_bound v (2 ^ page_shift k) ltac:(apply Z.pow_pos_nonneg; unfold page_shift; lia)).
  assert (2 ^ page_shift k ≤ 2 ^ 30) by (apply Z.pow_le_mono_r; unfold page_shift; lia).
  unfold u64_range. lia.
Qed.

Lemma page_sizes :
  BASE_PAGE_SIZE = 2 ^ page_shift 0 ∧ LARGE_PAGE_SIZE = 2 ^ page_shift 1 ∧ HUGE_PAGE_SIZE = 2 ^ page_shift 2.
Proof. by rewrite base_page_size, large_page_size, huge_page_size. Qed.

Lemma translate_spec T m v :
  vmm_ok h m top T →
  wp (Vmm_translate (mkVmm top) v) m (λ r m', m' = m ∧ r = translation (mem_of m) v).
Proof.
  intros Hok. pose proof (vo_tables _ _ _ _ Hok) as HT. destruct page_sizes as (Hb & Hl & Hh).
  unfold Vmm_translate, translation. destruct (is_canonical v); simpl negb; [|by apply wp_ret].
  apply wp_bind. eapply wp_load_hhdm; [done|]. cbn [top_level].
  pose proof (reach_top h (mem_of m) top v) as Hr3. destruct (reach_table h HT _ _ _ Hr3) as [Ht3 _].
  eapply wp_entry; [done|done|lia|]. cbn [walk]. rewrite is_present_spec, address_spec by lia.
  set (e3 := ent _ _ top _). fold (presentb e3) (addr e3). destruct (presentb e3) eqn:Hp3; simpl negb; [|by apply wp_ret].
  assert (reach h (mem_of m) top v 2 (addr e3)) as Hr2 by (by eapply reach_down).
  destruct (reach_table h HT _ _ _ Hr2) as [Ht2 _]. change (leafb 3 e3) with false. cbv iota.
  eapply wp_entry; [done|done|lia|]. set (e2 := ent _ _ (addr e3) _).
  destruct (entry_tests 2 e2 ltac:(lia)) as (-> & -> & ->).
  destruct (presentb e2) eqn:Hp2; simpl negb; [|by apply wp_ret].
  destruct (leafb 2 e2) eqn:Hlf2; [by apply wp_translate_page; [lia|..]|].
  assert (reach h (mem_of m) top v 1 (addr e2)) as Hr1 by (by eapply reach_down).
  destruct (reach_table h HT _ _ _ Hr1) as [Ht1 _].
  eapply wp_entry; [done|done|lia|]. set (e1 := ent _ _ (addr e2) _).
  destruct (entry_tests 1 e1 ltac:(lia)) as (-> & -> & ->).
  destruct (presentb e1) eqn:Hp1; simpl negb; [|by apply wp_ret].
  destruct (leafb 1 e1) eqn:Hlf1; [by apply wp_translate_page; [lia|..]|].
  assert (reach h (mem_of m) top v 0 (addr e1)) as Hr0 by (by eapply reach_down).
  destruct (reach_table h HT _ _ _ Hr0) as [Ht0 _].
  eapply wp_entry; [done|done|lia|]. set (e0 := ent _ _ (addr e1) _).
  rewrite is_present_spec by lia. fold (presentb e0).
  destruct (presentb e0) eqn:Hp0; simpl negb; [|by apply wp_ret].
  change (leafb 0 e0) with true. cbv iota. apply wp_translate_page; [lia|done|apply pte_flags_spec|done].
Qed.

(** ** Releasing empty tables *)
Lemma land_1 e : (Z.land e 1 =? 0) = negb (presentb e).
Proof.
  change 1 with (Z.ones 1). rewrite Z.land_ones by lia. change (2 ^ 1) with 2.
  rewrite <- Z.bit0_mod. unfold presentb. by destruct (Z.testbit e 0).
Qed.

Lemma all_absent_spec p i n m :
  wp (all_absent (p + h) i n) m (λ b m', m' = m ∧
    (b = true ↔ ∀ j, i ≤ j < i + Z.of_nat n → presentb (ent (mem_of m) h p j) = false)).
Proof.
  revert i. induction n as [|n IH]; intros i; simpl.
  { apply wp_ret. split; [done|]. split; [|done]. intros _ j Hj. lia. }
  apply wp_bind, wp_read_mem. fold (ent (mem_of m) h p i). rewrite land_1.
  destruct (presentb (ent (mem_of m) h p i)) eqn:Hp; simpl negb; cbv iota.
  - apply wp_ret. split; [done|]. split; [done|]. intros Hall. rewrite Hall in Hp; [done|lia].
  - eapply wp_mono; [apply IH|]. cbv beta. intros b m' [-> Hb]. split; [done|]. rewrite Hb. split.
    + intros Hall j Hj. destruct (decide (j = i)) as [->|]; [done|]. apply Hall. lia.
    + intros Hall j Hj. apply Hall. lia.
Qed.

Lemma is_empty_spec T m c l :
  vmm_ok h m top T → T !! c = Some l →
  wp (is_empty c h) m (λ b m', m' = m ∧ (b = true ↔ no_entries h (mem_of m) c)).
Proof.
  intros Hok Hc. apply wp_bind. eapply wp_table_mut; [done..|].
  eapply wp_mono; [apply all_absent_spec|]. cbv beta. intros b m' [-> Hb]. split; [done|].
  rewrite Hb, page_size_entries. unfold no_entries. done.
Qed.

(** A walk goes through one table per level. *)
Lemma reach_det w v k p q : reach h w top v k p → reach h w top v k q → p = q.
Proof.
  intros Hr. revert q. induction Hr as [|k p e Hr IH -> Hpr Hlf]; intros q Hq.
  - inversion Hq as [|k' p' e' Hr' ? ? ? E1 E2]; [done|]. apply reach_level in Hr'. lia.
  - inversion Hq as [E1 E2|k' p' e' Hr' -> Hpr' Hlf' E1 E2].
    + apply reach_level in Hr. lia.
    + by rewrite (IH p' Hr').
Qed.

(** The entry that leads from one table of the walk to the next. *)
Lemma reach_points T m v k c p :
  vmm_ok h m top T → reach h (mem_of m) top v k c → reach h (mem_of m) top v (S k) p →
  points h (mem_of m) (S k) p (table_index (S k) v) c.
Proof.
  intros Hok Hc Hp. pose proof (vo_tables _ _ _ _ Hok) as HT.
  destruct (reach_table h HT _ _ _ Hp) as [_ Hk]. inversion Hc as [E1 E2|k' p' e Hr' -> Hpr Hlf E1 E2].
  - lia.
  - rewrite (reach_det _ _ _ _ _ Hp Hr'). by split_and!.
Qed.

(** One or more tables may have been released; what every step of the cleaning up
    keeps. *)
Record cleaned (T : tables) m (k : nat) m' : Prop := {
  cl_ok : ∃ T', vmm_ok h m' top T' ∧ T' ⊆ T;
  cl_cpu : sys_kept (m_sys m) (m_sys m');
  cl_total : total_of m' = total_of m;
  cl_free : free_of m ⊆ free_of m';
  cl_log : ∃ n, m_own m' = log_flush m (replicate n TlbFlushAll);
  cl_walk v : walk h (mem_of m') 3 top v = walk h (mem_of m) 3 top v;
  cl_reach v l q : (k ≤ l)%nat → reach h (mem_of m) top v l q → reach h (mem_of m') top v l q
}.

Lemma cleaned_refl T m k : vmm_ok h m top T → cleaned T m k m.
Proof.
  intros Hok. split; try done; [by exists T|]. exists 0%nat. unfold log_flush. simpl.
  rewrite app_nil_r. by destruct m as [? []].
Qed.

Lemma cleaned_trans T T' m m1 m2 k k' :
  (k ≤ k')%nat → T' ⊆ T → cleaned T m k m1 → cleaned T' m1 k' m2 → cleaned T m k' m2.
Proof.
  intros Hk HT [_ Hc Ht Hf [n Hl] Hw Hr] [(T'' & Hok'' & HT'') Hc' Ht' Hf' [n' Hl'] Hw' Hr']. split.
  - exists T''. split; [done|]. by etransitivity.
  - by etransitivity.
  - congruence.
  - set_solver.
  - exists (n + n')%nat. rewrite Hl'. unfold log_flush. rewrite Hl. simpl.
    by rewrite replicate_add, app_assoc.
  - intros v. by rewrite Hw', Hw.
  - intros v l q Hl2 Hq. apply Hr'; [done|]. apply Hr; [lia|done].
Qed.

Lemma reclaim_spec T m v k c p :
  vmm_ok h m top T → reach h (mem_of m) top v k c → reach h (mem_of m) top v (S k) p →
  wp (reclaim_if_empty (p + h + 8 * table_index (S k) v) c h) m (λ _ m', cleaned T m (S k) m').
Proof.
  intros Hok Hc Hp. pose proof (vo_tables _ _ _ _ Hok) as HT.
  pose proof (reach_points T m v k c p Hok Hc Hp) as Hpt.
  destruct (reach_table h HT _ _ _ Hp) as [HpT Hk3]. destruct (reach_table h HT _ _ _ Hc) as [HcT _].
  pose proof (index_bounds (S k) v Hk3) as Hi. unfold reclaim_if_empty.
  eapply wp_seq; [by apply (is_empty_spec T m c k)|]. cbv beta. intros b ? [-> Hb].
  destruct b; [|by apply wp_ret, cleaned_refl]. pose proof (proj1 Hb eq_refl) as Hempty.
  (* the memory in between, where the entry is cleared and the table still there *)
  destruct (write_entry h m top T p (S k) (table_index (S k) v) 0 Hok HpT Hi)
    as (_ & _ & _ & He1 & Hsame1). set (w1 := sy_mem (m_sys (put_mem _ m))) in *.
  assert (presentb (ent w1 h p (table_index (S k) v)) = false) as Habs1 by (by rewrite He1).
  assert (tables_ok h (free_of m) (total_of m) w1 top (delete c T)) as HT1.
  { eapply (tables_unlink h p (table_index (S k) v) k c HT HpT Hi Hpt Hempty); [|done|].
    - intros q l j Hq _. by eapply Hsame1.
    - by intros. }
  eapply (wp_seq (do! write_mem (p + h + 8 * table_index (S k) v) 0; free_frame c)
    (λ _, tlb_flush_all)).
  { by apply (wp_unlink h top T m p (table_index (S k) v) c k). }
  cbv beta. intros [] m' [Hok' Hrest' (f & Hcf & Hfr') Habs' Hsame']. apply wp_modify.
  destruct Hrest' as (Hown' & Hcpu' & Htot').
  assert (same_entries h (delete c T) w1 (mem_of m')) as Hent.
  { intros q l j Hq Hj. destruct (decide (q = p ∧ j = table_index (S k) v)) as [[-> ->]|Hne].
    - by rewrite Habs', Habs1.
    - assert (q ≠ p ∨ j ≠ table_index (S k) v) as Hne' by (destruct (decide (q = p)); naive_solver).
      rewrite (Hsame' q l j) by done. apply lookup_delete_Some in Hq as [_ Hq].
      rewrite <- (Hsame1 q l j) by done. done. }
  split; cbn [m_sys m_own].
  - exists (delete c T). split; [split; apply Hok'|]. apply delete_subseteq.
  - done.
  - done.
  - set_solver.
  - exists 1%nat. unfold log_flush. by rewrite Hown'.
  - intros v'. rewrite (walk_same_entries h HT1 Hent) by apply HT1.
    by apply (walk_unlink h p (table_index (S k) v) k c HT HpT Hi Hpt Hempty Habs1 v).
  - intros v' l q Hl Hq. apply (reach_same_entries h HT1 Hent).
    by eapply (reach_above h p (table_index (S k) v) (S k) HT).
Qed.
(** ** Clearing the entry *)
Definition unmap_post (T : tables) m (v : Z) (k : nat) (r : result unit UnmapError) m' : Prop :=
  match r with
  | ROk _ => (∃ e, walk h (mem_of m) 3 top v = Some (k, e)) ∧
      (∃ T', vmm_ok h m' top T' ∧ T' ⊆ T) ∧ sys_kept (m_sys m) (m_sys m') ∧
      total_of m' = total_of m ∧ free_of m ⊆ free_of m' ∧
      (∃ n, m_own m' = log_flush m (TlbFlush v :: replicate n TlbFlushAll)) ∧
      ∀ v', walk h (mem_of m') 3 top v' =
        if decide (same_path k v v') then None else walk h (mem_of m) 3 top v'
  | RErr NotMapped => m' = m ∧ ∀ e, walk h (mem_of m) 3 top v ≠ Some (k, e)
  | RErr _ => False
  end.

(** The state after the entry is cleared and its translation flushed. *)
Definition cleared m (p v : Z) (k : nat) : Machine A VmmHw :=
  mkMachine (set_sy_mem (write_word (p + h + 8 * table_index k v) 0 (mem_of m)) (m_sys m))
            (log_flush m [TlbFlush v]).

Lemma cleared_spec T m v k p :
  vmm_ok h m top T → reach h (mem_of m) top v k p →
  let m1 := cleared m p v k in
  vmm_ok h m1 top T ∧ free_of m1 = free_of m ∧ total_of m1 = total_of m ∧ sys_kept (m_sys m) (m_sys m1) ∧
  (∀ v' l q, (k ≤ l)%nat → reach h (mem_of m) top v' l q → reach h (mem_of m1) top v' l q) ∧
  (∀ v', walk h (mem_of m1) 3 top v' =
     if decide (same_path k v v') then None else walk h (mem_of m) 3 top v').
Proof.
  intros Hok Hr m1. pose proof (vo_tables _ _ _ _ Hok) as HT. destruct (reach_table h HT _ _ _ Hr) as [Hp Hk3].
  pose proof (index_bounds k v Hk3) as Hi.
  destruct (write_entry h m top T p k (table_index k v) 0 Hok Hp Hi) as (Hfa & Hfr & (_ & Hkept & Htot) & He & Hsame).
  change (m_sys (put_mem _ m)) with (m_sys m1) in *.
  split_and!; [|done|done|done| |].
  - eapply vmm_ok_write; [done..|].
    apply (tables_write h p (table_index k v) k HT Hp Hi Hsame). left. by rewrite He.
  - intros v' l q Hl Hq. by eapply (reach_above h p (table_index k v) k HT).
  - intros v'. pose proof (walk_write h p (table_index k v) k HT Hp Hi Hsame v v' Hr eq_refl) as Hw.
    case_decide; [|exact Hw]. destruct Hw as (Hv' & _ & Hw' & _).
    etransitivity; [exact Hw'|]. destruct k; cbn [walk]; by rewrite Hv', He.
Qed.

Lemma cleaned_post T m v k p k' m' e :
  vmm_ok h m top T → reach h (mem_of m) top v k p → walk h (mem_of m) 3 top v = Some (k, e) →
  cleaned T (cleared m p v k) k' m' → unmap_post T m v k (ROk tt) m'.
Proof.
  intros Hok Hr Hw [Hc1 Hcpu Htot Hfree [n Hl] Hwalk _].
  destruct (cleared_spec T m v k p Hok Hr) as (_ & Hfr1 & Htot1 & Hkept1 & _ & Hw1).
  split_and!; [by exists e|done|by etransitivity|by rewrite Htot, Htot1|by rewrite <- Hfr1| |].
  - exists n. rewrite Hl. unfold log_flush. simpl. by rewrite <- app_assoc.
  - intros v'. by rewrite Hwalk, Hw1.
Qed.

(** What the walk finds at a table it reaches. *)
Lemma walk_leaf m v k p :
  reach h (mem_of m) top v k p →
  let e := ent (mem_of m) h p (table_index k v) in
  presentb e = true → leafb k e = true → walk h (mem_of m) 3 top v = Some (k, e).
Proof.
  intros Hr e Hp Hl. rewrite (walk_reach h _ _ _ Hr). fold e. destruct k; cbn [walk]; fold e; by rewrite Hp, Hl.
Qed.

Lemma walk_absent m v k p :
  reach h (mem_of m) top v k p →
  presentb (ent (mem_of m) h p (table_index k v)) = false → walk h (mem_of m) 3 top v = None.
Proof. intros Hr Hp. rewrite (walk_reach h _ _ _ Hr). destruct k; cbn [walk]; by rewrite Hp. Qed.

(** Nothing is found above the level of a table the walk reaches. *)
Lemma walk_below m v k p l e :
  reach h (mem_of m) top v k p → walk h (mem_of m) 3 top v = Some (l, e) → (l ≤ k)%nat.
Proof.
  intros Hr. rewrite (walk_reach h _ _ _ Hr). clear Hr. revert p. induction k as [|k IH]; intros p; cbn [walk].
  - destruct (presentb _); [|done]. destruct (leafb 0 _); [intros [= <- _]; lia|done].
  - destruct (presentb _); [|done]. destruct (leafb (S k) _); [intros [= <- _]; lia|].
    intros Hw%IH. lia.
Qed.

Lemma not_mapped T m v k :
  (∀ e, walk h (mem_of m) 3 top v ≠ Some (k, e)) →
  wp (ret (RErr NotMapped)) m (unmap_post T m v k).
Proof. intros Hno. by apply wp_ret. Qed.

(** The tables above the page are given back when they are empty, lowest first. *)
Lemma reclaim_from_2 T m v p2 :
  vmm_ok h m top T → reach h (mem_of m) top v 2 p2 →
  wp (reclaim_pdpt (top + h + 8 * table_index 3 v) p2 h) m (λ _ m', cleaned T m 3 m').
Proof. intros Hok H2. by eapply reclaim_spec; [|done|constructor]. Qed.

Lemma reclaim_from_1 T m v p1 p2 :
  vmm_ok h m top T → reach h (mem_of m) top v 1 p1 → reach h (mem_of m) top v 2 p2 →
  wp (do! reclaim_pd (p2 + h + 8 * table_index 2 v) p1 h;
      reclaim_pdpt (top + h + 8 * table_index 3 v) p2 h) m (λ _ m', cleaned T m 3 m').
Proof.
  intros Hok H1' H2. destruct (reach_points T m v 1 p1 p2 Hok H1' H2) as (_ & Hlf & _).
  unfold reclaim_pd. apply wp_bind. apply wp_bind, wp_read_mem. fold (ent (mem_of m) h p2 (table_index 2 v)).
  destruct (entry_tests 2 (ent (mem_of m) h p2 (table_index 2 v)) ltac:(lia)) as (_ & -> & _). rewrite Hlf.
  eapply wp_mono; [by eapply reclaim_spec|]. cbv beta. intros [] m' Hc1. pose proof Hc1 as [(T' & Hok' & HT') _ _ _ _ _ Hr'].
  eapply wp_mono; [eapply (reclaim_from_2 T'); [done|apply Hr'; [lia|done]]|]. cbv beta. intros [] m'' Hc2.
  eapply (cleaned_trans T T' m m' m'' 2 3); [lia|done|done|done].
Qed.

Lemma reclaim_from_0 T m v p0 p1 p2 :
  vmm_ok h m top T → reach h (mem_of m) top v 0 p0 → reach h (mem_of m) top v 1 p1 →
  reach h (mem_of m) top v 2 p2 →
  wp (do! reclaim_pt (p1 + h + 8 * table_index 1 v) p0 h;
      do! reclaim_pd (p2 + h + 8 * table_index 2 v) p1 h;
      reclaim_pdpt (top + h + 8 * table_index 3 v) p2 h) m (λ _ m', cleaned T m 3 m').
Proof.
  intros Hok H0' H1' H2. destruct (reach_points T m v 0 p0 p1 Hok H0' H1') as (_ & Hlf & _).
  unfold reclaim_pt. apply wp_bind. apply wp_bind, wp_read_mem. fold (ent (mem_of m) h p1 (table_index 1 v)).
  destruct (entry_tests 1 (ent (mem_of m) h p1 (table_index 1 v)) ltac:(lia)) as (_ & -> & _). rewrite Hlf.
  eapply wp_mono; [by eapply reclaim_spec|]. cbv beta. intros [] m' Hc1. pose proof Hc1 as [(T' & Hok' & HT') _ _ _ _ _ Hr'].
  eapply wp_mono; [eapply (reclaim_from_1 T'); [done|apply Hr'; [lia|done]..]|]. cbv beta. intros [] m'' Hc2.
  eapply (cleaned_trans T T' m m' m'' 1 3); [lia|done|done|done].
Qed.

(** Clear, flush, clean up. *)
Lemma wp_clear T m v k p e (K : M (Machine A VmmHw) (result unit UnmapError)) :
  vmm_ok h m top T → reach h (mem_of m) top v k p → walk h (mem_of m) 3 top v = Some (k, e) →
  wp K (cleared m p v k) (λ r m', r = ROk tt ∧ cleaned T (cleared m p v k) 3 m') →
  wp (do! write_mem (p + h + 8 * table_index k v) 0; do! tlb_flush v; K) m (unmap_post T m v k).
Proof.
  intros Hok Hr Hw HK. apply wp_bind, wp_write_mem, wp_bind, wp_modify. eapply wp_mono; [exact HK|].
  cbv beta. intros ? m' [-> Hc]. by eapply cleaned_post.
Qed.

Lemma unmap_huge T m v p2 :
  vmm_ok h m top T → reach h (mem_of m) top v 2 p2 →
  let e := ent (mem_of m) h p2 (table_index 2 v) in presentb e = true → leafb 2 e = true →
  wp (do! write_mem (p2 + h + 8 * table_index 2 v) 0; do! tlb_flush v;
      do! reclaim_pdpt (top + h + 8 * table_index 3 v) p2 h; ret (ROk tt)) m (unmap_post T m v 2).
Proof.
  intros Hok H2 e Hp Hl. destruct (cleared_spec T m v 2 p2 Hok H2) as (Hok1 & _ & _ & _ & Hr1 & _).
  eapply wp_clear; [done|done|by eapply walk_leaf|].
  eapply wp_seq; [apply (reclaim_from_2 T); [done|by apply Hr1; [lia|]]|].
  cbv beta. intros [] m' Hc. by apply wp_ret.
Qed.

Lemma unmap_large T m v p1 p2 :
  vmm_ok h m top T → reach h (mem_of m) top v 1 p1 → reach h (mem_of m) top v 2 p2 →
  let e := ent (mem_of m) h p1 (table_index 1 v) in presentb e = true → leafb 1 e = true →
  wp (do! write_mem (p1 + h + 8 * table_index 1 v) 0; do! tlb_flush v;
      do! reclaim_pd (p2 + h + 8 * table_index 2 v) p1 h;
      do! reclaim_pdpt (top + h + 8 * table_index 3 v) p2 h; ret (ROk tt)) m (unmap_post T m v 1).
Proof.
  intros Hok Hr1 Hr2 e Hp Hl. destruct (cleared_spec T m v 1 p1 Hok Hr1) as (Hok1 & _ & _ & _ & Hkeep & _).
  pose proof (reclaim_from_1 T _ v p1 p2 Hok1 (Hkeep v _ _ (le_n _) Hr1) (Hkeep v 2%nat p2 ltac:(lia) Hr2)) as HR.
  apply wp_bind_inv in HR. eapply wp_clear; [done|done|by eapply walk_leaf|].
  eapply wp_seq; [exact HR|]. cbv beta. intros [] m1 HR1.
  eapply wp_seq; [exact HR1|]. cbv beta. intros [] m' Hc. by apply wp_ret.
Qed.

Lemma unmap_base T m v p0 p1 p2 :
  vmm_ok h m top T → reach h (mem_of m) top v 0 p0 → reach h (mem_of m) top v 1 p1 →
  reach h (mem_of m) top v 2 p2 →
  presentb (ent (mem_of m) h p0 (table_index 0 v)) = true →
  wp (do! write_mem (p0 + h + 8 * table_index 0 v) 0; do! tlb_flush v;
      do! reclaim_pt (p1 + h + 8 * table_index 1 v) p0 h;
      do! reclaim_pd (p2 + h + 8 * table_index 2 v) p1 h;
      do! reclaim_pdpt (top + h + 8 * table_index 3 v) p2 h; ret (ROk tt)) m (unmap_post T m v 0).
Proof.
  intros Hok Hr0 Hr1 Hr2 Hp. destruct (cleared_spec T m v 0 p0 Hok Hr0) as (Hok1 & _ & _ & _ & Hkeep & _).
  pose proof (reclaim_from_0 T _ v p0 p1 p2 Hok1 (Hkeep v _ _ (le_n _) Hr0) (Hkeep v 1%nat p1 ltac:(lia) Hr1)
    (Hkeep v 2%nat p2 ltac:(lia) Hr2)) as HR.
  apply wp_bind_inv in HR. eapply wp_clear; [done|done|by eapply walk_leaf|].
  eapply wp_seq; [exact HR|]. cbv beta. intros [] m1 HR1. apply wp_bind_inv in HR1.
  eapply wp_seq; [exact HR1|]. cbv beta. intros [] m2 HR2.
  eapply wp_seq; [exact HR2|]. cbv beta. intros [] m' Hc. by apply wp_ret.
Qed.

(** [unmap] of a canonical, aligned page. *)
Lemma unmap_spec T m v size :
  vmm_ok h m top T → is_canonical v = true → v mod PageSize_bytes size = 0 →
  wp (Vmm_unmap (mkVmm top) v size) m (unmap_post T m v (size_level size)).
Proof.
  intros Hok Hc Hv. pose proof (vo_tables _ _ _ _ Hok) as HT. unfold Vmm_unmap, is_multiple_of.
  rewrite Hc, Hv. simpl negb. cbv iota. apply wp_bind. eapply wp_load_hhdm; [done|]. cbn [top_level].
  pose proof (reach_top h (mem_of m) top v) as Hr3. destruct (reach_table h HT _ _ _ Hr3) as [Ht3 _].
  eapply wp_entry; [done|done|lia|]. rewrite is_present_spec, address_spec by lia.
  set (e3 := ent _ _ top _). fold (presentb e3) (addr e3).
  destruct (presentb e3) eqn:Hp3; simpl negb; cbv iota;
    [|apply not_mapped; intros e; by rewrite (walk_absent m v 3 top Hr3 Hp3)].
  assert (reach h (mem_of m) top v 2 (addr e3)) as Hr2 by (by eapply reach_down).
  destruct (reach_table h HT _ _ _ Hr2) as [Ht2 _]. eapply wp_entry; [done|done|lia|].
  set (e2 := ent _ _ (addr e3) _). destruct (entry_tests 2 e2 ltac:(lia)) as (-> & -> & ->).
  destruct (presentb e2) eqn:Hp2; simpl negb; cbn [orb]; cycle 1.
  { assert (∀ k e, walk h (mem_of m) 3 top v ≠ Some (k, e)) as Hno
      by (intros k e; by rewrite (walk_absent m v 2 _ Hr2 Hp2)). case_decide; by apply not_mapped. }
  destruct (leafb 2 e2) eqn:Hl2; simpl negb; cbv iota.
  { case_decide as Hs; [rewrite Hs; by apply unmap_huge|]. apply not_mapped. intros e.
    rewrite (walk_leaf m v 2 _ Hr2 Hp2 Hl2). by destruct size. }
  assert (reach h (mem_of m) top v 1 (addr e2)) as Hr1 by (by eapply reach_down).
  destruct (reach_table h HT _ _ _ Hr1) as [Ht1 _]. case_decide as Hsh.
  { rewrite Hsh. apply not_mapped. intros e Hw. apply (walk_below m v 1 _ _ _ Hr1) in Hw. simpl in Hw. lia. }
  eapply wp_entry; [done|done|lia|].
  set (e1 := ent _ _ (addr e2) _). destruct (entry_tests 1 e1 ltac:(lia)) as (-> & -> & ->).
  destruct (presentb e1) eqn:Hp1; simpl negb; cbn [orb]; cycle 1.
  { assert (∀ k e, walk h (mem_of m) 3 top v ≠ Some (k, e)) as Hno
      by (intros k e; by rewrite (walk_absent m v 1 _ Hr1 Hp1)). case_decide; by apply not_mapped. }
  destruct (leafb 1 e1) eqn:Hl1; simpl negb; cbv iota.
  { case_decide as Hs; [rewrite Hs; by eapply unmap_large|]. apply not_mapped. intros e.
    rewrite (walk_leaf m v 1 _ Hr1 Hp1 Hl1). by destruct size. }
  assert (reach h (mem_of m) top v 0 (addr e1)) as Hr0 by (by eapply reach_down).
  destruct (reach_table h HT _ _ _ Hr0) as [Ht0 _]. case_decide as Hsl.
  { rewrite Hsl. apply not_mapped. intros e Hw. apply (walk_below m v 0 _ _ _ Hr0) in Hw. simpl in Hw. lia. }
  assert (size = Base) as -> by (by destruct size). cbn [size_level].
  eapply wp_entry; [done|done|lia|]. set (e0 := ent _ _ (addr e1) _). rewrite is_present_spec by lia. fold (presentb e0).
  destruct (presentb e0) eqn:Hp0; simpl negb; cbv iota; [by apply unmap_base|].
  apply not_mapped. intros e. by rewrite (walk_absent m v 0 _ Hr0 Hp0).
Qed.
End unmap.
