(* ===== verification/VmmSpec.v ===== *)
(** * VmmSpec: what the page tables promise

    The theorems about [Vmm::translate], [Vmm::map], [Vmm::unmap] and
    [Vmm::map_range] of [src/kernel/src/mm/vmm.rs], in terms of what addresses
    translate to.  [vmm_ok h m top T] is the invariant: the tables under [top]
    form a tree of frames [T] that belong to no one else.  The frames of a set
    [reserved] are kept out of it: no operation takes one of them or writes to one,
    so that the theorems can be used beside another client of the frame allocator. *)

From S2P Require Import Prelude Bits Mem Pmm Dll PmmInv PmmList PmmOps PmmSpec.
From S2P Require Import Locks FrameAlloc Paging Vmm Walk VmmInv VmmOps VmmMap VmmUnmap.

Section spec.
Context `{Profile} {A : Type} `{!FrameAllocator A} `{!X86Paging} `{!PagingLaws} `{Res : !Reserved}.
Context (h top : Z).
Implicit Types m : Machine A VmmHw.

Abbreviation mem_of m := (sy_mem (m_sys m)).
Abbreviation free_of m := (fa_free (m_sys m)).
Abbreviation total_of m := (fa_total (m_sys m)).
Abbreviation tables := (gmap Z nat).
Abbreviation vmm := (mkVmm top).

(** The addresses the theorems speak of. *)
Definition good_addr (v : Z) : Prop := u64_range v ∧ is_canonical v = true.

Lemma size_bytes size : PageSize_bytes size = 2 ^ page_shift (size_level size).
Proof. destruct page_sizes as (? & ? & ?). by destruct size. Qed.

Lemma size_pos size : 4096 ≤ PageSize_bytes size ≤ 2 ^ 30 ∧ (4096 | PageSize_bytes size).
Proof.
  rewrite size_bytes. destruct size; (split; [done|]); [by exists 1|by exists 512|by exists 262144].
Qed.

(** Good addresses share an entry when they are in the same page. *)
Lemma same_page size v v' :
  good_addr v → good_addr v' →
  same_path (size_level size) v v' ↔ v / PageSize_bytes size = v' / PageSize_bytes size.
Proof.
  intros [Hv Hc] [Hv' Hc']. rewrite same_path_page by (done || destruct size; simpl; lia).
  rewrite size_bytes, !Z.shiftr_div_pow2 by (unfold page_shift; lia). done.
Qed.

Lemma phys_ok phys size :
  0 ≤ phys < 2 ^ 52 → phys mod PageSize_bytes size = 0 → entry_addr_ok phys.
Proof.
  intros Hp Hm. split; [done|]. destruct (size_pos size) as [? Hd].
  apply Z.mod_divide in Hm; [|lia]. apply Z.mod_divide; [done|]. by etransitivity.
Qed.

(** What the entry written by [map] translates to. *)
Definition mapped_to (size : PageSize) (phys flags v : Z) : Z * Z :=
  (phys + v mod PageSize_bytes size,
   flags_from_bits_truncate 0 (leaf_flags (size_level size) flags)).

Lemma page_of_leaf size phys flags v :
  entry_addr_ok phys → flag_bits_ok flags →
  page_of (size_level size) (Z.lor phys (leaf_flags (size_level size) flags)) v =
  mapped_to size phys flags v.
Proof.
  intros Hp Hf. destruct (leaf_flags_ok (size_level size) flags) as (Hok & _ & _); [destruct size; simpl; lia|done|].
  unfold page_of, mapped_to. destruct (entry_parts phys _ Hp Hok) as [Ha _]. unfold addr. rewrite Ha.
  rewrite land_mask, truncate_addr, size_bytes by (unfold page_shift; lia || done). done.
Qed.

(** A page that is free to be mapped translates to nothing. *)
Lemma can_map_none w k l t v v' :
  can_map h w k l t v = true → (k ≤ l)%nat → (∀ j, (k ≤ j ≤ l)%nat → table_index j v = table_index j v') →
  walk h w l t v' = None.
Proof.
  revert t. induction l as [|l IH]; intros t Hcan Hk Hj; cbn [can_map walk] in *;
    rewrite <- (Hj _ ltac:(split; [done|lia])).
  - destruct (presentb _); [|done]. by destruct (0 =? k)%nat.
  - destruct (presentb _) eqn:Hp; [|done]. destruct (Nat.eqb_spec (S l) k); [done|].
    destruct (leafb (S l) _); [done|]. apply IH; [done|lia|]. intros j ?. apply Hj. lia.
Qed.

Lemma like_translation T m m' v :
  vmm_ok h m top T → like h top T m m' → translation h top (mem_of m') v = translation h top (mem_of m) v.
Proof.
  intros Hok (_ & _ & _ & Hent). unfold translation.
  rewrite (walk_same_entries h (vo_tables _ _ _ _ Hok) Hent); [done|]. apply Hok.
Qed.

(** How one page changes in all translations. *)
Lemma translation_update m m' v size (o : option (nat * Z)) :
  good_addr v →
  (∀ v', walk h (mem_of m') 3 top v' =
     if decide (same_path (size_level size) v v') then o else walk h (mem_of m) 3 top v') →
  ∀ v', good_addr v' → translation h top (mem_of m') v' =
    if decide (v / PageSize_bytes size = v' / PageSize_bytes size)
    then match o with Some (k, e) => Some (page_of k e v') | None => None end
    else translation h top (mem_of m) v'.
Proof.
  intros Hv Hw v' Hv'. unfold translation. rewrite (proj2 Hv'), Hw.
  pose proof (same_page size v v' Hv Hv') as Hsp. by do 2 case_decide; try tauto.
Qed.

(** The answers to requests that [map] and [unmap] refuse at once. *)
Lemma map_refused m v phys flags size :
  (is_canonical v = false ∧ Vmm_map vmm v phys flags size m = Ok (RErr MapNonCanonical, m)) ∨
  (is_canonical v = true ∧ (v mod PageSize_bytes size ≠ 0 ∨ phys mod PageSize_bytes size ≠ 0) ∧
   Vmm_map vmm v phys flags size m = Ok (RErr MapMisaligned, m)) ∨
  (is_canonical v = true ∧ v mod PageSize_bytes size = 0 ∧ phys mod PageSize_bytes size = 0).
Proof.
  unfold Vmm_map, is_multiple_of. destruct (is_canonical v); [|by left]. right.
  destruct (Z.eqb_spec (v mod PageSize_bytes size) 0); [|left; split_and!; [done|by left|done]].
  destruct (Z.eqb_spec (phys mod PageSize_bytes size) 0); [by right|left; split_and!; [done|by right|done]].
Qed.

Lemma unmap_refused m v size :
  (is_canonical v = false ∧ Vmm_unmap vmm v size m = Ok (RErr UnmapNonCanonical, m)) ∨
  (is_canonical v = true ∧ v mod PageSize_bytes size ≠ 0 ∧
   Vmm_unmap vmm v size m = Ok (RErr UnmapMisaligned, m)) ∨
  (is_canonical v = true ∧ v mod PageSize_bytes size = 0).
Proof.
  unfold Vmm_unmap, is_multiple_of. destruct (is_canonical v); [|by left]. right.
  destruct (Z.eqb_spec (v mod PageSize_bytes size) 0); [by right|by left].
Qed.

(** C22: [translate] is the page walk: the unrolled code finds exactly what the
    recursive reading of the four levels finds, changes nothing, and never
    panics. *)
Theorem translate_is_walk T m v :
  vmm_ok h m top T →
  Vmm_translate vmm v m =
    Ok (if is_canonical v then
          match walk h (mem_of m) 3 top v with
          | Some (k, e) => Some (page_of k e v)
          | None => None
          end
        else None, m).
Proof.
  intros Hok. by destruct (proj1 (wp_ok _ _ _) (translate_spec h top T m v Hok)) as (r & m' & -> & -> & ->).
Qed.

(** C4: [map] on every branch.  A bad address or an unaligned one is refused and
    nothing changes.  When an entry on the way is in use, [AlreadyMapped] and
    nothing changes.  When a table cannot be allocated, at most two frames were
    free; every table made on the way is taken back, so that the free frames and
    all translations are as before.  Otherwise the whole page, and no other
    address, now translates to the given frame with the given flags; the stale
    translation is flushed and the tables are in order.  Reserved frames keep their
    contents. *)
Theorem map_correct T m v phys flags size :
  vmm_ok h m top T → u64_range v → 0 ≤ phys < 2 ^ 52 → flag_bits_ok flags →
  ∃ r m', Vmm_map vmm v phys flags size m = Ok (r, m') ∧ sys_kept (m_sys m) (m_sys m') ∧
    match r with
    | ROk _ => good_addr v ∧ v mod PageSize_bytes size = 0 ∧ phys mod PageSize_bytes size = 0 ∧
        (∃ T', vmm_ok h m' top T' ∧ T ⊆ T') ∧ free_of m' ⊆ free_of m ∧
        vh_tlb (m_own m') = vh_tlb (m_own m) ++ [TlbFlush v] ∧
        ∀ v', good_addr v' → translation h top (mem_of m') v' =
          if decide (v / PageSize_bytes size = v' / PageSize_bytes size)
          then Some (mapped_to size phys flags v') else translation h top (mem_of m) v'
    | RErr MapNonCanonical => m' = m ∧ is_canonical v = false
    | RErr MapMisaligned => m' = m ∧
        (v mod PageSize_bytes size ≠ 0 ∨ phys mod PageSize_bytes size ≠ 0)
    | RErr AlreadyMapped => m' = m ∧ can_map h (mem_of m) (size_level size) 3 top v = false
    | RErr OutOfMemory => (base.size (free_of m) ≤ 2)%nat ∧ vmm_ok h m' top T ∧ free_of m' = free_of m ∧
        ∀ v', translation h top (mem_of m') v' = translation h top (mem_of m) v'
    end.
Proof.
  intros Hok Hv Hp Hf. destruct (map_refused m v phys flags size)
    as [[Hc Heq]|[(Hc & Hm & Heq)|(Hc & Hvm & Hpm)]]; [by exists (RErr MapNonCanonical), m|
      by exists (RErr MapMisaligned), m|].
  pose proof (phys_ok phys size Hp Hpm) as Hph.
  destruct (proj1 (wp_ok _ _ _) (map_spec h top T m v phys flags size Hok Hc Hvm Hpm Hph Hf))
    as (r & m' & Heq & Hpost). exists r, m'. split; [done|]. destruct r as [[]|[]]; unfold map_post in Hpost.
  - destruct Hpost as (_ & HT & Hkept & _ & Hfr & Hown & Hw). split; [done|]. split_and!; [done..|by rewrite Hown|].
    intros v' Hv'. rewrite <- page_of_leaf by done. by apply (translation_update m m' v size _ (conj Hv Hc) Hw).
  - by destruct Hpost as [-> ?].
  - destruct Hpost as [Hlike Hsz]. pose proof Hlike as (Hok' & (_ & Hkept & _) & Hfr & _). split; [done|].
    split_and!; [done..|]. intros v'. by eapply like_translation.
  - done.
  - done.
Qed.


(** C25: mapping a page and unmapping it again restores every translation: after a
    successful [map], [unmap] of the same page succeeds, and every address
    translates as it did at first. *)
Theorem map_unmap_roundtrip T m m1 v phys flags size :
  vmm_ok h m top T → u64_range v → 0 ≤ phys < 2 ^ 52 → flag_bits_ok flags →
  Vmm_map vmm v phys flags size m = Ok (ROk tt, m1) →
  ∃ m2 T2, Vmm_unmap vmm v size m1 = Ok (ROk tt, m2) ∧ vmm_ok h m2 top T2 ∧
    ∀ v', good_addr v' → translation h top (mem_of m2) v' = translation h top (mem_of m) v'.
Proof.
  intros Hok Hv Hp Hf Heq. destruct (map_refused m v phys flags size)
    as [[_ E]|[(_ & _ & E)|(Hc & Hvm & Hpm)]]; [congruence..|].
  pose proof (phys_ok phys size Hp Hpm) as Hph.
  pose proof (map_spec h top T m v phys flags size Hok Hc Hvm Hpm Hph Hf) as Hmap. unfold wp in Hmap.
  rewrite Heq in Hmap. destruct Hmap as (Hcan & (T1 & Hok1 & _) & _ & _ & _ & _ & Hw1).
  destruct (proj1 (wp_ok _ _ _) (unmap_spec h top T1 m1 v size Hok1 Hc Hvm)) as (r & m2 & Heq2 & Hpost).
  destruct r as [[]|[]]; unfold unmap_post in Hpost; [|destruct Hpost as [_ Hno]; exfalso|done|done].
  - destruct Hpost as (_ & (T2 & Hok2 & _) & _ & _ & _ & _ & Hw2). exists m2, T2. split_and!; [done..|].
    intros v' Hv'. unfold translation. rewrite (proj2 Hv'), Hw2, Hw1. case_decide as Hsp; [|done].
    by rewrite (can_map_none (mem_of m) (size_level size) 3 top v v');
      [| |destruct size; simpl; lia|intros j ?; apply Hsp; lia].
  - eapply Hno. rewrite Hw1. rewrite decide_True by done. done.
Qed.
End spec.
