(* ===== verification/VmmRange.v ===== *)
(** * VmmRange: mapping and unmapping ranges

    [Vmm::map_range] of [src/kernel/src/mm/vmm.rs] maps page after page; when one
    fails it unmaps those before it.  [Vmm::unmap_range] stops at the first page
    that fails and leaves those before it unmapped.  The loops are followed with
    the set of pages that are mapped, or unmapped, so far. *)

From S2P Require Import Prelude Bits Mem Pmm Dll PmmInv PmmList PmmOps PmmSpec.
From S2P Require Import Locks FrameAlloc Paging Vmm Walk VmmInv VmmOps VmmMap VmmUnmap VmmSpec.

Section range.
Context `{Profile} {A : Type} `{!FrameAllocator A} `{!X86Paging} `{!PagingLaws} `{Res : !Reserved}.
Context (h top virt phys flags : Z) (size : PageSize) (m0 : Machine A VmmHw).
Implicit Types m : Machine A VmmHw.

Abbreviation mem_of m := (sy_mem (m_sys m)).
Abbreviation sz := (PageSize_bytes size).
Abbreviation lv := (size_level size).
Abbreviation page v := (v / sz - virt / sz).

Definition range_entry (j : Z) : Z := Z.lor (phys + j * sz) (leaf_flags lv flags).

(** What the loops leave alone. *)
Definition range_kept m : Prop :=
  sys_kept (m_sys m0) (m_sys m) ∧ vh_vmm (m_own m) = vh_vmm (m_own m0) ∧ vh_cr3 (m_own m) = vh_cr3 (m_own m0).

(** Pages [lo .. hi] of the range are mapped, all else is as in [m0]. *)
Definition mapped_part (lo hi : Z) m : Prop :=
  (∃ T, vmm_ok h m top T) ∧ range_kept m ∧
  ∀ v, good_addr v → walk h (mem_of m) 3 top v =
    if decide (lo ≤ page v < hi) then Some (lv, range_entry (page v)) else walk h (mem_of m0) 3 top v.

(** The first [i] pages could be mapped. *)
Definition mappable (i : Z) : Prop :=
  (∀ j, 0 ≤ j < i → good_addr (virt + j * sz) ∧ (virt + j * sz) mod sz = 0 ∧ (phys + j * sz) mod sz = 0) ∧
  (∀ v, good_addr v → 0 ≤ page v < i → walk h (mem_of m0) 3 top v = None).

Lemma page_start j v : (virt + j * sz) / sz = v / sz ↔ page v = j.
Proof. destruct (size_pos size) as [? _]. rewrite Z.div_add by lia. lia. Qed.

Lemma kept_step m m' :
  range_kept m → sys_kept (m_sys m) (m_sys m') →
  vh_vmm (m_own m') = vh_vmm (m_own m) ∧ vh_cr3 (m_own m') = vh_cr3 (m_own m) → range_kept m'.
Proof. intros (Hc & Hv & Hr) Hc' [Hv' Hr']. split_and!; [by etransitivity|congruence..]. Qed.

Context (Hvirt : 0 ≤ virt) (Hphys : 0 ≤ phys) (Hflags : flag_bits_ok flags).

Lemma map_one i m :
  0 ≤ i → virt + i * sz < 2 ^ 64 → phys + i * sz < 2 ^ 52 → mapped_part 0 i m → mappable i →
  wp (Vmm_map (mkVmm top) (virt + i * sz) (phys + i * sz) flags size) m (λ r m',
    match r with
    | ROk _ => mapped_part 0 (i + 1) m' ∧ mappable (i + 1)
    | RErr _ => mapped_part 0 i m'
    end).
Proof.
  intros Hi Hv Hp ([T Hok] & Hkept & Hw) [Hgood Hnone]. destruct (size_pos size) as [Hsz _].
  set (v := virt + i * sz) in *. assert (u64_range v) as Hvr by (unfold u64_range, v; nia).
  destruct (map_refused top m v (phys + i * sz) flags size) as [[_ Heq]|[(_ & _ & Heq)|(Hc & Hvm & Hpm)]];
    [unfold wp; rewrite Heq; by split_and!; [exists T|..]..|].
  assert (entry_addr_ok (phys + i * sz)) as Hph by (apply (phys_ok _ size); [nia|done]).
  eapply wp_mono; [by apply (map_spec h top T)|]. intros [[]|[]] m' Hpost; unfold map_post in Hpost; [|..|done|done].
  - destruct Hpost as (Hcan & (T' & Hok' & _) & Hcpu & _ & _ & Hown & Hw').
    assert (∀ v', good_addr v' → same_path lv v v' ↔ page v' = i) as Hsp.
    { intros v' Hv'. rewrite (same_page size v v' (conj Hvr Hc) Hv'). apply page_start. }
    split; [split; [by exists T'|split; [by eapply kept_step; [..|rewrite Hown]|]]|split].
    + intros v' Hv'. rewrite Hw', (Hw v' Hv'). pose proof (Hsp v' Hv') as Hs.
      destruct (decide (page v' = i)) as [E|E].
      * rewrite decide_True by tauto. rewrite decide_True by lia. by rewrite E.
      * rewrite decide_False by tauto. by do 2 case_decide; try lia.
    + intros j Hj. destruct (decide (j = i)) as [->|]; [done|]. apply Hgood. lia.
    + intros v' Hv' Hq. destruct (decide (page v' = i)) as [E|E]; [|apply Hnone; [done|lia]].
      pose proof (Hw v' Hv') as Hw0. rewrite decide_False in Hw0 by lia. rewrite <- Hw0.
      eapply (can_map_none h (mem_of m) lv 3 top v v'); [done|destruct size; simpl; lia|].
      apply Hsp in E; [|done]. intros j ?. apply E. lia.
  - destruct Hpost as [-> _]. by split_and!; [exists T|..].
  - destruct Hpost as [(Hok' & (Hown & Hcpu & _) & _ & Hent) _].
    split; [by exists T|]. split; [by eapply kept_step; [..|rewrite Hown]|]. intros v' Hv'.
    rewrite (walk_same_entries h (vo_tables _ _ _ _ Hok) Hent); [by apply Hw|apply Hok].
Qed.

(** Taking back page [j] of the mapped ones. *)
Lemma unmap_one i j m :
  0 ≤ j < i → mapped_part j i m → mappable i →
  wp (Vmm_unmap (mkVmm top) (virt + j * sz) size) m (λ _ m', mapped_part (j + 1) i m').
Proof.
  intros Hj ([T Hok] & Hkept & Hw) [Hgood Hnone]. destruct (Hgood j Hj) as (Hv & Hvm & _).
  eapply wp_mono; [by apply (unmap_spec h top T m _ size Hok (proj2 Hv) Hvm)|].
  assert (∀ v', good_addr v' → same_path lv (virt + j * sz) v' ↔ page v' = j) as Hsp.
  { intros v' Hv'. rewrite (same_page size _ v' Hv Hv'). apply page_start. }
  intros [[]|[]] m' Hpost; unfold unmap_post in Hpost; [| |done|done].
  - destruct Hpost as (_ & (T' & Hok' & _) & Hcpu & _ & _ & [n Hown] & Hw'). split; [by exists T'|].
    split; [by eapply kept_step; [..|rewrite Hown]|].
    intros v' Hv'. rewrite Hw', (Hw v' Hv'). pose proof (Hsp v' Hv') as Hs.
    destruct (decide (page v' = j)) as [E|E].
    + rewrite decide_True by tauto. rewrite decide_False by lia. symmetry. apply Hnone; [done|lia].
    + rewrite decide_False by tauto. by do 2 case_decide; try lia.
  - destruct Hpost as [_ Hno]. exfalso. apply (Hno (range_entry j)). rewrite (Hw _ Hv).
    assert (page (virt + j * sz) = j) as -> by (by apply page_start). by rewrite decide_True by lia.
Qed.

Lemma unmap_back_spec i m :
  virt + Z.of_nat i * sz ≤ 2 ^ 64 → mapped_part 0 (Z.of_nat i) m → mappable (Z.of_nat i) →
  wp (unmap_back (mkVmm top) virt sz size i) m (λ _ m', mapped_part (Z.of_nat i) (Z.of_nat i) m').
Proof.
  intros Hb Hm Hok. destruct (size_pos size) as [Hsz _].
  apply (wp_for_range (λ j m', mapped_part j (Z.of_nat i) m')); [done| |done].
  intros j m' Hj Hpart. apply wp_bind, wp_u64_mul; [unfold u64_range; nia|].
  apply wp_bind, wp_u64_add; [unfold u64_range; nia|].
  eapply wp_seq; [apply (unmap_one (Z.of_nat i) j); [lia|done|done]|]. done.
Qed.

Lemma map_range_loop_spec n i m :
  virt + Z.of_nat (i + n) * sz ≤ 2 ^ 64 → phys + Z.of_nat (i + n) * sz ≤ 2 ^ 52 →
  mapped_part 0 (Z.of_nat i) m → mappable (Z.of_nat i) →
  wp (map_range_loop (mkVmm top) virt phys flags sz size i n) m (λ r m',
    match r with
    | ROk _ => mapped_part 0 (Z.of_nat (i + n)) m' ∧ mappable (Z.of_nat (i + n))
    | RErr _ => ∃ j, mapped_part j j m'
    end).
Proof.
  revert i m. destruct (size_pos size) as [Hsz _].
  induction n as [|n IH]; intros i m Hv Hp Hm Hok; simpl.
  { apply wp_ret. by rewrite Nat.add_0_r. }
  apply wp_bind, wp_u64_mul; [unfold u64_range; nia|]. apply wp_bind, wp_u64_add; [unfold u64_range; nia|].
  apply wp_bind, wp_u64_add; [unfold u64_range; nia|].
  eapply wp_seq; [apply (map_one (Z.of_nat i)); [lia|nia|nia|done|done]|].
  cbv beta. intros [[]|e] m' Hr.
  - destruct Hr as [Hm' Hok']. replace (i + S n)%nat with (S i + n)%nat in * by lia.
    replace (Z.of_nat i + 1) with (Z.of_nat (S i)) in * by lia. by apply IH.
  - eapply wp_seq; [apply unmap_back_spec; [nia|done|done]|]. cbv beta. intros [] m'' Hm''.
    apply wp_ret. eauto.
Qed.

Lemma map_range_effect T pages :
  vmm_ok h m0 top T → 0 ≤ pages → virt + pages * sz ≤ 2 ^ 64 → phys + pages * sz ≤ 2 ^ 52 →
  wp (Vmm_map_range (mkVmm top) virt phys pages flags size) m0 (λ r m',
    (∃ T', vmm_ok h m' top T') ∧ range_kept m' ∧
    (r = ROk tt →
       (∀ j, 0 ≤ j < pages → good_addr (virt + j * sz) ∧ (virt + j * sz) mod sz = 0) ∧
       ∀ v, good_addr v → 0 ≤ page v < pages → leaf_at h top (mem_of m0) v = None) ∧
    ∀ v, good_addr v → leaf_at h top (mem_of m') v =
      match r with
      | ROk _ => if decide (0 ≤ page v < pages)
                 then Some (lv, mapped_to size (phys + page v * sz) flags v)
                 else leaf_at h top (mem_of m0) v
      | RErr _ => leaf_at h top (mem_of m0) v
      end).
Proof.
  intros Hok Hn Hv Hp. assert (mapped_part 0 0 m0) as Hpart.
  { split_and!; [by exists T|by split_and!|]. intros v _. by rewrite decide_False by lia. }
  assert (mappable 0) as Hmap by (split; intros; lia).
  pose proof (map_range_loop_spec (Z.to_nat pages) 0 m0) as Hloop.
  rewrite Nat.add_0_l, Z2Nat.id in Hloop by done.
  eapply wp_mono; [by apply (Hloop Hv Hp Hpart Hmap)|]. cbv beta. unfold leaf_at. intros [[]|e] m' Hr.
  - destruct Hr as [(HT & Hkept & Hw) [Hgood Hnone]]. split_and!; [done|done| |].
    { intros _. split; [intros j Hj; by destruct (Hgood j Hj) as (? & ? & _)|].
      intros v Hgv Hq. by rewrite (proj2 Hgv), (Hnone v Hgv Hq). }
    intros v Hgv. rewrite (proj2 Hgv), (Hw v Hgv). case_decide as Hq; [|done]. do 2 f_equal. apply page_of_leaf; [|done].
    destruct (Hgood _ Hq) as (_ & _ & Hm). destruct (size_pos size) as [? _]. apply (phys_ok _ size); [nia|done].
  - destruct Hr as (j & HT & Hkept & Hw). split_and!; [done..|]. intros v Hgv.
    rewrite (proj2 Hgv), (Hw v Hgv). by rewrite decide_False by lia.
Qed.

(** C23: [map_range] is all or nothing.  If every page of the range could be
    mapped, the range translates page by page to the given frames and everything
    else as before; if any page fails, every address translates exactly as before
    the call.  Either way the tables are in order and the call returns. *)
Theorem map_range_all_or_nothing T pages :
  vmm_ok h m0 top T → 0 ≤ pages → virt + pages * sz ≤ 2 ^ 64 → phys + pages * sz ≤ 2 ^ 52 →
  ∃ r m', Vmm_map_range (mkVmm top) virt phys pages flags size m0 = Ok (r, m') ∧
    (∃ T', vmm_ok h m' top T') ∧
    ∀ v, good_addr v → translation h top (mem_of m') v =
      match r with
      | ROk _ => if decide (0 ≤ page v < pages)
                 then Some (mapped_to size (phys + page v * sz) flags v)
                 else translation h top (mem_of m0) v
      | RErr _ => translation h top (mem_of m0) v
      end.
Proof.
  intros Hok Hn Hv Hp.
  destruct (proj1 (wp_ok _ _ _) (map_range_effect T pages Hok Hn Hv Hp)) as (r & m' & Heq & HT & _ & _ & Ht).
  exists r, m'. split_and!; [done..|]. intros v Hgv. rewrite !translation_leaf, (Ht v Hgv).
  destruct r; [by case_decide|done].
Qed.
End range.

(** ** Unmapping a range *)
Section unmap_range.
Context `{Profile} {A : Type} `{!FrameAllocator A} `{!X86Paging} `{!PagingLaws} `{Res : !Reserved}.
Context (h top virt : Z) (size : PageSize) (m0 : Machine A VmmHw).
Implicit Types m : Machine A VmmHw.

Abbreviation mem_of m := (sy_mem (m_sys m)).
Abbreviation sz := (PageSize_bytes size).
Abbreviation page v := (v / sz - virt / sz).

(** The first [n] pages of the range were mapped and are not any more; all else
    is as in [m0]. *)
Definition unmapped_part (n : Z) m : Prop :=
  (∃ T, vmm_ok h m top T) ∧
  (∀ v, good_addr v → walk h (mem_of m) 3 top v =
     if decide (0 ≤ page v < n) then None else walk h (mem_of m0) 3 top v) ∧
  ∀ j, 0 ≤ j < n → ∃ e, walk h (mem_of m0) 3 top (virt + j * sz) = Some (size_level size, e).

(** Why page [n] stops the loop. *)
Definition unmap_stops (n : Z) (e : UnmapError) : Prop :=
  match e with
  | UnmapNonCanonical => is_canonical (virt + n * sz) = false
  | UnmapMisaligned => (virt + n * sz) mod sz ≠ 0
  | NotMapped => ∀ e, walk h (mem_of m0) 3 top (virt + n * sz) ≠ Some (size_level size, e)
  end.

Context (Hvirt : 0 ≤ virt).

Lemma unmap_next i m :
  0 ≤ i → virt + i * sz < 2 ^ 64 → unmapped_part i m →
  wp (Vmm_unmap (mkVmm top) (virt + i * sz) size) m (λ r m',
    match r with
    | ROk _ => unmapped_part (i + 1) m'
    | RErr e => unmapped_part i m' ∧ unmap_stops i e
    end).
Proof.
  intros Hi Hv Hpart. pose proof Hpart as ([T Hok] & Hw & Hwas). destruct (size_pos size) as [Hsz _].
  set (v := virt + i * sz) in *. assert (u64_range v) as Hvr by (unfold u64_range, v; nia).
  destruct (unmap_refused top m v size) as [[Hc Heq]|[(_ & Hm & Heq)|(Hc & Hvm)]];
    [unfold wp; rewrite Heq; by split..|].
  assert (page v = i) as Hpage by (unfold v; rewrite Z.div_add by lia; lia).
  assert (walk h (mem_of m) 3 top v = walk h (mem_of m0) 3 top v) as Hwv
    by (rewrite (Hw v (conj Hvr Hc)); by rewrite decide_False by lia).
  eapply wp_mono; [by apply (unmap_spec h top T m v size Hok Hc Hvm)|].
  intros [[]|[]] m' Hpost; unfold unmap_post in Hpost; [| |done|done].
  - destruct Hpost as ([e He] & (T' & Hok' & _) & _ & _ & _ & _ & Hw'). split_and!; [by exists T'| |].
    + intros v' Hv'. rewrite Hw', (Hw v' Hv'). pose proof (same_page size v v' (conj Hvr Hc) Hv') as Hs.
      destruct (decide (page v' = i)) as [E|E].
      * rewrite decide_True by (apply Hs; lia). by rewrite decide_True by lia.
      * rewrite decide_False by (rewrite Hs; lia). by do 2 case_decide; try lia.
    + intros j Hj. destruct (decide (j = i)) as [->|]; [|apply Hwas; lia]. exists e. by rewrite <- He, Hwv.
  - destruct Hpost as [-> Hno]. split; [done|]. intros e. unfold unmap_stops. fold v. rewrite <- Hwv. apply Hno.
Qed.

Lemma unmap_range_loop_spec n i m :
  virt + Z.of_nat (i + n) * sz ≤ 2 ^ 64 → unmapped_part (Z.of_nat i) m →
  wp (unmap_range_loop (mkVmm top) virt sz size i n) m (λ r m',
    match r with
    | ROk _ => unmapped_part (Z.of_nat (i + n)) m'
    | RErr e => ∃ k, 0 ≤ k < Z.of_nat (i + n) ∧ unmapped_part k m' ∧ unmap_stops k e
    end).
Proof.
  revert i m. destruct (size_pos size) as [Hsz _].
  induction n as [|n IH]; intros i m Hv Hm; simpl.
  { apply wp_ret. by rewrite Nat.add_0_r. }
  apply wp_bind, wp_u64_mul; [unfold u64_range; nia|]. apply wp_bind, wp_u64_add; [unfold u64_range; nia|].
  eapply wp_seq; [apply (unmap_next (Z.of_nat i)); [lia|nia|done]|]. cbv beta. intros [[]|e] m' Hr.
  - replace (i + S n)%nat with (S i + n)%nat in * by lia.
    replace (Z.of_nat i + 1) with (Z.of_nat (S i)) in * by lia. by apply IH.
  - apply wp_ret. destruct Hr. exists (Z.of_nat i). split_and!; [lia|lia|done|done].
Qed.

(** C24: [unmap_range] unmaps a prefix.  Some number [n] of pages from the start
    were mapped with this size and are unmapped; every other address translates
    as before.  [n] is the whole range when the call succeeds; otherwise the error
    is the one page [n] deserves. *)
Theorem unmap_range_prefix T pages :
  vmm_ok h m0 top T → 0 ≤ pages → virt + pages * sz ≤ 2 ^ 64 →
  ∃ r m' n, Vmm_unmap_range (mkVmm top) virt pages size m0 = Ok (r, m') ∧ (∃ T', vmm_ok h m' top T') ∧
    match r with ROk _ => n = pages | RErr e => 0 ≤ n < pages ∧ unmap_stops n e end ∧
    (∀ j, 0 ≤ j < n → ∃ e, walk h (mem_of m0) 3 top (virt + j * sz) = Some (size_level size, e)) ∧
    ∀ v, good_addr v → translation h top (mem_of m') v =
      if decide (0 ≤ page v < n) then None else translation h top (mem_of m0) v.
Proof.
  intros Hok Hn Hv. assert (unmapped_part 0 m0) as Hpart.
  { split_and!; [by exists T|intros v _; by rewrite decide_False by lia|intros; lia]. }
  pose proof (unmap_range_loop_spec (Z.to_nat pages) 0 m0) as Hloop.
  rewrite Nat.add_0_l, Z2Nat.id in Hloop by done.
  destruct (proj1 (wp_ok _ _ _) (Hloop Hv Hpart)) as (r & m' & Heq & Hr).
  assert (∃ n, unmapped_part n m' ∧ match r with ROk _ => n = pages | RErr e => 0 ≤ n < pages ∧ unmap_stops n e end)
    as (n & (HT & Hw & Hwas) & Hstop).
  { destruct r as [[]|e]; [by exists pages|]. destruct Hr as (k & ? & ? & ?). by exists k. }
  exists r, m', n. split_and!; [done..|]. intros v Hgv. unfold translation. rewrite (proj2 Hgv), (Hw v Hgv).
  by case_decide.
Qed.
End unmap_range.
