(* ===== verification/KernelVmm.v ===== *)
(** * KernelVmm: the page tables as the rest of the kernel sees them

    [map], [map_hhdm], [translate] and [unmap] of [src/kernel/src/mm/vmm.rs] take
    the [VMM] singleton's lock, which turns interrupts off, and run a method of
    [Vmm] on what it guards.  The theorems carry what [VmmSpec] says of the
    methods over to these functions: the lock is free again afterwards and the
    interrupt flag is what it was. *)

From S2P Require Import Prelude Bits Mem Pmm Dll PmmInv PmmList PmmOps PmmSpec.
From S2P Require Import Locks FrameAlloc Paging Vmm Walk VmmInv VmmOps VmmMap VmmUnmap VmmSpec.

#[export] Instance vmm_lens_ok : LensOk vmm_lens.
Proof. split; by intros; destruct s. Qed.

(** ** What a call does to translations

    The outcome of [map] and of [unmap], as a relation between the translations
    before and after; a translation comes with the level of its entry ([leaf_at]),
    and only values matter. *)
Section outcomes.
Context `{!X86Paging}.

Abbreviation leaves := (Z → option (nat * (Z * Z))).

Definition map_outcome (tr : leaves) (v phys flags : Z) (size : PageSize)
    (r : result unit MapError) (tr' : leaves) : Prop :=
  let sz := PageSize_bytes size in
  (∀ v', good_addr v' → tr' v' =
     match r with
     | ROk _ => if decide (v / sz = v' / sz) then Some (size_level size, mapped_to size phys flags v') else tr v'
     | RErr _ => tr v'
     end) ∧
  match r with
  | ROk _ => is_canonical v = true ∧ v mod sz = 0 ∧ ∀ v', good_addr v' → v / sz = v' / sz → tr v' = None
  | RErr AlreadyMapped => size = Base → ∀ v', good_addr v' → v / sz = v' / sz → is_Some (tr v')
  | RErr MapNonCanonical => is_canonical v = false
  | RErr MapMisaligned => v mod sz ≠ 0 ∨ phys mod sz ≠ 0
  | RErr OutOfMemory => True
  end.

Definition unmap_outcome (tr : leaves) (v : Z) (size : PageSize)
    (r : result unit UnmapError) (tr' : leaves) : Prop :=
  let sz := PageSize_bytes size in
  (∀ v', good_addr v' → tr' v' =
     match r with
     | ROk _ => if decide (v / sz = v' / sz) then None else tr v'
     | RErr _ => tr v'
     end) ∧
  match r with
  | ROk _ => ∀ v', good_addr v' → v / sz = v' / sz → fst <$> tr v' = Some (size_level size)
  | RErr NotMapped => size = Base → ∀ v', good_addr v' → v / sz = v' / sz → fst <$> tr v' ≠ Some 0%nat
  | RErr UnmapNonCanonical => is_canonical v = false
  | RErr UnmapMisaligned => v mod sz ≠ 0
  end.

Definition range_outcome (tr : leaves) (virt phys pages flags : Z) (size : PageSize)
    (r : result unit MapError) (tr' : leaves) : Prop :=
  let sz := PageSize_bytes size in
  let page v := v / sz - virt / sz in
  (∀ v, good_addr v → tr' v =
     match r with
     | ROk _ => if decide (0 ≤ page v < pages)
                then Some (size_level size, mapped_to size (phys + page v * sz) flags v) else tr v
     | RErr _ => tr v
     end) ∧
  (r = ROk tt →
     (∀ j, 0 ≤ j < pages → good_addr (virt + j * sz) ∧ (virt + j * sz) mod sz = 0) ∧
     ∀ v, good_addr v → 0 ≤ page v < pages → tr v = None).

#[export] Instance map_outcome_proper :
  Proper (pointwise_relation Z eq ==> eq ==> eq ==> eq ==> eq ==> eq ==> pointwise_relation Z eq ==> iff) map_outcome.
Proof.
  assert (∀ tr1 tr2 v phys flags size r tr1' tr2', pointwise_relation Z eq tr1 tr2 → pointwise_relation Z eq tr1' tr2' →
    map_outcome tr1 v phys flags size r tr1' → map_outcome tr2 v phys flags size r tr2') as Himp.
  { intros tr1 tr2 v phys flags size r tr1' tr2' He He' [Ht Hr]. split.
    - intros v' Hv'. rewrite <- (He' v'), (Ht v' Hv'), (He v'). done.
    - destruct r as [[]|[]]; [|intros Hs..|done|done|done].
      + destruct Hr as (Hc & Hm & Hn). split_and!; [done|done|]. intros v' Hv' Hp. rewrite <- (He v'). by apply Hn.
      + intros v' Hv' Hp. rewrite <- (He v'). by apply Hr. }
  intros tr1 tr2 He v ? <- p ? <- f ? <- sz ? <- r ? <- tr1' tr2' He'. split; by apply Himp.
Qed.

#[export] Instance unmap_outcome_proper :
  Proper (pointwise_relation Z eq ==> eq ==> eq ==> eq ==> pointwise_relation Z eq ==> iff) unmap_outcome.
Proof.
  intros tr1 tr2 He v ? <- sz ? <- r ? <- tr1' tr2' He'. unfold unmap_outcome.
  split; (intros [Ht Hr]; split; [intros v' Hv'; specialize (Ht v' Hv')|]).
  - by rewrite <- (He' v'), <- (He v').
  - destruct r as [[]|[]]; [..|done|done]; [|intros Hs]; intros v' Hv' Hp; rewrite <- (He v'); by apply Hr.
  - by rewrite (He' v'), (He v').
  - destruct r as [[]|[]]; [..|done|done]; [|intros Hs]; intros v' Hv' Hp; rewrite (He v'); by apply Hr.
Qed.
End outcomes.

Section kernel_vmm.
Context `{Profile} {A : Type} `{!FrameAllocator A} `{!X86Paging} `{!PagingLaws} `{Res : !Reserved}.
Context (h top : Z).
Implicit Types m : Machine A VmmHw.

Abbreviation mem_of m := (sy_mem (m_sys m)).
Abbreviation trans m v := (translation h top (sy_mem (m_sys m)) v).

(** The singleton is installed with the tables under [top], and its lock free. *)
Definition kernel_vmm_ok m : Prop :=
  (∃ T, vmm_ok h m top T) ∧ mx_data (vh_vmm (m_own m)) = Some (mkVmm top) ∧
  il_locked (mx_raw (vh_vmm (m_own m))) = false.

(** The same memory with another interrupt flag and another lock. *)
Definition with_lock_state (i : bool) (raw : IntLock) m : Machine A VmmHw :=
  mkMachine (mkSys (mem_of m) i (sy_hhdm (m_sys m)) (sy_alloc (m_sys m)))
            (mkVmmHw (mkMutex raw (Some (mkVmm top))) (vh_cr3 (m_own m)) (vh_tlb (m_own m))).

Lemma lock_state_ok i raw m T : vmm_ok h m top T → vmm_ok h (with_lock_state i raw m) top T.
Proof.
  intros [Hfa Hh Ht HT Hap].
  destruct (fa_frame h (m_sys m) (mem_of m) i (sy_hhdm (m_sys m)) Hfa) as (Hfa' & Hfr & Htot); [done|].
  split; cbn [with_lock_state m_sys sy_hhdm sy_mem]; [done|done|by rewrite Htot|by rewrite Hfr, Htot|by rewrite Hfr].
Qed.

Lemma lock_state_total T i raw m :
  vmm_ok h m top T → fa_total (m_sys (with_lock_state i raw m)) = fa_total (m_sys m).
Proof.
  intros [Hfa _ _ _ _].
  by destruct (fa_frame h (m_sys m) (mem_of m) i (sy_hhdm (m_sys m)) Hfa) as (_ & _ & Htot).
Qed.

Lemma wp_with_vmm {B : Type} (f : Vmm → M (Machine A VmmHw) B) m (Q : B → Machine A VmmHw → Prop) :
  kernel_vmm_ok m →
  let i := sy_if (m_sys m) in
  wp (f (mkVmm top)) (with_lock_state false (mkIntLock true i) m) (λ b m',
    vh_vmm (m_own m') = mkMutex (mkIntLock true i) (Some (mkVmm top)) ∧ sy_if (m_sys m') = false ∧
    Q b (with_lock_state i (mkIntLock false i) m')) →
  wp (with_vmm f) m Q.
Proof.
  intros (_ & Hd & Hl) i Hf. apply wp_with_lock; [apply _..|exact Hl|]. apply wp_bind, wp_gets. simpl. rewrite Hd.
  apply wp_bind, wp_ret, wp_bind, wp_bind. eapply wp_mono; [exact Hf|].
  cbv beta. intros b m' (Hv & Hi & HQ). apply wp_ret, wp_bind, wp_modify, wp_ret. simpl. rewrite Hv, Hi.
  split_and!; [done|done|]. by destruct m' as [[] []].
Qed.

(** What a call may do besides changing translations. *)
Definition call_ok m m' : Prop :=
  kernel_vmm_ok m' ∧ sys_kept (m_sys m) (m_sys m') ∧ vh_cr3 (m_own m') = vh_cr3 (m_own m).

(** A method under the lock. *)
Lemma wp_call {B : Type} (f : Vmm → M (Machine A VmmHw) B) m (R : B → mem → Prop) :
  kernel_vmm_ok m →
  (∀ T m1, vmm_ok h m1 top T → mem_of m1 = mem_of m → wp (f (mkVmm top)) m1 (λ b m', R b (mem_of m') ∧
     (∃ T', vmm_ok h m' top T') ∧ sys_kept (m_sys m1) (m_sys m') ∧ vh_vmm (m_own m') = vh_vmm (m_own m1) ∧
     vh_cr3 (m_own m') = vh_cr3 (m_own m1))) →
  wp (with_vmm f) m (λ b m', R b (mem_of m') ∧ call_ok m m').
Proof.
  intros Hk Hf. pose proof Hk as ([T Hok] & _ & _). apply wp_with_vmm; [done|].
  eapply wp_mono; [apply (Hf T); [by apply lock_state_ok|done]|].
  cbv beta. intros b m' (HR & [T' Hok'] & (Hcpu & Hkept & Htot) & Hv & Hc). split_and!; [done|apply Hcpu|done|].
  split_and!; [|split_and!; [split; [done|apply (proj2 Hcpu)]|exact Hkept|by rewrite (lock_state_total T'), Htot, (lock_state_total T)]|done].
  split_and!; [|done|done]. exists T'. by apply lock_state_ok.
Qed.

(** ** The methods, with what [wp_call] asks for *)

(** An entry in use on the way to a 4 KiB page maps the page, or part of what
    contains it. *)
Lemma in_use_walks w l t v : can_map h w 0 l t v = false → is_Some (walk h w l t v).
Proof.
  revert t. induction l as [|l IH]; intros t; cbn [can_map walk].
  - destruct (presentb _); [|done]. by rewrite Nat.eqb_refl.
  - destruct (presentb _); [|done]. cbn [Nat.eqb]. destruct (leafb _ _); [done|]. apply IH.
Qed.

Lemma walk_same_path w l t v v' :
  (∀ j, (j ≤ l)%nat → table_index j v = table_index j v') → walk h w l t v' = walk h w l t v.
Proof.
  revert t. induction l as [|l IH]; intros t Hj; cbn [walk]; rewrite <- (Hj _ (le_n _)); [done|].
  destruct (presentb _); [|done]. destruct (leafb _ _); [done|]. apply IH. intros j ?. apply Hj. lia.
Qed.

Lemma walk_level w l t v k e : walk h w l t v = Some (k, e) → (k ≤ l)%nat.
Proof.
  revert t. induction l as [|l IH]; intros t; cbn [walk]; (destruct (presentb _); [|done]).
  - destruct (leafb _ _); [|done]. by intros [= <- _].
  - destruct (leafb _ _); [by intros [= <- _]|]. intros Hw%IH. lia.
Qed.

(** A walk that ends at a level does not look below it. *)
Lemma walk_ends w l t v v' k e :
  walk h w l t v = Some (k, e) → (∀ j, (k ≤ j ≤ l)%nat → table_index j v = table_index j v') →
  walk h w l t v' = Some (k, e).
Proof.
  revert t. induction l as [|l IH]; intros t Hw Hj; cbn [walk] in *.
  - destruct (presentb _) eqn:Hp; [|done]. destruct (leafb _ _) eqn:Hl; [|done]. simplify_eq.
    rewrite <- (Hj 0%nat) by lia. by rewrite Hp.
  - destruct (presentb _) eqn:Hp; [|done]. destruct (leafb _ _) eqn:Hl.
    + simplify_eq. rewrite <- (Hj (S l)) by lia. by rewrite Hp, Hl.
    + assert (k ≤ l)%nat as Hk by (by eapply walk_level). rewrite <- (Hj (S l)) by lia. rewrite Hp, Hl.
      apply IH; [done|]. intros j ?. apply Hj. lia.
Qed.

Lemma map_effect T m v phys flags size :
  vmm_ok h m top T → u64_range v → 0 ≤ phys < 2 ^ 52 → flag_bits_ok flags →
  wp (Vmm_map (mkVmm top) v phys flags size) m (λ r m',
    map_outcome (leaf_at h top (mem_of m)) v phys flags size r (leaf_at h top (mem_of m')) ∧
    (∃ T', vmm_ok h m' top T') ∧ sys_kept (m_sys m) (m_sys m') ∧
    vh_vmm (m_own m') = vh_vmm (m_own m) ∧ vh_cr3 (m_own m') = vh_cr3 (m_own m)).
Proof.
  intros Hok Hv Hp Hf.
  destruct (map_refused top m v phys flags size) as [[Hc Heq]|[(_ & Hbad & Heq)|(Hc & Hvm & Hpm)]];
    [unfold wp; rewrite Heq; split_and!; by eauto || split..|].
  pose proof (phys_ok phys size Hp Hpm) as Hph.
  assert (∀ v', good_addr v' → v / PageSize_bytes size = v' / PageSize_bytes size →
    ∀ j, (size_level size ≤ j ≤ 3)%nat → table_index j v = table_index j v') as Hpath
    by (intros v' Hv' Hpage; by apply same_page).
  eapply wp_mono; [by apply (map_spec h top T m v phys flags size)|].
  intros [[]|[]] m' Hpost; unfold map_post in Hpost; [| | |done|done].
  - destruct Hpost as (Hcan & (T' & Hok' & _) & Hcpu & _ & _ & Hown & Hw). rewrite Hown.
    split_and!; [split|by exists T'|done..].
    + intros v' Hv'. unfold leaf_at. rewrite (proj2 Hv'), Hw.
      pose proof (same_page size v v' (conj Hv Hc) Hv') as Hsp. do 2 case_decide; try tauto. by rewrite page_of_leaf.
    + split_and!; [done|done|]. intros v' Hv' Hpage. unfold leaf_at. rewrite (proj2 Hv').
      rewrite (can_map_none h _ _ 3 top v v' Hcan); [done|destruct size; simpl; lia|by apply Hpath].
  - destruct Hpost as [-> Hcan]. split_and!; [split; [done|]|by exists T|done..]. intros -> v' Hv' Hpage.
    unfold leaf_at. rewrite (proj2 Hv'), (walk_same_path _ _ _ v v').
    + by destruct (in_use_walks _ _ _ _ Hcan) as [[k e] ->].
    + intros j Hj. apply (Hpath v' Hv' Hpage). simpl. lia.
  - destruct Hpost as [Hlike _]. pose proof Hlike as (Hok' & (Hown & Hcpu & _) & _). rewrite Hown.
    split_and!; [split; [|done]|by exists T|done..]. intros v' _. unfold leaf_at.
    destruct Hlike as (_ & _ & _ & Hent).
    rewrite (walk_same_entries h (vo_tables _ _ _ _ Hok) Hent); [done|]. apply Hok.
Qed.

Lemma unmap_effect T m v size :
  vmm_ok h m top T → u64_range v →
  wp (Vmm_unmap (mkVmm top) v size) m (λ r m',
    unmap_outcome (leaf_at h top (mem_of m)) v size r (leaf_at h top (mem_of m')) ∧
    (∃ T', vmm_ok h m' top T') ∧ sys_kept (m_sys m) (m_sys m') ∧
    vh_vmm (m_own m') = vh_vmm (m_own m) ∧ vh_cr3 (m_own m') = vh_cr3 (m_own m)).
Proof.
  intros Hok Hv.
  destruct (unmap_refused top m v size) as [[Hc Heq]|[(_ & Hbad & Heq)|(Hc & Hvm)]];
    [unfold wp; rewrite Heq; split_and!; by eauto || split..|].
  eapply wp_mono; [by apply (unmap_spec h top T m v size)|].
  intros [[]|[]] m' Hpost; unfold unmap_post in Hpost; [| |done|done].
  - destruct Hpost as (Hwas & (T' & Hok' & _) & Hcpu & _ & _ & [n Hown] & Hw). rewrite Hown.
    split_and!; [split|by exists T'|done..].
    + intros v' Hv'. unfold leaf_at. rewrite (proj2 Hv'), Hw.
      pose proof (same_page size v v' (conj Hv Hc) Hv') as Hsp. by do 2 case_decide; try tauto.
    + intros v' Hv' Hpage. unfold leaf_at. rewrite (proj2 Hv'). destruct Hwas as [e He].
      rewrite (walk_ends _ 3 top v v' _ e He); [done|]. by apply same_page.
  - destruct Hpost as [-> Hno]. split_and!; [split; [done|]|by eauto|done..]. intros -> v' Hv' Hpage.
    unfold leaf_at. rewrite (proj2 Hv'). destruct (walk _ _ _ _ v') as [[k e]|] eqn:Hw; [|done]. intros [= ->].
    apply (Hno e), (walk_ends _ 3 top v' v 0%nat e Hw). intros j Hj. symmetry. by apply (same_page Base v v' (conj Hv Hc) Hv').
Qed.

(** ** The functions *)
Lemma kernel_map_spec m v phys flags size :
  kernel_vmm_ok m → u64_range v → 0 ≤ phys < 2 ^ 52 → flag_bits_ok flags →
  wp (map v phys flags size) m (λ r m',
    map_outcome (leaf_at h top (mem_of m)) v phys flags size r (leaf_at h top (mem_of m')) ∧ call_ok m m').
Proof.
  intros Hk Hv Hp Hf. apply (wp_call (λ vmm, Vmm_map vmm v phys flags size) m
    (λ r w, map_outcome (leaf_at h top (mem_of m)) v phys flags size r (leaf_at h top w)) Hk).
  intros T1 m1 Hok1 Hmem. rewrite <- Hmem. by apply (map_effect T1).
Qed.

Lemma kernel_unmap_spec m v size :
  kernel_vmm_ok m → u64_range v →
  wp (unmap v size) m (λ r m',
    unmap_outcome (leaf_at h top (mem_of m)) v size r (leaf_at h top (mem_of m')) ∧ call_ok m m').
Proof.
  intros Hk Hv. apply (wp_call (λ vmm, Vmm_unmap vmm v size) m
    (λ r w, unmap_outcome (leaf_at h top (mem_of m)) v size r (leaf_at h top w)) Hk).
  intros T1 m1 Hok1 Hmem. rewrite <- Hmem. by apply (unmap_effect T1).
Qed.

Lemma kernel_map_hhdm_spec m phys flags size :
  kernel_vmm_ok m → 0 ≤ phys < 2 ^ 52 → phys + h < 2 ^ 64 → flag_bits_ok flags →
  wp (map_hhdm phys flags size) m (λ r m', ∃ r',
    map_outcome (leaf_at h top (mem_of m)) (phys + h) phys flags size r' (leaf_at h top (mem_of m')) ∧ call_ok m m' ∧
    r = match r' with ROk _ => ROk (phys + h) | RErr e => RErr e end).
Proof.
  intros Hk Hp Hb Hf. pose proof Hk as ([T Hok] & _ & _). destruct (fa_bounds h _ (vo_fa _ _ _ _ Hok)) as (Hh & _).
  unfold map_hhdm. apply wp_bind. eapply wp_load_hhdm; [done|].
  assert (u64_range (phys + h)) as Hv by (unfold u64_range; lia). apply wp_bind, wp_u64_add; [done|].
  eapply wp_seq; [by apply kernel_map_spec|]. cbv beta. intros r m' [Ht Hc].
  destruct r as [[]|e]; apply wp_ret; by eexists.
Qed.

Lemma kernel_translate_spec m v :
  kernel_vmm_ok m → wp (translate v) m (λ t m', t = trans m v ∧ call_ok m m').
Proof.
  intros Hk. apply (wp_call (λ vmm, Vmm_translate vmm v) m (λ t w, t = trans m v) Hk).
  intros T1 m1 Hok1 Hmem. eapply wp_mono; [by apply (translate_spec h top T1)|].
  cbv beta. intros r m2 [-> ->]. rewrite Hmem. by split_and!; eauto.
Qed.

(** ** The theorems *)

(** [vmm::map_hhdm] from the installed singleton.  On success the address it
    returns is the physical one in the direct map, [vmm::translate] of it gives
    the physical address back with the requested flags, and only that page
    changed; on failure no translation changed.  Either way the call returns, the
    lock is free, the interrupt flag is what it was, and so is [CR3]. *)
Theorem map_hhdm_correct m phys flags size :
  kernel_vmm_ok m → 0 ≤ phys < 2 ^ 52 → phys + h < 2 ^ 64 → flag_bits_ok flags →
  ∃ r m', map_hhdm phys flags size m = Ok (r, m') ∧ call_ok m m' ∧
    match r with
    | ROk virt => virt = phys + h ∧
        wp (translate virt) m' (λ t m'', t = Some (phys, snd (mapped_to size phys flags virt)) ∧ call_ok m m'') ∧
        ∀ v', good_addr v' → virt / PageSize_bytes size ≠ v' / PageSize_bytes size → trans m' v' = trans m v'
    | RErr _ => ∀ v', good_addr v' → trans m' v' = trans m v'
    end.
Proof.
  intros Hk Hp Hb Hf. apply (wp_ok (map_hhdm phys flags size) m).
  eapply wp_mono; [by apply kernel_map_hhdm_spec|]. cbv beta. intros r m' ([[]|e] & [Ht Hr] & Hcall & ->).
  2:{ split; [done|]. intros v' Hv'. by rewrite !translation_leaf, (Ht v' Hv'). }
  destruct Hr as (Hc & Hm & _). pose proof Hk as ([T Hok] & _ & _).
  destruct (fa_bounds h _ (vo_fa _ _ _ _ Hok)) as (Hh & _).
  assert (good_addr (phys + h)) as Hg by (split; [unfold u64_range; lia|done]). split_and!; [done|done| |].
  - eapply wp_mono; [apply kernel_translate_spec, Hcall|]. cbv beta. intros t m2 [-> Hcall2]. split.
    + rewrite translation_leaf, (Ht _ Hg), decide_True by done. cbn. unfold mapped_to. rewrite Hm, Z.add_0_r. done.
    + destruct Hcall as (_ & Hcpu & Hcr), Hcall2 as (? & Hcpu2 & Hcr2).
      split_and!; [done|by etransitivity|by rewrite Hcr2].
  - intros v' Hv' Hne. rewrite !translation_leaf, (Ht v' Hv'). by rewrite decide_False.
Qed.

(** [vmm::unmap] from the installed singleton: on success exactly the page
    ceases to translate, on failure nothing changes; the call returns with the
    lock free and the interrupt flag as it was. *)
Theorem kernel_unmap_correct m v size :
  kernel_vmm_ok m → u64_range v →
  ∃ r m', unmap v size m = Ok (r, m') ∧ call_ok m m' ∧
    ∀ v', good_addr v' → trans m' v' =
      match r with
      | ROk _ => if decide (v / PageSize_bytes size = v' / PageSize_bytes size) then None else trans m v'
      | RErr _ => trans m v'
      end.
Proof.
  intros Hk Hv. destruct (proj1 (wp_ok _ _ _) (kernel_unmap_spec m v size Hk Hv)) as (r & m' & Heq & [Ht _] & Hc).
  exists r, m'. split_and!; [done..|]. intros v' Hv'. rewrite !translation_leaf, (Ht v' Hv').
  destruct r; [by case_decide|done].
Qed.
End kernel_vmm.
