(* ===== verification/TableTree.v ===== *)
(** * TableTree: a page table as a tree of frames

    [Walk] follows one address; this file looks at all of a table at once: the
    list of the tables below it ([tables_of]), what an address sees on its way
    down ([view]: the flags of the tables it passes and the entry that maps it),
    and how both depend on memory.  A tree whose tables are distinct frames in
    use is a page table in the sense of [tables_ok]. *)

From S2P Require Import Prelude Bits Mem Pmm Dll PmmInv PmmList PmmOps PmmSpec.
From S2P Require Import Locks FrameAlloc Paging Walk.

(** ** Lists *)
Lemma bind_ext_in {A B : Type} (f g : A → list B) (l : list A) :
  (∀ x, x ∈ l → f x = g x) → l ≫= f = l ≫= g.
Proof.
  induction l as [|x l IH]; intros Hfg; [done|]. rewrite !bind_cons, Hfg by by left.
  f_equal. apply IH. intros y Hy. apply Hfg. by right.
Qed.

Lemma bind_nil_in {A B : Type} (f : A → list B) (l : list A) :
  (∀ x, x ∈ l → f x = []) → l ≫= f = [].
Proof.
  induction l as [|x l IH]; intros Hf; [done|]. rewrite bind_cons, Hf by by left.
  apply IH. intros y Hy. apply Hf. by right.
Qed.

(** An element that occurs under two keys makes the whole list have a duplicate. *)
Lemma NoDup_bind_inj {A B C : Type} (g : B → C) (f : A → list B) (l : list A) x y a b :
  NoDup (g <$> (l ≫= f)) → x ∈ l → y ∈ l → a ∈ f x → b ∈ f y → g a = g b → x = y.
Proof.
  induction l as [|z l IH]; intros Hnd Hx Hy Ha Hb Hg; [by apply not_elem_of_nil in Hx|].
  rewrite bind_cons, fmap_app in Hnd. apply NoDup_app in Hnd as (_ & Hsep & Hnd).
  assert (∀ u c, u ∈ l → c ∈ f u → g c ∈ g <$> (l ≫= f)) as Hin.
  { intros u c Hu Hc. apply list_elem_of_fmap_2, list_elem_of_bind. by exists u. }
  apply elem_of_cons in Hx as [->|Hx]; apply elem_of_cons in Hy as [->|Hy]; [done|..].
  - destruct (Hsep (g a)); [by apply list_elem_of_fmap_2|]. rewrite Hg. by eapply Hin.
  - destruct (Hsep (g b)); [by apply list_elem_of_fmap_2|]. rewrite <- Hg. by eapply Hin.
  - by apply IH.
Qed.

Lemma NoDup_bind_in {A B C : Type} (g : B → C) (f : A → list B) (l : list A) x :
  NoDup (g <$> (l ≫= f)) → x ∈ l → NoDup (g <$> f x).
Proof.
  induction l as [|z l IH]; intros Hnd Hx; [by apply not_elem_of_nil in Hx|].
  rewrite bind_cons, fmap_app in Hnd. apply NoDup_app in Hnd as (Hz & _ & Hnd).
  apply elem_of_cons in Hx as [->|Hx]; [done|by apply IH].
Qed.

(** ** The tree *)
Section tree.
Context (h : Z).
Implicit Types (w : mem) (L : list (Z * nat)).

(** The tables at and below [p], each with its level. *)
Fixpoint tables_of w (l : nat) (p : Z) : list (Z * nat) :=
  (p, l) :: (seqZ 0 512 ≫= λ i,
    let e := ent w h p i in
    if presentb e && negb (leafb l e) then
      match l with O => [] | S l' => tables_of w l' (addr e) end
    else []).

(** Those below entry [i] of [p], and below the first [n] entries. *)
Definition below w (l : nat) (p i : Z) : list (Z * nat) :=
  let e := ent w h p i in
  if presentb e && negb (leafb l e) then
    match l with O => [] | S l' => tables_of w l' (addr e) end
  else [].

Definition below_to w (l : nat) (p n : Z) : list (Z * nat) := seqZ 0 n ≫= below w l p.

Lemma tables_of_unfold w l p : tables_of w l p = (p, l) :: below_to w l p 512.
Proof. by destruct l. Qed.

Lemma below_to_S w l p n : 0 ≤ n → below_to w l p (n + 1) = below_to w l p n ++ below w l p n.
Proof.
  intros Hn. unfold below_to. rewrite seqZ_app by lia. rewrite bind_app. f_equal.
  rewrite seqZ_cons by lia. simpl. by rewrite app_nil_r.
Qed.

Lemma below_to_length w l p n n' :
  0 ≤ n ≤ n' → (length (below_to w l p n) ≤ length (below_to w l p n'))%nat.
Proof.
  intros Hn. unfold below_to. replace n' with (n + (n' - n)) by lia. rewrite seqZ_app by lia.
  rewrite bind_app, length_app. lia.
Qed.

Lemma below_absent w l p i : presentb (ent w h p i) = false → below w l p i = [].
Proof. intros He. unfold below. by rewrite He. Qed.

Lemma below_leaf w l p i : leafb l (ent w h p i) = true → below w l p i = [].
Proof. intros He. unfold below. by rewrite He, andb_false_r. Qed.

Lemma below_child w l p i c : points h w (S l) p i c → below w (S l) p i = tables_of w l c.
Proof. intros (Hp & Hl & <-). unfold below. by rewrite Hp, Hl. Qed.

(** Entries beyond the first [n] are absent. *)
Lemma below_to_rest w l p n :
  0 ≤ n ≤ 512 → (∀ i, n ≤ i < 512 → presentb (ent w h p i) = false) →
  below_to w l p 512 = below_to w l p n.
Proof.
  intros Hn Habs. unfold below_to. replace 512 with (n + (512 - n)) by lia.
  rewrite seqZ_app, bind_app by lia. rewrite (bind_nil_in _ (seqZ (0 + n) _)); [apply app_nil_r|].
  intros i Hi%elem_of_seqZ. apply below_absent, Habs. lia.
Qed.

Lemma elem_of_below w l p q k :
  (q, k) ∈ below_to w l p 512 ↔
  ∃ i l' c, 0 ≤ i < 512 ∧ l = S l' ∧ points h w l p i c ∧ (q, k) ∈ tables_of w l' c.
Proof.
  unfold below_to. rewrite list_elem_of_bind. split.
  - intros (i & Hin & Hi%elem_of_seqZ). unfold below in Hin.
    destruct (presentb (ent w h p i)) eqn:Hp; [|by apply not_elem_of_nil in Hin].
    destruct (leafb l (ent w h p i)) eqn:Hl; [by apply not_elem_of_nil in Hin|].
    destruct l as [|l]; [by apply not_elem_of_nil in Hin|]. by exists i, l, (addr (ent w h p i)).
  - intros (i & l' & c & Hi & -> & Hpt & Hin). exists i. rewrite (below_child _ _ _ _ c) by done.
    split; [done|]. apply elem_of_seqZ. lia.
Qed.

Lemma elem_of_tables w l p q k :
  (q, k) ∈ tables_of w l p ↔ (q = p ∧ k = l) ∨ (q, k) ∈ below_to w l p 512.
Proof. rewrite tables_of_unfold, elem_of_cons. naive_solver. Qed.

Lemma tables_of_root w l p : (p, l) ∈ tables_of w l p.
Proof. apply elem_of_tables. by left. Qed.

Lemma tables_of_level w l p q k : (q, k) ∈ tables_of w l p → (k ≤ l)%nat.
Proof.
  revert p. induction l as [|l IH]; intros p [[_ ->]|Hin]%elem_of_tables; [done| |done|];
    apply elem_of_below in Hin as (i & l' & c & Hi & ? & Hpt & Hin); [done|].
  simplify_eq. apply IH in Hin. lia.
Qed.

(** A table a listed one points to is listed too. *)
Lemma tables_of_child w l p q k i c :
  (q, k) ∈ tables_of w l p → 0 ≤ i < 512 → points h w k q i c →
  ∃ k', k = S k' ∧ (c, k') ∈ below_to w l p 512.
Proof.
  revert p. induction l as [|l IH]; intros p [[-> ->]|Hin]%elem_of_tables Hi Hpt.
  - destruct Hpt as (_ & Hl & _). unfold leafb in Hl. done.
  - apply elem_of_below in Hin as (? & ? & ? & _ & [=] & _).
  - exists l. split; [done|]. apply elem_of_below. exists i, l, c. eauto using tables_of_root.
  - apply elem_of_below in Hin as (j & l' & d & Hj & [= <-] & Hpd & Hin).
    destruct (IH d Hin Hi Hpt) as (k' & -> & Hc). exists k'. split; [done|].
    apply elem_of_below. exists j, l, d. refine (conj Hj (conj eq_refl (conj Hpd _))). apply elem_of_tables. by right.
Qed.

(** No table has two parents when the list has no duplicate. *)
Lemma tables_of_inj w l p q k i q' k' i' c :
  NoDup (fst <$> tables_of w l p) → (q, k) ∈ tables_of w l p → (q', k') ∈ tables_of w l p →
  0 ≤ i < 512 → 0 ≤ i' < 512 → points h w k q i c → points h w k' q' i' c → q = q' ∧ i = i'.
Proof.
  revert p. induction l as [|l IH]; intros p Hnd Hq Hq' Hi Hi' Hpt Hpt'.
  - destruct (tables_of_child w 0 p q k i c Hq Hi Hpt) as (k1 & -> & _).
    apply tables_of_level in Hq. lia.
  - rewrite tables_of_unfold, fmap_cons in Hnd. apply NoDup_cons in Hnd as [Hroot Hnd].
    assert (∀ a j d b r, 0 ≤ j < 512 → points h w (S l) p j d → (a, b) ∈ tables_of w l d →
      ∀ j' d', 0 ≤ j' < 512 → points h w (S l) p j' d' → (a, r) ∈ tables_of w l d' → j = j') as Huniq.
    { intros a j d b r Hj Hd Ha j' d' Hj' Hd' Ha'.
      apply (NoDup_bind_inj fst (below w (S l) p) (seqZ 0 512) j j' (a, b) (a, r)); try done;
        [apply elem_of_seqZ; lia..|by rewrite (below_child _ _ _ _ d)|by rewrite (below_child _ _ _ _ d')]. }
    assert (∀ j d, 0 ≤ j < 512 → points h w (S l) p j d → NoDup (fst <$> tables_of w l d)) as Hsub.
    { intros j d Hj Hd. rewrite <- (below_child w l p j d Hd).
      apply (NoDup_bind_in fst (below w (S l) p) (seqZ 0 512)); [done|apply elem_of_seqZ; lia]. }
    assert (∀ j a b j' d, 0 ≤ j < 512 → points h w (S l) p j c → 0 ≤ j' < 512 → points h w (S l) p j' d →
      (a, b) ∈ tables_of w l d → ∀ x, 0 ≤ x < 512 → points h w b a x c → False) as Hmixed.
    { intros j a b j' d Hj Hc Hj' Hd Hab x Hx Hac.
      destruct (tables_of_child w l d a b x c Hab Hx Hac) as (b' & -> & Hin).
      assert (j = j') as <- by (eapply (Huniq c j c l b'); eauto using tables_of_root;
        apply elem_of_tables; by right).
      destruct Hc as (_ & _ & Hc), Hd as (Hd1 & Hd2 & Hd). rewrite Hc in Hd. subst d.
      pose proof (Hsub j c Hj (conj Hd1 (conj Hd2 Hc))) as Hndc.
      rewrite tables_of_unfold, fmap_cons in Hndc. apply NoDup_cons in Hndc as [Hn _].
      apply Hn. by apply (list_elem_of_fmap_2 fst _ (c, b')). }
    apply elem_of_tables in Hq as [[-> ->]|Hq]; apply elem_of_tables in Hq' as [[-> ->]|Hq'].
    + split; [done|]. eapply (Huniq c i c l l); eauto using tables_of_root.
    + apply elem_of_below in Hq' as (j & l' & d & Hj & [= <-] & Hd & Hin). exfalso.
      by apply (Hmixed i q' k' j d Hi Hpt Hj Hd Hin i').
    + apply elem_of_below in Hq as (j & l' & d & Hj & [= <-] & Hd & Hin). exfalso.
      by apply (Hmixed i' q k j d Hi' Hpt' Hj Hd Hin i).
    + apply elem_of_below in Hq as (j & l' & d & Hj & [= <-] & Hd & Hin).
      apply elem_of_below in Hq' as (j' & l' & d' & Hj' & [= <-] & Hd' & Hin').
      destruct (tables_of_child w l d q k i c Hin Hi Hpt) as (k1 & -> & Hc).
      destruct (tables_of_child w l d' q' k' i' c Hin' Hi' Hpt') as (k2 & -> & Hc').
      assert (j = j') as <- by (eapply (Huniq c j d k1 k2); eauto; apply elem_of_tables; by right).
      assert (d = d') as <- by (destruct Hd as (_ & _ & <-), Hd' as (_ & _ & <-); done).
      by apply (IH d (Hsub j d Hj Hd)).
Qed.

(** ** How the tree depends on memory *)

(** Memories that agree on the entries of the tables in [L]. *)
Definition agree L w w' : Prop :=
  ∀ q k i, (q, k) ∈ L → 0 ≤ i < 512 → ent w' h q i = ent w h q i.

Lemma agree_mono L L' w w' : agree L w w' → (∀ x, x ∈ L' → x ∈ L) → agree L' w w'.
Proof. intros Ha Hs q k i Hq. apply (Ha q k), Hs, Hq. Qed.

Lemma agree_child w w' l p i c :
  agree (tables_of w (S l) p) w w' → 0 ≤ i < 512 → points h w (S l) p i c →
  agree (tables_of w l c) w w'.
Proof.
  intros Ha Hi Hc. eapply agree_mono; [exact Ha|]. intros [q k] Hin. apply elem_of_tables.
  right. apply elem_of_below. by exists i, l, c.
Qed.

Lemma tables_of_ext w w' l p : agree (tables_of w l p) w w' → tables_of w' l p = tables_of w l p.
Proof.
  revert p. induction l as [|l IH]; intros p Ha; rewrite !tables_of_unfold; f_equal;
    apply bind_ext_in; intros i Hi%elem_of_seqZ; unfold below;
    rewrite (Ha p _ i) by (apply tables_of_root || lia); [done|].
  destruct (presentb (ent w h p i)) eqn:Hp; [|done]. destruct (leafb (S l) (ent w h p i)) eqn:Hl; [done|].
  simpl. apply IH. by apply (agree_child w w' l p i); [|lia|].
Qed.

(** Memories that differ in frames none of these tables is in. *)
Lemma agree_outside L (F : gset Z) w w' :
  same_outside (frame_words h (λ g, g ∈ F)) w w' →
  (∀ q k, (q, k) ∈ L → ∃ f, q = f * FRAME_SIZE ∧ f ∉ F) → agree L w w'.
Proof.
  intros Hw HL q k i Hq Hi. destruct (HL q k Hq) as (f & -> & Hf).
  apply (same_outside_read _ _ _ _ Hw). intros (g & Hg & Ha). apply Hf. replace f with g; [done|].
  unfold fb_addr in Ha. rewrite FRAME_SIZE_val in Ha. lia.
Qed.

(** ** What an address sees on its way down *)
Context `{!X86Paging} `{!PagingLaws}.

(** The flags of an entry; in an entry that points to a table, all but the
    address. *)
Definition entry_flags (e : Z) : Z := Z.land e (u64_not ENTRY_ADDR_MASK).

(** The view through entry [e], given the views of the tables one level down. *)
Definition entry_view (rec : Z → list Z * option (nat * Z)) (l : nat) (e : Z) : list Z * option (nat * Z) :=
  if presentb e then
    if leafb l e then ([], Some (l, e))
    else let r := rec (addr e) in (entry_flags e :: fst r, snd r)
  else ([], None).

(** The flags of the tables passed, which restrict the access rights of the page,
    and the entry that maps it with its level. *)
Fixpoint view w (l : nat) (p v : Z) : list Z * option (nat * Z) :=
  entry_view (match l with O => λ _, ([], None) | S l' => λ c, view w l' c v end)
    l (ent w h p (table_index l v)).

(** The view through entry [i] of [p]. *)
Definition view_at w (l : nat) (p v i : Z) : list Z * option (nat * Z) :=
  entry_view (match l with O => λ _, ([], None) | S l' => λ c, view w l' c v end) l (ent w h p i).

Lemma view_unfold w l p v : view w l p v = view_at w l p v (table_index l v).
Proof. by destruct l. Qed.

Lemma view_walk w l p v : snd (view w l p v) = walk h w l p v.
Proof.
  revert p. induction l as [|l IH]; intros p; simpl; unfold entry_view;
    destruct (presentb _); [|done| |done].
  - done.
  - destruct (leafb _ _); [done|]. apply IH.
Qed.

Lemma view_ext w w' l p v :
  (l ≤ 3)%nat → agree (tables_of w l p) w w' → view w' l p v = view w l p v.
Proof.
  revert p. induction l as [|l IH]; intros p Hl Ha; simpl; unfold entry_view;
    rewrite (Ha p _ (table_index _ v)) by (apply tables_of_root || by apply index_bounds).
  - done.
  - set (i := table_index (S l) v). destruct (presentb (ent w h p i)) eqn:Hp; [|done].
    destruct (leafb (S l) (ent w h p i)) eqn:Hlf; [done|]. rewrite IH; [done|lia|].
    by apply (agree_child w w' l p i); [|apply index_bounds; lia|].
Qed.

(** What is below one entry depends on that entry and the tables below. *)
Lemma below_ext w w' l p i :
  ent w' h p i = ent w h p i → agree (below w l p i) w w' → below w' l p i = below w l p i.
Proof.
  intros He Ha. unfold below in *. rewrite He.
  destruct (presentb (ent w h p i) && negb (leafb l (ent w h p i))); [|done].
  destruct l; [done|]. by apply tables_of_ext.
Qed.

Lemma view_at_ext w w' l p v i :
  (l ≤ 3)%nat → ent w' h p i = ent w h p i → agree (below w l p i) w w' →
  view_at w' l p v i = view_at w l p v i.
Proof.
  intros Hl He Ha. unfold below in Ha. unfold view_at, entry_view. rewrite He.
  destruct (presentb (ent w h p i)); [|done]. destruct (leafb l (ent w h p i)); [done|].
  destruct l; [done|]. simpl in Ha. rewrite (view_ext w w'); [done|lia|done].
Qed.

Lemma below_to_in w l p i n x : 0 ≤ i < n → x ∈ below w l p i → x ∈ below_to w l p n.
Proof.
  intros Hi Hx. apply list_elem_of_bind. exists i. split; [done|]. apply elem_of_seqZ. lia.
Qed.

Lemma below_to_ext w w' l p n :
  (∀ i, 0 ≤ i < n → ent w' h p i = ent w h p i) → agree (below_to w l p n) w w' →
  below_to w' l p n = below_to w l p n.
Proof.
  intros He Ha. apply bind_ext_in. intros i Hi%elem_of_seqZ. apply below_ext; [apply He; lia|].
  eapply agree_mono; [exact Ha|]. intros x. apply below_to_in. lia.
Qed.

(** ** Frames *)
Definition frame_set L : gset Z := list_to_set ((λ q, fst q / FRAME_SIZE) <$> L).

Definition framed (P : Z → Prop) L : Prop :=
  ∀ q k, (q, k) ∈ L → ∃ f, q = f * FRAME_SIZE ∧ P f.

Lemma elem_of_frame_set P L f :
  framed P L → f ∈ frame_set L ↔ ∃ k, (f * FRAME_SIZE, k) ∈ L.
Proof.
  intros HL. unfold frame_set. rewrite elem_of_list_to_set, list_elem_of_fmap. split.
  - intros ([q k] & -> & Hq). exists k. simpl. destruct (HL q k Hq) as (g & -> & _).
    by rewrite Z.div_mul by done.
  - intros (k & Hk). exists (f * FRAME_SIZE, k). split; [|done]. simpl. by rewrite Z.div_mul by done.
Qed.

Lemma frame_set_app L L' : frame_set (L ++ L') = frame_set L ∪ frame_set L'.
Proof. unfold frame_set. by rewrite fmap_app, list_to_set_app_L. Qed.

Lemma frame_set_nil : frame_set [] = ∅.
Proof. done. Qed.

Lemma frame_set_below_0 w l p : frame_set (below_to w l p 0) = ∅.
Proof. done. Qed.

Lemma frame_set_cons f k L : frame_set ((f * FRAME_SIZE, k) :: L) = {[f]} ∪ frame_set L.
Proof. unfold frame_set. rewrite fmap_cons. simpl. by rewrite Z.div_mul by done. Qed.

Lemma size_frame_set P L : framed P L → NoDup (fst <$> L) → size (frame_set L) = length L.
Proof.
  intros HL Hnd. unfold frame_set. rewrite size_list_to_set; [by rewrite length_fmap|].
  induction L as [|[q k] L IH]; [constructor|]. rewrite fmap_cons in *. apply NoDup_cons in Hnd as [Hq Hnd].
  apply NoDup_cons. split; [|apply IH; [|done]; intros x y Hxy; apply (HL x y); by right].
  intros ([q' k'] & Heq & Hin)%list_elem_of_fmap. apply Hq. simpl in *.
  destruct (HL q k ltac:(by left)) as (f & -> & _), (HL q' k' ltac:(by right)) as (f' & -> & _).
  rewrite !Z.div_mul in Heq by done. subst f'. by apply (list_elem_of_fmap_2 fst _ (_, k')).
Qed.

(** ** A tree of distinct frames in use is a page table *)
Lemma tree_tables_ok (F : gset Z) total w top :
  NoDup (fst <$> tables_of w 3 top) →
  framed (λ f, 0 ≤ f < total ∧ f ∉ F) (tables_of w 3 top) →
  tables_ok h F total w top (list_to_map (tables_of w 3 top)).
Proof.
  intros Hnd Hfr.
  assert (∀ q k, (list_to_map (tables_of w 3 top) : gmap Z nat) !! q = Some k ↔ (q, k) ∈ tables_of w 3 top) as Hin
    by (intros q k; symmetry; by apply elem_of_list_to_map).
  split.
  - apply Hin, tables_of_root.
  - intros q k Hq%Hin. split; [by apply tables_of_level in Hq|].
    destruct (Hfr q k Hq) as (f & -> & ? & ?). by exists f.
  - intros q k i c Hq%Hin Hi Hpt. destruct (tables_of_child w 3 top q k i c Hq Hi Hpt) as (k' & -> & Hc).
    exists k'. split; [done|]. apply Hin, elem_of_tables. by right.
  - intros q k i q' k' i' c Hq%Hin Hq'%Hin. by apply (tables_of_inj w 3 top).
Qed.
End tree.
