(* ===== verification/VmmClone.v ===== *)
(** * VmmClone: copying a page table and releasing a copy

    The lemmas on [clone_table] and [free_cloned_table] of
    [src/kernel/src/mm/vmm.rs], over the trees of [TableTree]: a release gives
    back exactly the frames of the tree; a copy takes as many frames as the tree
    has tables and shows every address the same view, or, when there are not
    enough, gives everything back. *)

From S2P Require Import Prelude Bits Mem Pmm Dll PmmInv PmmList PmmOps PmmSpec.
From S2P Require Import Locks FrameAlloc Paging Vmm Walk VmmInv VmmOps VmmMap VmmUnmap TableTree.

Section clone.
Context `{Profile} {A : Type} `{!FrameAllocator A} `{!X86Paging} `{!PagingLaws}.
Context (h : Z).
Implicit Types m : Machine A VmmHw.

Abbreviation mem_of m := (sy_mem (m_sys m)).
Abbreviation free_of m := (fa_free (m_sys m)).
Abbreviation total_of m := (fa_total (m_sys m)).
Abbreviation tables m l p := (tables_of h (mem_of m) l p).

(** The allocator is in order, and only frames in [P] were written. *)
Record kept (P : Z → Prop) m m' : Prop := {
  kp_fa : fa_ok h (m_sys m');
  kp_rest : same_rest m m';
  kp_mem : same_outside (frame_words h P) (mem_of m) (mem_of m')
}.

Lemma kept_trans (P P1 P2 : Z → Prop) m m1 m2 :
  kept P1 m m1 → kept P2 m1 m2 → (∀ g, P1 g → P g) → (∀ g, P2 g → P g) → kept P m m2.
Proof.
  intros [_ Hr1 Hm1] [Hfa Hr2 Hm2] HP1 HP2. split; [done|by etransitivity|].
  etransitivity; eapply same_outside_weaken; eauto; intros a; by apply frame_words_mono.
Qed.

Lemma kept_refl P m : fa_ok h (m_sys m) → kept P m m.
Proof. intros Hfa. by split. Qed.

Lemma kept_mono (P P' : Z → Prop) m m' : kept P m m' → (∀ g, P g → P' g) → kept P' m m'.
Proof.
  intros [Hfa Hr Hm] HP. split; [done|done|]. eapply same_outside_weaken; [done|].
  intros a. by apply frame_words_mono.
Qed.

(** The frames in use. *)
Definition in_use m (f : Z) : Prop := 0 ≤ f < total_of m ∧ f ∉ free_of m.

Lemma kept_total P m m' : kept P m m' → total_of m' = total_of m.
Proof. by intros [_ (_ & _ & Ht) _]. Qed.

(** ** Releasing a copy *)
Lemma leaf_entry_b l e : is_leaf_entry l e = leafb l e.
Proof.
  unfold is_leaf_entry, leafb. f_equal. f_equal. change (Z.shiftl 1 7) with (2 ^ 7).
  destruct (Z.testbit e 7) eqn:Hb, (Z.eqb_spec (Z.land e (2 ^ 7)) 0) as [He|He]; try done; exfalso.
  - apply (f_equal (λ x, Z.testbit x 7)) in He.
    by rewrite Z.land_spec, Z.pow2_bits_true, Hb, Z.bits_0 in He by lia.
  - apply He. apply Z.bits_inj'. intros n Hn. rewrite Z.land_spec, Z.bits_0, Z.pow2_bits_eqb by lia.
    destruct (Z.eqb_spec 7 n) as [<-|]; [by rewrite Hb|]. apply andb_false_r.
Qed.

Lemma table_addr m l p : fa_ok h (m_sys m) → framed (in_use m) (tables m l p) → u64_range (p + h).
Proof.
  intros Hfa Hfr. destruct (Hfr p l (tables_of_root _ _ _ _)) as (f & -> & Hf & _).
  destruct (fa_bounds h _ Hfa) as (? & _ & ? & _). rewrite FRAME_SIZE_val in *. unfold u64_range. lia.
Qed.

Lemma free_frame_spec m f :
  fa_ok h (m_sys m) → in_use m f →
  wp (free_frame (f * FRAME_SIZE)) m (λ _ m',
    kept (λ g, g ∈ free_of m') m m' ∧ free_of m' = free_of m ∪ {[f]}).
Proof.
  intros Hfa [Hf Hn]. apply wp_on_sys. eapply wp_mono; [apply (fa_release_spec h _ f 0)|].
  - done.
  - lia.
  - lia.
  - by rewrite blk_0, Z.mod_1_r.
  - rewrite blk_0. lia.
  - rewrite block_set_0. set_solver.
  - cbv beta. intros [] s (Hfa' & Ht & Hcpu & Hfr & Hm). rewrite block_set_0 in Hfr. by split.
Qed.

(** What is left of a tree keeps its entries while parts of it are released. *)
Lemma rest_in_use m0 m l p i c l' :
  l = S l' → 0 ≤ i < 512 → points h (mem_of m0) l p i c →
  NoDup (fst <$> tables m0 l p) → framed (in_use m0) (tables m0 l p) →
  kept (λ g, g ∈ free_of m) m0 m → free_of m = free_of m0 ∪ frame_set (below_to h (mem_of m0) l p i) →
  framed (in_use m) (tables m0 l' c).
Proof.
  intros -> Hi Hpt Hnd Hfr Hk Hfree q k Hq.
  assert ((q, k) ∈ below_to h (mem_of m0) (S l') p 512) as Hin
    by (apply elem_of_below; by exists i, l', c).
  destruct (Hfr q k) as (f & -> & Hf & Hn); [apply elem_of_tables; by right|]. exists f. split; [done|].
  split; [by rewrite (kept_total _ _ _ Hk)|]. rewrite Hfree. intros [?|Hb]%elem_of_union; [done|].
  rewrite tables_of_unfold, fmap_cons in Hnd. apply NoDup_cons in Hnd as [_ Hnd].
  unfold frame_set in Hb. apply elem_of_list_to_set, list_elem_of_fmap in Hb as ([q' k'] & Heq & Hb). simpl in Heq.
  unfold below_to in Hb. apply list_elem_of_bind in Hb as (j & Hj & Hseq%elem_of_seqZ).
  assert (∃ f', q' = f' * FRAME_SIZE) as [f' ->].
  { destruct (Hfr q' k') as (f' & -> & _); [|by exists f']. apply elem_of_tables. right.
    apply list_elem_of_bind. exists j. split; [done|]. apply elem_of_seqZ. lia. }
  rewrite Z.div_mul in Heq by done. subst f'.
  assert (i = j); [|lia].
  apply (NoDup_bind_inj fst (below h (mem_of m0) (S l') p) (seqZ 0 512) i j
    (f * FRAME_SIZE, k) (f * FRAME_SIZE, k')); try done; [apply elem_of_seqZ; lia..|].
  by rewrite (below_child _ _ _ _ _ c).
Qed.

Lemma root_in_use m0 m l p i :
  0 ≤ i ≤ 512 → NoDup (fst <$> tables m0 l p) → framed (in_use m0) (tables m0 l p) →
  kept (λ g, g ∈ free_of m) m0 m → free_of m = free_of m0 ∪ frame_set (below_to h (mem_of m0) l p i) →
  ∃ f, p = f * FRAME_SIZE ∧ in_use m f.
Proof.
  intros Hi Hnd Hfr Hk Hfree. destruct (Hfr p l (tables_of_root _ _ _ _)) as (f & -> & Hf & Hn).
  exists f. split; [done|]. split; [by rewrite (kept_total _ _ _ Hk)|].
  rewrite Hfree. intros [?|Hb]%elem_of_union; [done|].
  rewrite tables_of_unfold, fmap_cons in Hnd. apply NoDup_cons in Hnd as [Hroot _]. apply Hroot.
  assert (∀ x, x ∈ below_to h (mem_of m0) l (f * FRAME_SIZE) i →
    x ∈ below_to h (mem_of m0) l (f * FRAME_SIZE) 512) as Hsub.
  { intros x. unfold below_to. rewrite !list_elem_of_bind. intros (j & ? & Hj%elem_of_seqZ).
    exists j. split; [done|]. apply elem_of_seqZ. lia. }
  apply (elem_of_frame_set (in_use m0)) in Hb as [k Hb].
  - by apply (list_elem_of_fmap_2 fst _ (_, k)), Hsub.
  - intros q k Hq. apply (Hfr q k), elem_of_tables. right. by apply Hsub.
Qed.

Definition released_all m l p m' : Prop :=
  kept (λ g, g ∈ free_of m') m m' ∧ free_of m' = free_of m ∪ frame_set (tables m l p).

Lemma free_loop_spec rec l p m0 n i m :
  NoDup (fst <$> tables m0 l p) → framed (in_use m0) (tables m0 l p) →
  (∀ l' c m1, l = S l' → fa_ok h (m_sys m1) → NoDup (fst <$> tables m1 l' c) →
     framed (in_use m1) (tables m1 l' c) → wp (rec c) m1 (λ _ m', released_all m1 l' c m')) →
  0 ≤ i → i + Z.of_nat n = 512 → kept (λ g, g ∈ free_of m) m0 m →
  free_of m = free_of m0 ∪ frame_set (below_to h (mem_of m0) l p i) →
  wp (free_loop rec l (p + h) i n) m (λ _ m', kept (λ g, g ∈ free_of m') m0 m' ∧
    free_of m' = free_of m0 ∪ frame_set (below_to h (mem_of m0) l p 512)).
Proof.
  intros Hnd Hfr Hrec. revert i m. induction n as [|n IH]; intros i m Hi Hn Hk Hfree.
  - apply wp_ret. by replace 512 with i by lia.
  - simpl. apply wp_bind, wp_read_mem. fold (ent (mem_of m) h p i). rewrite land_1, leaf_entry_b.
    destruct (root_in_use m0 m l p i) as (f & Hpf & Hf); [lia|done..|].
    assert (ent (mem_of m) h p i = ent (mem_of m0) h p i) as ->.
    { apply (agree_outside h [(p, l)] _ _ _ (kp_mem _ _ _ Hk)) with (k := l); [|by left|lia].
      intros q k [= -> ->]%list_elem_of_singleton. exists f. by destruct Hf. }
    set (e := ent (mem_of m0) h p i). assert (below_to h (mem_of m0) l p (i + 1) =
      below_to h (mem_of m0) l p i ++ below h (mem_of m0) l p i) as HS by (by apply below_to_S).
    destruct (presentb e) eqn:Hpr; simpl.
    2: { apply IH; [lia|lia|done|]. by rewrite HS, below_absent, app_nil_r. }
    destruct (leafb l e) eqn:Hlf.
    { apply wp_bind, wp_ret, IH; [lia|lia|done|]. by rewrite HS, below_leaf, app_nil_r. }
    destruct l as [|l]; [done|]. fold (addr e).
    assert (points h (mem_of m0) (S l) p i (addr e)) as Hpt by done.
    assert (framed (in_use m) (tables m0 l (addr e))) as Huse by (eapply (rest_in_use m0 m); eauto; lia).
    assert (tables m l (addr e) = tables m0 l (addr e)) as Heq.
    { apply tables_of_ext, (agree_outside h _ _ _ _ (kp_mem _ _ _ Hk)).
      intros q k Hq. destruct (Huse q k Hq) as (g & -> & _ & ?). by exists g. }
    eapply wp_seq; [apply (Hrec l (addr e) m eq_refl (kp_fa _ _ _ Hk)); rewrite Heq; [|done]|].
    + rewrite <- (below_child _ _ _ _ _ _ Hpt). rewrite tables_of_unfold, fmap_cons in Hnd.
      apply NoDup_cons in Hnd as [_ Hnd].
      apply (NoDup_bind_in fst (below h (mem_of m0) (S l) p) (seqZ 0 512)); [done|apply elem_of_seqZ; lia].
    + cbv beta. intros [] m1 [Hk1 Hfree1]. rewrite Heq in Hfree1. apply IH; [lia|lia| |].
      * eapply kept_trans; [exact Hk|exact Hk1| |done]. intros g Hg. rewrite Hfree1. by apply elem_of_union_l.
      * by rewrite Hfree1, Hfree, HS, frame_set_app, (below_child _ _ _ _ _ _ Hpt), union_assoc_L.
Qed.

Lemma free_root_spec l p m m1 :
  NoDup (fst <$> tables m l p) → framed (in_use m) (tables m l p) →
  kept (λ g, g ∈ free_of m1) m m1 → free_of m1 = free_of m ∪ frame_set (below_to h (mem_of m) l p 512) →
  wp (free_frame p) m1 (λ _ m', released_all m l p m').
Proof.
  intros Hnd Hfr Hk1 Hfree1. destruct (root_in_use m m1 l p 512) as (f & -> & Hf); [lia|done..|].
  eapply wp_mono; [apply free_frame_spec; [apply Hk1|done]|]. cbv beta.
  intros [] m2 [Hk2 Hfree2]. unfold released_all. rewrite tables_of_unfold, frame_set_cons. split.
  - eapply kept_trans; [exact Hk1|exact Hk2| |done]. intros g Hg. rewrite Hfree2. by apply elem_of_union_l.
  - by rewrite Hfree2, Hfree1, <- union_assoc_L, (union_comm_L (frame_set _)).
Qed.

Lemma free_cloned_spec l p m :
  (l ≤ 3)%nat → fa_ok h (m_sys m) → NoDup (fst <$> tables m l p) → framed (in_use m) (tables m l p) →
  wp (free_cloned_table l p h) m (λ _ m', released_all m l p m').
Proof.
  revert p m. induction l as [|l IH]; intros p m Hl Hfa Hnd Hfr; simpl;
    apply wp_bind, wp_u64_add; try (by eapply table_addr);
    (eapply wp_seq; [eapply (free_loop_spec _ _ p m); [done|done| |done|by rewrite page_size_entries|
        by apply kept_refl|by rewrite frame_set_below_0, union_empty_r_L]|]);
    try (cbv beta; intros [] m1 [Hk1 Hfree1]; by apply free_root_spec).
  - by intros.
  - by intros l' c m1 [= <-] ? ? ?; apply IH; [lia|..].
Qed.

(** ** Making a copy *)
Lemma take_frame_spec m :
  fa_ok h (m_sys m) →
  wp alloc_frame m (λ r m1, match r with
    | None => kept (λ g, g ∈ free_of m) m m1 ∧ free_of m1 = free_of m ∧ free_of m = ∅
    | Some c => ∃ f, c = f * FRAME_SIZE ∧ f ∈ free_of m ∧ kept (λ g, g ∈ free_of m) m m1 ∧
        free_of m1 = free_of m ∖ {[f]}
    end).
Proof.
  intros Hfa. destruct (fa_bounds h _ Hfa) as (_ & _ & _ & Hin).
  apply wp_on_sys. eapply wp_mono; [apply (fa_alloc_spec h _ 0 Hfa); lia|].
  cbv beta. intros [a|] s (Hok & Htot & Hcpu & Hr); simpl.
  - destruct Hr as (f & -> & (_ & _ & Hrun) & Hfree & Hs). rewrite block_set_0 in Hrun, Hfree.
    exists f. split; [done|]. split; [by apply Hrun, elem_of_singleton|]. done.
  - destruct Hr as (Hfr & Hm & Hno). split; [split; simpl; [done|done|by rewrite Hm]|]. split; [done|].
    apply elem_of_equiv_empty_L. intros f Hf. apply (Hno f), free_run_0; [apply Hin|]; done.
Qed.

(** Writing within a frame in use. *)
Lemma write_frame m f w :
  fa_ok h (m_sys m) → f ∉ free_of m →
  same_outside (λ x, f * FRAME_SIZE + h ≤ x < f * FRAME_SIZE + h + FRAME_SIZE) (mem_of m) w →
  kept (λ g, g = f) m (put_mem w m) ∧ free_of (put_mem w m) = free_of m.
Proof.
  intros Hfa Hf Hw. destruct (fa_write h (m_sys m) w Hfa) as (Hok & Hfr & Ht).
  { eapply same_outside_weaken; [exact Hw|]. intros a Ha (g & Hg & Hga). apply Hf.
    replace f with g; [done|]. unfold fb_addr in Hga. rewrite FRAME_SIZE_val in *. lia. }
  split; [|done]. split; [done|by split|]. eapply same_outside_weaken; [exact Hw|].
  intros a Ha. exists f. split; [done|]. unfold fb_addr. rewrite FRAME_SIZE_val in *. lia.
Qed.

(** The first [i] entries of [src] were copied to the frame [f]. *)
Record cloning (l : nat) (src : Z) m0 (f i : Z) m : Prop := {
  cg_kept : kept (λ g, g ∈ free_of m0) m0 m;
  cg_nodup : NoDup (fst <$> below_to h (mem_of m) l (f * FRAME_SIZE) i);
  cg_framed : framed (λ g, g ∈ free_of m0 ∧ g ≠ f) (below_to h (mem_of m) l (f * FRAME_SIZE) i);
  cg_free : free_of m = free_of m0 ∖ {[f]} ∖ frame_set (below_to h (mem_of m) l (f * FRAME_SIZE) i);
  cg_len : length (below_to h (mem_of m) l (f * FRAME_SIZE) i) = length (below_to h (mem_of m0) l src i);
  cg_view j v : 0 ≤ j < i →
    view_at h (mem_of m) l (f * FRAME_SIZE) v j = view_at h (mem_of m0) l src v j;
  cg_rest j : i ≤ j < 512 → presentb (ent (mem_of m) h (f * FRAME_SIZE) j) = false
}.

(** The part that was copied is in use. *)
Lemma cloning_in_use l src m0 f i m q k :
  cloning l src m0 f i m → (q, k) ∈ below_to h (mem_of m) l (f * FRAME_SIZE) i →
  ∃ g, q = g * FRAME_SIZE ∧ g ∈ free_of m0 ∧ g ≠ f ∧ g ∉ free_of m.
Proof.
  intros Hc Hq. destruct (cg_framed _ _ _ _ _ _ Hc q k Hq) as (g & -> & Hg & Hne).
  exists g. split_and!; [done..|]. rewrite (cg_free _ _ _ _ _ _ Hc). intros [_ Hn]%elem_of_difference.
  apply Hn, (elem_of_frame_set _ _ _ (cg_framed _ _ _ _ _ _ Hc)). by exists k.
Qed.

Lemma cloning_free_sub l src m0 f i m g : cloning l src m0 f i m → g ∈ free_of m → g ∈ free_of m0 ∧ g ≠ f.
Proof.
  intros Hc. rewrite (cg_free _ _ _ _ _ _ Hc), !elem_of_difference, elem_of_singleton. tauto.
Qed.

(** One more entry. *)
Lemma cloning_advance l src m0 f i m m2 :
  (l ≤ 3)%nat → f ∈ free_of m0 → 0 ≤ i < 512 → cloning l src m0 f i m →
  kept (λ g, g ∈ free_of m ∨ g = f) m m2 →
  (∀ j, 0 ≤ j < 512 → j ≠ i → ent (mem_of m2) h (f * FRAME_SIZE) j = ent (mem_of m) h (f * FRAME_SIZE) j) →
  let L := below h (mem_of m2) l (f * FRAME_SIZE) i in
  NoDup (fst <$> L) → framed (λ g, g ∈ free_of m) L → free_of m2 = free_of m ∖ frame_set L →
  length L = length (below h (mem_of m0) l src i) →
  (∀ v, view_at h (mem_of m2) l (f * FRAME_SIZE) v i = view_at h (mem_of m0) l src v i) →
  cloning l src m0 f (i + 1) m2.
Proof.
  intros Hl Hf Hi Hc Hk Hent L Hnd Hfr Hfree Hlen Hview. pose proof Hc as [Hk0 Hnd0 Hfr0 Hfree0 Hlen0 Hview0 Hrest0].
  assert (agree h (below_to h (mem_of m) l (f * FRAME_SIZE) i) (mem_of m) (mem_of m2)) as Hagree.
  { intros q k j Hq Hj. destruct (cloning_in_use _ _ _ _ _ _ q k Hc Hq) as (g & -> & Hg0 & Hgf & Hg).
    apply (same_outside_read _ _ _ _ (kp_mem _ _ _ Hk)). intros (g' & Hg' & Ha).
    assert (g' = g) as -> by (unfold fb_addr in Ha; rewrite FRAME_SIZE_val in Ha; lia). tauto. }
  assert (below_to h (mem_of m2) l (f * FRAME_SIZE) i = below_to h (mem_of m) l (f * FRAME_SIZE) i) as Hsame
    by (apply below_to_ext; [intros j Hj; apply Hent; lia|done]).
  assert (below_to h (mem_of m2) l (f * FRAME_SIZE) (i + 1) =
          below_to h (mem_of m) l (f * FRAME_SIZE) i ++ L) as HS by (by rewrite below_to_S, Hsame by lia).
  split; rewrite ?HS.
  - eapply kept_trans; [exact Hk0|exact Hk|done|]. intros g [Hg| ->]; [|done]. by apply (cloning_free_sub _ _ _ _ _ _ g Hc).
  - rewrite fmap_app. apply NoDup_app. split_and!; [done| |done].
    intros q ([q1 k1] & -> & Hq1)%list_elem_of_fmap ([q2 k2] & Heq & Hq2)%list_elem_of_fmap. simpl in Heq. subst q2.
    destruct (cloning_in_use _ _ _ _ _ _ q1 k1 Hc Hq1) as (g & -> & _ & _ & Hg).
    destruct (Hfr _ k2 Hq2) as (g' & Hgg & Hg'). rewrite FRAME_SIZE_val in Hgg. by replace g' with g in Hg' by lia.
  - intros q k [Hq|Hq]%elem_of_app; [by apply (Hfr0 q k)|]. destruct (Hfr q k Hq) as (g & -> & Hg).
    exists g. split; [done|]. by eapply cloning_free_sub.
  - by rewrite Hfree, Hfree0, frame_set_app, difference_difference_l_L.
  - rewrite below_to_S by lia. by rewrite !length_app, Hlen0, Hlen.
  - intros j v Hj. destruct (decide (j = i)) as [->|]; [apply Hview|]. rewrite <- (Hview0 j v) by lia.
    apply view_at_ext; [done|done|apply Hent; lia|]. eapply agree_mono; [exact Hagree|].
    intros x. apply below_to_in. lia.
  - intros j Hj. rewrite Hent by lia. apply Hrest0. lia.
Qed.

(** ** Undoing a copy that cannot be finished *)
Lemma cloning_count l src m0 f i m :
  f ∈ free_of m0 → cloning l src m0 f i m →
  free_of m0 = free_of m ∪ ({[f]} ∪ frame_set (below_to h (mem_of m) l (f * FRAME_SIZE) i)) ∧
  size (free_of m0) = (size (free_of m) + S (length (below_to h (mem_of m) l (f * FRAME_SIZE) i)))%nat.
Proof.
  intros Hf Hc. pose proof (cg_framed _ _ _ _ _ _ Hc) as Hfr. set (L := below_to _ _ _ _ _) in *.
  assert (∀ g, g ∈ frame_set L → g ∈ free_of m0 ∧ g ≠ f) as Hin.
  { intros g [k Hg]%(elem_of_frame_set _ _ _ Hfr). destruct (Hfr _ k Hg) as (g' & Heq & ? & ?).
    rewrite FRAME_SIZE_val in Heq. by replace g with g' by lia. }
  assert (free_of m0 = free_of m ∪ ({[f]} ∪ frame_set L)) as Heq.
  { rewrite (cg_free _ _ _ _ _ _ Hc). fold L. rewrite difference_difference_l_L.
    rewrite union_comm_L. apply union_difference_L. intros g.
    rewrite elem_of_union, elem_of_singleton. intros [->|Hg]; [done|by apply Hin]. }
  split; [done|]. rewrite Heq, !size_union, size_singleton, (size_frame_set _ _ Hfr); [lia|apply Hc| |].
  - intros g Hg1%elem_of_singleton Hg2%Hin. tauto.
  - intros g. rewrite (cg_free _ _ _ _ _ _ Hc), elem_of_union, !elem_of_difference. tauto.
Qed.

Lemma cloning_undo l src m0 f i m m1 :
  (l ≤ 3)%nat → f ∈ free_of m0 → fa_ok h (m_sys m0) → 0 ≤ i ≤ 512 → cloning l src m0 f i m →
  kept (λ g, g ∈ free_of m) m m1 → free_of m1 = free_of m →
  wp (free_cloned_table l (f * FRAME_SIZE) h) m1 (λ _ m2,
    kept (λ g, g ∈ free_of m0) m0 m2 ∧ free_of m2 = free_of m0).
Proof.
  intros Hl Hf Hfa Hi Hc Hk1 Hfree1. set (L := below_to h (mem_of m) l (f * FRAME_SIZE) i).
  assert (framed (λ g, g ∉ free_of m) ((f * FRAME_SIZE, l) :: L)) as Hout.
  { intros q k [[= -> ->]|Hq]%elem_of_cons.
    - exists f. split; [done|]. intros Hn. by apply (cloning_free_sub _ _ _ _ _ _ f Hc) in Hn as [_ ?].
    - destruct (cloning_in_use _ _ _ _ _ _ q k Hc Hq) as (g & -> & _ & _ & ?). by exists g. }
  pose proof (agree_outside h _ _ _ _ (kp_mem _ _ _ Hk1) Hout) as Hagree.
  assert (tables m1 l (f * FRAME_SIZE) = (f * FRAME_SIZE, l) :: L) as HT.
  { assert (∀ j, 0 ≤ j < 512 → ent (mem_of m1) h (f * FRAME_SIZE) j = ent (mem_of m) h (f * FRAME_SIZE) j) as He
      by (intros j Hj; apply (Hagree _ l); [by left|done]).
    rewrite tables_of_unfold, (below_to_rest _ _ _ _ i) by (done || intros j Hj; rewrite He by lia; apply Hc; lia).
    f_equal. apply below_to_ext; [intros j Hj; apply He; lia|].
    eapply agree_mono; [exact Hagree|]. intros x Hx. by right. }
  assert (framed (λ g, g ∈ free_of m0) ((f * FRAME_SIZE, l) :: L)) as Hin.
  { intros q k [[= -> ->]|Hq]%elem_of_cons; [by exists f|].
    destruct (cloning_in_use _ _ _ _ _ _ q k Hc Hq) as (g & -> & ? & _). by exists g. }
  pose proof (kept_total _ _ _ (cg_kept _ _ _ _ _ _ Hc)) as Ht. pose proof (kept_total _ _ _ Hk1) as Ht1.
  eapply wp_mono; [apply (free_cloned_spec l _ m1 Hl (kp_fa _ _ _ Hk1)); rewrite HT|].
  - rewrite fmap_cons. apply NoDup_cons. split; [|apply Hc]. intros ([q k] & Heq & Hq)%list_elem_of_fmap.
    simpl in Heq. subst q. destruct (cloning_in_use _ _ _ _ _ _ _ k Hc Hq) as (g & Hg & _ & Hne & _).
    rewrite FRAME_SIZE_val in Hg. lia.
  - intros q k Hq. destruct (Hin q k Hq) as (g & -> & Hg), (Hout _ k Hq) as (g' & Heq & Hg').
    rewrite FRAME_SIZE_val in Heq. replace g' with g in Hg' by lia. exists g. split; [done|].
    destruct (fa_bounds h _ Hfa) as (_ & _ & _ & Hb). split; [rewrite Ht1, Ht; by apply Hb|by rewrite Hfree1].
  - cbv beta. intros [] m2 [Hk2 Hfree2]. rewrite HT, frame_set_cons, Hfree1 in Hfree2.
    pose proof (proj1 (cloning_count _ _ _ _ _ _ Hf Hc)) as Hall. fold L in Hall. rewrite <- Hall in Hfree2.
    split; [|done].
    assert (kept (λ g, g ∈ free_of m0) m m2) as Hk; [|by eapply kept_trans; [exact (cg_kept _ _ _ _ _ _ Hc)|exact Hk|..]].
    eapply kept_trans; [exact Hk1|exact Hk2| |by rewrite Hfree2].
    intros g Hg. by apply (cloning_free_sub _ _ _ _ _ _ g Hc) in Hg as [? _].
Qed.

(** ** The loop *)

(** The entry the code writes for a copied table: the new address, the old flags. *)
Lemma clone_entry e c :
  entry_addr_ok c →
  let e' := Z.lor (Z.land c ENTRY_ADDR_MASK) (entry_flags e) in
  presentb e' = presentb e ∧ (∀ l, leafb l e' = leafb l e) ∧ addr e' = c ∧ entry_flags e' = entry_flags e.
Proof.
  intros Hc. cbv zeta. rewrite addr_land_mask by done.
  assert (flag_bits_ok (entry_flags e)) as Hfl.
  { split; [by apply (land_bound e _ 64)|]. unfold entry_flags. rewrite <- Z.land_assoc.
    change (Z.land (u64_not ENTRY_ADDR_MASK) ENTRY_ADDR_MASK) with 0. apply Z.land_0_r. }
  destruct (entry_parts c _ Hc Hfl) as [Ha Hb]. unfold presentb, leafb, addr.
  assert (∀ n, n = 0 ∨ n = 7 → Z.testbit (Z.lor c (entry_flags e)) n = Z.testbit e n) as Hbit.
  { intros n Hn. rewrite Hb by lia. unfold entry_flags. rewrite Z.land_spec.
    destruct Hn as [-> | ->]; apply andb_true_r. }
  rewrite !Hbit by lia. split_and!; [done|done|done|].
  unfold entry_flags at 1. rewrite Z.land_lor_distr_l. unfold entry_flags at 1. rewrite <- Z.land_assoc, Z.land_diag.
  rewrite <- (addr_land_mask c Hc), <- Z.land_assoc.
  change (Z.land ENTRY_ADDR_MASK (u64_not ENTRY_ADDR_MASK)) with 0. by rewrite Z.land_0_r.
Qed.

(** [clone_table]: enough frames, and the copy shows every address the same view;
    or not enough, and nothing is lost. *)
Definition cloned m l src (r : option Z) m' : Prop :=
  kept (λ g, g ∈ free_of m) m m' ∧
  match r with
  | None => free_of m' = free_of m ∧ (size (free_of m) < length (tables m l src))%nat
  | Some d => NoDup (fst <$> tables m' l d) ∧ framed (λ g, g ∈ free_of m) (tables m' l d) ∧
      free_of m' = free_of m ∖ frame_set (tables m' l d) ∧
      length (tables m' l d) = length (tables m l src) ∧
      ∀ v, view h (mem_of m') l d v = view h (mem_of m) l src v
  end.

(** Writing entry [i] of the copy. *)
Lemma write_copy l src m0 f i m m1 e :
  f ∈ free_of m0 → 0 ≤ i < 512 → cloning l src m0 f i m →
  kept (λ g, g ∈ free_of m) m m1 → f ∉ free_of m1 →
  let m2 := put_mem (write_word (f * FRAME_SIZE + h + 8 * i) e (mem_of m1)) m1 in
  kept (λ g, g ∈ free_of m ∨ g = f) m m2 ∧ kept (λ g, g = f) m1 m2 ∧ free_of m2 = free_of m1 ∧
  ent (mem_of m2) h (f * FRAME_SIZE) i = e ∧
  ∀ j, 0 ≤ j < 512 → j ≠ i → ent (mem_of m2) h (f * FRAME_SIZE) j = ent (mem_of m) h (f * FRAME_SIZE) j.
Proof.
  intros Hf Hi Hc Hk1 Hf1 m2.
  destruct (write_frame m1 f (mem_of m2) (kp_fa _ _ _ Hk1) Hf1) as [Hk2 Hfree2].
  { apply same_outside_write. rewrite FRAME_SIZE_val. lia. }
  split_and!; [|done|done|apply read_write_eq|].
  - eapply kept_trans; [exact Hk1|exact Hk2|..]; tauto.
  - intros j Hj Hne. unfold ent. simpl. rewrite read_write_ne by lia.
    apply (same_outside_read _ _ _ _ (kp_mem _ _ _ Hk1)). intros (g & Hg & Ha).
    apply (cloning_free_sub _ _ _ _ _ _ g Hc) in Hg as [_ Hg]. apply Hg.
    unfold fb_addr in Ha. rewrite FRAME_SIZE_val in Ha. lia.
Qed.

(** The source stays as it was. *)
Lemma source_kept l src m0 f i m :
  framed (in_use m0) (tables m0 l src) → cloning l src m0 f i m →
  agree h (tables m0 l src) (mem_of m0) (mem_of m).
Proof.
  intros Hsrc Hc. apply (agree_outside h _ _ _ _ (kp_mem _ _ _ (cg_kept _ _ _ _ _ _ Hc))).
  intros q k Hq. destruct (Hsrc q k Hq) as (g & -> & _ & ?). by exists g.
Qed.

(** The three kinds of entries. *)
Lemma cloning_absent l src m0 f i m :
  (l ≤ 3)%nat → f ∈ free_of m0 → 0 ≤ i < 512 → cloning l src m0 f i m →
  presentb (ent (mem_of m0) h src i) = false → cloning l src m0 f (i + 1) m.
Proof.
  intros Hl Hf Hi Hc Habs.
  assert (presentb (ent (mem_of m) h (f * FRAME_SIZE) i) = false) as Hd by (apply Hc; lia).
  eapply cloning_advance; eauto; rewrite ?below_absent by done;
    [apply kept_refl, Hc|constructor|by intros ? ? ?%not_elem_of_nil| |done|].
  - by rewrite frame_set_nil, difference_empty_L.
  - intros v. unfold view_at, entry_view. by rewrite Habs, Hd.
Qed.

Lemma cloning_leaf l src m0 f i m e :
  (l ≤ 3)%nat → f ∈ free_of m0 → 0 ≤ i < 512 → cloning l src m0 f i m →
  e = ent (mem_of m0) h src i → presentb e = true → leafb l e = true →
  cloning l src m0 f (i + 1) (put_mem (write_word (f * FRAME_SIZE + h + 8 * i) e (mem_of m)) m).
Proof.
  intros Hl Hf Hi Hc He Hpr Hlf.
  assert (f ∉ free_of m) as Hfm by (intros Hn; by apply (cloning_free_sub _ _ _ _ _ _ f Hc) in Hn as [_ ?]).
  destruct (write_copy l src m0 f i m m e Hf Hi Hc) as (Hk & _ & Hfree & Hnew & Hent);
    [apply kept_refl, Hc|done|]. set (m2 := put_mem _ m) in *.
  eapply cloning_advance; eauto; rewrite ?(below_leaf _ (mem_of m2)) by (by rewrite Hnew);
    [constructor|by intros ? ? ?%not_elem_of_nil| | |].
  - by rewrite Hfree, frame_set_nil, difference_empty_L.
  - by rewrite below_leaf by (by rewrite <- He).
  - intros v. unfold view_at, entry_view. by rewrite Hnew, <- He, Hpr, Hlf.
Qed.

Lemma source_child l src m0 f i m c :
  framed (in_use m0) (tables m0 (S l) src) → 0 ≤ i < 512 → points h (mem_of m0) (S l) src i c →
  cloning (S l) src m0 f i m →
  framed (in_use m) (tables m l c) ∧ tables m l c = tables m0 l c ∧
  agree h (tables m0 l c) (mem_of m0) (mem_of m).
Proof.
  intros Hsrc Hi Hpt Hc. pose proof (source_kept _ _ _ _ _ _ Hsrc Hc) as Hag.
  pose proof (agree_child h _ _ l src i c Hag Hi Hpt) as Hag'.
  pose proof (tables_of_ext h _ _ _ _ Hag') as Heq. split_and!; [|done|done]. rewrite Heq.
  intros q k Hq. destruct (Hsrc q k) as (g & -> & Hg & Hn).
  { apply elem_of_tables. right. apply elem_of_below. by exists i, l, c. }
  exists g. split; [done|]. split; [by rewrite (kept_total _ _ _ (cg_kept _ _ _ _ _ _ Hc))|].
  intros Hgm. by apply (cloning_free_sub _ _ _ _ _ _ g Hc) in Hgm as [? _].
Qed.

Lemma cloning_child l src m0 f i m m1 e d :
  (S l ≤ 3)%nat → f ∈ free_of m0 → 0 ≤ i < 512 → cloning (S l) src m0 f i m → total_of m0 ≤ 2 ^ 40 →
  framed (in_use m0) (tables m0 (S l) src) → e = ent (mem_of m0) h src i →
  presentb e = true → leafb (S l) e = false → cloned m l (addr e) (Some d) m1 →
  cloning (S l) src m0 f (i + 1)
    (put_mem (write_word (f * FRAME_SIZE + h + 8 * i)
       (Z.lor (Z.land d ENTRY_ADDR_MASK) (entry_flags e)) (mem_of m1)) m1).
Proof.
  intros Hl Hf Hi Hc Htot Hsrc He Hpr Hlf (Hk1 & Hnd1 & Hfr1 & Hfree1 & Hlen1 & Hview1).
  assert (points h (mem_of m0) (S l) src i (addr e)) as Hpt by (by rewrite He in *).
  destruct (source_child l src m0 f i m _ Hsrc Hi Hpt Hc) as (_ & Heq & Hag). rewrite Heq in Hlen1.
  assert (f ∉ free_of m) as Hfm by (intros Hn; by apply (cloning_free_sub _ _ _ _ _ _ f Hc) in Hn as [_ ?]).
  assert (f ∉ free_of m1) as Hfm1 by (rewrite Hfree1; intros [? _]%elem_of_difference; done).
  destruct (write_copy _ src m0 f i m m1 (Z.lor (Z.land d ENTRY_ADDR_MASK) (entry_flags e)) Hf Hi Hc Hk1 Hfm1)
    as (Hk & Hk2 & Hfree & Hnew & Hent). set (m2 := put_mem _ m1) in *.
  assert (agree h (tables m1 l d) (mem_of m1) (mem_of m2)) as Hag2.
  { intros q k j Hq Hj. destruct (Hfr1 q k Hq) as (g & -> & Hg).
    apply (same_outside_read _ _ _ _ (kp_mem _ _ _ Hk2)). intros (g' & -> & Ha). apply Hfm.
    replace f with g; [done|]. unfold fb_addr in Ha. rewrite FRAME_SIZE_val in Ha. lia. }
  assert (entry_addr_ok d) as Hd.
  { destruct (Hfr1 d l (tables_of_root _ _ _ _)) as (g & -> & Hg). destruct (fa_bounds h _ (kp_fa _ _ _ (cg_kept _ _ _ _ _ _ Hc)))
      as (_ & _ & _ & Hb). eapply frame_addr_ok; [by apply Hb|]. by rewrite (kept_total _ _ _ (cg_kept _ _ _ _ _ _ Hc)). }
  destruct (clone_entry e d Hd) as (Hpr' & Hlf' & Had' & Hfl'). rewrite <- Hnew in Hpr', Hlf', Had', Hfl'.
  assert (points h (mem_of m2) (S l) (f * FRAME_SIZE) i d) as Hpt2 by (split_and!; [by rewrite Hpr'|by rewrite Hlf'|done]).
  assert (below h (mem_of m2) (S l) (f * FRAME_SIZE) i = tables m1 l d) as HL
    by (by rewrite (below_child _ _ _ _ _ _ Hpt2), (tables_of_ext _ _ _ _ _ Hag2)).
  eapply cloning_advance; eauto; rewrite ?HL; [done|done|by rewrite Hfree|..].
  - by rewrite Hlen1, (below_child _ _ _ _ _ _ Hpt).
  - intros v. unfold view_at, entry_view. rewrite <- He, Hpr', Hlf', Had', Hfl', Hpr, Hlf.
    assert (l ≤ 3)%nat as Hl' by lia.
    by rewrite (view_ext _ _ _ _ _ v Hl' Hag2), Hview1, (view_ext _ _ _ _ _ v Hl' Hag).
Qed.

(** The end of the loop is a copy. *)
Lemma cloning_done l src m0 f m :
  (l ≤ 3)%nat → f ∈ free_of m0 → cloning l src m0 f 512 m → cloned m0 l src (Some (f * FRAME_SIZE)) m.
Proof.
  intros Hl Hf Hc. split; [apply Hc|]. rewrite !tables_of_unfold. split_and!.
  - rewrite fmap_cons. apply NoDup_cons. split; [|apply Hc]. intros ([q k] & Heq & Hq)%list_elem_of_fmap.
    simpl in Heq. subst q. destruct (cloning_in_use _ _ _ _ _ _ _ k Hc Hq) as (g & Hg & _ & Hne & _).
    rewrite FRAME_SIZE_val in Hg. lia.
  - intros q k [[= -> ->]|Hq]%elem_of_cons; [by exists f|].
    destruct (cloning_in_use _ _ _ _ _ _ q k Hc Hq) as (g & -> & ? & _). by exists g.
  - by rewrite frame_set_cons, (cg_free _ _ _ _ _ _ Hc), difference_difference_l_L.
  - simpl. f_equal. apply Hc.
  - intros v. rewrite !view_unfold. apply Hc. by apply index_bounds.
Qed.

Lemma clone_loop_spec rec l src m0 f n i m :
  (l ≤ 3)%nat → fa_ok h (m_sys m0) → total_of m0 ≤ 2 ^ 40 → framed (in_use m0) (tables m0 l src) →
  f ∈ free_of m0 →
  (∀ l' c m1, l = S l' → fa_ok h (m_sys m1) → total_of m1 ≤ 2 ^ 40 →
     framed (in_use m1) (tables m1 l' c) → wp (rec c) m1 (λ r m', cloned m1 l' c r m')) →
  0 ≤ i → i + Z.of_nat n = 512 → cloning l src m0 f i m →
  wp (clone_loop rec l (src + h) (f * FRAME_SIZE + h) (f * FRAME_SIZE) h i n) m (λ ok m',
    if ok then cloned m0 l src (Some (f * FRAME_SIZE)) m' else cloned m0 l src None m').
Proof.
  intros Hl Hfa Htot Hsrc Hf Hrec. revert i m. induction n as [|n IH]; intros i m Hi Hn Hc.
  { apply wp_ret. replace i with 512 in Hc by lia. by apply cloning_done. }
  pose proof (kept_total _ _ _ (cg_kept _ _ _ _ _ _ Hc)) as Ht.
  simpl. apply wp_bind, wp_read_mem. fold (ent (mem_of m) h src i). rewrite land_1, leaf_entry_b.
  rewrite (source_kept _ _ _ _ _ _ Hsrc Hc src l i) by (apply tables_of_root || lia).
  set (e := ent (mem_of m0) h src i). destruct (presentb e) eqn:Hpr; simpl.
  2: { apply IH; [lia|lia|]. apply cloning_absent; [done|done|lia|done|done]. }
  destruct (leafb l e) eqn:Hlf.
  { apply wp_bind, wp_write_mem, IH; [lia|lia|]. eapply cloning_leaf; eauto. lia. }
  destruct l as [|l]; [done|]. fold (addr e) (entry_flags e).
  assert (points h (mem_of m0) (S l) src i (addr e)) as Hpt by done.
  destruct (source_child l src m0 f i m _ Hsrc ltac:(lia) Hpt Hc) as (Huse & Heq & _).
  eapply wp_seq; [apply (Hrec l (addr e) m eq_refl (kp_fa _ _ _ (cg_kept _ _ _ _ _ _ Hc))); [by rewrite Ht|done]|].
  cbv beta. intros [d|] m1 Hcl.
  - apply wp_bind, wp_write_mem, IH; [lia|lia|]. eapply cloning_child; eauto. lia.
  - destruct Hcl as (Hk1 & Hfree1 & Hsize).
    eapply wp_seq; [apply (cloning_undo (S l) src m0 f i m m1); [done|done|done|lia|done|done|done]|].
    cbv beta. intros [] m2 [Hk2 Hfree2]. apply wp_ret. split; [done|]. split; [done|].
    rewrite (proj2 (cloning_count _ _ _ _ _ _ Hf Hc)), (cg_len _ _ _ _ _ _ Hc), tables_of_unfold. simpl.
    pose proof (below_to_length h (mem_of m0) (S l) src (i + 1) 512 ltac:(lia)) as Hle.
    rewrite below_to_S, length_app, (below_child _ _ _ _ _ _ Hpt), <- Heq in Hle by lia. lia.
Qed.

(** A fresh frame, cleared, is a copy of no entries. *)
Lemma cloning_start l src m0 m1 f :
  fa_ok h (m_sys m0) → f ∈ free_of m0 → kept (λ g, g ∈ free_of m0) m0 m1 →
  free_of m1 = free_of m0 ∖ {[f]} →
  wp (zero_frame (f * FRAME_SIZE) h) m1 (λ _ m2, cloning l src m0 f 0 m2).
Proof.
  intros Hfa Hf Hk1 Hfree1. destruct (fa_bounds h _ Hfa) as (Hh & _ & Hend & Hb). pose proof (Hb f Hf).
  eapply wp_mono; [apply zero_frame_spec; rewrite FRAME_SIZE_val in *; lia|].
  cbv beta. intros [] m2 (w & -> & Hnone & Hw).
  destruct (write_frame m1 f w (kp_fa _ _ _ Hk1)) as [Hk2 Hfree2]; [|done|].
  { rewrite Hfree1. intros [_ Hn]%elem_of_difference. by apply Hn, elem_of_singleton. }
  split.
  - eapply kept_trans; [exact Hk1|exact Hk2|done|]. by intros g ->.
  - constructor.
  - by intros ? ? ?%not_elem_of_nil.
  - by rewrite Hfree2, Hfree1, frame_set_below_0, difference_empty_L.
  - done.
  - lia.
  - intros j Hj. apply Hnone. lia.
Qed.

Lemma clone_body_spec rec l src m :
  (l ≤ 3)%nat → fa_ok h (m_sys m) → total_of m ≤ 2 ^ 40 → framed (in_use m) (tables m l src) →
  (∀ l' c m1, l = S l' → fa_ok h (m_sys m1) → total_of m1 ≤ 2 ^ 40 →
     framed (in_use m1) (tables m1 l' c) → wp (rec c) m1 (λ r m', cloned m1 l' c r m')) →
  wp (let! r := alloc_frame in
      match r with
      | None => ret None
      | Some dst_frame =>
          do! zero_frame dst_frame h;
          let! src' := u64_add src h in
          let! dst := u64_add dst_frame h in
          let! ok := clone_loop rec l src' dst dst_frame h 0 PAGE_SIZE_ENTRIES in
          if (ok : bool) then ret (Some dst_frame) else ret None
      end) m (λ r m', cloned m l src r m').
Proof.
  intros Hl Hfa Htot Hsrc Hrec. eapply wp_seq; [by apply take_frame_spec|]. cbv beta. intros [c|] m1 Hm1.
  - destruct Hm1 as (f & -> & Hf & Hk1 & Hfree1).
    eapply wp_seq; [by apply (cloning_start l src m)|]. cbv beta. intros [] m2 Hc.
    apply wp_bind, wp_u64_add; [by eapply table_addr|].
    destruct (fa_bounds h _ Hfa) as (Hh & _ & Hend & Hb). pose proof (Hb f Hf).
    apply wp_bind, wp_u64_add; [unfold u64_range; rewrite FRAME_SIZE_val in *; lia|].
    eapply wp_seq; [by apply (clone_loop_spec _ _ src m f); try rewrite page_size_entries|].
    cbv beta. intros [|] m3 Hm3; by apply wp_ret.
  - destruct Hm1 as (Hk1 & Hfree1 & Hempty). apply wp_ret. split; [done|]. split; [done|].
    rewrite Hempty, size_empty, tables_of_unfold. simpl. lia.
Qed.

Lemma clone_table_spec l src m :
  (l ≤ 3)%nat → fa_ok h (m_sys m) → total_of m ≤ 2 ^ 40 → framed (in_use m) (tables m l src) →
  wp (clone_table l src h) m (λ r m', cloned m l src r m').
Proof.
  revert src m. induction l as [|l IH]; intros src m Hl Hfa Htot Hsrc; apply clone_body_spec; try done.
  intros l' c m3 [= <-] ? ? ?. by apply IH; [lia|..].
Qed.
End clone.
