(* ===== verification/CloneSpec.v ===== *)
(** * CloneSpec: taking over the boot loader's page tables

    The theorems on the last part of [src/kernel/src/mm/vmm.rs]: [clone_table]
    copies a tree of tables into frames of the kernel's own, [free_cloned_table]
    gives a copy back, and [take_ownership] switches the processor to the copy of
    the tables it was started with. *)

From S2P Require Import Prelude Bits Mem Pmm Dll PmmInv PmmList PmmOps PmmSpec.
From S2P Require Import Locks FrameAlloc Paging Vmm Walk VmmInv TableTree VmmClone.

Section spec.
Context `{Profile} {A : Type} `{!FrameAllocator A} `{!X86Paging} `{!PagingLaws}.
Context (h : Z).
Implicit Types m : Machine A VmmHw.

Abbreviation mem_of m := (sy_mem (m_sys m)).
Abbreviation free_of m := (fa_free (m_sys m)).
Abbreviation total_of m := (fa_total (m_sys m)).
Abbreviation tables m l p := (tables_of h (mem_of m) l p).

(** A copy has as many tables as the original, and its frames were free. *)
Lemma cloned_size m l src d m' :
  cloned h m l src (Some d) m' → (length (tables m l src) ≤ size (free_of m))%nat.
Proof.
  intros (_ & Hnd & Hfr & _ & <- & _). rewrite <- (size_frame_set _ _ Hfr Hnd).
  apply subseteq_size. intros g [k Hg]%(elem_of_frame_set _ _ _ Hfr).
  destruct (Hfr _ k Hg) as (g' & Heq & ?). rewrite FRAME_SIZE_val in Heq. by replace g with g' by lia.
Qed.

(** C8: [clone_table] returns, fails exactly when fewer frames are free than the
    original has tables, and writes to no frame that was not free.  On success
    the copy is a tree of distinct frames taken from the free ones, as large as
    the original, and every address sees through it what it saw through the
    original: the same flags on the way and the same entry at the end.  On
    failure every frame is free again. *)
Theorem clone_table_correct l src m :
  (l ≤ 3)%nat → fa_ok h (m_sys m) → total_of m ≤ 2 ^ 40 → framed (in_use m) (tables m l src) →
  ∃ r m', clone_table l src h m = Ok (r, m') ∧ fa_ok h (m_sys m') ∧ same_rest m m' ∧
    same_outside (frame_words h (λ g, g ∈ free_of m)) (mem_of m) (mem_of m') ∧
    (r = None ↔ (size (free_of m) < length (tables m l src))%nat) ∧
    match r with
    | None => free_of m' = free_of m
    | Some d => NoDup (fst <$> tables m' l d) ∧ length (tables m' l d) = length (tables m l src) ∧
        frame_set (tables m' l d) ⊆ free_of m ∧ free_of m' = free_of m ∖ frame_set (tables m' l d) ∧
        ∀ v, view h (mem_of m') l d v = view h (mem_of m) l src v
    end.
Proof.
  intros Hl Hfa Ht Hsrc.
  destruct (proj1 (wp_ok _ _ _) (clone_table_spec h l src m Hl Hfa Ht Hsrc)) as (r & m' & Heq & Hcl).
  pose proof Hcl as ([Hfa' Hrest Hmem] & Hr). exists r, m'. split_and!; [done..| |].
  - destruct r as [d|]; split; try done; [|by intros _; apply Hr].
    pose proof (cloned_size _ _ _ _ _ Hcl). lia.
  - destruct r as [d|]; [|apply Hr]. destruct Hr as (Hnd & Hfr & Hfree & Hlen & Hview).
    split_and!; [done..| |done|done]. intros g [k Hg]%(elem_of_frame_set _ _ _ Hfr).
    destruct (Hfr _ k Hg) as (g' & Heq' & ?). rewrite FRAME_SIZE_val in Heq'. by replace g with g' by lia.
Qed.

(** [free_cloned_table] returns and gives back exactly the frames of the tree,
    without touching memory outside the free frames. *)
Theorem free_cloned_correct l p m :
  (l ≤ 3)%nat → fa_ok h (m_sys m) → NoDup (fst <$> tables m l p) → framed (in_use m) (tables m l p) →
  ∃ m', free_cloned_table l p h m = Ok (tt, m') ∧ fa_ok h (m_sys m') ∧ same_rest m m' ∧
    free_of m' = free_of m ∪ frame_set (tables m l p) ∧
    same_outside (frame_words h (λ g, g ∈ free_of m')) (mem_of m) (mem_of m').
Proof.
  intros Hl Hfa Hnd Hfr.
  destruct (proj1 (wp_ok _ _ _) (free_cloned_spec h l p m Hl Hfa Hnd Hfr)) as ([] & m' & Heq & [] & Hfree).
  by exists m'.
Qed.

(** ** [take_ownership] *)
Definition boot_top m : Z := Z.land (vh_cr3 (m_own m)) ENTRY_ADDR_MASK.

Definition owned m (r : result Z VmmError) m' : Prop :=
  fa_ok h (m_sys m') ∧ same_cpu (m_sys m) (m_sys m') ∧ total_of m' = total_of m ∧
  vh_vmm (m_own m') = vh_vmm (m_own m) ∧ vh_tlb (m_own m') = vh_tlb (m_own m) ∧
  match r with
  | ROk top =>
      vh_cr3 (m_own m') = Z.lor top (Z.land (vh_cr3 (m_own m)) (u64_not ENTRY_ADDR_MASK)) ∧
      tables_ok h (free_of m') (total_of m') (mem_of m') top (list_to_map (tables m' 3 top)) ∧
      free_of m' ⊆ free_of m ∧
      ∀ v, view h (mem_of m') 3 top v = view h (mem_of m) 3 (boot_top m) v
  | RErr OutOfFrames => vh_cr3 (m_own m') = vh_cr3 (m_own m) ∧ free_of m' = free_of m ∧
      (size (free_of m) < length (tables m 3 (boot_top m)))%nat
  end.

Lemma take_ownership_spec m :
  fa_ok h (m_sys m) → total_of m ≤ 2 ^ 40 → framed (in_use m) (tables m 3 (boot_top m)) →
  wp (take_ownership h) m (owned m).
Proof.
  intros Hfa Ht Hsrc. unfold take_ownership. apply wp_bind, wp_gets. fold (boot_top m).
  eapply wp_seq; [by apply (clone_table_spec h 3 (boot_top m) m)|].
  cbv beta. intros [d|] m1 ([Hfa1 (Hown1 & Hcpu1 & Ht1) Hmem1] & Hr).
  - destruct Hr as (Hnd & Hfr & Hfree & Hlen & Hview).
    destruct (fa_bounds h _ Hfa) as (_ & _ & _ & Hb).
    assert (entry_addr_ok d) as Hd.
    { destruct (Hfr d 3%nat (tables_of_root _ _ _ _)) as (g & -> & Hg).
      apply (frame_addr_ok g (total_of m)); [by apply Hb|exact Ht]. }
    apply wp_bind, wp_modify. apply wp_ret. unfold owned. cbn [m_own m_sys vh_cr3 vh_vmm vh_tlb]. rewrite Hown1, addr_land_mask by done.
    split_and!; [done..|by apply Hcpu1|done|done|done|done| | |done].
    + apply tree_tables_ok; [done|]. intros q k Hq. destruct (Hfr q k Hq) as (g & -> & Hg). exists g.
      split; [done|]. split; [rewrite Ht1; by apply Hb|]. rewrite Hfree. intros [_ Hn]%elem_of_difference.
      apply Hn, (elem_of_frame_set _ _ _ Hfr). by exists k.
    + rewrite Hfree. apply subseteq_difference_l. done.
  - apply wp_ret. unfold owned. rewrite Hown1. destruct Hr. by split_and!.
Qed.

(** [take_ownership] switches to a copy of the tables the processor uses:
    [CR3] holds the copy and the flags it held before, the copy is a page table in
    order in frames of the kernel's own, and every address translates as before
    and with the same rights.  When frames run out it reports [OutOfFrames] and
    nothing changes: the processor stays on the old tables and every frame is
    free again. *)
Theorem take_ownership_correct m :
  fa_ok h (m_sys m) → total_of m ≤ 2 ^ 40 → framed (in_use m) (tables m 3 (boot_top m)) →
  ∃ r m', take_ownership h m = Ok (r, m') ∧ fa_ok h (m_sys m') ∧ same_cpu (m_sys m) (m_sys m') ∧
    match r with
    | ROk top => vh_cr3 (m_own m') = Z.lor top (Z.land (vh_cr3 (m_own m)) (u64_not ENTRY_ADDR_MASK)) ∧
        (∃ T, tables_ok h (free_of m') (total_of m') (mem_of m') top T) ∧
        ∀ v, view h (mem_of m') 3 top v = view h (mem_of m) 3 (boot_top m) v ∧
             walk h (mem_of m') 3 top v = walk h (mem_of m) 3 (boot_top m) v
    | RErr OutOfFrames => m_own m' = m_own m ∧ free_of m' = free_of m ∧
        (size (free_of m) < length (tables m 3 (boot_top m)))%nat
    end.
Proof.
  intros Hfa Ht Hsrc. destruct (proj1 (wp_ok _ _ _) (take_ownership_spec m Hfa Ht Hsrc)) as (r & m' & Heq & Hown).
  destruct Hown as (Hfa' & Hcpu & _ & Hvmm & Htlb & Hr). exists r, m'. split_and!; [done..|].
  destruct r as [top|[]].
  - destruct Hr as (Hcr3 & HT & _ & Hview). split_and!; [done|by eexists|].
    intros v. by rewrite <- !view_walk, Hview.
  - destruct Hr as (Hcr3 & Hfree & Hsz). split_and!; [|done|done].
    destruct (m_own m) as [a b c], (m_own m') as [a' b' c']. cbn [vh_vmm vh_cr3 vh_tlb] in Hcr3, Hvmm, Htlb. by subst.
Qed.
End spec.
