(* ===== verification/KernelInit.v ===== *)
(** * KernelInit: the whole of [mm::init]

    [init] of [src/kernel/src/mm/mod.rs]: the physical memory manager, then the
    copy of the boot loader's page tables, the direct-map offset, the [VMM]
    singleton and the heap.  The theorem joins what the components' own theorems
    say: after [init] the manager, the page tables and an empty heap are all in
    order on one machine state. *)

From S2P Require Import Prelude Bits Mem Pmm Dll PmmInv PmmList PmmOps PmmSpec.
From S2P Require Import Locks FrameAlloc PmmGlobal MmInit Heap HeapInv HeapOps HeapLive HeapSpec.
From S2P Require Import Paging Vmm Walk VmmInv KernelVmm TableTree VmmClone CloneSpec.

(** [heap::HeapError] has no values. *)
Inductive HeapError :=.

Inductive MmError := MmVmmError (e : VmmError) | MmHeapError (e : HeapError).

(** [HHDM_OFFSET.store(h)] *)
Definition store_hhdm {A X : Type} (h : Z) : M (Machine A X) unit :=
  modify (λ m, mkMachine (mkSys (sy_mem (m_sys m)) (sy_if (m_sys m)) h (sy_alloc (m_sys m))) (m_own m)).

Section init.
Context `{Profile} `{Limine} `{!X86Paging}.

(** The boot loader's answers are arguments; [heap::init] returns [Ok] when it
    returns, its error type being empty. *)
Definition init (memmap : list Entry) (hhdm_offset : Z) : M (Machine PmmLock VmmHw) (result unit MmError) :=
  do! on_sys (init_pmm memmap hhdm_offset);
  let! r := take_ownership hhdm_offset in
  match r with
  | RErr e => ret (RErr (MmVmmError e))
  | ROk top_level =>
      do! store_hhdm hhdm_offset;
      do! singleton_install vmm_if VMM (mkVmm top_level);
      do! heap_init;
      ret (ROk tt)
  end.
End init.

(** ** The [VMM] singleton *)
Section singleton.
Context {A : Type}.

Lemma install_vmm_spec (m : Machine A VmmHw) v :
  il_locked (mx_raw (vh_vmm (m_own m))) = false → mx_data (vh_vmm (m_own m)) = None →
  wp (singleton_install vmm_if VMM v) m (λ _ m',
    m' = mkMachine (m_sys m) (mkVmmHw (mkMutex (mkIntLock false (sy_if (m_sys m))) (Some v))
                                      (vh_cr3 (m_own m)) (vh_tlb (m_own m)))).
Proof.
  intros Hl Hn. apply wp_with_lock; [apply _..|exact Hl|].
  apply wp_bind, wp_gets. simpl. rewrite Hn. apply wp_bind, wp_assert; [done|]. apply wp_modify.
  split_and!; [done|done|]. by destruct m as [[] []].
Qed.
End singleton.

Section init_proofs.
Context `{Profile} `{Limine} `{!X86Paging} `{!PagingLaws}.
Implicit Types m : Machine PmmLock VmmHw.
#[local] Existing Instance nobody.

Abbreviation mem_of m := (sy_mem (m_sys m)).

(** The boot loader's tables lie in frames of the machine that it did not
    declare usable, or that hold the metadata. *)
Definition boot_tables_ok (memmap : list Entry) (hhdm : Z) m : Prop :=
  framed (λ f, 0 ≤ f < boot_frames memmap ∧ f ∉ boot_free memmap) (tables_of hhdm (mem_of m) 3 (boot_top m)).

(** Building the manager does not disturb them. *)
Lemma boot_tables_kept memmap hhdm m (s' : Sys PmmLock) :
  boot_tables_ok memmap hhdm m →
  same_outside (frame_words hhdm (λ g, g ∈ boot_free memmap)) (mem_of m) (sy_mem s') →
  agree hhdm (tables_of hhdm (mem_of m) 3 (boot_top m)) (mem_of m) (sy_mem s').
Proof.
  intros Hb Hw. apply (agree_outside _ _ _ _ _ Hw). intros q k Hq.
  destruct (Hb q k Hq) as (f & -> & _ & ?). by exists f.
Qed.

(** The machine after the direct map and the singleton are set. *)
Lemma installed_ok hhdm (m : Machine PmmLock VmmHw) top T raw :
  fa_ok hhdm (m_sys m) → fa_total (m_sys m) ≤ 2 ^ 40 →
  tables_ok hhdm (fa_free (m_sys m)) (fa_total (m_sys m)) (mem_of m) top T →
  let s := mkSys (mem_of m) (sy_if (m_sys m)) hhdm (sy_alloc (m_sys m)) in
  vmm_ok hhdm (mkMachine s (mkVmmHw (mkMutex raw (Some (mkVmm top))) (vh_cr3 (m_own m)) (vh_tlb (m_own m))))
    top T ∧ heap_rel hhdm (mkMachine s Heap_new) ∅ ∧ fa_free s = fa_free (m_sys m).
Proof.
  intros Hfa Ht HT s.
  destruct (fa_frame hhdm (m_sys m) (mem_of m) (sy_if (m_sys m)) hhdm Hfa) as (Hfa' & Hfr & Htot); [done|].
  fold s in Hfa', Hfr, Htot. split_and!; [|by apply heap_new_rel|done].
  split; cbn [m_sys]; [done|done|by rewrite Htot|by rewrite Hfr, Htot|done].
Qed.

(** What [mm::init] leaves behind. *)
Definition init_post (memmap : list Entry) (hhdm : Z) m (r : result unit MmError) m' : Prop :=
  sy_if (m_sys m') = sy_if (m_sys m) ∧ fa_ok hhdm (m_sys m') ∧ fa_free (m_sys m') ⊆ boot_free memmap ∧
  match r with
  | ROk _ => ∃ top T, mx_data (vh_vmm (m_own m')) = Some (mkVmm top) ∧
      il_locked (mx_raw (vh_vmm (m_own m'))) = false ∧ vmm_ok hhdm m' top T ∧
      vh_cr3 (m_own m') = Z.lor top (Z.land (vh_cr3 (m_own m)) (u64_not ENTRY_ADDR_MASK)) ∧
      (∀ v, view hhdm (mem_of m') 3 top v = view hhdm (mem_of m) 3 (boot_top m) v) ∧
      heap_rel hhdm (mkMachine (m_sys m') Heap_new) ∅
  | RErr _ => r = RErr (MmVmmError OutOfFrames) ∧ m_own m' = m_own m ∧
      (size (boot_free memmap) < length (tables_of hhdm (mem_of m) 3 (boot_top m)))%nat
  end.

Lemma init_spec memmap hhdm m :
  memmap_ok memmap hhdm → has_room memmap → sy_alloc (m_sys m) = PMM_INIT →
  vh_vmm (m_own m) = Singleton_new → boot_tables_ok memmap hhdm m →
  wp (init memmap hhdm) m (init_post memmap hhdm m).
Proof.
  intros Hmm Hroom Hpmm Hvmm Hboot. unfold init.
  destruct (boot_numbers memmap hhdm Hmm) as (_ & _ & Hbf & _).
  pose proof (mo_hhdm _ _ Hmm) as (Hh0 & _ & _).
  apply wp_bind, wp_on_sys. eapply wp_mono; [by apply init_pmm_spec|].
  cbv beta. intros n s (Hok & Hcpu & Htot & Hfree & _ & Hmem).
  pose proof (boot_tables_kept memmap hhdm m s Hboot Hmem) as Hag.
  set (m1 := mkMachine s (m_own m)).
  assert (fa_total (m_sys m1) = boot_frames memmap) as Htot1 by exact Htot.
  assert (fa_free (m_sys m1) = boot_free memmap) as Hfree1 by exact Hfree.
  assert (tables_of hhdm (mem_of m1) 3 (boot_top m1) = tables_of hhdm (mem_of m) 3 (boot_top m)) as Htab
    by (by apply tables_of_ext).
  eapply wp_seq; [apply (take_ownership_spec hhdm m1)|].
  - exact Hok.
  - rewrite Htot1. lia.
  - rewrite Htab. intros q k Hq. destruct (Hboot q k Hq) as (f & -> & ? & ?). exists f. split; [done|].
    split; [by rewrite Htot1|by rewrite Hfree1].
  - cbv beta. intros [top|[]] m2 (Hfa2 & Hcpu2 & Htot2 & Hv2 & Htlb2 & Hr).
    + destruct Hr as (Hcr3 & HT & Hsub & Hview). rewrite Hfree1 in Hsub. apply wp_bind, wp_modify.
      assert (fa_total (m_sys m2) ≤ 2 ^ 40) as Ht2 by (rewrite Htot2, Htot1; lia).
      destruct (installed_ok hhdm m2 top _ (mkIntLock false (sy_if (m_sys m2))) Hfa2 Ht2 HT)
        as (Hvok & Hheap & Hfree2).
      eapply wp_seq; [apply install_vmm_spec; cbn [m_own]; by rewrite Hv2; cbn [m_own m1]; rewrite Hvmm|].
      cbv beta. intros [] m3 ->. cbn [m_sys m_own sy_if] in *.
      apply wp_bind, wp_bind, wp_gets, wp_debug_assert; [cbn [m_sys sy_hhdm]; destruct (Z.eqb_spec hhdm 0); [lia|done]|].
      apply wp_ret. unfold init_post. cbn [m_sys m_own sy_if vh_cr3 sy_mem vh_vmm mx_data mx_raw il_locked].
      split_and!; [by rewrite (proj1 Hcpu2); apply Hcpu|apply Hvok|by rewrite Hfree2|].
      exists top, (list_to_map (tables_of hhdm (mem_of m2) 3 top)). split_and!; [done..| |done].
      intros v. rewrite Hview. by apply view_ext.
    + destruct Hr as (Hcr3 & Hfree2 & Hsize). apply wp_ret. rewrite Hfree1 in Hfree2, Hsize. rewrite Htab in Hsize.
      split_and!; [by rewrite (proj1 Hcpu2); apply Hcpu|done|by rewrite Hfree2|done| |done].
      destruct m2 as [s2 [a b c]], m as [s0 [a' b' c']]. cbn [m_own vh_vmm vh_cr3 vh_tlb m1] in *. by subst.
Qed.

End init_proofs.
