(* ===== verification/VmmExamples.v ===== *)
(** * VmmExamples: the page tables on the machine of [PmmExamples]

    The architecture's paging format over the physical memory manager: a page is
    mapped into an empty PML4 and unmapped again.  The theorems of [VmmSpec] and
    [VmmRange] are applied at the states of that run. *)

From S2P Require Import Prelude Bits Mem Pmm Dll PmmInv PmmList PmmOps PmmSpec PmmExamples.
From S2P Require Import Locks FrameAlloc PmmGlobal Paging Vmm Walk VmmInv VmmOps VmmMap VmmUnmap.
From S2P Require Import VmmSpec VmmRange.

#[local] Existing Instance dev_profile.
#[local] Existing Instance x86_64_paging.
#[local] Existing Instance x86_64_laws.

(** Frames 5 to 7 belong to another component. *)
Definition ex_reserved : Reserved := λ g, 5 ≤ g ≤ 7.

#[local] Existing Instance ex_reserved.

(** A frame in use with no present entry is a tree of tables of its own. *)
Lemma empty_root h (m : Machine PmmLock VmmHw) f :
  fa_ok h (m_sys m) → sy_hhdm (m_sys m) = h → fa_total (m_sys m) ≤ 2 ^ 40 →
  0 ≤ f < fa_total (m_sys m) → f ∉ fa_free (m_sys m) →
  no_entries h (sy_mem (m_sys m)) (f * FRAME_SIZE) → (∀ g, reserved g → (g ∉ fa_free (m_sys m)) ∧ g ≠ f) →
  vmm_ok h m (f * FRAME_SIZE) {[f * FRAME_SIZE := 3%nat]}.
Proof.
  intros Hfa Hh Ht Hf Hn He Hap. split; [done..| |].
  2:{ intros g Hg. destruct (Hap g Hg) as [? ?]. split; [done|]. apply lookup_singleton_None. rewrite FRAME_SIZE_val. lia. }
  split.
  - apply lookup_singleton_eq.
  - intros p l [<- <-]%lookup_singleton_Some. split; [lia|]. by exists f.
  - intros p l i c [<- <-]%lookup_singleton_Some Hi [Hp _]. by rewrite He in Hp.
  - intros p l i p' l' i' c [<- <-]%lookup_singleton_Some _ Hi _ [Hp _]. by rewrite He in Hp.
Qed.

Lemma no_entries_check h w p :
  forallb (λ i, negb (presentb (ent w h p (Z.of_nat i)))) (seq 0 512) = true → no_entries h w p.
Proof.
  rewrite forallb_forall. intros Hall i Hi. specialize (Hall (Z.to_nat i)).
  rewrite Z2Nat.id in Hall by lia. apply negb_true_iff, Hall, in_seq. lia.
Qed.

(** Frame 4 is the PML4; frames 5 to 7 are in use, 1 to 3 and 8 to 15 free. *)
Definition ex_top : Z := 4 * FRAME_SIZE.

Definition ex_vm0 : Machine PmmLock VmmHw :=
  mkMachine (mkSys (ps_mem ex_pmm2) true ex_hhdm (mkMutex IntLock_INIT (Some (ps_self ex_pmm2))))
            (mkVmmHw (mkMutex IntLock_INIT (Some (mkVmm ex_top))) ex_top []).

Lemma ex_vm0_ok : vmm_ok ex_hhdm ex_vm0 ex_top {[ex_top := 3%nat]}.
Proof.
  apply (empty_root ex_hhdm ex_vm0 4).
  - split; [reflexivity|]. exists (ps_self ex_pmm2). split; [reflexivity|].
    split; [vm_compute; reflexivity|exact ex_pmm2_ok].
  - reflexivity.
  - vm_compute. intros Hc. discriminate Hc.
  - vm_compute. split; [intros Hc; discriminate Hc|reflexivity].
  - apply (bool_decide_unpack (4 ∉ fa_free (m_sys ex_vm0))). vm_compute. exact I.
  - apply no_entries_check. vm_compute. reflexivity.
  - intros g [Hlo Hhi]. split; [|lia].
    assert (g ∈ [5; 6; 7]) as Hg by (rewrite !elem_of_cons; lia). revert Hg. clear Hlo Hhi. revert g. apply Forall_forall.
    apply (bool_decide_unpack (Forall (λ g, g ∉ fa_free (m_sys ex_vm0)) [5; 6; 7])). vm_compute. exact I.
Qed.

(** A page at 0x7000, to frame 9, present and writable. *)
Definition ex_virt : Z := 0x7000.
Definition ex_phys : Z := 0x9000.
Definition ex_flags : Z := 3.

Definition ex_vm1 : Machine PmmLock VmmHw :=
  run_state (Vmm_map (mkVmm ex_top) ex_virt ex_phys ex_flags Base) ex_vm0.

Lemma ex_map : Vmm_map (mkVmm ex_top) ex_virt ex_phys ex_flags Base ex_vm0 = Ok (ROk tt, ex_vm1).
Proof. unfold ex_vm1. apply ran. vm_compute. reflexivity. Qed.

(** The translation of an address in the page, and of one outside of it. *)
Example ex_translate :
  translation ex_hhdm ex_top (sy_mem (m_sys ex_vm1)) 0x7123 = Some (0x9123, 3) ∧
  translation ex_hhdm ex_top (sy_mem (m_sys ex_vm1)) 0x8123 = None.
Proof. vm_compute. split; reflexivity. Qed.

Lemma ex_flags_ok : flag_bits_ok ex_flags.
Proof. split; [unfold ex_flags; lia|reflexivity]. Qed.

Lemma ex_virt_u64 : u64_range ex_virt.
Proof. unfold u64_range, ex_virt. lia. Qed.

Lemma ex_phys_ok : 0 ≤ ex_phys < 2 ^ 52.
Proof. unfold ex_phys. lia. Qed.

Lemma ex_vm1_ok : ∃ T, vmm_ok ex_hhdm ex_vm1 ex_top T.
Proof.
  assert (is_canonical ex_virt = true) as Hc by reflexivity.
  assert (ex_virt mod PageSize_bytes Base = 0) as Hv by (vm_compute; reflexivity).
  assert (ex_phys mod PageSize_bytes Base = 0) as Hp by (vm_compute; reflexivity).
  assert (entry_addr_ok ex_phys) as He by (split; [exact ex_phys_ok|vm_compute; reflexivity]).
  pose proof (map_spec ex_hhdm ex_top {[ex_top := 3%nat]} ex_vm0 ex_virt ex_phys ex_flags Base
    ex_vm0_ok Hc Hv Hp He ex_flags_ok) as Hmap.
  unfold wp in Hmap. rewrite ex_map in Hmap. destruct Hmap as (_ & (T' & Hok & _) & _). exists T'. exact Hok.
Qed.

Lemma translate_is_walk_witness :
  Vmm_translate (mkVmm ex_top) 0x7123 ex_vm1 = Ok (Some (0x9123, 3), ex_vm1).
Proof.
  destruct ex_vm1_ok as [T Hok].
  rewrite (translate_is_walk ex_hhdm ex_top T ex_vm1 0x7123 Hok).
  apply f_equal, f_equal2; [vm_compute; reflexivity|reflexivity].
Defined.

Lemma map_correct_witness :
  ∃ r m', Vmm_map (mkVmm ex_top) ex_virt ex_phys ex_flags Base ex_vm0 = Ok (r, m').
Proof.
  destruct (map_correct ex_hhdm ex_top _ ex_vm0 ex_virt ex_phys ex_flags Base ex_vm0_ok ex_virt_u64
    ex_phys_ok ex_flags_ok) as (r & m' & Heq & _).
  exists r, m'. exact Heq.
Defined.


Lemma map_unmap_roundtrip_witness :
  ∃ m2 T2, Vmm_unmap (mkVmm ex_top) ex_virt Base ex_vm1 = Ok (ROk tt, m2) ∧ vmm_ok ex_hhdm m2 ex_top T2 ∧
    ∀ v', good_addr v' → translation ex_hhdm ex_top (sy_mem (m_sys m2)) v' =
                         translation ex_hhdm ex_top (sy_mem (m_sys ex_vm0)) v'.
Proof.
  exact (map_unmap_roundtrip ex_hhdm ex_top _ ex_vm0 ex_vm1 ex_virt ex_phys ex_flags Base ex_vm0_ok
    ex_virt_u64 ex_phys_ok ex_flags_ok ex_map).
Defined.

Lemma map_range_all_or_nothing_witness :
  ∃ r m', Vmm_map_range (mkVmm ex_top) ex_virt ex_phys 3 ex_flags Base ex_vm0 = Ok (r, m') ∧
    ∃ T', vmm_ok ex_hhdm m' ex_top T'.
Proof.
  assert (ex_virt + 3 * PageSize_bytes Base ≤ 2 ^ 64) as Hv by (vm_compute; intros Hc; discriminate Hc).
  assert (ex_phys + 3 * PageSize_bytes Base ≤ 2 ^ 52) as Hp by (vm_compute; intros Hc; discriminate Hc).
  assert (0 ≤ ex_virt) as Hv0 by (unfold ex_virt; lia).
  assert (0 ≤ ex_phys) as Hp0 by (unfold ex_phys; lia).
  assert (0 ≤ 3) as Hn by lia.
  destruct (map_range_all_or_nothing ex_hhdm ex_top ex_virt ex_phys ex_flags Base ex_vm0
    Hv0 Hp0 ex_flags_ok {[ex_top := 3%nat]} 3 ex_vm0_ok Hn Hv Hp) as (r & m' & Heq & HT & _).
  exists r, m'. split; [exact Heq|exact HT].
Defined.

Lemma unmap_range_prefix_witness :
  ∃ r m', Vmm_unmap_range (mkVmm ex_top) ex_virt 3 Base ex_vm0 = Ok (r, m') ∧ ∃ T', vmm_ok ex_hhdm m' ex_top T'.
Proof.
  assert (ex_virt + 3 * PageSize_bytes Base ≤ 2 ^ 64) as Hv by (vm_compute; intros Hc; discriminate Hc).
  assert (0 ≤ ex_virt) as Hv0 by (unfold ex_virt; lia).
  assert (0 ≤ 3) as Hn by lia.
  destruct (unmap_range_prefix ex_hhdm ex_top ex_virt Base ex_vm0 Hv0 {[ex_top := 3%nat]} 3 ex_vm0_ok Hn Hv)
    as (r & m' & n & Heq & HT & _).
  exists r, m'. split; [exact Heq|exact HT].
Defined.
