(* ===== verification/KernelExamples.v ===== *)
(** * KernelExamples: copying page tables, and a whole boot

    The tables of [VmmExamples] are copied and released, the direct-map functions
    run on them, and [mm::init] runs on the machine of [BootExamples], whose boot
    loader left two tables.  The theorems of [CloneSpec], [KernelVmm] and
    [KernelInit] are applied at the states of these runs. *)

From S2P Require Import Prelude Bits Mem Pmm Dll PmmInv PmmList PmmOps PmmSpec PmmExamples.
From S2P Require Import Locks FrameAlloc PmmGlobal MmInit MmBoot BootExamples.
From S2P Require Import Heap HeapInv HeapOps HeapLive HeapSpec.
From S2P Require Import Paging Vmm Walk VmmInv VmmOps VmmMap VmmUnmap VmmSpec VmmRange KernelVmm.
From S2P Require Import TableTree VmmClone CloneSpec KernelInit VmmExamples.

#[local] Existing Instance dev_profile.
#[local] Existing Instance x86_64_paging.
#[local] Existing Instance x86_64_laws.
#[local] Existing Instance ex_reserved.
#[local] Existing Instance ex_limine.

(** Deciding that tables lie in frames below [total] outside [F]. *)
Definition framedb (total : Z) (F : gset Z) (L : list (Z * nat)) : bool :=
  forallb (λ x, let f := fst x / FRAME_SIZE in
    (fst x =? f * FRAME_SIZE) && (0 <=? f) && (f <? total) && bool_decide (f ∉ F)) L.

Lemma framedb_ok total F L : framedb total F L = true → framed (λ f, 0 ≤ f < total ∧ f ∉ F) L.
Proof.
  unfold framedb. rewrite forallb_forall. intros Hall q k Hq. apply list_elem_of_In in Hq.
  specialize (Hall _ Hq). cbn [fst] in Hall. rewrite !andb_true_iff in Hall.
  destruct Hall as [[[He Hf] Ht] Hn]. exists (q / FRAME_SIZE). apply Z.eqb_eq in He.
  split; [exact He|]. apply bool_decide_eq_true in Hn. split; [lia|done].
Qed.

Lemma nodupb_ok (L : list Z) : bool_decide (NoDup L) = true → NoDup L.
Proof. apply bool_decide_eq_true. Qed.

(** ** Copying the tables of [ex_vm1] *)

(** The PML4 at frame 4 and the three tables [map] made below it. *)
Example ex_tables : length (tables_of ex_hhdm (sy_mem (m_sys ex_vm1)) 3 ex_top) = 4%nat.
Proof. vm_compute. reflexivity. Qed.

Lemma ex_vm1_fa : fa_ok ex_hhdm (m_sys ex_vm1).
Proof. destruct ex_vm1_ok as [T Hok]. exact (vo_fa _ _ _ _ Hok). Qed.

Lemma ex_vm1_total : fa_total (m_sys ex_vm1) ≤ 2 ^ 40.
Proof. destruct ex_vm1_ok as [T Hok]. exact (vo_total _ _ _ _ Hok). Qed.

Lemma ex_vm1_framed : framed (in_use ex_vm1) (tables_of ex_hhdm (sy_mem (m_sys ex_vm1)) 3 ex_top).
Proof. apply framedb_ok. vm_compute. reflexivity. Qed.

Lemma ex_vm1_nodup : NoDup (fst <$> tables_of ex_hhdm (sy_mem (m_sys ex_vm1)) 3 ex_top).
Proof. apply nodupb_ok. vm_compute. reflexivity. Qed.

Lemma ex_level : (3 ≤ 3)%nat.
Proof. exact (le_n 3). Qed.

Lemma clone_table_correct_witness :
  ∃ r m', clone_table 3 ex_top ex_hhdm ex_vm1 = Ok (r, m') ∧ fa_ok ex_hhdm (m_sys m').
Proof.
  destruct (clone_table_correct ex_hhdm 3 ex_top ex_vm1 ex_level ex_vm1_fa ex_vm1_total ex_vm1_framed)
    as (r & m' & Heq & Hfa & _).
  exists r, m'. split; [exact Heq|exact Hfa].
Defined.

Lemma free_cloned_correct_witness :
  ∃ m', free_cloned_table 3 ex_top ex_hhdm ex_vm1 = Ok (tt, m') ∧ fa_ok ex_hhdm (m_sys m').
Proof.
  destruct (free_cloned_correct ex_hhdm 3 ex_top ex_vm1 ex_level ex_vm1_fa ex_vm1_nodup ex_vm1_framed)
    as (m' & Heq & Hfa & _).
  exists m'. split; [exact Heq|exact Hfa].
Defined.

Lemma ex_boot_top : boot_top ex_vm1 = ex_top.
Proof. vm_compute. reflexivity. Qed.

Lemma ex_vm1_boot : framed (in_use ex_vm1) (tables_of ex_hhdm (sy_mem (m_sys ex_vm1)) 3 (boot_top ex_vm1)).
Proof. rewrite ex_boot_top. exact ex_vm1_framed. Qed.

Lemma take_ownership_correct_witness :
  ∃ r m', take_ownership ex_hhdm ex_vm1 = Ok (r, m') ∧ fa_ok ex_hhdm (m_sys m').
Proof.
  destruct (take_ownership_correct ex_hhdm ex_vm1 ex_vm1_fa ex_vm1_total ex_vm1_boot) as (r & m' & Heq & Hfa & _).
  exists r, m'. split; [exact Heq|exact Hfa].
Defined.

(** ** The kernel-wide functions *)
Lemma ex_vm0_kernel : kernel_vmm_ok ex_hhdm ex_top ex_vm0.
Proof.
  split; [exists {[ex_top := 3%nat]}; exact ex_vm0_ok|]. split; reflexivity.
Qed.

Lemma map_hhdm_correct_witness :
  ∃ r m', map_hhdm ex_phys ex_flags Base ex_vm0 = Ok (r, m') ∧ call_ok ex_hhdm ex_top ex_vm0 m'.
Proof.
  assert (ex_phys + ex_hhdm < 2 ^ 64) as Hb by (vm_compute; reflexivity).
  destruct (map_hhdm_correct ex_hhdm ex_top ex_vm0 ex_phys ex_flags Base ex_vm0_kernel ex_phys_ok Hb ex_flags_ok)
    as (r & m' & Heq & Hc & _).
  exists r, m'. split; [exact Heq|exact Hc].
Defined.

Lemma kernel_unmap_correct_witness :
  ∃ r m', unmap ex_virt Base ex_vm0 = Ok (r, m') ∧ call_ok ex_hhdm ex_top ex_vm0 m'.
Proof.
  destruct (kernel_unmap_correct ex_hhdm ex_top ex_vm0 ex_virt Base ex_vm0_kernel ex_virt_u64)
    as (r & m' & Heq & Hc & _).
  exists r, m'. split; [exact Heq|exact Hc].
Defined.

(** ** A whole boot *)

(** The boot loader's PML4 is at frame 5; its first entry points to the table at
    frame 4, which maps the first gigabyte. *)
Definition ex_boot_mem : mem := {[ex_hhdm + 0x5000 := 0x4003; ex_hhdm + 0x4000 := 0x83]}.

Definition ex_machine0 : Machine PmmLock VmmHw :=
  mkMachine (mkSys ex_boot_mem true 0 PMM_INIT) (mkVmmHw Singleton_new 0x5018 []).

Lemma ex_boot_tables : boot_tables_ok ex_memmap ex_hhdm ex_machine0.
Proof. apply framedb_ok. vm_compute. reflexivity. Qed.

(** It succeeds with a PML4 of its own, and an address
    of the first gigabyte still translates to itself. *)
Example ex_init_run :
  match init ex_memmap ex_hhdm ex_machine0 with
  | Ok (ROk _, m') =>
      match mx_data (vh_vmm (m_own m')) with
      | Some v => translation ex_hhdm (top_level v) (sy_mem (m_sys m')) 0x1234 = Some (0x1234, 0x83)
      | None => False
      end
  | _ => False
  end.
Proof. vm_compute. reflexivity. Qed.

