(* ===== verification/Eventually.v ===== *)
(** * Eventually: loops that wait for a device

    A loop that polls a device has no bound the code knows.  Its model takes
    fuel, and what is proved of it is that every large enough amount of fuel gives
    one and the same result: [returns c s Q]. *)

From S2P Require Import Prelude.

(** From some amount of fuel on, [c] returns the same result and state, which
    satisfy [Q]. *)
Definition returns {St A : Type} (c : nat → M St A) (s : St) (Q : A → St → Prop) : Prop :=
  ∃ n0 a s', (∀ n, (n0 ≤ n)%nat → c n s = Ok (a, s')) ∧ Q a s'.

Section rules.
Context {St : Type}.

Lemma returns_const {A : Type} (c : M St A) s Q : wp c s Q → returns (λ _, c) s Q.
Proof. intros (a & s' & Heq & HQ)%wp_ok. by exists 0%nat, a, s'. Qed.

Lemma returns_ret {A : Type} (a : A) (s : St) Q : Q a s → returns (λ _, ret a) s Q.
Proof. intros HQ. by exists 0%nat, a, s. Qed.

Lemma returns_mono {A : Type} (c : nat → M St A) s (P Q : A → St → Prop) :
  returns c s P → (∀ a s', P a s' → Q a s') → returns c s Q.
Proof. intros (n0 & a & s' & Heq & HP) HPQ. exists n0, a, s'. auto. Qed.

Lemma returns_seq {A B : Type} (c : nat → M St A) (k : A → nat → M St B) s P Q :
  returns c s P → (∀ a s', P a s' → returns (k a) s' Q) →
  returns (λ n, bind (c n) (λ a, k a n)) s Q.
Proof.
  intros (n0 & a & s' & Heq & HP) Hk. destruct (Hk a s' HP) as (n1 & b & s'' & Heq' & HQ).
  exists (Nat.max n0 n1), b, s''. split; [|done]. intros n Hn. unfold bind.
  rewrite Heq by lia. apply Heq'. lia.
Qed.

(** The head of a sequence needs no fuel. *)
Lemma returns_bind {A B : Type} (c : M St A) (k : A → nat → M St B) s Q :
  wp c s (λ a s', returns (k a) s' Q) → returns (λ n, bind c (λ a, k a n)) s Q.
Proof. intros Hc. eapply (returns_seq (λ _, c)); [by apply returns_const|]. cbv beta. auto. Qed.

(** The tail needs none. *)
Lemma returns_then {A B : Type} (c : nat → M St A) (k : A → M St B) s Q :
  returns c s (λ a s', wp (k a) s' Q) → returns (λ n, bind (c n) k) s Q.
Proof. intros Hc. eapply (returns_seq c (λ a _, k a)); [exact Hc|]. intros a s' Hw. by apply returns_const. Qed.

(** A body that takes one unit of fuel for itself. *)
Lemma returns_S {A : Type} (c : nat → M St A) (f : nat → M St A) s Q :
  (∀ n, c (S n) s = f n s) → returns f s Q → returns c s Q.
Proof.
  intros Hc (n0 & a & s' & Heq & HQ). exists (S n0), a, s'. split; [|done].
  intros [|n] Hn; [lia|]. rewrite Hc. apply Heq. lia.
Qed.

Lemma returns_ext {A : Type} (c d : nat → M St A) s Q : (∀ n, c n s = d n s) → returns d s Q → returns c s Q.
Proof. intros He (n0 & a & s' & Heq & HQ). exists n0, a, s'. split; [|done]. intros n Hn. by rewrite He, Heq. Qed.

Lemma returns_ok {A : Type} (c : nat → M St A) s Q :
  returns c s Q → ∃ n0 a s', Q a s' ∧ ∀ n, (n0 ≤ n)%nat → c n s = Ok (a, s').
Proof. intros (n0 & a & s' & Heq & HQ). by exists n0, a, s'. Qed.

(** A result that does not depend on the amount of fuel holds of every run that
    ends. *)
Lemma returns_agree {A : Type} (c : nat → M St A) s Q n a s' :
  returns c s Q → c n s = Ok (a, s') → (∀ k, (n ≤ k)%nat → c k s = Ok (a, s')) → Q a s'.
Proof.
  intros (n0 & b & s'' & Heq & HQ) Hn Hmono. specialize (Hmono (Nat.max n n0) ltac:(lia)).
  rewrite Heq in Hmono by lia. by simplify_eq.
Qed.

(** From some amount of fuel on, [c] returns with [Q] or panics with [msg], and
    does nothing else. *)
Definition settles {A : Type} (c : nat → M St A) (s : St) (Q : A → St → Prop) (msg : string) : Prop :=
  ∃ n0, ∀ n, (n0 ≤ n)%nat → c n s = Panic msg ∨ wp (c n) s Q.

Lemma settles_wp {A : Type} n0 (c : nat → M St A) s Q msg :
  (∀ n, (n0 ≤ n)%nat → wp (c n) s Q) → settles c s Q msg.
Proof. intros Hc. exists n0. auto. Qed.

Lemma settles_seq {A B : Type} (c : nat → M St A) (k : A → nat → M St B) s P Q msg :
  returns c s P → (∀ a s', P a s' → settles (k a) s' Q msg) →
  settles (λ n, bind (c n) (λ a, k a n)) s Q msg.
Proof.
  intros (n0 & a & s' & Heq & HP) Hk. destruct (Hk a s' HP) as (n1 & Hn1). exists (Nat.max n0 n1).
  intros n Hn. unfold wp, bind. rewrite Heq by lia. apply Hn1. lia.
Qed.

(** The tail needs no fuel. *)
Lemma settles_then {A B : Type} (c : nat → M St A) (k : A → M St B) s P Q msg :
  settles c s P msg → (∀ a s', P a s' → k a s' = Panic msg ∨ wp (k a) s' Q) → settles (λ n, bind (c n) k) s Q msg.
Proof.
  intros [n0 Hc] Hk. exists n0. intros n Hn. unfold wp, bind. destruct (Hc n Hn) as [->|(a & s' & -> & HP)%wp_ok]; [by left|].
  by apply Hk.
Qed.

Lemma settles_panic {A B : Type} (c : M St A) (k : A → nat → M St B) s Q msg :
  c s = Panic msg → settles (λ n, bind c (λ a, k a n)) s Q msg.
Proof. intros Hc. exists 0%nat. intros n _. left. unfold bind. by rewrite Hc. Qed.
End rules.
