(* ===== verification/Devices.v ===== *)
(** * Devices: what the kernel reaches through ports, registers and device memory

    The instructions of the [x86] crate that talk to hardware: port input and
    output, accesses to device memory, the time stamp counter, model-specific and
    control registers.  The hardware is a state [D] of its own with one function
    per instruction ([Devices]); each driver states what it relies on as laws of
    its own device, next to the driver. *)

From S2P Require Import Prelude Locks.

(** Casts to narrower integers cut. *)
Definition u8_of (z : Z) : Z := z mod 2 ^ 8.
Definition u16_of (z : Z) : Z := z mod 2 ^ 16.
Definition u32_of (z : Z) : Z := z mod 2 ^ 32.

(** [+] on [u16] and [u32]: a panic in [dev] when the sum does not fit, the wrapped
    value in [release]. *)
Definition uint_arith `{Profile} {St : Type} (w z : Z) (msg : string) : M St Z :=
  if (0 <=? z) && (z <? 2 ^ w) then ret z
  else if debug_assertions then panic msg else ret (z mod 2 ^ w).

Definition u16_add `{Profile} {St : Type} (a b : Z) : M St Z :=
  uint_arith 16 (a + b) "attempt to add with overflow".

Definition u32_add `{Profile} {St : Type} (a b : Z) : M St Z :=
  uint_arith 32 (a + b) "attempt to add with overflow".

Definition u32_sub `{Profile} {St : Type} (a b : Z) : M St Z :=
  uint_arith 32 (a - b) "attempt to subtract with overflow".

Lemma wp_uint_arith `{Profile} {St : Type} w z msg (s : St) (Q : Z → St → Prop) :
  0 ≤ z < 2 ^ w → Q z s → wp (uint_arith w z msg) s Q.
Proof.
  intros Hz HQ. unfold uint_arith.
  by replace ((0 <=? z) && (z <? 2 ^ w)) with true by (symmetry; apply andb_true_iff; lia).
Qed.

Inductive Ring := Ring0 | Ring1 | Ring2 | Ring3.

(** [SegmentSelector::new(index, ring)] *)
Record SegmentSelector := mkSelector { sel_index : Z; sel_rpl : Ring }.

Inductive segment_register := CS | SS | DS | ES | FS | GS.

(** Writes to registers that are only written, and the instruction that waits for
    an interrupt. *)
Inductive sys_write :=
| Dr6Write (v : Z)
| Lidt (base limit : Z)
| Lgdt (base limit : Z)
| LoadSeg (reg : segment_register) (selector : SegmentSelector)
| LoadTr (selector : SegmentSelector)
| Wrmsr (msr v : Z)
| Hlt.

Class Devices (D : Type) := {
  (** [in] and [out] of [w] bytes at a port *)
  dev_in : Z → Z → D → Z * D;
  dev_out : Z → Z → Z → D → D;
  (** volatile accesses of [w] bytes at a virtual address *)
  dev_read : Z → Z → D → Z * D;
  dev_write : Z → Z → Z → D → D;
  dev_rdtsc : D → Z * D;
  dev_rdmsr : Z → D → Z * D;
  dev_sys : sys_write → D → D
}.

Section instructions.
Context {D St : Type} `{!Devices D} (dev : lens St D).

(** An instruction that reads. *)
Definition dev_get (f : D → Z * D) : M St Z :=
  let! d := gets (lget dev) in
  do! modify (lset dev (snd (f d)));
  ret (fst (f d)).

(** One that writes. *)
Definition dev_put (f : D → D) : M St unit := modify (λ s, lset dev (f (lget dev s)) s).

Definition inb (port : Z) : M St Z := dev_get (dev_in 1 port).
Definition inw (port : Z) : M St Z := dev_get (dev_in 2 port).
Definition inl (port : Z) : M St Z := dev_get (dev_in 4 port).
Definition outb (port v : Z) : M St unit := dev_put (dev_out 1 port v).
Definition outw (port v : Z) : M St unit := dev_put (dev_out 2 port v).
Definition outl (port v : Z) : M St unit := dev_put (dev_out 4 port v).
Definition read_volatile (w a : Z) : M St Z := dev_get (dev_read w a).
Definition write_volatile (w a v : Z) : M St unit := dev_put (dev_write w a v).
Definition rdtsc : M St Z := dev_get dev_rdtsc.
Definition rdmsr (msr : Z) : M St Z := dev_get (dev_rdmsr msr).
Definition sys (op : sys_write) : M St unit := dev_put (dev_sys op).

Lemma wp_dev_get (f : D → Z * D) s (Q : Z → St → Prop) :
  Q (fst (f (lget dev s))) (lset dev (snd (f (lget dev s))) s) → wp (dev_get f) s Q.
Proof. done. Qed.

Lemma wp_dev_put (f : D → D) s (Q : unit → St → Prop) :
  Q tt (lset dev (f (lget dev s)) s) → wp (dev_put f) s Q.
Proof. done. Qed.

(** One instruction of a driver of the serial line, the timer or the interrupt
    controllers: a port below those of PCI, or a register of the processor. *)
Inductive io_step : D → D → Prop :=
| io_in p d : p < 0xCF8 → io_step d (snd (dev_in 1 p d))
| io_out p v d : p < 0xCF8 → io_step d (dev_out 1 p v d)
| io_rdtsc d : io_step d (snd (dev_rdtsc d))
| io_rdmsr r d : io_step d (snd (dev_rdmsr r d))
| io_sys op d : io_step d (dev_sys op d).

(** The state differs from [s] in the device only, by such instructions. *)
Definition only_dev (s s' : St) : Prop := ∃ d, s' = lset dev d s ∧ rtc io_step (lget dev s) d.

Context `{!LensOk dev}.

#[export] Instance only_dev_trans : Transitive only_dev.
Proof.
  intros s1 s2 s3 (d & -> & H1) (d' & -> & H2). exists d'. rewrite lens_set_set, lens_get_set in *.
  split; [done|by etransitivity].
Qed.

Lemma only_dev_refl s : only_dev s s.
Proof. exists (lget dev s). by rewrite lens_set_get. Qed.

Lemma only_dev_set s d : rtc io_step (lget dev s) d → only_dev s (lset dev d s).
Proof. by exists d. Qed.
End instructions.

(** A chain of instructions, the last one first. *)
Ltac io_chain := repeat (eapply rtc_r; [|first [apply io_in|apply io_out|apply io_rdtsc|apply io_rdmsr|apply io_sys]; lia]);
  first [apply rtc_refl|eassumption].
