(* ===== verification/Serial.v ===== *)
(** * Serial: the serial console ([src/kernel/src/serial.rs])

    The driver of the 16550 UART at [COM1]: its set-up, and [write_str], which
    every message of the kernel goes through.  The driver polls the line status
    register before each byte; the loop has no bound of its own, so the functions
    take fuel and the theorems are about [returns]. *)

From S2P Require Import Prelude Locks Eventually Devices.

Definition COM1 : Z := 0x3F8.

Section serial.
Context {D St : Type} `{!Devices D} (cpu : lens St bool) (dev : lens St D).

Definition serial_init : M St unit :=
  do! outb dev (COM1 + 1) 0x00;
  do! outb dev (COM1 + 3) 0x80;
  do! outb dev (COM1 + 0) 0x03;
  do! outb dev (COM1 + 1) 0x00;
  do! outb dev (COM1 + 3) 0x03;
  do! outb dev (COM1 + 2) 0xC7;
  outb dev (COM1 + 4) 0x0B.

Definition transmit_ready : M St bool :=
  let! v := inb dev (COM1 + 5) in
  ret (negb (Z.land v 0x20 =? 0)).

(** [while !transmit_ready() {}] *)
Fixpoint wait_ready (fuel : nat) : M St unit :=
  match fuel with
  | O => nofuel
  | S fuel' =>
      let! ready := transmit_ready in
      if (ready : bool) then ret tt else wait_ready fuel'
  end.

Definition write_byte (b : Z) (fuel : nat) : M St unit :=
  do! wait_ready fuel;
  outb dev COM1 b.

(** The loop over the bytes of the string; 10 is a line feed, 13 a carriage
    return. *)
Fixpoint write_bytes (s : list Z) (fuel : nat) : M St unit :=
  match s with
  | [] => ret tt
  | b :: s' =>
      do! (if b =? 10 then write_byte 13 fuel else ret tt);
      do! write_byte b fuel;
      write_bytes s' fuel
  end.

(** [impl Write for Serial]: it always answers [Ok]. *)
Definition write_str (s : list Z) (fuel : nat) : M St unit :=
  critical_section cpu (write_bytes s fuel).

End serial.

(** ** The 16550 *)

(** Its registers, the bytes it has put on the line, and for how many more polls
    its transmitter stays busy. *)
Record uart_regs := mkUart {
  u_ier : Z; u_fcr : Z; u_lcr : Z; u_mcr : Z;
  u_div_lo : Z; u_div_hi : Z;
  u_sent : list Z;
  u_busy : nat
}.

(** The divisor latch access bit. *)
Definition dlab (u : uart_regs) : bool := Z.testbit (u_lcr u) 7.

(** Writing register [k], except for data. *)
Definition uart_write (k v : Z) (u : uart_regs) : uart_regs :=
  let '(mkUart ier fcr lcr mcr lo hi sent busy) := u in
  if k =? 0 then mkUart ier fcr lcr mcr v hi sent busy
  else if k =? 1 then if dlab u then mkUart ier fcr lcr mcr lo v sent busy
                      else mkUart v fcr lcr mcr lo hi sent busy
  else if k =? 2 then mkUart ier v lcr mcr lo hi sent busy
  else if k =? 3 then mkUart ier fcr v mcr lo hi sent busy
  else if k =? 4 then mkUart ier fcr lcr v lo hi sent busy
  else u.

Definition set_busy (n : nat) (u : uart_regs) : uart_regs :=
  mkUart (u_ier u) (u_fcr u) (u_lcr u) (u_mcr u) (u_div_lo u) (u_div_hi u) (u_sent u) n.

Definition send (v : Z) (u : uart_regs) : uart_regs :=
  mkUart (u_ier u) (u_fcr u) (u_lcr u) (u_mcr u) (u_div_lo u) (u_div_hi u) (u_sent u ++ [v]) (u_busy u).

(** What the data sheet says.  A byte written while the transmitter is busy is
    not mentioned: it may be lost. *)
Class Uart (D : Type) `{Devices D} := {
  uart : D → uart_regs;
  uart_out_ctl k v d : 1 ≤ k ≤ 4 ∨ k = 0 ∧ dlab (uart d) = true →
    uart (dev_out 1 (COM1 + k) v d) = uart_write k v (uart d);
  uart_out_data v d : dlab (uart d) = false → u_busy (uart d) = 0%nat →
    ∃ n, uart (dev_out 1 COM1 v d) = set_busy n (send v (uart d));
  uart_poll d : let '(v, d') := dev_in 1 (COM1 + 5) d in
    Z.testbit v 5 = (u_busy (uart d) =? 0)%nat ∧ uart d' = set_busy (pred (u_busy (uart d))) (uart d);
  (** The processor's own registers are none of its business. *)
  uart_sys op d : uart (dev_sys op d) = uart d
}.

(** The bytes on the line for a string: a carriage return before each line feed. *)
Definition expand (s : list Z) : list Z := s ≫= λ b, if b =? 10 then [13; 10] else [b].

(** What a terminal that pairs them makes of it again. *)
Fixpoint collapse (s : list Z) : list Z :=
  match s with
  | 13 :: ((10 :: _) as s') => collapse s'
  | b :: s' => b :: collapse s'
  | [] => []
  end.

Lemma collapse_expand s : 13 ∉ s → collapse (expand s) = s.
Proof.
  induction s as [|b s IH]; intros Hn; [done|]. apply not_elem_of_cons in Hn as [Hb Hn].
  unfold expand. rewrite bind_cons. fold (expand s). destruct (Z.eqb_spec b 10) as [->|Hne].
  - simpl. by rewrite IH.
  - simpl app. specialize (IH Hn). destruct b as [|p|p]; simpl; [by rewrite IH| |by rewrite IH].
    do 4 (destruct p as [p|p|]; try (by rewrite IH)).
Qed.

Section serial_proofs.
Context {D St : Type} `{!Devices D} `{!Uart D}.
Context (cpu : lens St bool) (dev : lens St D) `{!LensOk cpu} `{!LensOk dev} `{!LensIndep cpu dev}.

Abbreviation regs s := (uart (lget dev s)).

Lemma testbit_land_32 v : negb (Z.land v 0x20 =? 0) = Z.testbit v 5.
Proof.
  change 0x20 with (2 ^ 5).
  destruct (Z.testbit v 5) eqn:Hb, (Z.eqb_spec (Z.land v (2 ^ 5)) 0) as [He|He]; try done; exfalso.
  - apply (f_equal (λ x, Z.testbit x 5)) in He. by rewrite Z.land_spec, Hb in He.
  - apply He, Z.bits_inj'. intros n Hn. rewrite Z.land_spec, Z.bits_0, Z.pow2_bits_eqb by lia.
    destruct (Z.eqb_spec 5 n) as [<-|]; [by rewrite Hb|]. apply andb_false_r.
Qed.

(** One round of the loop. *)
Lemma wait_ready_S n s :
  wait_ready dev (S n) s =
    let s' := lset dev (snd (dev_in 1 (COM1 + 5) (lget dev s))) s in
    if Z.testbit (fst (dev_in 1 (COM1 + 5) (lget dev s))) 5 then Ok (tt, s') else wait_ready dev n s'.
Proof.
  cbn [wait_ready]. unfold transmit_ready, inb, dev_get, bind, gets, modify, ret. rewrite testbit_land_32.
  by destruct (Z.testbit _ _).
Qed.

Lemma wait_ready_returns s :
  returns (wait_ready dev) s (λ _ s', regs s' = set_busy 0 (regs s) ∧ only_dev dev s s').
Proof.
  remember (u_busy (regs s)) as n eqn:Hn. revert s Hn. induction n as [|n IH]; intros s Hn.
  all: pose proof (uart_poll (lget dev s)) as Hpoll; pose proof (wait_ready_S) as HS;
    specialize (λ n, HS n s); destruct (dev_in 1 (COM1 + 5) (lget dev s)) as [v d'] eqn:Hin;
    assert (only_dev dev s (lset dev d' s)) as Hd'
      by (apply only_dev_set; replace d' with (snd (dev_in 1 (COM1 + 5) (lget dev s))) by (by rewrite Hin);
          unfold COM1; io_chain);
    rewrite <- Hn in Hpoll; destruct Hpoll as [Hbit Hregs]; cbn [fst snd] in HS; rewrite Hbit in HS.
  - apply (returns_S _ (λ _ _, Ok (tt, lset dev d' s))); [done|]. exists 0%nat, tt, (lset dev d' s).
    split; [done|]. rewrite lens_get_set. split; [done|exact Hd'].
  - apply (returns_S _ (λ n _, wait_ready dev n (lset dev d' s))); [done|].
    destruct (IH (lset dev d' s)) as (n0 & [] & s' & Heq & Hr & Hd).
    { by rewrite lens_get_set, Hregs. }
    exists n0, tt, s'. split; [done|]. split.
    + rewrite Hr, lens_get_set, Hregs. by destruct (regs s).
    + by etransitivity.
Qed.

(** A byte is sent, whatever the device was busy with. *)
Lemma write_byte_returns b s :
  dlab (regs s) = false →
  returns (write_byte dev b) s (λ _ s', only_dev dev s s' ∧
    ∃ n, regs s' = set_busy n (send b (regs s))).
Proof.
  intros Hd. unfold write_byte. apply returns_then. eapply returns_mono; [apply wait_ready_returns|].
  cbv beta. intros [] s1 [Hr Hdev]. apply wp_dev_put.
  destruct (uart_out_data b (lget dev s1)) as [n Hn]; [by rewrite Hr|by rewrite Hr|].
  split; [etransitivity; [done|apply only_dev_set; unfold COM1; io_chain]|]. exists n. by rewrite lens_get_set, Hn, Hr.
Qed.

(** Bytes [s] were sent, and nothing else about the line changed. *)
Definition sent_more (s : list Z) (u u' : uart_regs) : Prop :=
  ∃ n, u' = set_busy n (mkUart (u_ier u) (u_fcr u) (u_lcr u) (u_mcr u) (u_div_lo u) (u_div_hi u)
                          (u_sent u ++ s) 0).

Lemma sent_more_trans s1 s2 u1 u2 u3 :
  sent_more s1 u1 u2 → sent_more s2 u2 u3 → sent_more (s1 ++ s2) u1 u3.
Proof. intros [n ->] [n' ->]. exists n'. unfold set_busy. simpl. by rewrite app_assoc. Qed.

Lemma write_bytes_returns bs s :
  dlab (regs s) = false →
  returns (write_bytes dev bs) s (λ _ s', only_dev dev s s' ∧ sent_more (expand bs) (regs s) (regs s')).
Proof.
  revert s. induction bs as [|b bs IH]; intros s Hd.
  { apply returns_ret. split; [apply (only_dev_refl dev)|]. exists (u_busy (regs s)). unfold expand. simpl.
    rewrite app_nil_r. by destruct (regs s). }
  unfold expand. rewrite bind_cons. fold (expand bs).
  eapply (returns_seq (λ n, if b =? 10 then write_byte dev 13 n else ret tt)
            (λ _ n, do! write_byte dev b n; write_bytes dev bs n) s
            (λ _ s1, only_dev dev s s1 ∧ sent_more (if b =? 10 then [13] else []) (regs s) (regs s1))).
  - destruct (b =? 10).
    + eapply returns_mono; [by apply write_byte_returns|]. cbv beta. intros [] s1 [H1 [n Hn]].
      split; [done|]. by exists n.
    + apply returns_ret. split; [apply (only_dev_refl dev)|]. exists (u_busy (regs s)). rewrite app_nil_r.
      by destruct (regs s).
  - cbv beta. intros [] s1 [H1 Hs1]. eapply returns_seq; [apply write_byte_returns; by destruct Hs1 as [n ->]|].
    cbv beta. intros [] s2 [H2 [n Hn]]. eapply returns_mono; [apply IH; rewrite Hn; by destruct Hs1 as [k ->]|].
    cbv beta. intros [] s3 [H3 Hs3]. split; [by etransitivity; [|etransitivity]|].
    replace (if b =? 10 then [13; 10] else [b]) with ((if b =? 10 then [13] else []) ++ [b])
      by (by destruct (Z.eqb_spec b 10) as [->|]).
    rewrite <- app_assoc. eapply sent_more_trans; [done|]. eapply (sent_more_trans [b]); [|done].
    by exists n.
Qed.

Lemma write_str_returns bs s :
  dlab (regs s) = false →
  returns (write_str cpu dev bs) s (λ _ s',
    u_sent (regs s') = u_sent (regs s) ++ expand bs ∧ dlab (regs s') = false ∧ only_dev dev s s').
Proof.
  intros Hd. unfold write_str, critical_section.
  apply returns_bind, wp_gets, returns_bind, wp_modify.
  assert (lget dev (lset cpu false s) = lget dev s) as Hg by (apply (indep_get_r (l := cpu) (k := dev))).
  eapply returns_seq; [apply write_bytes_returns; by rewrite Hg|].
  cbv beta. intros [] s1 [(d & -> & Hio) [n Hn]]. rewrite Hg in Hn, Hio. rewrite lens_get_set in Hn.
  apply returns_const. apply wp_bind.
  assert (wp (if lget cpu s then modify (lset cpu true) else ret tt)
    (lset dev d (lset cpu false s)) (λ _ s', s' = lset dev d s)) as Hw.
  { assert (lset cpu (lget cpu s) (lset dev d (lset cpu false s)) = lset dev d s) as Hback
      by (by rewrite (indep_set (l := cpu) (k := dev)), lens_set_set, lens_set_get).
    destruct (lget cpu s) eqn:Hc; [by apply wp_modify|]. apply wp_ret. rewrite <- Hback.
    by rewrite (indep_set (l := cpu) (k := dev)), lens_set_set. }
  eapply wp_mono; [exact Hw|]. cbv beta. intros [] s2 ->. apply wp_ret. rewrite lens_get_set, Hn.
  split_and!; [done|done|by exists d].
Qed.


(** [serial::init] sets the line to 38400 baud (divisor 3), eight bits, no
    parity, one stop bit, with the divisor latch closed, and puts no byte on the
    line on the way, although it writes to the data port.  The device's interrupts
    are off, provided the divisor latch was closed at the start. *)
Theorem serial_init_correct s :
  ∃ s', serial_init dev s = Ok (tt, s') ∧ only_dev dev s s' ∧
    regs s' = mkUart (if dlab (regs s) then u_ier (regs s) else 0) 0xC7 0x03 0x0B 0x03 0x00
                     (u_sent (regs s)) (u_busy (regs s)).
Proof.
  destruct (proj1 (wp_ok (serial_init dev) s (λ _ s', only_dev dev s s' ∧
    regs s' = mkUart (if dlab (regs s) then u_ier (regs s) else 0) 0xC7 0x03 0x0B 0x03 0x00
                     (u_sent (regs s)) (u_busy (regs s))))) as ([] & s' & Heq & ?);
    [|by exists s'].
  unfold serial_init, outb.
  repeat (apply wp_bind, wp_dev_put). apply wp_dev_put.
  rewrite !lens_set_set, !lens_get_set. split; [apply only_dev_set; unfold COM1; io_chain|].
  assert (dlab (uart_write 3 0x80 (uart_write 1 0 (regs s))) = true) as Hlatch
    by (unfold uart_write; destruct (regs s); simpl Z.eqb; cbv iota; by case_match).
  rewrite (uart_out_ctl 4), (uart_out_ctl 2), (uart_out_ctl 3), (uart_out_ctl 1) by lia.
  rewrite (uart_out_ctl 0), (uart_out_ctl 3), (uart_out_ctl 1) by
    (lia || (right; split; [done|]; by rewrite (uart_out_ctl 3), (uart_out_ctl 1) by lia)).
  destruct (regs s) as [ier fcr lcr mcr lo hi sent busy] eqn:Hr. rewrite <- Hr.
  assert (uart_write 1 0 (regs s) = if dlab (regs s) then mkUart ier fcr lcr mcr lo 0 sent busy
                                    else mkUart 0 fcr lcr mcr lo hi sent busy) as -> by (by rewrite Hr).
  destruct (dlab (regs s)); by rewrite Hr.
Qed.
End serial_proofs.
