(* ===== verification/Print.v ===== *)
(** * Print: messages ([print!] and [println!] of [src/kernel/src/serial.rs])

    The macros hand a message to [core::fmt], which passes it on to [write_str] in
    pieces; strings are lists of bytes.  [uacpi_kernel_log] of
    [src/kernel/src/acpi/uacpi.rs] prints what the ACPI library has to say, when it
    is UTF-8. *)

From S2P Require Import Prelude Locks Eventually Devices Serial.

(** The bytes of a literal. *)
Fixpoint bytes_of (s : string) : list Z :=
  match s with
  | EmptyString => []
  | String c s' => Z.of_N (Ascii.N_of_ascii c) :: bytes_of s'
  end.

(** ** What the macros use of [core] *)

(** [module_path!().split("::").last().unwrap_or("unknown")]; [cur] is the segment
    read so far. *)
Fixpoint last_segment (path cur : list Z) : list Z :=
  match path with
  | 58 :: 58 :: path' => last_segment path' []
  | b :: path' => last_segment path' (cur ++ [b])
  | [] => cur
  end.

(** [Display] of a [u32]: at most ten digits. *)
Fixpoint digits (n : nat) (v : Z) (acc : list Z) : list Z :=
  match n with
  | O => acc
  | S n' => let acc' := 48 + v mod 10 :: acc in if v / 10 =? 0 then acc' else digits n' (v / 10) acc'
  end.

Definition display_u32 (v : Z) : list Z := digits 10 v [].

(** [CStr::from_ptr]: the bytes before the first zero. *)
Fixpoint c_str (m : list Z) : list Z :=
  match m with
  | [] => []
  | b :: m' => if b =? 0 then [] else b :: c_str m'
  end.

(** [to_str], that is [core::str::from_utf8]: which byte may follow which. *)
Definition in_range (lo hi b : Z) : bool := (lo <=? b) && (b <=? hi).

Definition continues (b : Z) : bool := in_range 0x80 0xBF b.

Definition second_of_3 (a b : Z) : bool :=
  (a =? 0xE0) && in_range 0xA0 0xBF b || in_range 0xE1 0xEC a && continues b ||
  (a =? 0xED) && in_range 0x80 0x9F b || in_range 0xEE 0xEF a && continues b.

Definition second_of_4 (a b : Z) : bool :=
  (a =? 0xF0) && in_range 0x90 0xBF b || in_range 0xF1 0xF3 a && continues b ||
  (a =? 0xF4) && in_range 0x80 0x8F b.

Fixpoint utf8_valid (s : list Z) : bool :=
  match s with
  | [] => true
  | a :: s1 =>
      if a <? 0x80 then utf8_valid s1
      else match s1 with
      | [] => false
      | b :: s2 =>
          if in_range 0xC2 0xDF a then continues b && utf8_valid s2
          else match s2 with
          | [] => false
          | c :: s3 =>
              if in_range 0xE0 0xEF a then second_of_3 a b && continues c && utf8_valid s3
              else match s3 with
              | [] => false
              | d :: s4 => second_of_4 a b && continues c && continues d && utf8_valid s4
              end
          end
      end
  end.

Section print.
Context {D St : Type} `{!Devices D} (cpu : lens St bool) (dev : lens St D).

(** [write!(Serial, ..)], whose result is ignored: the pieces in order. *)
Fixpoint print (pieces : list (list Z)) (fuel : nat) : M St unit :=
  match pieces with
  | [] => ret tt
  | p :: pieces' => do! write_str cpu dev p fuel; print pieces' fuel
  end.

(** [println!(..)] with arguments, in the module of that path. *)
Definition println (path : list Z) (args : list (list Z)) (fuel : nat) : M St unit :=
  print ([last_segment path []; bytes_of ": "] ++ args ++ [[10]]) fuel.

(** The levels of the library's messages. *)
Class UacpiLog := {
  UACPI_LOG_DEBUG : Z;
  UACPI_LOG_TRACE : Z;
  UACPI_LOG_INFO : Z;
  UACPI_LOG_WARN : Z;
  UACPI_LOG_ERROR : Z
}.

(** [msg] is the memory behind the pointer. *)
Definition uacpi_kernel_log `{!UacpiLog} (level : Z) (msg : list Z) (fuel : nat) : M St unit :=
  let s := c_str msg in
  if utf8_valid s then
    if (level =? UACPI_LOG_DEBUG) || (level =? UACPI_LOG_TRACE) then print [bytes_of "[debug] "; s] fuel
    else if level =? UACPI_LOG_INFO then print [bytes_of "[info] "; s] fuel
    else if level =? UACPI_LOG_WARN then print [bytes_of "[warning] "; s] fuel
    else if level =? UACPI_LOG_ERROR then print [bytes_of "[error] "; s] fuel
    else print [bytes_of "[unknown log level "; display_u32 level; bytes_of "] "; s] fuel
  else ret tt.
End print.

(** ** UTF-8 *)

(** A Unicode scalar value and its encoding. *)
Definition scalar (c : Z) : Prop := 0 ≤ c < 0xD800 ∨ 0xE000 ≤ c < 0x110000.

Definition utf8_encode (c : Z) : list Z :=
  if c <? 0x80 then [c]
  else if c <? 0x800 then [0xC0 + c / 64; 0x80 + c mod 64]
  else if c <? 0x10000 then [0xE0 + c / 4096; 0x80 + c / 64 mod 64; 0x80 + c mod 64]
  else [0xF0 + c / 262144; 0x80 + c / 4096 mod 64; 0x80 + c / 64 mod 64; 0x80 + c mod 64].

Ltac bytes := unfold second_of_3, second_of_4, continues, in_range in *;
  rewrite ?orb_true_iff, ?andb_true_iff, ?Z.leb_le, ?Z.eqb_eq in *.

(** Dividing by the place values of the encoding. *)
Lemma place_values c :
  0 ≤ c → c / 4096 = c / 64 / 64 ∧ c / 262144 = c / 64 / 64 / 64 ∧
  c = 64 * (c / 64) + c mod 64 ∧ 0 ≤ c mod 64 < 64 ∧
  c / 64 = 64 * (c / 64 / 64) + c / 64 mod 64 ∧ 0 ≤ c / 64 mod 64 < 64 ∧
  c / 64 / 64 = 64 * (c / 64 / 64 / 64) + c / 4096 mod 64 ∧ 0 ≤ c / 4096 mod 64 < 64.
Proof.
  intros Hc. assert (c / 4096 = c / 64 / 64) as -> by (by rewrite Z.div_div by lia).
  assert (c / 262144 = c / 64 / 64 / 64) as -> by (by rewrite !Z.div_div by lia).
  split_and!; first [done|apply Z.div_mod; lia|apply Z.mod_pos_bound; lia].
Qed.

(** What stands at the front of a string that starts with an encoding. *)
Lemma utf8_valid_encode c s : scalar c → utf8_valid (utf8_encode c ++ s) = utf8_valid s.
Proof.
  intros Hc. assert (0 ≤ c) as Hc0 by (destruct Hc; lia).
  destruct (place_values c Hc0) as (E1 & E2 & D1 & M1 & D2 & M2 & D3 & M3). unfold utf8_encode.
  rewrite E1, E2 in *. set (q1 := c / 64) in *. set (q2 := q1 / 64) in *. set (q3 := q2 / 64) in *.
  set (r0 := c mod 64) in *. set (r1 := q1 mod 64) in *. set (r2 := q2 mod 64) in *. clearbody q1 q2 q3 r0 r1 r2.
  destruct (Z.ltb_spec c 0x80); [|destruct (Z.ltb_spec c 0x800); [|destruct (Z.ltb_spec c 0x10000)]]; cbn [app utf8_valid].
  - destruct (Z.ltb_spec c 0x80); [done|lia].
  - destruct (Z.ltb_spec (0xC0 + q1) 0x80); [lia|].
    assert (in_range 0xC2 0xDF (0xC0 + q1) = true) as -> by (bytes; lia).
    by assert (continues (0x80 + r0) = true) as -> by (bytes; lia).
  - destruct (Z.ltb_spec (0xE0 + q2) 0x80); [lia|].
    assert (in_range 0xC2 0xDF (0xE0 + q2) = false) as -> by (apply not_true_iff_false; bytes; lia).
    assert (in_range 0xE0 0xEF (0xE0 + q2) = true) as -> by (bytes; lia).
    assert (second_of_3 (0xE0 + q2) (0x80 + r1) = true) as -> by (destruct Hc; bytes; lia).
    by assert (continues (0x80 + r0) = true) as -> by (bytes; lia).
  - destruct (Z.ltb_spec (0xF0 + q3) 0x80); [lia|].
    assert (in_range 0xC2 0xDF (0xF0 + q3) = false) as -> by (apply not_true_iff_false; bytes; lia).
    assert (in_range 0xE0 0xEF (0xF0 + q3) = false) as -> by (apply not_true_iff_false; bytes; lia).
    assert (second_of_4 (0xF0 + q3) (0x80 + r2) = true) as -> by (destruct Hc; bytes; lia).
    assert (continues (0x80 + r1) = true) as -> by (bytes; lia).
    by assert (continues (0x80 + r0) = true) as -> by (bytes; lia).
Qed.

(** Encodings by their digits to base 64. *)
Lemma encode_2 h l : 2 ≤ h < 32 → 0 ≤ l < 64 →
  scalar (64 * h + l) ∧ utf8_encode (64 * h + l) = [0xC0 + h; 0x80 + l].
Proof.
  intros Hh Hl. split; [left; lia|]. unfold utf8_encode.
  destruct (Z.ltb_spec (64 * h + l) 0x80); [lia|]. destruct (Z.ltb_spec (64 * h + l) 0x800); [|lia].
  rewrite <- (Z.div_unique (64 * h + l) 64 h l), <- (Z.mod_unique (64 * h + l) 64 h l) by lia. done.
Qed.

Lemma encode_3 h m l : 0 ≤ h < 16 → 0 ≤ m < 64 → 0 ≤ l < 64 → (h = 0 → 32 ≤ m) → (h = 13 → m < 32) →
  let c := 4096 * h + 64 * m + l in scalar c ∧ utf8_encode c = [0xE0 + h; 0x80 + m; 0x80 + l].
Proof.
  intros Hh Hm Hl H0 H13 c. split; [unfold scalar, c; lia|]. unfold utf8_encode.
  destruct (Z.ltb_spec c 0x80); [unfold c in *; lia|]. destruct (Z.ltb_spec c 0x800); [unfold c in *; lia|].
  destruct (Z.ltb_spec c 0x10000); [|unfold c in *; lia].
  assert (c / 64 = 64 * h + m) as E1 by (symmetry; apply (Z.div_unique c 64 _ l); unfold c; lia).
  assert (c mod 64 = l) as E2 by (symmetry; apply (Z.mod_unique c 64 (64 * h + m)); unfold c; lia).
  assert (c / 4096 = h) as E3 by (symmetry; apply (Z.div_unique c 4096 _ (64 * m + l)); unfold c; lia).
  rewrite E1, E2, E3. rewrite <- (Z.mod_unique (64 * h + m) 64 h m) by lia. done.
Qed.

Lemma encode_4 h n m l : 0 ≤ h < 5 → 0 ≤ n < 64 → 0 ≤ m < 64 → 0 ≤ l < 64 → (h = 0 → 16 ≤ n) → (h = 4 → n < 16) →
  let c := 262144 * h + 4096 * n + 64 * m + l in
  scalar c ∧ utf8_encode c = [0xF0 + h; 0x80 + n; 0x80 + m; 0x80 + l].
Proof.
  intros Hh Hn Hm Hl H0 H4 c. split; [unfold scalar, c; lia|]. unfold utf8_encode.
  destruct (Z.ltb_spec c 0x80); [unfold c in *; lia|]. destruct (Z.ltb_spec c 0x800); [unfold c in *; lia|].
  destruct (Z.ltb_spec c 0x10000); [unfold c in *; lia|].
  assert (c / 64 = 4096 * h + 64 * n + m) as E1 by (symmetry; apply (Z.div_unique c 64 _ l); unfold c; lia).
  assert (c mod 64 = l) as E2 by (symmetry; apply (Z.mod_unique c 64 (4096 * h + 64 * n + m)); unfold c; lia).
  assert (c / 4096 = 64 * h + n) as E3 by (symmetry; apply (Z.div_unique c 4096 _ (64 * m + l)); unfold c; lia).
  assert (c / 262144 = h) as E4 by (symmetry; apply (Z.div_unique c 262144 _ (4096 * n + 64 * m + l)); unfold c; lia).
  rewrite E1, E2, E3, E4, <- (Z.mod_unique (64 * h + n) 64 h n), <- (Z.mod_unique (4096 * h + 64 * n + m) 64 (64 * h + n) m) by lia.
  done.
Qed.

(** A valid string starts with an encoding. *)
Lemma utf8_valid_split a s :
  0 ≤ a → utf8_valid (a :: s) = true →
  ∃ c s', scalar c ∧ a :: s = utf8_encode c ++ s' ∧ utf8_valid s' = true ∧ (length s' ≤ length s)%nat.
Proof.
  intros Ha. cbn [utf8_valid]. destruct (Z.ltb_spec a 0x80) as [Hlt|Hge].
  { intros Hv. exists a, s. split_and!; [left; lia| |done|done]. unfold utf8_encode. by destruct (Z.ltb_spec a 0x80); [|lia]. }
  destruct s as [|b s]; [done|]. destruct (in_range 0xC2 0xDF a) eqn:H2.
  { intros [Hb Hv]%andb_true_iff. bytes. destruct (encode_2 (a - 0xC0) (b - 0x80)) as [Hs He]; [lia..|].
    eexists _, s. split_and!; [exact Hs| |done|simpl; lia]. rewrite He. cbn [app]. do 2 f_equal; lia. }
  destruct s as [|c s]; [done|]. destruct (in_range 0xE0 0xEF a) eqn:H3.
  { intros [[Hb Hc]%andb_true_iff Hv]%andb_true_iff. bytes.
    destruct (encode_3 (a - 0xE0) (b - 0x80) (c - 0x80)) as [Hs He]; [lia..|].
    eexists _, s. split_and!; [exact Hs| |done|simpl; lia]. rewrite He. cbn [app]. do 3 f_equal; lia. }
  destruct s as [|d s]; [done|].
  intros [[[Hb Hc]%andb_true_iff Hd]%andb_true_iff Hv]%andb_true_iff. bytes.
  destruct (encode_4 (a - 0xF0) (b - 0x80) (c - 0x80) (d - 0x80)) as [Hs He]; [lia..|].
  eexists _, s. split_and!; [exact Hs| |done|simpl; lia]. rewrite He. cbn [app]. do 4 f_equal; lia.
Qed.

(** The check accepts exactly the encodings of strings. *)
Lemma utf8_valid_spec s :
  Forall (λ b, 0 ≤ b) s → utf8_valid s = true ↔ ∃ cs, Forall scalar cs ∧ s = cs ≫= utf8_encode.
Proof.
  intros Hs. split.
  - remember (length s) as n eqn:Hn. revert s Hs Hn. induction (lt_wf n) as [n _ IH]. intros [|a s] Hs Hn Hv.
    { by exists []. }
    apply Forall_cons in Hs as [Ha Hs]. destruct (utf8_valid_split a s Ha Hv) as (c & s' & Hc & Heq & Hv' & Hl).
    destruct (IH (length s') ltac:(simpl in Hn; lia) s') as (cs & Hcs & ->); [|done|done|].
    + rewrite Heq in *. assert (Forall (λ b, 0 ≤ b) (utf8_encode c ++ s')) as [_ ?]%Forall_app; [|done].
      rewrite <- Heq. by constructor.
    + exists (c :: cs). split; [by constructor|]. by rewrite bind_cons.
  - intros (cs & Hcs & ->). clear Hs. induction Hcs as [|c cs Hc Hcs IH]; [done|].
    rewrite bind_cons, utf8_valid_encode; done.
Qed.

(** ** Numbers *)

(** What a reader makes of decimal digits. *)
Definition read_decimal (l : list Z) : Z := foldl (λ v b, 10 * v + (b - 48)) 0 l.

Lemma read_digits n v acc :
  0 ≤ v < 10 ^ Z.of_nat n → (0 < n)%nat →
  ∀ w, foldl (λ v b, 10 * v + (b - 48)) w (digits n v acc) =
    foldl (λ v b, 10 * v + (b - 48)) (w * 10 ^ Z.of_nat (length (digits n v [])) + v) acc.
Proof.
  revert v acc. induction n as [|n IH]; intros v acc Hv Hn w; [lia|]. cbn [digits].
  pose proof (Z.div_mod v 10 ltac:(lia)). pose proof (Z.mod_pos_bound v 10 ltac:(lia)).
  destruct (Z.eqb_spec (v / 10) 0) as [E|E].
  { cbn [foldl length]. f_equal. change (10 ^ Z.of_nat 1) with 10. lia. }
  rewrite Nat2Z.inj_succ, Z.pow_succ_r in Hv by lia. assert (0 < n)%nat as Hn0.
  { destruct n; [|lia]. change (10 ^ Z.of_nat 0) with 1 in Hv. assert (v / 10 = 0) by (apply Z.div_small; lia). lia. }
  assert (0 ≤ v / 10 < 10 ^ Z.of_nat n) as Hd by (split; [apply Z.div_pos; lia|apply Z.div_lt_upper_bound; lia]).
  rewrite (IH (v / 10) (48 + v mod 10 :: acc) Hd Hn0 w). cbn [foldl].
  assert (∀ k u b, length (digits k u [b]) = S (length (digits k u []))) as Hlen.
  { assert (∀ k u l, length (digits k u l) = (length (digits k u []) + length l)%nat) as Hgen.
    { induction k as [|k IHk]; intros u l; cbn [digits]; [done|]. destruct (u / 10 =? 0); [done|].
      rewrite (IHk _ (_ :: l)), (IHk _ [_]). simpl. lia. }
    intros k u b. rewrite Hgen. simpl. lia. }
  rewrite Hlen, Nat2Z.inj_succ, Z.pow_succ_r by lia. f_equal. lia.
Qed.

Lemma display_u32_read v : 0 ≤ v < 2 ^ 32 → read_decimal (display_u32 v) = v.
Proof.
  intros Hv. unfold read_decimal, display_u32. rewrite read_digits by (change (10 ^ Z.of_nat 10) with 10000000000; lia).
  done.
Qed.

(** ** Messages on the line *)
Section print_proofs.
Context {D St : Type} `{!Devices D} `{!Uart D}.
Context (cpu : lens St bool) (dev : lens St D) `{!LensOk cpu} `{!LensOk dev} `{!LensIndep cpu dev}.

Abbreviation regs s := (uart (lget dev s)).

(** However a message is cut into pieces, what is on the line is the whole. *)
Lemma print_returns pieces s :
  dlab (regs s) = false →
  returns (print cpu dev pieces) s (λ _ s',
    u_sent (regs s') = u_sent (regs s) ++ expand (concat pieces) ∧ dlab (regs s') = false ∧ only_dev dev s s').
Proof.
  revert s. induction pieces as [|p pieces IH]; intros s Hd; cbn [print concat].
  { apply returns_ret. rewrite app_nil_r. split_and!; [done|done|apply (only_dev_refl dev)]. }
  eapply returns_seq; [by apply (write_str_returns cpu dev)|]. cbv beta. intros [] s1 (Hs1 & Hd1 & Ho1).
  eapply returns_mono; [by apply IH|]. cbv beta. intros [] s2 (Hs2 & Hd2 & Ho2). split_and!; [|done|].
  - rewrite Hs2, Hs1. unfold expand. by rewrite bind_app, app_assoc.
  - by etransitivity.
Qed.

Context `{!UacpiLog}.

(** What stands before a message of that level. *)
Definition log_prefix (level : Z) : list Z :=
  if (level =? UACPI_LOG_DEBUG) || (level =? UACPI_LOG_TRACE) then bytes_of "[debug] "
  else if level =? UACPI_LOG_INFO then bytes_of "[info] "
  else if level =? UACPI_LOG_WARN then bytes_of "[warning] "
  else if level =? UACPI_LOG_ERROR then bytes_of "[error] "
  else bytes_of "[unknown log level " ++ display_u32 level ++ bytes_of "] ".

(** C37: [uacpi_kernel_log] returns.  A message that is the UTF-8 encoding of some
    string of Unicode scalar values goes on the line after the prefix of its level
    (a level it does not know by its number in decimal), with a carriage return
    before each line feed; any other message is dropped, and nothing goes on the
    line.  Nothing but the device changes. *)
Theorem uacpi_log_correct level msg s :
  dlab (regs s) = false → Forall (λ b, 0 ≤ b) msg → 0 ≤ level < 2 ^ 32 →
  returns (uacpi_kernel_log cpu dev level msg) s (λ _ s', only_dev dev s s' ∧
    ((∃ cs, Forall scalar cs ∧ c_str msg = cs ≫= utf8_encode) ∧
       u_sent (regs s') = u_sent (regs s) ++ expand (log_prefix level ++ c_str msg) ∨
     (¬ ∃ cs, Forall scalar cs ∧ c_str msg = cs ≫= utf8_encode) ∧ s' = s)) ∧
  read_decimal (display_u32 level) = level.
Proof.
  intros Hd Hmsg Hl. split; [|by apply display_u32_read].
  assert (Forall (λ b, 0 ≤ b) (c_str msg)) as Hc.
  { clear -Hmsg. induction Hmsg as [|b msg Hb Hmsg IH]; cbn [c_str]; [done|]. destruct (b =? 0); [done|by constructor]. }
  pose proof (utf8_valid_spec (c_str msg) Hc) as Hspec. unfold uacpi_kernel_log.
  destruct (utf8_valid (c_str msg)) eqn:Hv; cycle 1.
  { apply returns_ret. split; [apply (only_dev_refl dev)|]. right. split; [|done]. intros Hcs%Hspec. done. }
  assert (∀ pieces, concat pieces = log_prefix level ++ c_str msg → returns (print cpu dev pieces) s (λ _ s',
    only_dev dev s s' ∧ ((∃ cs, Forall scalar cs ∧ c_str msg = cs ≫= utf8_encode) ∧
       u_sent (regs s') = u_sent (regs s) ++ expand (log_prefix level ++ c_str msg) ∨
     (¬ ∃ cs, Forall scalar cs ∧ c_str msg = cs ≫= utf8_encode) ∧ s' = s))) as Hp.
  { intros pieces Heq. eapply returns_mono; [by apply print_returns|]. cbv beta. intros [] s' (Hs & _ & Ho).
    rewrite Heq in Hs. split; [done|]. left. split; [by apply Hspec|done]. }
  unfold log_prefix in *. destruct (_ || _); [|destruct (_ =? UACPI_LOG_INFO); [|destruct (_ =? UACPI_LOG_WARN);
    [|destruct (_ =? UACPI_LOG_ERROR)]]]; apply Hp; cbn [concat]; by rewrite ?app_nil_r, <- ?app_assoc.
Qed.
End print_proofs.
