(* ===== verification/Tsc.v ===== *)
(** * Tsc: the time stamp counter ([src/kernel/src/tsc.rs])

    [init] finds the counter's frequency, from [cpuid] or by timing channel 2 of
    the interval timer, and remembers the counter's value at boot;
    [current_time_ns] turns the counter into nanoseconds since then. *)

From S2P Require Import Prelude Bits Locks Eventually Devices.

Definition PIT_FREQ : Z := 1193182.
Definition RELOAD : Z := 0xFFFF.

(** The two statics [TSC_FREQUENCY] and [BOOT_TSC]. *)
Record TscState := mkTsc { tsc_frequency : Z; boot_tsc : Z }.

Inductive TscError := NotInvariant.

(** What [cpuid] reports: [has_invariant_tsc] of the advanced power management
    leaf and [tsc_frequency] of the counter's leaf, where the leaves exist. *)
Record CpuId := mkCpuId { invariant_tsc : option bool; tsc_info : option (option Z) }.

Section tsc.
Context `{Profile} {D St : Type} `{!Devices D} (dev : lens St D) (tsc : lens St TscState).

(** [while inb(0x61) & 0x20 == 0 {}] *)
Fixpoint pit_wait (fuel : nat) : M St unit :=
  match fuel with
  | O => nofuel
  | S fuel' =>
      let! v := inb dev 0x61 in
      if Z.land v 0x20 =? 0 then pit_wait fuel' else ret tt
  end.

Definition calibrate_with_pit (fuel : nat) : M St Z :=
  let! v := inb dev 0x61 in
  let p61 := Z.land v 0xFC in
  do! outb dev 0x61 p61;
  do! outb dev 0x43 0xB0;
  do! outb dev 0x42 (RELOAD mod 256);
  do! outb dev 0x42 (Z.shiftr RELOAD 8 mod 256);
  let! start := rdtsc dev in
  do! outb dev 0x61 (Z.lor p61 0x01);
  do! pit_wait fuel;
  let! stop := rdtsc dev in
  do! outb dev 0x61 p61;
  let! d := u64_sub stop start in
  let! x := u64_mul d PIT_FREQ in
  ret (x / RELOAD).

(** [is_some_and(|info| info.has_invariant_tsc())] *)
Definition is_invariant (c : CpuId) : bool :=
  match invariant_tsc c with Some b => b | None => false end.

(** [get_tsc_info().and_then(..).filter(|&h| h > 0)] *)
Definition known_frequency (c : CpuId) : option Z :=
  match tsc_info c with
  | Some (Some h) => if 0 <? h then Some h else None
  | _ => None
  end.

Definition tsc_init (cpuid : CpuId) (fuel : nat) : M St (result unit TscError) :=
  if negb (is_invariant cpuid) then ret (RErr NotInvariant)
  else
    let! freq := match known_frequency cpuid with
                 | Some h => ret h
                 | None => calibrate_with_pit fuel
                 end in
    do! modify (λ s, lset tsc (mkTsc freq (boot_tsc (lget tsc s))) s);
    let! now := rdtsc dev in
    do! modify (λ s, lset tsc (mkTsc (tsc_frequency (lget tsc s)) now) s);
    ret (ROk tt).

(** The product is taken in 128 bits, where it cannot overflow; the quotient is
    cut to 64. *)
Definition current_time_ns : M St Z :=
  let! now := rdtsc dev in
  let! st := gets (lget tsc) in
  let! d := u64_sub now (boot_tsc st) in
  do! assert_ (negb (tsc_frequency st =? 0)) "attempt to divide by zero";
  ret (wrap64 (d * 1000000000 / tsc_frequency st)).

End tsc.

(** ** The clock *)

(** The counter only moves forward: an instruction that reads it finds a larger
    value than before, by no more than [2^32], until it nears the end of its 64
    bits; other instructions do not turn it back.  Once the timer's gate was
    raised, with the counter at [t0], the timer's output rises after some number
    of polls, before [2^43] cycles have passed (55 milliseconds do). *)
Class Clock (D : Type) `{Devices D} := {
  clock : D → Z;
  clock_pos d : 0 ≤ clock d;
  clock_rdtsc d : let '(v, d') := dev_rdtsc d in
    v = clock d' ∧ 0 ≤ v < 2 ^ 64 ∧ (clock d < 2 ^ 63 → clock d < v ≤ clock d + 2 ^ 32);
  clock_out w p v d : clock d ≤ clock (dev_out w p v d) ≤ clock d + 2 ^ 32;
  clock_in w p d : clock d ≤ clock (snd (dev_in w p d)) ≤ clock d + 2 ^ 32;
  pit_run : Z → D → Prop;
  pit_left : D → nat;
  pit_start d p : Z.testbit p 0 = true → pit_run (clock d) (dev_out 1 0x61 p d);
  pit_poll t0 d : pit_run t0 d → let '(v, d') := dev_in 1 0x61 d in
    Z.testbit v 5 = (pit_left d =? 0)%nat ∧ pit_left d' = pred (pit_left d) ∧ pit_run t0 d';
  pit_short t0 d : pit_run t0 d → t0 ≤ fst (dev_rdtsc d) < t0 + 2 ^ 43
}.

Section tsc_proofs.
Context `{Profile} {D St : Type} `{!Devices D} `{!Clock D}.
Context (dev : lens St D) (tsc : lens St TscState) `{!LensOk dev} `{!LensOk tsc} `{!LensIndep dev tsc}.

Abbreviation now s := (clock (lget dev s)).

Definition ticks_to_ns (hz ticks : Z) : Z := ticks * 1000000000 / hz.

Lemma ticks_to_ns_mono hz a b : 0 < hz → a ≤ b → ticks_to_ns hz a ≤ ticks_to_ns hz b.
Proof. intros. apply Z.div_le_mono; lia. Qed.

Lemma div_bounds x k : 0 < k → x / k * k ≤ x < (x / k + 1) * k.
Proof. intros Hk. pose proof (Z.div_mod x k ltac:(lia)). pose proof (Z.mod_pos_bound x k Hk). lia. Qed.

(** The counter was started in the past. *)
Definition tsc_ready (s : St) : Prop :=
  0 < tsc_frequency (lget tsc s) ∧ 0 ≤ boot_tsc (lget tsc s) ≤ now s.

Lemma rdtsc_spec s (Q : Z → St → Prop) :
  (∀ v d, v = clock d → 0 ≤ v < 2 ^ 64 → (now s < 2 ^ 63 → now s < v ≤ now s + 2 ^ 32) →
     io_step (lget dev s) d → Q v (lset dev d s)) →
  wp (rdtsc dev) s Q.
Proof.
  intros HQ. apply wp_dev_get. pose proof (clock_rdtsc (lget dev s)) as Hc.
  pose proof (io_rdtsc (lget dev s)) as Hio.
  destruct (dev_rdtsc (lget dev s)) as [v d]. destruct Hc as (Hv & Hr & Hm). by apply HQ.
Qed.

Lemma current_time_spec s :
  tsc_ready s → now s < 2 ^ 63 →
  wp (current_time_ns dev tsc) s (λ ns s', ∃ d, s' = lset dev d s ∧ now s < now s' ≤ now s + 2 ^ 32 ∧
    ns = wrap64 (ticks_to_ns (tsc_frequency (lget tsc s)) (now s' - boot_tsc (lget tsc s)))).
Proof.
  intros [Hf Hb] Hh. apply wp_bind, rdtsc_spec. intros v d Hv Hr Hm _. specialize (Hm Hh).
  apply wp_bind, wp_gets. rewrite (indep_get_r (l := dev) (k := tsc)).
  apply wp_bind, wp_u64_sub; [unfold u64_range; lia|]. apply wp_bind, wp_assert.
  { destruct (Z.eqb_spec (tsc_frequency (lget tsc s)) 0); [lia|done]. }
  apply wp_ret. exists d. rewrite lens_get_set, <- Hv. by split_and!; try lia.
Qed.

(** C39: [current_time_ns] is the number of whole nanoseconds the counter has
    advanced since boot: with [hz] ticks a second, [ns] of them have passed and
    the next has not.  It does not overflow on the way (the answer itself fits 64
    bits for five centuries), changes nothing but the counter, and a later call
    never answers with an earlier time. *)
Theorem current_time_correct s :
  tsc_ready s → now s < 2 ^ 62 →
  ticks_to_ns (tsc_frequency (lget tsc s)) (2 ^ 63) < 2 ^ 64 →
  ∃ n1 n2 d1 d2, current_time_ns dev tsc s = Ok (n1, lset dev d1 s) ∧
    current_time_ns dev tsc (lset dev d1 s) = Ok (n2, lset dev d2 s) ∧ n1 ≤ n2 ∧
    let hz := tsc_frequency (lget tsc s) in
    let ticks := clock d1 - boot_tsc (lget tsc s) in
    n1 * hz ≤ ticks * 1000000000 < (n1 + 1) * hz ∧ now s < clock d1 < clock d2.
Proof.
  intros Hready Hh Hfit. set (hz := tsc_frequency (lget tsc s)) in *. pose proof Hready as [Hf Hb]. fold hz in Hf.
  destruct (proj1 (wp_ok _ _ _) (current_time_spec s Hready ltac:(lia))) as (n1 & s1 & Heq1 & d1 & -> & Hm1 & Hn1).
  rewrite lens_get_set in Hm1, Hn1. fold hz in Hn1.
  assert (tsc_ready (lset dev d1 s)) as Hready1.
  { unfold tsc_ready. rewrite (indep_get_r (l := dev) (k := tsc)), lens_get_set. split; [done|lia]. }
  destruct (proj1 (wp_ok _ _ _) (current_time_spec _ Hready1 ltac:(rewrite lens_get_set; lia)))
    as (n2 & s2 & Heq2 & d2 & -> & Hm2 & Hn2).
  rewrite (indep_get_r (l := dev) (k := tsc)), !lens_get_set in Hn2. rewrite !lens_get_set in Hm2. fold hz in Hn2.
  rewrite lens_set_set in Heq2. exists n1, n2, d1, d2.
  assert (∀ t, boot_tsc (lget tsc s) ≤ t ≤ 2 ^ 63 →
    wrap64 (ticks_to_ns hz (t - boot_tsc (lget tsc s))) = ticks_to_ns hz (t - boot_tsc (lget tsc s))) as Hw
    by (intros t Ht; apply Z.mod_small; split; [apply Z.div_pos; lia|];
        eapply Z.le_lt_trans; [|exact Hfit]; apply ticks_to_ns_mono; lia).
  rewrite Hw in Hn1, Hn2 by lia. split; [done|]. split; [done|].
  split; [rewrite Hn1, Hn2; apply ticks_to_ns_mono; lia|]. cbv zeta. split; [|lia].
  rewrite Hn1. by apply div_bounds.
Qed.

(** ** Calibration *)
Lemma testbit_land_bit v k : 0 ≤ k → (Z.land v (2 ^ k) =? 0) = negb (Z.testbit v k).
Proof.
  intros Hk. destruct (Z.testbit v k) eqn:Hb, (Z.eqb_spec (Z.land v (2 ^ k)) 0) as [He|He]; try done; exfalso.
  - apply (f_equal (λ x, Z.testbit x k)) in He.
    by rewrite Z.land_spec, Hb, Z.pow2_bits_true, Z.bits_0 in He by done.
  - apply He, Z.bits_inj'. intros n Hn. rewrite Z.land_spec, Z.bits_0, Z.pow2_bits_eqb by lia.
    destruct (Z.eqb_spec k n) as [<-|]; [by rewrite Hb|]. apply andb_false_r.
Qed.

Lemma pit_wait_S n s :
  pit_wait dev (S n) s =
    let s' := lset dev (snd (dev_in 1 0x61 (lget dev s))) s in
    if Z.testbit (fst (dev_in 1 0x61 (lget dev s))) 5 then Ok (tt, s') else pit_wait dev n s'.
Proof.
  cbn [pit_wait]. unfold inb, dev_get, bind, gets, modify, ret.
  change 0x20 with (2 ^ 5). rewrite testbit_land_bit by lia. by destruct (Z.testbit _ _).
Qed.

Lemma pit_wait_returns t0 s :
  pit_run t0 (lget dev s) → returns (pit_wait dev) s (λ _ s', only_dev dev s s' ∧ pit_run t0 (lget dev s')).
Proof.
  remember (pit_left (lget dev s)) as n eqn:Hn. revert s Hn. induction n as [|n IH]; intros s Hn Hrun.
  all: pose proof (pit_poll t0 _ Hrun) as Hpoll; pose proof (λ n, pit_wait_S n s) as HS;
    destruct (dev_in 1 0x61 (lget dev s)) as [v d'] eqn:Hin; rewrite <- Hn in Hpoll;
    assert (only_dev dev s (lset dev d' s)) as Hd'
      by (apply only_dev_set; replace d' with (snd (dev_in 1 0x61 (lget dev s))) by (by rewrite Hin); io_chain);
    destruct Hpoll as (Hbit & Hleft & Hrun'); cbn [fst snd] in HS; rewrite Hbit in HS.
  - apply (returns_S _ (λ _ _, Ok (tt, lset dev d' s))); [done|]. exists 0%nat, tt, (lset dev d' s).
    split; [done|]. by rewrite lens_get_set.
  - apply (returns_S _ (λ n _, pit_wait dev n (lset dev d' s))); [done|].
    destruct (IH (lset dev d' s)) as (n0 & [] & s' & Heq & Ho & Hr); [by rewrite lens_get_set, Hleft|by rewrite lens_get_set|].
    exists n0, tt, s'. split; [done|]. split; [by etransitivity|done].
Qed.

Lemma calibrate_returns s :
  returns (calibrate_with_pit dev) s (λ r s', only_dev dev s s' ∧ ∃ start stop,
    start ≤ stop < start + 2 ^ 43 ∧ r * RELOAD ≤ (stop - start) * PIT_FREQ < (r + 1) * RELOAD).
Proof.
  unfold calibrate_with_pit.
  apply returns_bind, wp_dev_get. set (v := fst _). apply returns_bind, wp_dev_put, returns_bind, wp_dev_put.
  apply returns_bind, wp_dev_put, returns_bind, wp_dev_put. rewrite !lens_set_set, !lens_get_set.
  set (d0 := dev_out _ _ _ _). assert (rtc io_step (lget dev s) d0) as Hio0 by (unfold d0; io_chain). clearbody d0.
  apply returns_bind, rdtsc_spec. rewrite lens_get_set. intros start d1 Hstart Hs64 _ Hio1. rewrite lens_set_set.
  apply returns_bind, wp_dev_put. rewrite lens_set_set, lens_get_set.
  assert (Z.testbit (Z.lor (Z.land v 0xFC) 1) 0 = true) as Hgate by (rewrite Z.lor_spec; apply orb_true_r).
  pose proof (pit_start d1 _ Hgate) as Hrun. rewrite <- Hstart in Hrun.
  assert (rtc io_step (lget dev s) d1) as Hio by (by eapply rtc_r). clear d0 Hio0 Hio1.
  eapply returns_seq; [apply (pit_wait_returns start); by rewrite lens_get_set|].
  cbv beta. intros [] s2 [(d2 & -> & Hio2) Hrun2]. rewrite !lens_get_set in *. apply returns_const.
  apply wp_bind, wp_dev_get. rewrite lens_get_set, !lens_set_set.
  assert (rtc io_step (lget dev s) (dev_out 1 97 (Z.land v 252) (snd (dev_rdtsc d2)))) as Hio3.
  { etransitivity; [exact Hio|]. eapply rtc_l; [apply (io_out 0x61 (Z.lor (Z.land v 0xFC) 1)); lia|]. etransitivity; [exact Hio2|]. io_chain. }
  pose proof (pit_short start d2 Hrun2) as Hshort. pose proof (clock_rdtsc d2) as Hc.
  destruct (dev_rdtsc d2) as [stop d3]. cbn [fst snd] in *. destruct Hc as (_ & Hr & _).
  apply wp_bind, wp_dev_put. rewrite lens_set_set, lens_get_set.
  apply wp_bind, wp_u64_sub; [unfold u64_range; lia|].
  apply wp_bind, wp_u64_mul; [unfold u64_range, PIT_FREQ; lia|]. apply wp_ret.
  split; [by exists (dev_out 1 97 (Z.land v 252) d3)|]. exists start, stop. split; [lia|]. unfold RELOAD.
  by apply div_bounds.
Qed.

(** Only the clock's statics and the device changed. *)
Definition tsc_step (s s' : St) : Prop := ∃ t d, s' = lset tsc t (lset dev d s) ∧ rtc io_step (lget dev s) d.

(** [tsc::init] on every branch.  Without an invariant counter it reports
    [NotInvariant] and touches nothing.  Otherwise it returns, the boot value is
    the counter's, and the frequency is the one [cpuid] knows, or else what the
    interval timer measured: the cycles that pass in 65535 of its ticks, scaled to
    a second and rounded down. *)
Theorem tsc_init_correct c s :
  returns (tsc_init dev tsc c) s (λ r s',
    match r with
    | RErr NotInvariant => is_invariant c = false ∧ s' = s
    | ROk _ => is_invariant c = true ∧ now s' = boot_tsc (lget tsc s') ∧ tsc_step s s' ∧
        match known_frequency c with
        | Some hz => tsc_frequency (lget tsc s') = hz ∧ 0 < hz
        | None => ∃ start stop, start ≤ stop < start + 2 ^ 43 ∧
            let r := tsc_frequency (lget tsc s') in
            r * RELOAD ≤ (stop - start) * PIT_FREQ < (r + 1) * RELOAD
        end
    end).
Proof.
  unfold tsc_init. destruct (is_invariant c) eqn:Hinv; [|by apply returns_ret]. simpl negb. cbv iota.
  eapply (returns_seq (λ n, match known_frequency c with Some h => ret h | None => calibrate_with_pit dev n end) _ s
    (λ freq s1, only_dev dev s s1 ∧ match known_frequency c with Some hz => freq = hz ∧ 0 < hz
      | None => ∃ start stop, start ≤ stop < start + 2 ^ 43 ∧
          freq * RELOAD ≤ (stop - start) * PIT_FREQ < (freq + 1) * RELOAD end)).
  - destruct (known_frequency c) as [hz|] eqn:Hk; [|exact (calibrate_returns s)].
    apply returns_ret. split; [apply (only_dev_refl dev)|]. split; [done|]. unfold known_frequency in Hk.
    repeat case_match; simplify_eq; lia.
  - cbv beta. intros freq s1 [(d1 & -> & Hio) Hfreq]. apply returns_const. apply wp_bind, wp_modify, wp_bind, rdtsc_spec.
    rewrite !(indep_get_l (l := dev) (k := tsc)), !lens_get_set. intros v d Hv _ _ Hio2.
    apply wp_bind, wp_modify, wp_ret.
    rewrite !(indep_get_r (l := dev) (k := tsc)), !lens_get_set, (indep_get_l (l := dev) (k := tsc)), lens_get_set.
    split_and!; [done|done| |done]. eexists _, d. split; [|by eapply rtc_r].
    by rewrite (indep_set (l := dev) (k := tsc)), !lens_set_set.
Qed.
End tsc_proofs.
