(* ===== verification/Pci.v ===== *)
(** * Pci: configuration space and the bus walk ([src/kernel/src/pci.rs])

    A function's configuration registers are reached through the ports [0xCF8] and
    [0xCFC] or, once [init] has found its address, through a window of memory.
    [enum_bus] lists the functions of a bus and, through the bridges it finds, of
    the buses behind them.  [init] is in [KernelPci], with the page tables. *)

From S2P Require Import Prelude Bits Locks Devices.

(** [struct PciAddress], three bytes *)
Record PciAddress := mkPciAddress { bus : Z; device : Z; function : Z }.

#[export] Instance PciAddress_eq_dec : EqDecision PciAddress.
Proof. solve_decision. Defined.

Definition io_address (self : PciAddress) (offset : Z) : Z :=
  let offset := Z.land (u32_of offset) 0xFC in
  Z.lor (Z.lor (Z.lor (Z.lor 0x80000000 (u32_of (Z.shiftl (bus self) 16)))
                      (u32_of (Z.shiftl (device self) 11)))
               (u32_of (Z.shiftl (function self) 8)))
        offset.

Section access.
Context `{Profile} {D St : Type} `{!Devices D} (dev : lens St D) (mcfg : lens St Z).
(** Volatile accesses of [w] bytes at a virtual address. *)
Context (read_volatile : Z → Z → M St Z) (write_volatile : Z → Z → Z → M St unit).

Definition mmio_address (self : PciAddress) (offset mcfg : Z) : M St Z :=
  let! a := u64_add mcfg (u64_shl (bus self) 20) in
  let! a := u64_add a (u64_shl (device self) 15) in
  let! a := u64_add a (u64_shl (function self) 12) in
  u64_add a offset.

Definition supported_size (w : Z) : bool := (w =? 1) || (w =? 2) || (w =? 4).

(** The port of byte [offset & 3] of the data register. *)
Definition data_port (offset : Z) : M St Z := u16_add 0xCFC (Z.land (u16_of offset) 3).

(** [pci_read::<T>] with [w = size_of::<T>()]; [T::try_from] fails on a value that
    does not fit. *)
Definition pci_read (w : Z) (addr : PciAddress) (offset : Z) : M St Z :=
  do! assert_ (supported_size w) "unsupported size";
  let! mcfg := gets (lget mcfg) in
  if negb (mcfg =? 0) then
    let! a := mmio_address addr offset mcfg in
    read_volatile w a
  else
    do! outl dev 0xCF8 (io_address addr offset);
    let! port := data_port offset in
    let! value := if w =? 1 then inb dev port
                  else if w =? 2 then inw dev port
                  else inl dev port in
    unwrap (if value <? 2 ^ (8 * w) then Some value else None) "called `Option::unwrap()` on a `None` value".

Definition pci_write (w : Z) (addr : PciAddress) (offset value : Z) : M St unit :=
  do! assert_ (supported_size w) "unsupported size";
  let! mcfg := gets (lget mcfg) in
  if negb (mcfg =? 0) then
    let! a := mmio_address addr offset mcfg in
    write_volatile w a value
  else
    do! outl dev 0xCF8 (io_address addr offset);
    let! port := data_port offset in
    if w =? 1 then outb dev port (u8_of value)
    else if w =? 2 then outw dev port (u16_of value)
    else outl dev port value.

(** ** The bus walk *)

(** The loop of [enum_device] over functions [function .. 8], [n] of them; [rec] is
    [enum_bus]. *)
Fixpoint enum_functions (rec : Z → list PciAddress → M St (list PciAddress)) (bus device function : Z)
    (n : nat) (funcs : list PciAddress) : M St (list PciAddress) :=
  match n with
  | O => ret funcs
  | S n' =>
      let pciaddr := mkPciAddress bus device function in
      let! vendor_device := pci_read 4 pciaddr 0x00 in
      let vendor_id := Z.land vendor_device 0xFFFF in
      if vendor_id =? 0xFFFF then
        if function =? 0 then ret funcs
        else enum_functions rec bus device (function + 1) n' funcs
      else
        let! class_info := pci_read 4 pciaddr 0x08 in
        let class_code := Z.land (Z.shiftr class_info 24) 0xFF in
        let subclass := Z.land (Z.shiftr class_info 16) 0xFF in
        let! header_reg := pci_read 4 pciaddr 0x0C in
        let header_byte := Z.land (Z.shiftr header_reg 16) 0xFF in
        let multifunction := negb (Z.land header_byte 0x80 =? 0) in
        let header_type := Z.land header_byte 0x7F in
        let funcs := funcs ++ [pciaddr] in
        let! funcs :=
          if (class_code =? 0x06) && ((subclass =? 0x04) || (subclass =? 0x09)) && (header_type =? 1) then
            let! reg := pci_read 4 pciaddr 0x18 in
            rec (u8_of (Z.shiftr reg 8)) funcs
          else ret funcs in
        if (function =? 0) && negb multifunction then ret funcs
        else enum_functions rec bus device (function + 1) n' funcs
  end.

Definition enum_device (rec : Z → list PciAddress → M St (list PciAddress)) (bus device : Z)
    (funcs : list PciAddress) : M St (list PciAddress) :=
  enum_functions rec bus device 0 8 funcs.

(** The loop of [enum_bus] over devices [device .. 32], [n] of them. *)
Fixpoint enum_devices (rec : Z → list PciAddress → M St (list PciAddress)) (bus device : Z)
    (n : nat) (devices : list PciAddress) : M St (list PciAddress) :=
  match n with
  | O => ret devices
  | S n' =>
      let! devices := enum_device rec bus device devices in
      enum_devices rec bus (device + 1) n' devices
  end.

(** [fuel] bounds how deep bridges nest. *)
Fixpoint enum_bus (fuel : nat) (bus : Z) (devices : list PciAddress) : M St (list PciAddress) :=
  match fuel with
  | O => nofuel
  | S fuel' => enum_devices (enum_bus fuel') bus 0 32 devices
  end.

End access.
