(* ===== verification/PciScan.v ===== *)
(** * PciScan: which functions the bus walk finds

    What [enum_bus] of [src/kernel/src/pci.rs] lists, as a function of the contents
    of configuration space, and what that list contains: every function that can
    be seen on a bus reached through bridges, once.  The walk ends because bridges
    lead to buses with larger numbers; a bridge that leads back to its own bus
    makes it run for ever. *)

From S2P Require Import Prelude Bits Locks Devices Pci.

Lemma list_bind_singleton {A B : Type} (f : A → list B) x : [x] ≫= f = f x.
Proof. apply app_nil_r. Qed.

Section scan.
(** The 32-bit register of a function at an offset. *)
Context (cfg : PciAddress → Z → Z).

Definition present (f : PciAddress) : bool := negb (Z.land (cfg f 0x00) 0xFFFF =? 0xFFFF).

Definition multifunction (f : PciAddress) : bool :=
  negb (Z.land (Z.land (Z.shiftr (cfg f 0x0C) 16) 0xFF) 0x80 =? 0).

(** A PCI-to-PCI bridge. *)
Definition bridge (f : PciAddress) : bool :=
  let class_code := Z.land (Z.shiftr (cfg f 0x08) 24) 0xFF in
  let subclass := Z.land (Z.shiftr (cfg f 0x08) 16) 0xFF in
  (class_code =? 0x06) && ((subclass =? 0x04) || (subclass =? 0x09)) &&
  (Z.land (Z.land (Z.shiftr (cfg f 0x0C) 16) 0xFF) 0x7F =? 1).

Definition secondary (f : PciAddress) : Z := u8_of (Z.shiftr (cfg f 0x18) 8).

Definition at_function (b d : Z) (i : nat) : PciAddress := mkPciAddress b d (Z.of_nat i).

(** The functions of a device: function 0 tells whether there are others. *)
Definition device_functions (b d : Z) : list PciAddress :=
  if present (at_function b d 0) then
    at_function b d 0 ::
      (if multifunction (at_function b d 0) then filter present (at_function b d <$> seq 1 7) else [])
  else [].

Definition bus_functions (b : Z) : list PciAddress :=
  seq 0 32 ≫= λ d, device_functions b (Z.of_nat d).

(** A function, followed by what [sub] finds behind it. *)
Definition visit (sub : Z → list PciAddress) (f : PciAddress) : list PciAddress :=
  f :: (if bridge f then sub (secondary f) else []).

Fixpoint scan (fuel : nat) (b : Z) : list PciAddress :=
  match fuel with
  | O => []
  | S fuel' => bus_functions b ≫= visit (scan fuel')
  end.

(** A bridge leads from one bus to the other. *)
Definition leads (b b' : Z) : Prop := ∃ f, f ∈ bus_functions b ∧ bridge f = true ∧ secondary f = b'.

Lemma secondary_range f : 0 ≤ secondary f < 256.
Proof. apply (Z.mod_pos_bound _ (2 ^ 8)). lia. Qed.

Lemma device_functions_in b d f :
  f ∈ device_functions b d → bus f = b ∧ device f = d ∧ 0 ≤ function f < 8 ∧ present f = true.
Proof.
  unfold device_functions. destruct (present (at_function b d 0)) eqn:Hp; [|by rewrite elem_of_nil].
  rewrite elem_of_cons. intros [->|Hf]; [by split_and!|]. destruct (multifunction _); [|by apply elem_of_nil in Hf].
  apply list_elem_of_filter in Hf as [Hpf (i & -> & Hi%elem_of_seq)%list_elem_of_fmap].
  split_and!; [done|done|simpl; lia..|by apply Is_true_eq_true].
Qed.

Lemma bus_functions_in b f :
  f ∈ bus_functions b → bus f = b ∧ 0 ≤ device f < 32 ∧ 0 ≤ function f < 8 ∧ present f = true.
Proof.
  unfold bus_functions. rewrite list_elem_of_bind. intros (d & Hf & Hd%elem_of_seq).
  apply device_functions_in in Hf as (-> & -> & ? & ?). split_and!; [done|lia..|done].
Qed.

(** The registers the walk reads. *)
Definition walk_reg (off : Z) : Prop := off = 0x00 ∨ off = 0x08 ∨ off = 0x0C ∨ off = 0x18.

(** ** The walk follows the scan *)
Section walk.
Context `{Profile} {D St : Type} `{!Devices D} (dev : lens St D) (mcfg : lens St Z).
Context (read_volatile : Z → Z → M St Z).
Context (P : St → Prop) (B : Z → Prop).

(** On the buses in [B], configuration reads give [cfg] and keep [P]. *)
Context (Hread : ∀ s b d i off, P s → B b → 0 ≤ d < 32 → 0 ≤ i < 8 → walk_reg off →
  wp (pci_read dev mcfg read_volatile 4 (mkPciAddress b d i) off) s
     (λ v s', v = cfg (mkPciAddress b d i) off ∧ P s')).

Context (sub : Z → list PciAddress) (rec : Z → list PciAddress → M St (list PciAddress)).

(** One function: pushed, and followed if it is a bridge. *)
Lemma visit_step b d i n acc s (Q : list PciAddress → St → Prop) :
  P s → B b → 0 ≤ d < 32 → 0 ≤ i < 8 →
  let f := mkPciAddress b d i in
  (present f = true → bridge f = true → ∀ acc s, P s →
     wp (rec (secondary f) acc) s (λ l s', l = acc ++ sub (secondary f) ∧ P s')) →
  (present f = false → ∀ s', P s' →
     wp (if i =? 0 then ret acc else enum_functions dev mcfg read_volatile rec b d (i + 1) n acc) s' Q) →
  (present f = true → ∀ s', P s' →
     let acc' := acc ++ visit sub f in
     wp (if (i =? 0) && negb (multifunction f) then ret acc'
         else enum_functions dev mcfg read_volatile rec b d (i + 1) n acc') s' Q) →
  wp (enum_functions dev mcfg read_volatile rec b d i (S n) acc) s Q.
Proof.
  intros HP Hb Hd Hi f Hrec Habs Hpres. cbn [enum_functions].
  assert (∀ s off, P s → walk_reg off →
    wp (pci_read dev mcfg read_volatile 4 f off) s (λ v s', v = cfg f off ∧ P s')) as Hr by (intros; by apply Hread).
  eapply wp_seq; [apply Hr; [done|unfold walk_reg; tauto]|]. cbv beta. intros v1 s1 [-> HP1]. fold f.
  unfold present in Habs, Hpres. destruct (Z.land (cfg f 0) 0xFFFF =? 0xFFFF) eqn:Hv; [by apply Habs|].
  eapply wp_seq; [apply Hr; [done|unfold walk_reg; tauto]|]. cbv beta. intros v2 s2 [-> HP2].
  eapply wp_seq; [apply Hr; [done|unfold walk_reg; tauto]|]. cbv beta. intros v3 s3 [-> HP3].
  eapply (wp_seq _ _ _ (λ l s', l = acc ++ visit sub f ∧ P s')).
  - unfold visit. fold (bridge f). destruct (bridge f) eqn:Hbr; [|by apply wp_ret].
    eapply wp_seq; [apply Hr; [done|unfold walk_reg; tauto]|]. cbv beta. intros v4 s4 [-> HP4].
    eapply wp_mono; [apply Hrec; [|done|done]|].
    { unfold present. by rewrite Hv. }
    cbv beta. intros l s' [-> ?]. by rewrite <- app_assoc.
  - cbv beta. intros l s4 [-> HP4]. by apply Hpres.
Qed.

(** Functions 1 to 7. *)
Lemma enum_rest b d n i acc s :
  P s → B b → 0 ≤ d < 32 → (1 ≤ i)%nat → (i + n = 8)%nat →
  (∀ f, f ∈ filter present (at_function b d <$> seq i n) → bridge f = true → ∀ acc s, P s →
     wp (rec (secondary f) acc) s (λ l s', l = acc ++ sub (secondary f) ∧ P s')) →
  wp (enum_functions dev mcfg read_volatile rec b d (Z.of_nat i) n acc) s (λ l s',
    l = acc ++ (filter present (at_function b d <$> seq i n) ≫= visit sub) ∧ P s').
Proof.
  revert i acc s. induction n as [|n IH]; intros i acc s HP Hb Hd Hi Hn Hrec.
  { apply wp_ret. by rewrite app_nil_r. }
  assert (Z.of_nat i + 1 = Z.of_nat (S i)) as Hnext by lia.
  assert ((Z.of_nat i =? 0) = false) as Hz by (apply Z.eqb_neq; lia).
  cbn [seq fmap list_fmap] in *.
  assert (filter present (at_function b d i :: (at_function b d <$> seq (S i) n)) =
    (if present (at_function b d i) then [at_function b d i] else []) ++ filter present (at_function b d <$> seq (S i) n))
    as Hfilter by (rewrite filter_cons; by destruct (present (at_function b d i))).
  rewrite Hfilter in *. clear Hfilter.
  apply visit_step; [done|done|done|lia| | |]; fold (at_function b d i); rewrite ?Hz, ?Hnext.
  - intros Hp Hbr. apply (Hrec (at_function b d i)); [|done]. rewrite Hp. by apply elem_of_app; left; left.
  - intros Hp s' HP'. rewrite Hp in *. by apply IH; try lia.
  - intros Hp s' HP'. rewrite Hp in *. cbn [andb].
    eapply wp_mono; [apply IH; [done|done|done|lia|lia|]|].
    + intros f Hf. apply Hrec. by apply elem_of_app; right.
    + cbv beta. intros l s2 [-> ?]. split; [|done]. by rewrite bind_app, list_bind_singleton, app_assoc.
Qed.

Lemma enum_device_spec b d acc s :
  P s → B b → 0 ≤ d < 32 →
  (∀ f, f ∈ device_functions b d → bridge f = true → ∀ acc s, P s →
     wp (rec (secondary f) acc) s (λ l s', l = acc ++ sub (secondary f) ∧ P s')) →
  wp (enum_device dev mcfg read_volatile rec b d acc) s (λ l s',
    l = acc ++ (device_functions b d ≫= visit sub) ∧ P s').
Proof.
  intros HP Hb Hd. unfold enum_device, device_functions. set (f0 := at_function b d 0). intros Hrec.
  apply visit_step; [done|done|done|lia| | |]; change (mkPciAddress b d 0) with f0.
  - intros Hp Hbr. rewrite Hp in Hrec. apply (Hrec f0); [by left|done].
  - intros Hp s' HP'. rewrite Hp. cbn [Z.eqb]. apply wp_ret. by rewrite app_nil_r.
  - intros Hp s' HP'. rewrite Hp in *. cbn [Z.eqb andb]. destruct (multifunction f0) eqn:Hm; cbn [negb].
    + eapply wp_mono; [apply (enum_rest b d 7 1); [done|done|done|lia|lia|]|].
      * intros f Hf. apply Hrec. by right.
      * cbv beta. intros l s2 [-> ?]. split; [|done]. by rewrite bind_cons, app_assoc.
    + apply wp_ret. split; [|done]. by rewrite list_bind_singleton.
Qed.

Lemma enum_devices_spec b n d acc s :
  P s → B b → (d + n = 32)%nat →
  (∀ f, f ∈ bus_functions b → bridge f = true → ∀ acc s, P s →
     wp (rec (secondary f) acc) s (λ l s', l = acc ++ sub (secondary f) ∧ P s')) →
  wp (enum_devices dev mcfg read_volatile rec b (Z.of_nat d) n acc) s (λ l s',
    l = acc ++ ((seq d n ≫= λ d, device_functions b (Z.of_nat d)) ≫= visit sub) ∧ P s').
Proof.
  intros HP Hb Hd Hrec. revert d acc s HP Hd. induction n as [|n IH]; intros d acc s HP Hd.
  { apply wp_ret. by rewrite app_nil_r. }
  cbn [enum_devices seq]. eapply wp_seq; [apply enum_device_spec; [done|done|lia|]|].
  - intros f Hf. apply Hrec. unfold bus_functions. rewrite list_elem_of_bind. exists d.
    split; [done|]. apply elem_of_seq. lia.
  - cbv beta. intros l s1 [-> HP1]. replace (Z.of_nat d + 1) with (Z.of_nat (S d)) by lia.
    eapply wp_mono; [apply IH; [done|lia]|]. cbv beta. intros l s2 [-> ?]. split; [|done].
    by rewrite bind_cons, bind_app, app_assoc.
Qed.
End walk.

(** ** What the scan contains *)

(** Bridges on the buses behind [b] lead to larger buses. *)
Definition ascending (b : Z) : Prop := ∀ b' b'', rtc leads b b' → leads b' b'' → b' < b''.

Lemma ascending_step b b' : ascending b → leads b b' → ascending b'.
Proof. intros Ha Hl x y Hx. apply Ha. by eapply rtc_l. Qed.

Lemma ascending_le b b' : ascending b → rtc leads b b' → b ≤ b'.
Proof.
  intros Ha Hr. revert Ha. induction Hr as [|x y z Hl Hr IH]; intros Ha; [lia|].
  pose proof (Ha x y (rtc_refl _ x) Hl). pose proof (IH (ascending_step x y Ha Hl)). lia.
Qed.

Lemma leads_range b b' : leads b b' → 0 ≤ b' < 256.
Proof. intros (f & _ & _ & <-). apply secondary_range. Qed.

Lemma scan_S n b f :
  f ∈ scan (S n) b ↔ f ∈ bus_functions b ∨
    ∃ g, g ∈ bus_functions b ∧ bridge g = true ∧ f ∈ scan n (secondary g).
Proof.
  cbn [scan]. rewrite list_elem_of_bind. unfold visit. split.
  - intros (g & [->|Hf]%elem_of_cons & Hg); [by left|]. destruct (bridge g) eqn:Hb; [|by apply elem_of_nil in Hf].
    right. by exists g.
  - intros [Hf|(g & Hg & Hb & Hf)].
    + exists f. split; [by left|done].
    + exists g. split; [|done]. rewrite Hb. by right.
Qed.

Lemma scan_in n b f :
  ascending b → 0 ≤ b < 256 → 256 - b ≤ Z.of_nat n →
  f ∈ scan n b ↔ ∃ b', rtc leads b b' ∧ f ∈ bus_functions b'.
Proof.
  revert b. induction n as [|n IH]; intros b Ha Hb Hn; [lia|]. rewrite scan_S.
  assert (∀ g, g ∈ bus_functions b → bridge g = true → leads b (secondary g) ∧
    (f ∈ scan n (secondary g) ↔ ∃ b', rtc leads (secondary g) b' ∧ f ∈ bus_functions b')) as Hsub.
  { intros g Hg Hbr. assert (leads b (secondary g)) as Hl by (by exists g). split; [done|].
    pose proof (Ha b _ (rtc_refl _ b) Hl). pose proof (secondary_range g).
    apply IH; [by eapply ascending_step|lia|lia]. }
  split.
  - intros [Hf|(g & Hg & Hbr & Hf)]; [by exists b|].
    destruct (Hsub g Hg Hbr) as [Hl Hiff]. apply Hiff in Hf as (b' & Hr & ?). exists b'. split; [by eapply rtc_l|done].
  - intros (b' & Hr & Hf). inversion Hr as [|x y z Hl Hr']; subst; [by left|].
    destruct Hl as (g & Hg & Hbr & <-). right. exists g. split_and!; [done|done|].
    apply Hsub; [done|done|]. by exists b'.
Qed.

(** No bus is behind two bridges. *)
Definition one_bridge (b0 : Z) : Prop := ∀ b1 b2 f1 f2,
  rtc leads b0 b1 → rtc leads b0 b2 → f1 ∈ bus_functions b1 → f2 ∈ bus_functions b2 →
  bridge f1 = true → bridge f2 = true → secondary f1 = secondary f2 → f1 = f2.

(** Two buses that both lead to a third are one behind the other. *)
Lemma leads_linear b0 b1 b2 x :
  one_bridge b0 → rtc leads b0 b1 → rtc leads b0 b2 → rtc leads b1 x → rtc leads b2 x →
  rtc leads b1 b2 ∨ rtc leads b2 b1.
Proof.
  intros Hone H01 H02 H1. revert x H1. refine (rtc_ind_r _ _ _ _); [by right|].
  intros x y H1 Hl IH H2.
  destruct (rtc_inv_r _ _ H2) as [->|(z & H2z & Hz)]; [left; by eapply rtc_r|].
  destruct Hl as (f & Hf & Hbf & Hsf), Hz as (g & Hg & Hbg & Hsg).
  assert (f = g) as ->.
  { apply (Hone x z); [by transitivity b1|by transitivity b2|done..|congruence]. }
  apply bus_functions_in in Hf as (<- & _), Hg as (<- & _). by apply IH.
Qed.

Lemma one_bridge_step b b' : one_bridge b → rtc leads b b' → one_bridge b'.
Proof. intros Ho Hr b1 b2 f1 f2 H1 H2. apply (Ho b1 b2); by transitivity b'. Qed.

(** Bridges of one bus have nothing in common behind them. *)
Lemma behind_disjoint b f1 f2 x :
  ascending b → one_bridge b → f1 ∈ bus_functions b → f2 ∈ bus_functions b →
  bridge f1 = true → bridge f2 = true → rtc leads (secondary f1) x → rtc leads (secondary f2) x → f1 = f2.
Proof.
  intros Ha Ho Hf1 Hf2 Hb1 Hb2 Hx1 Hx2.
  assert (∀ g, g ∈ bus_functions b → bridge g = true → leads b (secondary g)) as Hl by (intros g; by exists g).
  assert (∀ g g', g ∈ bus_functions b → g' ∈ bus_functions b → bridge g = true → bridge g' = true →
    rtc leads (secondary g) (secondary g') → g = g') as Hsame.
  { intros g g' Hg Hg' Hbg Hbg' Hr. destruct (rtc_inv_r _ _ Hr) as [He|(z & Hz & k & Hk & Hbk & Hsk)].
    - apply (Ho b b); [apply rtc_refl|apply rtc_refl|done..].
    - assert (k = g') as -> by (apply (Ho z b); [exact (rtc_l _ _ _ _ (Hl g Hg Hbg) Hz)|apply rtc_refl|done..]).
      apply bus_functions_in in Hk as [<- _], Hg' as [Hbus _]. rewrite Hbus in *.
      pose proof (Ha b _ (rtc_refl _ b) (Hl g Hg Hbg)).
      pose proof (ascending_le _ _ (ascending_step b _ Ha (Hl g Hg Hbg)) Hz). lia. }
  destruct (leads_linear b (secondary f1) (secondary f2) x) as [Hr|Hr];
    [done|by apply rtc_once, Hl|by apply rtc_once, Hl|done|done|by apply Hsame|symmetry; by apply Hsame].
Qed.

Lemma device_functions_nodup b d : NoDup (device_functions b d).
Proof.
  unfold device_functions. destruct (present _); [|constructor].
  destruct (multifunction _); [|by apply NoDup_singleton]. apply NoDup_cons. split.
  - intros [_ (i & Hi & ?%elem_of_seq)%list_elem_of_fmap]%list_elem_of_filter.
    unfold at_function in Hi. simplify_eq. lia.
  - apply NoDup_filter, NoDup_fmap_2; [|apply NoDup_seq]. intros i j [= ?]. lia.
Qed.

Lemma bus_functions_nodup b : NoDup (bus_functions b).
Proof.
  apply NoDup_bind; [|intros; apply device_functions_nodup|apply NoDup_seq].
  intros d1 d2 f _ _ (_ & H1 & _)%device_functions_in (_ & H2 & _)%device_functions_in. lia.
Qed.

Lemma scan_nodup n b :
  ascending b → one_bridge b → 0 ≤ b < 256 → 256 - b ≤ Z.of_nat n → NoDup (scan n b).
Proof.
  revert b. induction n as [|n IH]; intros b Ha Ho Hb Hn; [constructor|]. cbn [scan].
  assert (∀ g f, g ∈ bus_functions b → bridge g = true → ascending (secondary g) ∧ b < secondary g ∧
    (f ∈ scan n (secondary g) → ∃ b', rtc leads (secondary g) b' ∧ f ∈ bus_functions b')) as Hsub.
  { intros g f Hg Hbr. assert (leads b (secondary g)) as Hl by (by exists g).
    pose proof (Ha b _ (rtc_refl _ b) Hl). pose proof (secondary_range g).
    split_and!; [by eapply ascending_step|done|]. apply scan_in; [by eapply ascending_step|lia|lia]. }
  assert (∀ g f, g ∈ bus_functions b → bridge g = true → f ∈ scan n (secondary g) → bus f ≠ b) as Hout.
  { intros g f Hg Hbr Hf He. destruct (Hsub g f Hg Hbr) as (Hag & Hlt & Hin).
    destruct (Hin Hf) as (b' & Hr & [<- _]%bus_functions_in). pose proof (ascending_le _ _ Hag Hr). lia. }
  apply NoDup_bind; [| |apply bus_functions_nodup].
  - unfold visit. intros f1 f2 y Hf1 Hf2. rewrite !elem_of_cons. intros [->|H1] [->|H2]; [done|..].
    + destruct (bridge f2) eqn:Hb2; [|by apply elem_of_nil in H2].
      apply bus_functions_in in Hf1 as [? _]. by destruct (Hout f2 f1 Hf2 Hb2 H2).
    + destruct (bridge f1) eqn:Hb1; [|by apply elem_of_nil in H1].
      apply bus_functions_in in Hf2 as [? _]. by destruct (Hout f1 f2 Hf1 Hb1 H1).
    + destruct (bridge f1) eqn:Hb1; [|by apply elem_of_nil in H1].
      destruct (bridge f2) eqn:Hb2; [|by apply elem_of_nil in H2].
      destruct (Hsub f1 y Hf1 Hb1) as (_ & _ & Hin1), (Hsub f2 y Hf2 Hb2) as (_ & _ & Hin2).
      destruct (Hin1 H1) as (b1 & Hr1 & [E1 _]%bus_functions_in), (Hin2 H2) as (b2 & Hr2 & [E2 _]%bus_functions_in).
      apply (behind_disjoint b f1 f2 b1); [done..|congruence].
  - unfold visit. intros f Hf. apply NoDup_cons. destruct (bridge f) eqn:Hbr; [|by split; [apply not_elem_of_nil|constructor]].
    destruct (Hsub f f Hf Hbr) as (Haf & Hlt & _). pose proof (secondary_range f). split.
    + intros Hin. apply (Hout f f Hf Hbr Hin). by apply bus_functions_in in Hf as [? _].
    + apply IH; [done| |lia|lia]. apply (one_bridge_step b); [done|]. apply rtc_once. by exists f.
Qed.

(** ** The whole walk *)
Section enumerate.
Context `{Profile} {D St : Type} `{!Devices D} (dev : lens St D) (mcfg : lens St Z).
Context (read_volatile : Z → Z → M St Z).
Context (P : St → Prop) (B : Z → Prop).

Definition config_reads : Prop := ∀ s b d i off,
  P s → B b → 0 ≤ d < 32 → 0 ≤ i < 8 → walk_reg off →
  wp (pci_read dev mcfg read_volatile 4 (mkPciAddress b d i) off) s
     (λ v s', v = cfg (mkPciAddress b d i) off ∧ P s').

Lemma enum_bus_spec n b acc s :
  config_reads → (∀ b', rtc leads b b' → B b') → ascending b → 0 ≤ b < 256 → 256 - b ≤ Z.of_nat n → P s →
  wp (enum_bus dev mcfg read_volatile n b acc) s (λ l s', l = acc ++ scan n b ∧ P s').
Proof.
  intros Hread. revert b acc s. induction n as [|n IH]; intros b acc s HB Ha Hb Hn HP; [lia|].
  cbn [enum_bus]. apply (enum_devices_spec dev mcfg read_volatile P B Hread (scan n) _ b 32 0); [done| |done|].
  - apply HB, rtc_refl.
  - intros f Hf Hbr acc' s' HP'. assert (leads b (secondary f)) as Hl by (by exists f).
    pose proof (Ha b _ (rtc_refl _ b) Hl). pose proof (secondary_range f).
    apply IH; [|by eapply ascending_step|lia|lia|done].
    intros b' Hr. apply HB. exact (rtc_l _ _ _ _ Hl Hr).
Qed.

(** A bridge behind which the walk does not return. *)
Lemma enum_functions_hang rec b d i n acc s :
  let f := mkPciAddress b d i in
  config_reads → B b → 0 ≤ d < 32 → 0 ≤ i < 8 → P s → present f = true → bridge f = true →
  (∀ acc s, P s → rec (secondary f) acc s = NoFuel) →
  enum_functions dev mcfg read_volatile rec b d i (S n) acc s = NoFuel.
Proof.
  intros f Hread Hb Hd Hi HP Hp Hbr Hrec.
  assert (∀ s off, P s → walk_reg off → ∃ s', pci_read dev mcfg read_volatile 4 f off s = Ok (cfg f off, s') ∧ P s') as Hr.
  { intros s' off HP' Hoff. destruct (proj1 (wp_ok _ _ _) (Hread s' b d i off HP' Hb Hd Hi Hoff))
      as (v & s2 & Heq & -> & HP2). by exists s2. }
  cbn [enum_functions]. fold f. unfold bind at 1.
  destruct (Hr s 0x00 HP) as (s1 & -> & HP1); [unfold walk_reg; tauto|].
  unfold present in Hp. apply negb_true_iff in Hp. rewrite Hp. unfold bind at 1.
  destruct (Hr s1 0x08 HP1) as (s2 & -> & HP2); [unfold walk_reg; tauto|]. unfold bind at 1.
  destruct (Hr s2 0x0C HP2) as (s3 & -> & HP3); [unfold walk_reg; tauto|]. fold (bridge f). rewrite Hbr.
  unfold bind at 1 2. destruct (Hr s3 0x18 HP3) as (s4 & -> & HP4); [unfold walk_reg; tauto|].
  fold (secondary f). by rewrite Hrec.
Qed.

Lemma enum_devices_hang rec b d n acc s :
  enum_device dev mcfg read_volatile rec b d acc s = NoFuel →
  enum_devices dev mcfg read_volatile rec b d (S n) acc s = NoFuel.
Proof. intros Hd. cbn [enum_devices]. unfold bind. by rewrite Hd. Qed.

(** A bridge at the front of a bus that leads back to the bus. *)
Lemma enum_loop n b acc s :
  config_reads → B b → present (at_function b 0 0) = true → bridge (at_function b 0 0) = true →
  secondary (at_function b 0 0) = b → P s → enum_bus dev mcfg read_volatile n b acc s = NoFuel.
Proof.
  intros Hread Hb Hp Hbr Hsec. revert acc s. induction n as [|n IH]; intros acc s HP; [done|].
  apply enum_devices_hang, enum_functions_hang; [done|done|lia|lia|done|done|done|].
  intros acc' s' HP'. change (mkPciAddress b 0 0) with (at_function b 0 0). rewrite Hsec. by apply IH.
Qed.
End enumerate.
End scan.
