(* ===== verification/PciAccess.v ===== *)
(** * PciAccess: the two ways into configuration space

    [pci_read] and [pci_write] of [src/kernel/src/pci.rs] reach a register through
    the ports or through the memory window.  [PciHost] states what the bus
    specification says of both; the theorems show that the two are the same access
    to the same register. *)

From S2P Require Import Prelude Bits Mem Paging Locks Devices Pci PciScan.

(** The number of a function within its segment. *)
Definition bdf (a : PciAddress) : Z := bus a * 256 + device a * 8 + function a.

Definition pci_valid (a : PciAddress) : Prop :=
  0 ≤ bus a < 256 ∧ 0 ≤ device a < 32 ∧ 0 ≤ function a < 8.

(** An access of [w] bytes that stays within a register. *)
Definition access_ok (w off : Z) : Prop := supported_size w = true ∧ off mod w = 0.

(** ** Addresses *)
Lemma lor_add a b k : 0 ≤ k → 0 ≤ b < 2 ^ k → Z.lor (a * 2 ^ k) b = a * 2 ^ k + b.
Proof.
  intros Hk Hb. symmetry. apply Z.add_nocarry_lor. apply Z.bits_inj'. intros n Hn.
  rewrite Z.land_spec, Z.bits_0. destruct (Z.lt_ge_cases n k).
  - by rewrite Z.mul_pow2_bits_low by lia.
  - rewrite <- (Z.mod_small b (2 ^ k)) by done. by rewrite Z.mod_pow2_bits_high, andb_false_r by lia.
Qed.

Lemma land_fc x : 0 ≤ x < 256 → Z.land x 0xFC = x - x mod 4.
Proof.
  intros Hx. assert (forallb (λ i, Z.land (Z.of_nat i) 0xFC =? Z.of_nat i - Z.of_nat i mod 4) (seq 0 256) = true) as Hall
    by (vm_compute; reflexivity).
  rewrite forallb_forall in Hall. specialize (Hall (Z.to_nat x)).
  rewrite Z2Nat.id in Hall by lia. apply Z.eqb_eq, Hall, in_seq. lia.
Qed.

Lemma land_fc_low x : Z.land (u32_of x) 0xFC = x mod 256 - x mod 4.
Proof.
  assert (Z.land (u32_of x) 0xFC = Z.land (x mod 256) 0xFC) as ->.
  { unfold u32_of. change 256 with (2 ^ 8). rewrite <- !Z.land_ones, <- !Z.land_assoc by lia. done. }
  rewrite land_fc by (apply Z.mod_pos_bound; lia). f_equal.
  apply Z.mod_mod_divide. by exists 64.
Qed.

(** [io_address] as a number. *)
Lemma io_address_val a off :
  pci_valid a → io_address a off = 2 ^ 31 + bdf a * 256 + (off mod 256 - off mod 4).
Proof.
  intros (Hb & Hd & Hf). unfold io_address, bdf. rewrite land_fc_low, !Z.shiftl_mul_pow2 by lia.
  unfold u32_of. rewrite !(Z.mod_small _ (2 ^ 32)) by lia.
  pose proof (Z.mod_pos_bound off 256). pose proof (Z.mod_pos_bound off 4).
  pose proof (land_bound (u32_of off) 0xFC 8 ltac:(lia) eq_refl) as Hr. rewrite land_fc_low in Hr.
  change 0x80000000 with (2 ^ 15 * 2 ^ 16).
  assert (Z.lor (2 ^ 15 * 2 ^ 16) (bus a * 2 ^ 16) = (2 ^ 15 + bus a) * 2 ^ 16) as ->.
  { change (2 ^ 15 * 2 ^ 16) with (1 * 2 ^ 31). rewrite lor_add by lia. lia. }
  rewrite lor_add by lia.
  replace ((2 ^ 15 + bus a) * 2 ^ 16 + device a * 2 ^ 11)
    with ((2 ^ 23 + bus a * 2 ^ 8 + device a * 2 ^ 3) * 2 ^ 8) by lia.
  assert (Z.lor ((2 ^ 23 + bus a * 2 ^ 8 + device a * 2 ^ 3) * 2 ^ 8) (function a * 2 ^ 8) =
    (2 ^ 23 + bus a * 2 ^ 8 + device a * 2 ^ 3 + function a) * 2 ^ 8) as ->.
  { replace ((2 ^ 23 + bus a * 2 ^ 8 + device a * 2 ^ 3) * 2 ^ 8)
      with ((2 ^ 20 + bus a * 2 ^ 5 + device a) * 2 ^ 11) by lia. rewrite lor_add by lia. lia. }
  rewrite lor_add by lia. lia.
Qed.

(** The host bridge finds the function and the register in it. *)
Lemma io_address_fields a off :
  pci_valid a →
  Z.testbit (io_address a off) 31 = true ∧ Z.land (Z.shiftr (io_address a off) 8) 0xFFFF = bdf a ∧
  Z.land (io_address a off) 0xFC = off mod 256 - off mod 4 ∧ 0 ≤ io_address a off < 2 ^ 32.
Proof.
  intros Ha. pose proof Ha as (Hb & Hd & Hf). rewrite io_address_val by done.
  pose proof (land_bound (u32_of off) 0xFC 8 ltac:(lia) eq_refl) as Hr. rewrite land_fc_low in Hr.
  set (r := off mod 256 - off mod 4) in *. assert (0 ≤ bdf a < 2 ^ 16) as Hbdf by (unfold bdf; lia).
  set (x := 2 ^ 31 + bdf a * 256 + r). assert (x mod 256 = r) as Hx.
  { unfold x. replace (2 ^ 31 + bdf a * 256 + r) with (r + (2 ^ 23 + bdf a) * 256) by lia.
    rewrite Z.mod_add by lia. by apply Z.mod_small. }
  split_and!; [| | |lia|lia].
  - rewrite Z.testbit_true by lia. replace (x / 2 ^ 31) with 1; [done|].
    apply (Z.div_unique x (2 ^ 31) 1 (bdf a * 256 + r)); [left; lia|unfold x; lia].
  - rewrite Z.shiftr_div_pow2 by lia. change 0xFFFF with (Z.ones 16). rewrite Z.land_ones by lia.
    replace (x / 2 ^ 8) with (2 ^ 23 + bdf a).
    + replace (2 ^ 23 + bdf a) with (bdf a + 2 ^ 7 * 2 ^ 16) by lia. rewrite Z.mod_add by lia. by apply Z.mod_small.
    + apply (Z.div_unique x (2 ^ 8) _ r); [left; lia|unfold x; lia].
  - rewrite <- (Z.mod_small x (2 ^ 32)) by (unfold x; lia). fold (u32_of x).
    rewrite land_fc_low, Hx. replace (x mod 4) with 0; [lia|].
    rewrite <- (Z.mod_mod_divide x 256 4), Hx by (by exists 64).
    unfold r. symmetry. rewrite <- (Z.mod_mod_divide off 256 4) by (by exists 64).
    rewrite Zminus_mod_idemp_r, Z.sub_diag. done.
Qed.

(** ** The host bridge *)

(** Configuration space is a state [conf] with accesses of its own (a register may
    change when it is read).  Writing [0xCF8] selects a function and an aligned
    register; with bit 31 set, an access to [0xCFC + k] is an access to that
    register.  The same registers appear in memory from the physical address
    [ecam] on, 4096 bytes to a function. *)
Class PciHost (D : Type) `{Devices D} := {
  conf : Type;
  pci_conf : D → conf;
  pci_latch : D → Z;
  ecam : Z;
  conf_read : Z → Z → Z → conf → Z * conf;
  conf_write : Z → Z → Z → Z → conf → conf;
  conf_read_range w f r c : supported_size w = true → 0 ≤ fst (conf_read w f r c) < 2 ^ (8 * w);
  (** The registers of the standard header can be read without effect. *)
  conf_read_header w f r c : 0 ≤ r < 0x40 → snd (conf_read w f r c) = c;
  pci_select v d : pci_latch (dev_out 4 0xCF8 v d) = v ∧ pci_conf (dev_out 4 0xCF8 v d) = pci_conf d;
  pci_in_data w k d : supported_size w = true → 0 ≤ k → k + w ≤ 4 → k mod w = 0 → Z.testbit (pci_latch d) 31 = true →
    let x := conf_read w (Z.land (Z.shiftr (pci_latch d) 8) 0xFFFF) (Z.land (pci_latch d) 0xFC + k) (pci_conf d) in
    fst (dev_in w (0xCFC + k) d) = fst x ∧ pci_conf (snd (dev_in w (0xCFC + k) d)) = snd x;
  pci_out_data w k v d : supported_size w = true → 0 ≤ k → k + w ≤ 4 → k mod w = 0 → Z.testbit (pci_latch d) 31 = true →
    pci_conf (dev_out w (0xCFC + k) v d) =
      conf_write w (Z.land (Z.shiftr (pci_latch d) 8) 0xFFFF) (Z.land (pci_latch d) 0xFC + k) v (pci_conf d);
  ecam_read w f r d : access_ok w r → 0 ≤ f < 2 ^ 16 → 0 ≤ r < 4096 →
    let x := conf_read w f r (pci_conf d) in
    fst (dev_read w (ecam + f * 4096 + r) d) = fst x ∧ pci_conf (snd (dev_read w (ecam + f * 4096 + r) d)) = snd x;
  ecam_write w f r v d : access_ok w r → 0 ≤ f < 2 ^ 16 → 0 ≤ r < 4096 →
    pci_conf (dev_write w (ecam + f * 4096 + r) v d) = conf_write w f r v (pci_conf d)
}.

Section access_proofs.
Context `{Profile} {D St : Type} `{!Devices D} `{!PciHost D}.
Context (dev : lens St D) (mcfg : lens St Z) `{!LensOk dev}.
Context (read_volatile : Z → Z → M St Z) (write_volatile : Z → Z → Z → M St unit).

Abbreviation cnf s := (pci_conf (lget dev s)).

(** Only the device changed, and its configuration space to [c]. *)
Definition conf_step (s s' : St) (c : conf) : Prop := ∃ d, s' = lset dev d s ∧ pci_conf d = c.

(** [base] is where the window of the buses in [B] is mapped. *)
Record window (W : St → Prop) (B : Z → Prop) (base : Z) : Prop := {
  win_base : 0 < base ∧ base + 2 ^ 28 ≤ 2 ^ 64;
  win_read s w f r : W s → B (f / 256) → access_ok w r → 0 ≤ f < 2 ^ 16 → 0 ≤ r < 4096 →
    read_volatile w (base + f * 4096 + r) s = dev_get dev (dev_read w (ecam + f * 4096 + r)) s;
  win_write s w f r v : W s → B (f / 256) → access_ok w r → 0 ≤ f < 2 ^ 16 → 0 ≤ r < 4096 →
    write_volatile w (base + f * 4096 + r) v s = dev_put dev (dev_write w (ecam + f * 4096 + r) v) s
}.

Lemma access_sizes w off : access_ok w off → (w = 1 ∨ w = 2 ∨ w = 4) ∧ 0 ≤ off mod 4 ∧ off mod 4 + w ≤ 4 ∧ (off mod 4) mod w = 0.
Proof.
  intros [Hw Hm]. unfold supported_size in Hw. apply orb_true_iff in Hw as [[?|?]%orb_true_iff|?];
    match goal with H : (_ =? _) = true |- _ => apply Z.eqb_eq in H as -> end;
    pose proof (Z.mod_pos_bound off 4 ltac:(lia)); (split; [lia|]); (split; [lia|]).
  - split; [lia|apply Z.mod_1_r].
  - rewrite Z.mod_mod_divide by (by exists 2). split; [|done].
    pose proof (Z.mod_mod_divide off 4 2 ltac:(by exists 2)) as Hmm. rewrite Hm in Hmm.
    assert (off mod 4 ≠ 3) by (intros E; by rewrite E in Hmm). lia.
  - rewrite Hm. split; [lia|done].
Qed.

Lemma data_port_spec off s (Q : Z → St → Prop) : 0 ≤ off → Q (0xCFC + off mod 4) s → wp (data_port off) s Q.
Proof.
  intros Ho HQ. unfold data_port. assert (Z.land (u16_of off) 3 = off mod 4) as ->.
  { unfold u16_of. change 3 with (Z.ones 2). change 4 with (2 ^ 2).
    rewrite <- !Z.land_ones, <- Z.land_assoc by lia. done. }
  pose proof (Z.mod_pos_bound off 4 ltac:(lia)). apply wp_uint_arith; [lia|done].
Qed.

(** Through the ports. *)
Lemma pci_read_ports w a off s :
  lget mcfg s = 0 → pci_valid a → access_ok w off → 0 ≤ off < 256 →
  wp (pci_read dev mcfg read_volatile w a off) s (λ v s',
    v = fst (conf_read w (bdf a) off (cnf s)) ∧ conf_step s s' (snd (conf_read w (bdf a) off (cnf s)))).
Proof.
  intros Hm Ha Hok Ho. unfold pci_read. apply wp_bind, wp_assert; [apply Hok|].
  apply wp_bind, wp_gets. rewrite Hm. cbn [Z.eqb negb].
  destruct (access_sizes w off Hok) as (Hw & Hk0 & Hk & Hkm). destruct (io_address_fields a off Ha) as (H31 & Hf & Hr & _).
  apply wp_bind, wp_dev_put. set (d1 := dev_out _ _ _ _). destruct (pci_select (io_address a off) (lget dev s)) as [Hl Hc].
  fold d1 in Hl, Hc. apply wp_bind, data_port_spec; [lia|].
  pose proof (pci_in_data w (off mod 4) d1 (proj1 Hok) Hk0 Hk Hkm) as Hin. rewrite Hl, Hf, Hr, Hc in Hin.
  rewrite (Z.mod_small off 256) in Hin by lia. replace (off - off mod 4 + off mod 4) with off in Hin by lia.
  specialize (Hin H31). set (x := conf_read w (bdf a) off (cnf s)) in *.
  assert (wp (if w =? 1 then inb dev (0xCFC + off mod 4) else if w =? 2 then inw dev (0xCFC + off mod 4)
              else inl dev (0xCFC + off mod 4)) (lset dev d1 s)
    (λ v s', v = fst x ∧ conf_step s s' (snd x))) as Hwp.
  { destruct Hw as [->|[->| ->]]; cbn [Z.eqb Pos.eqb]; apply wp_dev_get; rewrite lens_get_set, lens_set_set;
      (split; [apply Hin|]); eexists; (split; [done|apply Hin]). }
  eapply wp_seq; [exact Hwp|]. cbv beta. intros v s' [-> Hs]. eapply wp_unwrap; [|done].
  pose proof (conf_read_range w (bdf a) off (cnf s) (proj1 Hok)) as Hrange. fold x in Hrange.
  destruct (Z.ltb_spec (fst x) (2 ^ (8 * w))); [done|lia].
Qed.

Lemma pci_write_ports w a off v s :
  lget mcfg s = 0 → pci_valid a → access_ok w off → 0 ≤ off < 256 → 0 ≤ v < 2 ^ (8 * w) →
  wp (pci_write dev mcfg write_volatile w a off v) s (λ _ s',
    conf_step s s' (conf_write w (bdf a) off v (cnf s))).
Proof.
  intros Hm Ha Hok Ho Hv. unfold pci_write. apply wp_bind, wp_assert; [apply Hok|].
  apply wp_bind, wp_gets. rewrite Hm. cbn [Z.eqb negb].
  destruct (access_sizes w off Hok) as (Hw & Hk0 & Hk & Hkm). destruct (io_address_fields a off Ha) as (H31 & Hf & Hr & _).
  apply wp_bind, wp_dev_put. set (d1 := dev_out _ _ _ _). destruct (pci_select (io_address a off) (lget dev s)) as [Hl Hc].
  fold d1 in Hl, Hc. apply wp_bind, data_port_spec; [lia|].
  pose proof (pci_out_data w (off mod 4) v d1 (proj1 Hok) Hk0 Hk Hkm) as Hout. rewrite Hl, Hf, Hr, Hc in Hout.
  rewrite (Z.mod_small off 256) in Hout by lia. replace (off - off mod 4 + off mod 4) with off in Hout by lia.
  specialize (Hout H31). unfold u8_of, u16_of.
  destruct Hw as [->|[->| ->]]; cbn [Z.eqb Pos.eqb]; rewrite ?(Z.mod_small v) by lia; apply wp_dev_put;
    rewrite lens_get_set, lens_set_set; eexists; (split; [done|exact Hout]).
Qed.

(** Through memory. *)
Lemma mmio_address_spec a off base s (Q : Z → St → Prop) :
  0 < base → base + 2 ^ 28 ≤ 2 ^ 64 → pci_valid a → 0 ≤ off < 4096 →
  Q (base + bdf a * 4096 + off) s → wp (mmio_address a off base) s Q.
Proof.
  intros Hb0 Hb (Hbus & Hd & Hf) Ho HQ. unfold mmio_address. rewrite !u64_shl_mul by lia.
  apply wp_bind, wp_u64_add; [unfold u64_range; lia|]. apply wp_bind, wp_u64_add; [unfold u64_range; lia|].
  apply wp_bind, wp_u64_add; [unfold u64_range; lia|]. apply wp_u64_add; [unfold u64_range; lia|].
  by replace (base + bus a * 2 ^ 20 + device a * 2 ^ 15 + function a * 2 ^ 12 + off)
    with (base + bdf a * 4096 + off) by (unfold bdf; lia).
Qed.

Lemma bdf_bus a : pci_valid a → 0 ≤ bdf a < 2 ^ 16 ∧ bdf a / 256 = bus a.
Proof.
  intros (Hb & Hd & Hf). unfold bdf. split; [lia|]. symmetry.
  apply (Z.div_unique _ _ _ (device a * 8 + function a)); [left|]; lia.
Qed.

Lemma pci_read_window W B base w a off s :
  window W B base → W s → B (bus a) → lget mcfg s = base → pci_valid a → access_ok w off → 0 ≤ off < 4096 →
  wp (pci_read dev mcfg read_volatile w a off) s (λ v s',
    v = fst (conf_read w (bdf a) off (cnf s)) ∧ conf_step s s' (snd (conf_read w (bdf a) off (cnf s)))).
Proof.
  intros [[Hb0 Hb] Hread _] HW HB Hm Ha Hok Ho. unfold pci_read. apply wp_bind, wp_assert; [apply Hok|].
  apply wp_bind, wp_gets. rewrite Hm. destruct (Z.eqb_spec base 0) as [|_]; [lia|]. cbn [negb].
  apply wp_bind, mmio_address_spec; [done..|]. destruct (bdf_bus a Ha) as [Hbdf Hbus].
  unfold wp. rewrite Hread by (done || by rewrite Hbus). apply wp_dev_get.
  pose proof (ecam_read w (bdf a) off (lget dev s) Hok Hbdf Ho) as [Hv Hc]. split; [done|]. by eexists.
Qed.

Lemma pci_write_window W B base w a off v s :
  window W B base → W s → B (bus a) → lget mcfg s = base → pci_valid a → access_ok w off → 0 ≤ off < 4096 →
  wp (pci_write dev mcfg write_volatile w a off v) s (λ _ s',
    conf_step s s' (conf_write w (bdf a) off v (cnf s))).
Proof.
  intros [[Hb0 Hb] _ Hwrite] HW HB Hm Ha Hok Ho. unfold pci_write. apply wp_bind, wp_assert; [apply Hok|].
  apply wp_bind, wp_gets. rewrite Hm. destruct (Z.eqb_spec base 0) as [|_]; [lia|]. cbn [negb].
  apply wp_bind, mmio_address_spec; [done..|]. destruct (bdf_bus a Ha) as [Hbdf Hbus].
  unfold wp. rewrite Hwrite by (done || by rewrite Hbus). apply wp_dev_put.
  eexists. split; [done|]. by apply ecam_write.
Qed.
End access_proofs.
