(* ===== verification/Idt.v ===== *)
(** * Idt: interrupts and their handlers ([src/kernel/src/idt.rs])

    Every interrupt arrives at [isr_handler], which treats the processor's own
    exceptions itself and hands the others to the handler installed for the
    vector.  Each of the 256 slots has a spin lock of its own, which is held while
    the handler runs.  [init] builds the descriptor table and loads it.

    Handlers are boxed closures: [Fn] is their type and [run_handler] what calling
    one does, to the frame, to its captured variables and to the state.  The
    descriptor encodings belong to the [x86] crate; a gate is the record of what
    its builder was told, and [finish] encodes it. *)

From S2P Require Import Prelude Locks Devices.

Record InterruptFrame := mkFrame {
  r15 : Z; r14 : Z; r13 : Z; r12 : Z; r11 : Z; r10 : Z; r9 : Z; r8 : Z;
  rbp : Z; rdi : Z; rsi : Z; rdx : Z; rcx : Z; rbx : Z; rax : Z;
  vector : Z; error_code : Z;
  rip : Z; cs : Z; rflags : Z; rsp : Z; ss : Z
}.

(** [Mutex<SpinLock, Option<Handler>>]; a handler has the address of its box. *)
Record Slot (Fn : Type) := mkSlot { slot_raw : SpinLock; slot_handler : option (Z * Fn) }.
Arguments mkSlot {Fn} slot_raw slot_handler.
Arguments slot_raw {Fn} s : rename.
Arguments slot_handler {Fn} s : rename.

Definition Slot_INIT {Fn : Type} : Slot Fn := mkSlot SpinLock_INIT None.

(** [static HANDLERS] *)
Definition HANDLERS_INIT {Fn : Type} : list (Slot Fn) := replicate 256 Slot_INIT.

(** What [interrupt_descriptor(selector, offset).dpl(..).ist(..).present()] was
    told. *)
Record Gate := mkGate {
  gate_selector : SegmentSelector;
  gate_offset : Z;
  gate_dpl : Ring;
  gate_ist : Z;
  gate_present : bool
}.

Definition DOUBLE_FAULT_IST : Z := 1.

(** The encodings of the [x86] crate. *)
Class X86Idt := {
  Descriptor64 : Type;
  Descriptor64_NULL : Descriptor64;
  finish : Gate → Descriptor64;
  (** [Dr6::from_bits_truncate] *)
  Dr6_from_bits_truncate : Z → Z
}.

(** The size of a [Descriptor64]. *)
Definition DESCRIPTOR64_SIZE : Z := 16.

Section idt.
Context `{!X86Idt} {D St Fn : Type} `{!Devices D}.
Context (cpu : lens St bool) (dev : lens St D) (handlers : lens St (list (Slot Fn))).
Context (IDT : lens St (Mutex (option (list Descriptor64)))).
Context (run_handler : Fn → InterruptFrame → M St (InterruptFrame * Fn)).
(** [Box::new] of a closure, and dropping the box. *)
Context (box_new : Fn → M St Z) (box_drop : Z → Fn → M St unit).

(** Entry [v] of [HANDLERS], as a place. *)
Definition slot_at (v : Z) : lens St (Slot Fn) :=
  mkLens (λ s, nth (Z.to_nat v) (lget handlers s) Slot_INIT)
         (λ x s, lset handlers (<[Z.to_nat v := x]> (lget handlers s)) s).

Definition slot_raw_at (v : Z) : lens St SpinLock :=
  mkLens (λ s, slot_raw (lget (slot_at v) s))
         (λ r s, lset (slot_at v) (mkSlot r (slot_handler (lget (slot_at v) s))) s).

Definition set_slot (v : Z) (h : option (Z * Fn)) : M St unit :=
  modify (λ s, lset (slot_at v) (mkSlot (slot_raw (lget (slot_at v) s)) h) s).

(** [HANDLERS[v].lock()], the body, and the guard's end.  The index is checked; a
    lock that is held is never released on the same processor. *)
Definition with_slot {A : Type} (v : Z) (body : M St A) : M St A :=
  let! l := gets (lget handlers) in
  do! index l v;
  do! spin_lock 1 [] (slot_raw_at v);
  let! r := body in
  do! spin_unlock (slot_raw_at v);
  ret r.

(** The [_] arm of [isr_handler]. *)
Definition dispatch (vec : Z) (frame : InterruptFrame) : M St InterruptFrame :=
  with_slot vec (
    let! slot := gets (lget (slot_at vec)) in
    match slot_handler slot with
    | Some (b, handler) =>
        let! r := run_handler handler frame in
        do! set_slot vec (Some (b, snd r));
        ret (fst r)
    | None => ret frame
    end).

Definition isr_handler (frame : InterruptFrame) : M St InterruptFrame :=
  let vec := vector frame in
  if vec =? 1 then do! sys dev (Dr6Write (Dr6_from_bits_truncate 0xFFFF0FF0)); ret frame
  else if vec =? 2 then ret frame
  else if vec =? 3 then ret frame
  else if vec =? 14 then panic "page fault"
  else if (vec =? 0) || ((4 <=? vec) && (vec <? 32)) then panic "exception"
  else if vec =? 0x80 then ret frame
  else dispatch vec frame.

Definition is_handler_installed (vector : Z) : M St bool :=
  with_slot vector (gets (λ s, match slot_handler (lget (slot_at vector) s) with Some _ => true | None => false end)).

(** Assigning to the slot drops what it held. *)
Definition replace_handler (vector : Z) (new : option (Z * Fn)) : M St unit :=
  with_slot vector (
    let! slot := gets (lget (slot_at vector)) in
    do! match slot_handler slot with Some (b, h) => box_drop b h | None => ret tt end;
    set_slot vector new).

Definition install_handler (vector : Z) (handler : Fn) : M St unit :=
  let! b := box_new handler in
  replace_handler vector (Some (b, handler)).

Definition clear_handler (vector : Z) : M St unit := replace_handler vector None.

(** [isr_table[i]] of [isr.S] and the address of the table. *)
Context (isr_table : list Z) (idt_address : Z).

Definition gate_for (i : nat) (target : Z) : Gate :=
  mkGate (mkSelector 1 Ring0) target
    (if (i =? 0x80)%nat then Ring3 else Ring0)
    (if (i =? 8)%nat then DOUBLE_FAULT_IST else 0)
    true.

(** The loop of [init], from [i] on. *)
Fixpoint build_idt (n i : nat) (idt : list Descriptor64) : M St (list Descriptor64) :=
  match n with
  | O => ret idt
  | S n' =>
      let! target := index isr_table (Z.of_nat i) in
      build_idt n' (S i) (<[i := finish (gate_for i target)]> idt)
  end.

Definition idt_init : M St unit :=
  let! idt := build_idt 256 0 (replicate 256 Descriptor64_NULL) in
  do! singleton_install cpu IDT idt;
  let! idt_ptr := singleton_with cpu IDT (λ idt,
    ret ((idt_address, DESCRIPTOR64_SIZE * Z.of_nat (length idt) - 1), idt)) in
  sys dev (Lidt (fst idt_ptr) (snd idt_ptr)).

End idt.
