(* ===== verification/IdtSpec.v ===== *)
(** * IdtSpec: what the interrupt handlers promise

    The behaviour of [isr_handler] on every vector, of installing, looking up and
    clearing handlers, and the price of holding a slot's lock while its handler
    runs ([src/kernel/src/idt.rs]). *)

From S2P Require Import Prelude Locks Devices Idt.

Section slots.
Context `{!X86Idt} {D St Fn : Type} `{!Devices D}.
Context (dev : lens St D) (handlers : lens St (list (Slot Fn))) `{!LensOk handlers}.

Abbreviation hs s := (lget handlers s).

(** Slot [v] replaced. *)
Definition put_slot (v : Z) (x : Slot Fn) (s : St) : St := lset handlers (<[Z.to_nat v := x]> (hs s)) s.

Lemma slot_at_lookup v x s : hs s !! Z.to_nat v = Some x → lget (slot_at handlers v) s = x.
Proof. intros Hx. simpl. by apply nth_lookup_Some. Qed.

Lemma put_slot_lookup v x s : (Z.to_nat v < length (hs s))%nat → hs (put_slot v x s) !! Z.to_nat v = Some x.
Proof. intros Hv. unfold put_slot. rewrite lens_get_set. by apply list_lookup_insert_eq. Qed.

Lemma put_slot_other v x s j : j ≠ Z.to_nat v → hs (put_slot v x s) !! j = hs s !! j.
Proof. intros Hj. unfold put_slot. rewrite lens_get_set. by apply list_lookup_insert_ne. Qed.

Lemma put_slot_length v x s : length (hs (put_slot v x s)) = length (hs s).
Proof. unfold put_slot. rewrite lens_get_set. apply length_insert. Qed.

Lemma put_slot_put v x y s : put_slot v x (put_slot v y s) = put_slot v x s.
Proof. unfold put_slot. by rewrite lens_get_set, lens_set_set, list_insert_insert_eq. Qed.

Lemma put_slot_same v x s : hs s !! Z.to_nat v = Some x → put_slot v x s = s.
Proof. intros Hx. unfold put_slot. by rewrite list_insert_id, lens_set_get. Qed.

Definition locked (o : option (Z * Fn)) : Slot Fn := mkSlot (mkSpinLock true) o.
Definition unlocked (o : option (Z * Fn)) : Slot Fn := mkSlot (mkSpinLock false) o.

Lemma slot_lock_free v o s :
  hs s !! Z.to_nat v = Some (unlocked o) →
  spin_lock 1 [] (slot_raw_at handlers v) s = Ok (tt, put_slot v (locked o) s).
Proof.
  intros Hv. cbn [spin_lock]. unfold spin_exchange_weak, bind, gets, modify, ret.
  change (lget (slot_raw_at handlers v) s) with (slot_raw (lget (slot_at handlers v) s)).
  rewrite (slot_at_lookup v _ s Hv). cbn [slot_raw unlocked sl_locked orb].
  change (lset (slot_raw_at handlers v) (mkSpinLock true) s) with
    (put_slot v (mkSlot (mkSpinLock true) (slot_handler (lget (slot_at handlers v) s))) s).
  by rewrite (slot_at_lookup v _ s Hv).
Qed.

(** A guarded access to a free slot: the body sees the slot locked, and whatever
    it leaves in it stays. *)
Lemma wp_with_slot {A : Type} v o (body : M St A) s (Q : A → St → Prop) :
  hs s !! Z.to_nat v = Some (unlocked o) →
  wp body (put_slot v (locked o) s) (λ a s', ∃ x, hs s' !! Z.to_nat v = Some x ∧
    Q a (put_slot v (unlocked (slot_handler x)) s')) →
  wp (with_slot handlers v body) s Q.
Proof.
  intros Hv Hbody. unfold with_slot. apply wp_bind, wp_gets. apply wp_bind. eapply wp_index; [exact Hv|].
  apply wp_bind. unfold wp at 1. rewrite (slot_lock_free v o s Hv). eapply wp_seq; [exact Hbody|].
  cbv beta. intros a s' (x & Hx & HQ). apply wp_bind, wp_modify, wp_ret.
  change (lset (slot_raw_at handlers v) (mkSpinLock false) s') with
    (put_slot v (mkSlot (mkSpinLock false) (slot_handler (lget (slot_at handlers v) s'))) s').
  by rewrite (slot_at_lookup v x s' Hx).
Qed.

(** A slot whose lock is held. *)
Lemma with_slot_held {A : Type} v x (body : M St A) s :
  hs s !! Z.to_nat v = Some x → sl_locked (slot_raw x) = true → with_slot handlers v body s = NoFuel.
Proof.
  intros Hv Hl. unfold with_slot, bind at 1, gets at 1. unfold bind at 1, index, unwrap. rewrite Hv.
  unfold ret at 1, bind at 1. cbn [spin_lock]. unfold spin_exchange_weak, bind, gets.
  change (lget (slot_raw_at handlers v) s) with (slot_raw (lget (slot_at handlers v) s)).
  by rewrite (slot_at_lookup v _ s Hv), Hl.
Qed.

Lemma set_slot_put v o x s : hs s !! Z.to_nat v = Some x →
  set_slot handlers v o s = Ok (tt, put_slot v (mkSlot (slot_raw x) o) s).
Proof. intros Hx. unfold set_slot, modify. by rewrite (slot_at_lookup v x s Hx). Qed.

Lemma is_installed_run v o s :
  hs s !! Z.to_nat v = Some (unlocked o) →
  is_handler_installed handlers v s = Ok (match o with Some _ => true | None => false end, s).
Proof.
  intros Hx.
  destruct (proj1 (wp_ok (is_handler_installed handlers v) s (λ r s', r = match o with Some _ => true | None => false end
    ∧ s' = s))) as (r & s' & Heq & -> & ->); [|done].
  eapply wp_with_slot; [exact Hx|]. pose proof (lookup_lt_Some _ _ _ Hx). apply wp_gets.
  rewrite (slot_at_lookup v (locked o)) by (by apply put_slot_lookup).
  exists (locked o). split; [by apply put_slot_lookup|]. split; [done|]. rewrite put_slot_put. by apply put_slot_same.
Qed.

Context (run_handler : Fn → InterruptFrame → M St (InterruptFrame * Fn)).

(** How [isr_handler] treats a vector. *)
Inductive vector_class := DebugTrap | Ignored | Fatal | Handled.

Definition classify (v : Z) : vector_class :=
  if v =? 1 then DebugTrap
  else if (v =? 2) || (v =? 3) || (v =? 0x80) then Ignored
  else if v <? 32 then Fatal
  else Handled.

Lemma isr_handler_class frame :
  0 ≤ vector frame →
  isr_handler dev handlers run_handler frame =
    match classify (vector frame) with
    | DebugTrap => do! sys dev (Dr6Write (Dr6_from_bits_truncate 0xFFFF0FF0)); ret frame
    | Ignored => ret frame
    | Fatal => if vector frame =? 14 then panic "page fault" else panic "exception"
    | Handled => dispatch handlers run_handler (vector frame) frame
    end.
Proof.
  intros Hv. unfold isr_handler, classify. set (v := vector frame) in *.
  destruct (Z.eqb_spec v 1), (Z.eqb_spec v 2), (Z.eqb_spec v 3), (Z.eqb_spec v 14), (Z.eqb_spec v 0),
    (Z.eqb_spec v 0x80), (Z.ltb_spec v 32), (Z.leb_spec 4 v); try lia; done.
Qed.

Lemma dispatch_none v frame s :
  hs s !! Z.to_nat v = Some (unlocked None) → dispatch handlers run_handler v frame s = Ok (frame, s).
Proof.
  intros Hv. destruct (proj1 (wp_ok (dispatch handlers run_handler v frame) s (λ r s', r = frame ∧ s' = s)))
    as (r & s' & Heq & -> & ->); [|done].
  eapply wp_with_slot; [exact Hv|]. pose proof (lookup_lt_Some _ _ _ Hv) as Hlt.
  apply wp_bind, wp_gets. rewrite (slot_at_lookup v (locked None)) by (by apply put_slot_lookup).
  apply wp_ret. exists (locked None). split; [by apply put_slot_lookup|]. split; [done|].
  rewrite put_slot_put. by apply put_slot_same.
Qed.

Lemma dispatch_some v b h frame frame' h' s s' :
  hs s !! Z.to_nat v = Some (unlocked (Some (b, h))) →
  run_handler h frame (put_slot v (locked (Some (b, h))) s) = Ok ((frame', h'), s') →
  hs s' !! Z.to_nat v = Some (locked (Some (b, h))) →
  dispatch handlers run_handler v frame s = Ok (frame', put_slot v (unlocked (Some (b, h'))) s').
Proof.
  intros Hv Hrun Hkeep.
  destruct (proj1 (wp_ok (dispatch handlers run_handler v frame) s (λ r t, r = frame' ∧
    t = put_slot v (unlocked (Some (b, h'))) s'))) as (r & t & Heq & -> & ->); [|done].
  eapply wp_with_slot; [exact Hv|]. pose proof (lookup_lt_Some _ _ _ Hv) as Hlt.
  pose proof (lookup_lt_Some _ _ _ Hkeep) as Hlt'.
  apply wp_bind, wp_gets. rewrite (slot_at_lookup v (locked (Some (b, h)))) by (by apply put_slot_lookup).
  cbn [slot_handler locked]. apply wp_bind. unfold wp at 1. rewrite Hrun.
  apply wp_bind. unfold wp at 1. rewrite (set_slot_put v _ _ s' Hkeep). apply wp_ret.
  eexists. split; [by apply put_slot_lookup|]. split; [done|]. by rewrite put_slot_put.
Qed.

(** C21: [isr_handler] on every vector.  A debug trap clears the debug status
    register; the non-maskable interrupt, a breakpoint and a system call return
    with nothing changed; every other exception of the processor panics, and so
    does a vector past the table.  A vector from 32 on runs the handler installed
    for it, once, with the slot locked, and returns the frame the handler leaves;
    the slot then holds the handler with its captured variables as it left them,
    unlocked.  Without a handler nothing changes. *)
Theorem isr_handler_correct frame s :
  0 ≤ vector frame →
  let v := vector frame in
  match classify v with
  | DebugTrap => isr_handler dev handlers run_handler frame s =
      Ok (frame, lset dev (dev_sys (Dr6Write (Dr6_from_bits_truncate 0xFFFF0FF0)) (lget dev s)) s)
  | Ignored => isr_handler dev handlers run_handler frame s = Ok (frame, s)
  | Fatal => panics (isr_handler dev handlers run_handler frame) s
  | Handled =>
      match hs s !! Z.to_nat v with
      | None => panics (isr_handler dev handlers run_handler frame) s
      | Some x =>
          sl_locked (slot_raw x) = false →
          match slot_handler x with
          | None => isr_handler dev handlers run_handler frame s = Ok (frame, s)
          | Some (b, h) => ∀ frame' h' s',
              run_handler h frame (put_slot v (locked (Some (b, h))) s) = Ok ((frame', h'), s') →
              hs s' !! Z.to_nat v = Some (locked (Some (b, h))) →
              isr_handler dev handlers run_handler frame s = Ok (frame', put_slot v (unlocked (Some (b, h'))) s')
          end
      end
  end.
Proof.
  intros Hv v. rewrite isr_handler_class by done. fold v. destruct (classify v); [done|done|..].
  - destruct (v =? 14); by eexists.
  - destruct (hs s !! Z.to_nat v) as [[[l] o]|] eqn:Hx.
    + cbn [slot_raw sl_locked slot_handler]. intros ->. destruct o as [[b h]|].
      * intros frame' h' s' Hrun Hkeep. by eapply dispatch_some.
      * by apply dispatch_none.
    + unfold dispatch, with_slot. apply panics_gets, panics_bind_l. unfold index. rewrite Hx. by eexists.
Qed.

(** A slot cannot be touched while its handler runs.  With the lock of slot
    [v] held, as it is during the handler, an interrupt on the vector, a look-up,
    an installation (after its box was made) and a removal never return; the other
    slots are not concerned. *)
Theorem slot_not_reentrant (box_drop : Z → Fn → M St unit) v o frame b s :
  classify v = Handled → vector frame = v → hs s !! Z.to_nat v = Some (locked o) →
  isr_handler dev handlers run_handler frame s = NoFuel ∧
  is_handler_installed handlers v s = NoFuel ∧
  replace_handler handlers box_drop v b s = NoFuel ∧
  clear_handler handlers box_drop v s = NoFuel ∧
  ∀ v' o', hs s !! Z.to_nat v' = Some (unlocked o') →
    is_handler_installed handlers v' s = Ok (match o' with Some _ => true | None => false end, s).
Proof.
  intros Hc Hf Hv. assert (0 ≤ v) as Hv0.
  { unfold classify in Hc. destruct (Z.ltb_spec v 32); [|lia]. by repeat case_match. }
  split_and!; [rewrite isr_handler_class, Hf, Hc by lia| | | |]; try (by eapply with_slot_held).
  intros v' o' Hx. by apply is_installed_run.
Qed.

(** ** Installing and clearing *)
Context (box_new : Fn → M St Z) (box_drop : Z → Fn → M St unit).

(** Replacing what a slot holds, when the drop leaves the slots alone. *)
Lemma replace_run v o new s s' :
  hs s !! Z.to_nat v = Some (unlocked o) →
  match o with
  | Some (b, h) => box_drop b h (put_slot v (locked o) s) = Ok (tt, s')
  | None => s' = put_slot v (locked o) s
  end → hs s' !! Z.to_nat v = Some (locked o) →
  replace_handler handlers box_drop v new s = Ok (tt, put_slot v (unlocked new) s').
Proof.
  intros Hx Hdrop Hkeep.
  destruct (proj1 (wp_ok (replace_handler handlers box_drop v new) s (λ _ t, t = put_slot v (unlocked new) s')))
    as ([] & t & Heq & ->); [|done].
  eapply wp_with_slot; [exact Hx|]. pose proof (lookup_lt_Some _ _ _ Hx) as Hlt.
  pose proof (lookup_lt_Some _ _ _ Hkeep) as Hlt'.
  apply wp_bind, wp_gets. rewrite (slot_at_lookup v (locked o)) by (by apply put_slot_lookup).
  apply wp_bind. cbn [slot_handler locked].
  assert (wp (match o with Some (b, h) => box_drop b h | None => ret tt end) (put_slot v (locked o) s)
    (λ _ t, t = s')) as Hw.
  { destruct o as [[b h]|]; unfold wp; [by rewrite Hdrop|]. by rewrite Hdrop. }
  eapply wp_mono; [exact Hw|]. cbv beta. intros [] t ->. unfold wp. rewrite (set_slot_put v _ _ s' Hkeep).
  eexists. split; [by apply put_slot_lookup|]. by rewrite put_slot_put.
Qed.

(** A handler that was installed is found, and is gone once cleared.  On an
    empty, free slot: after [install_handler] the vector has a handler, the one
    installed, and no other slot changed; [clear_handler] drops it, with the slot
    locked meanwhile, and the vector has none. *)
Theorem install_clear_correct v h b s s1 s2 :
  hs s1 !! Z.to_nat v = Some (unlocked None) →
  box_new h s = Ok (b, s1) →
  box_drop b h (put_slot v (locked (Some (b, h))) s1) = Ok (tt, put_slot v (locked (Some (b, h))) s2) →
  hs s2 = hs s1 →
  ∃ s', install_handler handlers box_new box_drop v h s = Ok (tt, s') ∧
    is_handler_installed handlers v s' = Ok (true, s') ∧
    hs s' = <[Z.to_nat v := unlocked (Some (b, h))]> (hs s1) ∧
    ∃ s'', clear_handler handlers box_drop v s' = Ok (tt, s'') ∧
      is_handler_installed handlers v s'' = Ok (false, s'') ∧ s'' = s2.
Proof.
  intros Hx Hnew Hdrop Hs2. pose proof (lookup_lt_Some _ _ _ Hx) as Hlt.
  set (s' := put_slot v (unlocked (Some (b, h))) s1).
  assert (hs s' !! Z.to_nat v = Some (unlocked (Some (b, h)))) as Hx' by (by apply put_slot_lookup).
  exists s'. split_and!; [|by apply (is_installed_run v _ s' Hx')|unfold s', put_slot; by rewrite lens_get_set|].
  - unfold install_handler, bind. rewrite Hnew. unfold s'.
    rewrite (replace_run v None _ s1 (put_slot v (locked None) s1)); [by rewrite put_slot_put|done|done|by apply put_slot_lookup].
  - exists s2. split_and!; [|apply (is_installed_run v None); by rewrite Hs2|done].
    unfold clear_handler. rewrite (replace_run v (Some (b, h)) None s' (put_slot v (locked (Some (b, h))) s2)).
    + rewrite put_slot_put, put_slot_same; [done|by rewrite Hs2].
    + done.
    + unfold s'. by rewrite put_slot_put.
    + apply put_slot_lookup. by rewrite Hs2.
Qed.
End slots.
