(* ===== verification/Gdt.v ===== *)
(** * Gdt: segments and the task state ([src/kernel/src/gdt.rs])

    [init] fills the global descriptor table and the task state segment, loads
    them and reloads the segment registers.  The descriptor encodings belong to
    the [x86] crate: a descriptor is the record of what its builder was told, and
    [finish_segment] and [finish_tss] encode it. *)

From S2P Require Import Prelude Locks Devices Idt.

Inductive segment_kind := CodeExecuteRead | DataReadWrite.

(** What [code_descriptor] or [data_descriptor], [present], [dpl], [l], [db] and
    [limit_granularity_4kb] were told. *)
Record Segment := mkSegment {
  seg_kind : segment_kind;
  seg_base : Z;
  seg_limit : Z;
  seg_present : bool;
  seg_dpl : Ring;
  seg_long : bool;
  seg_32bit : bool;
  seg_pages : bool
}.

(** What [tss_descriptor(base, limit, available)] was told. *)
Record TssSegment := mkTssSegment {
  tss_base : Z;
  tss_limit : Z;
  tss_available : bool;
  tss_present : bool;
  tss_dpl : Ring
}.

(** The fields of [TaskStateSegment] that [init] sets; the others are zero. *)
Record TaskStateSegment := mkTSS { tss_ist : list Z; iomap_base : Z }.

Definition TaskStateSegment_default : TaskStateSegment := mkTSS (replicate 7 0) 0.

(** [set_ist(index, stack)]; the index is checked. *)
Definition set_ist {St : Type} (i stack : Z) (t : TaskStateSegment) : M St TaskStateSegment :=
  do! index (tss_ist t) i;
  ret (mkTSS (<[Z.to_nat i := stack]> (tss_ist t)) (iomap_base t)).

Class X86Gdt := {
  Descriptor : Type;
  TssDescriptor : Type;
  Descriptor_NULL : Descriptor;
  finish_segment : Segment → Descriptor;
  finish_tss : TssSegment → TssDescriptor;
  (** [size_of::<TaskStateSegment>()] *)
  TSS_SIZE : Z
}.

Section gdt.
Context `{Profile} `{!X86Gdt} {D St : Type} `{!Devices D}.

Record GlobalDescriptorTable := mkGdt {
  null : Descriptor;
  kernel_code : Descriptor;
  kernel_data : Descriptor;
  user_code_32bit : Descriptor;
  user_data : Descriptor;
  user_code : Descriptor;
  tss : TssDescriptor
}.

(** Five descriptors and a null one of 8 bytes, and one of 16. *)
Definition GDT_SIZE : Z := 6 * 8 + 16.

Definition IST_STACK_SIZE : Z := 4096 * 4.

Context (cpu : lens St bool) (dev : lens St D).
Context (GDT : lens St (Mutex (option GlobalDescriptorTable))).
Context (TSS : lens St (Mutex (option TaskStateSegment))).
(** The addresses of [DOUBLE_FAULT_STACK] and of the two statics' values. *)
Context (stack_bottom tss_address gdt_address : Z).

Definition kernel_code_segment : Segment := mkSegment CodeExecuteRead 0 0xFFFFF true Ring0 true false true.
Definition kernel_data_segment : Segment := mkSegment DataReadWrite 0 0xFFFFF true Ring0 false false true.
Definition user_code_32bit_segment : Segment := mkSegment CodeExecuteRead 0 0xFFFFF true Ring3 false true true.
Definition user_code_segment : Segment := mkSegment CodeExecuteRead 0 0xFFFFF true Ring3 true false true.
Definition user_data_segment : Segment := mkSegment DataReadWrite 0 0xFFFFF true Ring3 false false true.

Definition gdt_init : M St unit :=
  let! stack_top := u64_add stack_bottom IST_STACK_SIZE in
  let! t := set_ist 0 stack_top TaskStateSegment_default in
  let t := mkTSS (tss_ist t) (u16_of TSS_SIZE) in
  do! singleton_install cpu TSS t;
  let! tss_descriptor := singleton_with cpu TSS (λ t,
    let! limit := u64_sub TSS_SIZE 1 in
    ret (finish_tss (mkTssSegment tss_address limit true true Ring0), t)) in
  let gdt := mkGdt Descriptor_NULL (finish_segment kernel_code_segment) (finish_segment kernel_data_segment)
                   (finish_segment user_code_32bit_segment) (finish_segment user_data_segment)
                   (finish_segment user_code_segment) tss_descriptor in
  do! singleton_install cpu GDT gdt;
  let! gdt_ptr := singleton_with cpu GDT (λ g, ret ((gdt_address, GDT_SIZE - 1), g)) in
  do! sys dev (Lgdt (fst gdt_ptr) (snd gdt_ptr));
  do! sys dev (LoadSeg CS (mkSelector 1 Ring0));
  do! sys dev (LoadSeg SS (mkSelector 2 Ring0));
  let null := mkSelector 0 Ring0 in
  do! sys dev (LoadSeg DS null);
  do! sys dev (LoadSeg ES null);
  do! sys dev (LoadSeg FS null);
  do! sys dev (LoadSeg GS null);
  sys dev (LoadTr (mkSelector 6 Ring0)).

End gdt.
