(* ===== verification/BootTables.v ===== *)
(** * BootTables: the descriptor tables at boot

    [gdt::init] and [idt::init] ([src/kernel/src/gdt.rs], [src/kernel/src/idt.rs])
    return with their tables installed once and loaded, the selectors name the
    segments they are meant to, and the two tables agree on the stack a double
    fault runs on. *)

From S2P Require Import Prelude Locks Devices Idt Gdt.

(** ** Singletons that nobody holds *)
Section singletons.
Context {St T : Type} (cpu : lens St bool) (mx : lens St (Mutex (option T))).
Context `{!LensOk cpu} `{!LensOk mx} `{!LensIndep cpu mx}.

Definition installed (v : T) (s : St) : St := lset mx (mkMutex (mkIntLock false (lget cpu s)) (Some v)) s.

Lemma relock_installed v raw s :
  lset cpu (lget cpu s) (lset mx (mkMutex (mkIntLock false (lget cpu s)) (Some v))
    (lset mx (mkMutex raw (Some v)) (lset cpu false s))) = installed v s.
Proof.
  unfold installed. rewrite lens_set_set, (indep_set (l := cpu) (k := mx)), lens_set_set, lens_set_get. done.
Qed.

Lemma wp_install v s (Q : unit → St → Prop) :
  lget mx s = Singleton_new → Q tt (installed v s) → wp (singleton_install cpu mx v) s Q.
Proof.
  intros Hm HQ. apply wp_with_lock; [done..|by rewrite Hm|]. apply wp_bind, wp_gets. lens_simpl cpu mx. rewrite Hm.
  apply wp_bind, wp_assert; [done|]. apply wp_modify. lens_simpl cpu mx. split_and!; [done|done|].
  rewrite (indep_set (l := cpu) (k := mx) false), !lens_set_set.
  by rewrite <- (relock_installed v (mkIntLock true (lget cpu s)) s), lens_set_set in HQ.
Qed.

Lemma wp_with_pure {A : Type} v (f : T → M St (A * T)) a s (Q : A → St → Prop) :
  lget mx s = mkMutex (mkIntLock false (lget cpu s)) (Some v) →
  (∀ s', f v s' = Ok ((a, v), s')) → Q a s → wp (singleton_with cpu mx f) s Q.
Proof.
  intros Hm Hf HQ. apply wp_with_lock; [done..|by rewrite Hm|]. apply wp_bind, wp_gets. lens_simpl cpu mx. rewrite Hm.
  apply wp_bind, wp_ret, wp_bind. unfold wp at 1. rewrite Hf. apply wp_bind, wp_modify, wp_ret.
  lens_simpl cpu mx. split_and!; [done|done|].
  rewrite (indep_set (l := cpu) (k := mx) false), !lens_set_set, (indep_set (l := cpu) (k := mx)).
  rewrite lens_set_set, lens_set_get, <- Hm, lens_set_get. done.
Qed.

Lemma installed_get v s : lget mx (installed v s) = mkMutex (mkIntLock false (lget cpu (installed v s))) (Some v).
Proof. unfold installed. by rewrite lens_get_set, (indep_get_l (l := cpu) (k := mx)). Qed.
End singletons.

(** ** The interrupt descriptor table *)
Section idt_proofs.
Context `{!X86Idt} {D St : Type} `{!Devices D}.
Context (cpu : lens St bool) (dev : lens St D) (IDT : lens St (Mutex (option (list Descriptor64)))).
Context `{!LensOk cpu} `{!LensOk IDT} `{!LensIndep cpu IDT} `{!LensOk dev} `{!LensIndep IDT dev} `{!LensIndep cpu dev}.
Context (isr_table : list Z) (idt_address : Z).

(** The table [init] is to build. *)
Definition idt_gates : list Gate := imap gate_for isr_table.

Lemma build_idt_spec n i idt s :
  length isr_table = (i + n)%nat → length idt = (i + n)%nat →
  take i idt = take i (finish <$> idt_gates) →
  build_idt (St := St) isr_table n i idt s = Ok (finish <$> idt_gates, s).
Proof.
  revert i idt. induction n as [|n IH]; intros i idt Hl Hi Ht.
  - cbn [build_idt]. unfold ret. rewrite !firstn_all2 in Ht; [by rewrite Ht|..].
    + unfold idt_gates. rewrite length_fmap, length_imap. lia.
    + lia.
  - cbn [build_idt]. destruct (lookup_lt_is_Some_2 isr_table i ltac:(lia)) as [target Htar].
    unfold bind, index, unwrap. rewrite Nat2Z.id, Htar. cbn [ret]. apply IH; [lia|rewrite length_insert; lia|].
    assert ((finish <$> idt_gates) !! i = Some (finish (gate_for i target))) as Hg
      by (unfold idt_gates; by rewrite list_lookup_fmap, list_lookup_imap, Htar).
    rewrite (take_S_r _ _ _ Hg), (take_S_r _ i (finish (gate_for i target))), take_insert_ge by
      (lia || (apply list_lookup_insert_eq; lia)).
    by rewrite Ht.
Qed.

Lemma idt_init_run s :
  length isr_table = 256%nat → lget IDT s = Singleton_new →
  wp (idt_init cpu dev IDT isr_table idt_address) s (λ _ s',
    s' = lset dev (dev_sys (Lidt idt_address (16 * 256 - 1)) (lget dev s)) (installed cpu IDT (finish <$> idt_gates) s)).
Proof.
  intros Hlen Hnone. unfold idt_init. apply wp_bind. unfold wp at 1.
  rewrite build_idt_spec; [|done|by rewrite length_replicate|done].
  apply wp_bind, wp_install; [done|done|done|done|]. set (s1 := installed _ _ _ _).
  apply wp_bind. eapply (wp_with_pure cpu IDT (finish <$> idt_gates) _
    (idt_address, DESCRIPTOR64_SIZE * Z.of_nat (length (finish <$> idt_gates)) - 1)); [apply installed_get; exact _|done|].
  unfold DESCRIPTOR64_SIZE, idt_gates. rewrite length_fmap, length_imap, Hlen. apply wp_dev_put.
  unfold s1, installed. by rewrite (indep_get_r (l := IDT) (k := dev)).
Qed.

(** [idt::init] installs a table of 256 present interrupt gates into the
    kernel's code segment, gate [i] leading to the [i]th stub; only vector [0x80]
    may be raised by user code, and only the double fault, vector 8, switches to
    another stack.  It then loads that table, all of it, and the interrupt flag
    is what it was. *)
Theorem idt_init_correct s :
  length isr_table = 256%nat → lget IDT s = Singleton_new →
  ∃ s', idt_init cpu dev IDT isr_table idt_address s = Ok (tt, s') ∧
    mx_data (lget IDT s') = Some (finish <$> idt_gates) ∧ lget cpu s' = lget cpu s ∧
    lget dev s' = dev_sys (Lidt idt_address (16 * 256 - 1)) (lget dev s) ∧
    ∀ i target, isr_table !! i = Some target → ∃ g, idt_gates !! i = Some g ∧
      gate_offset g = target ∧ gate_selector g = mkSelector 1 Ring0 ∧ gate_present g = true ∧
      (gate_dpl g = Ring3 ↔ i = 0x80%nat) ∧ (gate_ist g ≠ 0 ↔ i = 8%nat).
Proof.
  intros Hlen Hnone. destruct (proj1 (wp_ok _ _ _) (idt_init_run s Hlen Hnone)) as ([] & s' & Heq & ->).
  eexists. split; [exact Heq|].
  rewrite (indep_get_l (l := IDT) (k := dev)), (indep_get_l (l := cpu) (k := dev)), lens_get_set.
  rewrite installed_get by exact _. unfold installed. rewrite (indep_get_l (l := cpu) (k := IDT)).
  split_and!; [done..|]. intros i target Ht. exists (gate_for i target).
  split; [unfold idt_gates; by rewrite list_lookup_imap, Ht|]. unfold gate_for. simpl.
  destruct (Nat.eqb_spec i 8), (Nat.eqb_spec i 0x80); subst; by split_and!; try done; split; intros; try lia.
Qed.
End idt_proofs.

(** ** The global descriptor table *)
Section gdt_proofs.
Context `{Profile} `{!X86Gdt} {D St : Type} `{!Devices D}.
Context (cpu : lens St bool) (dev : lens St D).
Context (GDT : lens St (Mutex (option GlobalDescriptorTable))) (TSS : lens St (Mutex (option TaskStateSegment))).
Context `{!LensOk cpu} `{!LensOk GDT} `{!LensOk TSS} `{!LensOk dev}.
Context `{!LensIndep cpu GDT} `{!LensIndep cpu TSS} `{!LensIndep GDT TSS}.
Context `{!LensIndep GDT dev} `{!LensIndep TSS dev} `{!LensIndep cpu dev}.
Context (stack_bottom tss_address gdt_address : Z).

(** What a selector names: its index counts descriptors of 8 bytes. *)
Definition segment_at (g : GlobalDescriptorTable) (i : Z) : option (Descriptor + TssDescriptor) :=
  [Datatypes.inl (null g); Datatypes.inl (kernel_code g); Datatypes.inl (kernel_data g);
   Datatypes.inl (user_code_32bit g); Datatypes.inl (user_data g);
   Datatypes.inl (user_code g); inr (tss g)] !! Z.to_nat i.

(** The loads, in order. *)
Definition gdt_loads : list sys_write :=
  [Lgdt gdt_address (GDT_SIZE - 1); LoadSeg CS (mkSelector 1 Ring0); LoadSeg SS (mkSelector 2 Ring0);
   LoadSeg DS (mkSelector 0 Ring0); LoadSeg ES (mkSelector 0 Ring0); LoadSeg FS (mkSelector 0 Ring0);
   LoadSeg GS (mkSelector 0 Ring0); LoadTr (mkSelector 6 Ring0)].

Definition boot_tss : TaskStateSegment :=
  mkTSS (<[0%nat := stack_bottom + IST_STACK_SIZE]> (replicate 7 0)) (u16_of TSS_SIZE).

Definition boot_gdt : GlobalDescriptorTable :=
  mkGdt Descriptor_NULL (finish_segment kernel_code_segment) (finish_segment kernel_data_segment)
        (finish_segment user_code_32bit_segment) (finish_segment user_data_segment)
        (finish_segment user_code_segment) (finish_tss (mkTssSegment tss_address (TSS_SIZE - 1) true true Ring0)).

Lemma gdt_init_run s :
  0 ≤ stack_bottom → stack_bottom + IST_STACK_SIZE < 2 ^ 64 → 1 ≤ TSS_SIZE < 2 ^ 64 →
  lget TSS s = Singleton_new → lget GDT s = Singleton_new →
  wp (gdt_init cpu dev GDT TSS stack_bottom tss_address gdt_address) s (λ _ s',
    s' = lset dev (foldl (λ d op, dev_sys op d) (lget dev s) gdt_loads)
           (installed cpu GDT boot_gdt (installed cpu TSS boot_tss s))).
Proof.
  intros Hb0 Hb Hsz Ht Hg. unfold gdt_init. unfold IST_STACK_SIZE in *.
  apply wp_bind, wp_u64_add; [unfold u64_range, IST_STACK_SIZE; lia|].
  apply wp_bind, wp_bind. eapply wp_index; [done|]. apply wp_ret.
  change (mkTSS _ (u16_of TSS_SIZE)) with boot_tss.
  apply wp_bind, wp_install; [done..|]. set (s1 := installed _ _ _ _).
  apply wp_bind. eapply (wp_with_pure cpu TSS boot_tss _ (finish_tss (mkTssSegment tss_address (TSS_SIZE - 1) true true Ring0)));
    [apply installed_get; exact _| |].
  { intros s'. unfold bind, u64_sub, u64_arith. by rewrite in_u64_true by (unfold u64_range; lia). }
  change (mkGdt _ _ _ _ _ _ _) with boot_gdt.
  apply wp_bind, wp_install; [done..| |].
  { unfold s1, installed. by rewrite (indep_get_l (l := GDT) (k := TSS)). }
  apply wp_bind. eapply (wp_with_pure cpu GDT boot_gdt); [apply installed_get; exact _|done|].
  set (s2 := installed cpu GDT boot_gdt s1). cbn [fst snd].
  repeat (apply wp_bind, wp_dev_put). apply wp_dev_put. rewrite !lens_set_set, !lens_get_set.
  assert (lget dev s2 = lget dev s) as ->; [|done].
  unfold s2, s1, installed. by rewrite (indep_get_r (l := GDT) (k := dev)), (indep_get_r (l := TSS) (k := dev)).
Qed.

(** [gdt::init] returns with both structures installed and the processor on
    them.  [CS] names the kernel's 64-bit code segment and [SS] its data segment,
    both of ring 0, the other data registers are null, and the task register names
    the task state; these loads come after the table's, in that order.  User
    segments are of ring 3.  The stack a double fault runs on is the top of the
    16 KiB reserved for it, in the entry that gate 8 of the interrupt table asks
    for. *)
Theorem gdt_init_correct s :
  0 ≤ stack_bottom → stack_bottom + IST_STACK_SIZE < 2 ^ 64 → 1 ≤ TSS_SIZE < 2 ^ 64 →
  lget TSS s = Singleton_new → lget GDT s = Singleton_new →
  ∃ s' g t, gdt_init cpu dev GDT TSS stack_bottom tss_address gdt_address s = Ok (tt, s') ∧
    mx_data (lget GDT s') = Some g ∧ mx_data (lget TSS s') = Some t ∧ lget cpu s' = lget cpu s ∧
    lget dev s' = foldl (λ d op, dev_sys op d) (lget dev s) gdt_loads ∧
    segment_at g 1 = Some (Datatypes.inl (finish_segment (mkSegment CodeExecuteRead 0 0xFFFFF true Ring0 true false true))) ∧
    segment_at g 2 = Some (Datatypes.inl (finish_segment (mkSegment DataReadWrite 0 0xFFFFF true Ring0 false false true))) ∧
    segment_at g 6 = Some (inr (finish_tss (mkTssSegment tss_address (TSS_SIZE - 1) true true Ring0))) ∧
    (∀ i, In i [3; 4; 5] → ∃ seg, segment_at g i = Some (Datatypes.inl (finish_segment seg)) ∧ seg_dpl seg = Ring3) ∧
    tss_ist t !! Z.to_nat (gate_ist (gate_for 8 0) - 1) = Some (stack_bottom + 4096 * 4).
Proof.
  intros Hb0 Hb Hsz Ht Hg.
  destruct (proj1 (wp_ok _ _ _) (gdt_init_run s Hb0 Hb Hsz Ht Hg)) as ([] & s' & Heq & ->).
  eexists _, boot_gdt, boot_tss. split; [exact Heq|].
  assert (∀ d x, lget GDT (lset dev d x) = lget GDT x) as E1 by (intros; apply (indep_get_l (l := GDT) (k := dev))).
  assert (∀ d x, lget TSS (lset dev d x) = lget TSS x) as E2 by (intros; apply (indep_get_l (l := TSS) (k := dev))).
  rewrite E1, E2, (indep_get_l (l := cpu) (k := dev)), !lens_get_set.
  split_and!; try done.
  - by rewrite installed_get by exact _.
  - unfold installed at 1. rewrite (indep_get_r (l := GDT) (k := TSS)). by rewrite installed_get by exact _.
  - unfold installed. by rewrite (indep_get_l (l := cpu) (k := GDT)), (indep_get_l (l := cpu) (k := TSS)).
  - intros i [<-|[<-|[<-|[]]]]; eexists; (split; [reflexivity|done]).
Qed.
End gdt_proofs.
