(* ===== verification/Kernel.v ===== *)
(** * Kernel: the state the device drivers and the ACPI callbacks share

    One record holds what the components keep in statics, next to the machine of
    [FrameAlloc]: the page tables, the heap, the interrupt handlers, the clock, the
    address of configuration space and the devices.  Objects the kernel boxes
    ([Box::new]) get their address from the heap; their contents are kept by
    address in [k_objs].  Device memory is reached through the page tables [CR3]
    points to: an address that does not translate is a page fault, which
    [isr_handler] turns into a panic. *)

From S2P Require Import Prelude Bits Mem Pmm Dll PmmInv PmmList PmmOps PmmSpec.
From S2P Require Import Locks FrameAlloc Heap HeapInv HeapOps HeapLive HeapSpec.
From S2P Require Import Paging Vmm Walk VmmInv VmmOps VmmMap VmmUnmap VmmSpec.
From S2P Require Import Devices Tsc Pci Idt.

(** What [acpi/uacpi.rs] keeps in boxes: [PciAddress], [SpinLock], and
    [SimpleEvent] with its counter. *)
Inductive KObj :=
| OPci (a : PciAddress)
| OLock (l : SpinLock)
| OEvent (counter : Z).

(** [Layout::new::<T>()] of each. *)
Definition layout_of (o : KObj) : Layout :=
  match o with
  | OPci _ => mkLayout 3 1
  | OLock _ => mkLayout 1 1
  | OEvent _ => mkLayout 8 8
  end.

Record Kernel (D Fn : Type) := mkKernel {
  k_vmm : VmmHw;
  k_heap : Heap;
  k_handlers : list (Slot Fn);
  k_tsc : TscState;
  k_mcfg : Z;
  k_objs : gmap Z KObj;
  k_dev : D
}.
Arguments mkKernel {D Fn}.
Arguments k_vmm {D Fn} k : rename.
Arguments k_heap {D Fn} k : rename.
Arguments k_handlers {D Fn} k : rename.
Arguments k_tsc {D Fn} k : rename.
Arguments k_mcfg {D Fn} k : rename.
Arguments k_objs {D Fn} k : rename.
Arguments k_dev {D Fn} k : rename.

Section lenses.
Context {A D Fn : Type}.

Definition kvmm_lens : lens (Kernel D Fn) VmmHw :=
  mkLens k_vmm (λ x k, mkKernel x (k_heap k) (k_handlers k) (k_tsc k) (k_mcfg k) (k_objs k) (k_dev k)).
Definition kheap_lens : lens (Kernel D Fn) Heap :=
  mkLens k_heap (λ x k, mkKernel (k_vmm k) x (k_handlers k) (k_tsc k) (k_mcfg k) (k_objs k) (k_dev k)).
Definition khandlers_lens : lens (Kernel D Fn) (list (Slot Fn)) :=
  mkLens k_handlers (λ x k, mkKernel (k_vmm k) (k_heap k) x (k_tsc k) (k_mcfg k) (k_objs k) (k_dev k)).
Definition ktsc_lens : lens (Kernel D Fn) TscState :=
  mkLens k_tsc (λ x k, mkKernel (k_vmm k) (k_heap k) (k_handlers k) x (k_mcfg k) (k_objs k) (k_dev k)).
Definition kmcfg_lens : lens (Kernel D Fn) Z :=
  mkLens k_mcfg (λ x k, mkKernel (k_vmm k) (k_heap k) (k_handlers k) (k_tsc k) x (k_objs k) (k_dev k)).
Definition kobjs_lens : lens (Kernel D Fn) (gmap Z KObj) :=
  mkLens k_objs (λ x k, mkKernel (k_vmm k) (k_heap k) (k_handlers k) (k_tsc k) (k_mcfg k) x (k_dev k)).
Definition kdev_lens : lens (Kernel D Fn) D :=
  mkLens k_dev (λ x k, mkKernel (k_vmm k) (k_heap k) (k_handlers k) (k_tsc k) (k_mcfg k) (k_objs k) x).

Abbreviation KS := (Machine A (Kernel D Fn)).

Definition cpu_if : lens KS bool := lens_comp sys_lens if_lens.
Definition handlers : lens KS (list (Slot Fn)) := lens_comp own_lens khandlers_lens.
Definition tsc_state : lens KS TscState := lens_comp own_lens ktsc_lens.
Definition MCFG_ADDRESS : lens KS Z := lens_comp own_lens kmcfg_lens.
Definition objs : lens KS (gmap Z KObj) := lens_comp own_lens kobjs_lens.
Definition dev : lens KS D := lens_comp own_lens kdev_lens.

(** Run a component's operation on the kernel's state. *)
Definition on_own {X Y B : Type} (l : lens X Y) (c : M (Machine A Y) B) : M (Machine A X) B :=
  λ m, match c (mkMachine (m_sys m) (lget l (m_own m))) with
       | Ok (b, m') => Ok (b, mkMachine (m_sys m') (lset l (m_own m') (m_own m)))
       | Panic msg => Panic msg
       | NoFuel => NoFuel
       end.

Definition on_vmm {B : Type} (c : M (Machine A VmmHw) B) : M KS B := on_own kvmm_lens c.
Definition on_heap {B : Type} (c : M (Machine A Heap) B) : M KS B := on_own kheap_lens c.
End lenses.

(** A state and the part of it a component sees. *)
Definition vmm_part {A D Fn : Type} (m : Machine A (Kernel D Fn)) : Machine A VmmHw :=
  mkMachine (m_sys m) (k_vmm (m_own m)).
Definition heap_part {A D Fn : Type} (m : Machine A (Kernel D Fn)) : Machine A Heap :=
  mkMachine (m_sys m) (k_heap (m_own m)).

Section kernel.
Context `{Profile} {A D Fn : Type} `{!FrameAllocator A} `{!X86Paging} `{!Devices D}.

Abbreviation KS := (Machine A (Kernel D Fn)).
Abbreviation KM := (M KS).

(** ** Device memory *)

(** The processor's own walk. *)
Definition mmu (m : KS) (virt : Z) : option (Z * Z) :=
  translation (sy_hhdm (m_sys m)) (Z.land (vh_cr3 (k_vmm (m_own m))) ENTRY_ADDR_MASK) (sy_mem (m_sys m)) virt.

Definition mmio (w virt : Z) : KM Z :=
  do! assert_ (negb (virt =? 0) && (virt mod w =? 0)) "pointer argument is not aligned and non-null";
  let! t := gets (λ m, mmu m virt) in
  let! p := unwrap t "page fault" in
  ret (fst p).

Definition read_volatile (w virt : Z) : KM Z :=
  let! p := mmio w virt in Devices.read_volatile dev w p.

Definition write_volatile (w virt v : Z) : KM unit :=
  let! p := mmio w virt in Devices.write_volatile dev w p v.

(** ** Boxes *)

(** [Box::new]; the kernel has no way on when memory is exhausted. *)
Definition Box_new (o : KObj) : KM Z :=
  let! p := on_heap (alloc (layout_of o)) in
  do! assert_ (negb (p =? 0)) "memory allocation failed";
  do! modify (λ m, lset objs (<[p := o]> (lget objs m)) m);
  ret p.

(** The object behind a pointer; using one that is not there is undefined. *)
Definition Box_get (p : Z) : KM KObj :=
  let! os := gets (lget objs) in unwrap (os !! p) "dangling pointer".

Definition Box_set (p : Z) (o : KObj) : KM unit :=
  modify (λ m, lset objs (<[p := o]> (lget objs m)) m).

(** Dropping [Box::from_raw(p)]. *)
Definition Box_drop (p : Z) : KM unit :=
  let! o := Box_get p in
  do! modify (λ m, lset objs (delete p (lget objs m)) m);
  on_heap (dealloc p (layout_of o)).
End kernel.

(** ** Fields that do not overlap *)
Ltac kernel_lens := split; by intros; repeat match goal with s : Machine _ _ |- _ => destruct s as [? []]
  | s : Kernel _ _ |- _ => destruct s end.

#[export] Instance cpu_if_ok {A D Fn : Type} : LensOk (@cpu_if A D Fn).
Proof. apply _. Qed.

#[export] Instance khandlers_ok {D Fn : Type} : LensOk (@khandlers_lens D Fn).
Proof. kernel_lens. Qed.
#[export] Instance ktsc_ok {D Fn : Type} : LensOk (@ktsc_lens D Fn).
Proof. kernel_lens. Qed.
#[export] Instance kmcfg_ok {D Fn : Type} : LensOk (@kmcfg_lens D Fn).
Proof. kernel_lens. Qed.
#[export] Instance kobjs_ok {D Fn : Type} : LensOk (@kobjs_lens D Fn).
Proof. kernel_lens. Qed.
#[export] Instance kdev_ok {D Fn : Type} : LensOk (@kdev_lens D Fn).
Proof. kernel_lens. Qed.

#[export] Instance handlers_ok {A D Fn : Type} : LensOk (@handlers A D Fn).
Proof. apply _. Qed.
#[export] Instance tsc_state_ok {A D Fn : Type} : LensOk (@tsc_state A D Fn).
Proof. apply _. Qed.
#[export] Instance objs_ok {A D Fn : Type} : LensOk (@objs A D Fn).
Proof. apply _. Qed.
#[export] Instance dev_ok {A D Fn : Type} : LensOk (@dev A D Fn).
Proof. apply _. Qed.

#[export] Instance cpu_dev_indep {A D Fn : Type} : LensIndep (@cpu_if A D Fn) dev.
Proof. kernel_lens. Qed.
#[export] Instance dev_tsc_indep {A D Fn : Type} : LensIndep (@dev A D Fn) tsc_state.
Proof. kernel_lens. Qed.
#[export] Instance dev_objs_indep {A D Fn : Type} : LensIndep (@dev A D Fn) objs.
Proof. kernel_lens. Qed.
#[export] Instance tsc_objs_indep {A D Fn : Type} : LensIndep (@tsc_state A D Fn) objs.
Proof. kernel_lens. Qed.
#[export] Instance cpu_objs_indep {A D Fn : Type} : LensIndep (@cpu_if A D Fn) objs.
Proof. kernel_lens. Qed.

Section kernel_rules.
Context {A D Fn : Type}.
Abbreviation KS := (Machine A (Kernel D Fn)).

Lemma wp_on_vmm {B : Type} (c : M (Machine A VmmHw) B) (m : KS) (Q : B → KS → Prop) :
  wp c (vmm_part m) (λ b m', Q b (mkMachine (m_sys m') (lset kvmm_lens (m_own m') (m_own m)))) → wp (on_vmm c) m Q.
Proof. unfold wp, on_vmm, on_own, vmm_part. simpl. by destruct (c _) as [[b s]|msg|]. Qed.

Lemma wp_on_heap {B : Type} (c : M (Machine A Heap) B) (m : KS) (Q : B → KS → Prop) :
  wp c (heap_part m) (λ b m', Q b (mkMachine (m_sys m') (lset kheap_lens (m_own m') (m_own m)))) → wp (on_heap c) m Q.
Proof. unfold wp, on_heap, on_own, heap_part. simpl. by destruct (c _) as [[b s]|msg|]. Qed.
End kernel_rules.
