(* ===== verification/KernelMap.v ===== *)
(** * KernelMap: the page tables inside the kernel's state

    The kernel-wide [map], [unmap], [map_hhdm] and [map_range] of
    [src/kernel/src/mm/vmm.rs], called from a component that has other state: they
    change translations as [KernelVmm] and [VmmRange] say, and nothing else of the
    kernel's state. *)

From S2P Require Import Prelude Bits Mem Pmm Dll PmmInv PmmList PmmOps PmmSpec.
From S2P Require Import Locks FrameAlloc Heap Paging Vmm Walk VmmInv VmmOps VmmMap VmmUnmap VmmSpec VmmRange KernelVmm.
From S2P Require Import Devices Tsc Pci Idt Kernel.

Section kernel_map.
Context `{Profile} {A D Fn : Type} `{!FrameAllocator A} `{!X86Paging} `{!PagingLaws} `{!Devices D} `{Res : !Reserved}.
Context (h top : Z).

Abbreviation KS := (Machine A (Kernel D Fn)).

(** The page tables are in order and the processor runs on them. *)
Definition kernel_ok (m : KS) : Prop :=
  kernel_vmm_ok h top (vmm_part m) ∧ Z.land (vh_cr3 (k_vmm (m_own m))) ENTRY_ADDR_MASK = top.

(** Only memory, the frame allocator and the page tables' own state changed. *)
Definition vmm_step (m m' : KS) : Prop :=
  ∃ s v, m' = mkMachine s (lset kvmm_lens v (m_own m)) ∧ sys_kept (m_sys m) s.

#[export] Instance vmm_step_trans : Transitive vmm_step.
Proof. intros m1 m2 m3 (s & v & -> & Hc) (s' & v' & -> & Hc'). exists s', v'. split; [done|]. by etransitivity. Qed.

#[export] Instance vmm_step_refl : Reflexive vmm_step.
Proof. intros [s []]. by eexists _, _. Qed.

Lemma kernel_hhdm m : kernel_ok m → sy_hhdm (m_sys m) = h.
Proof. intros [([T Hok] & _) _]. exact (vo_hhdm _ _ _ _ Hok). Qed.

Lemma kernel_hhdm_pos m : kernel_ok m → 0 < h ∧ h mod FRAME_SIZE = 0.
Proof.
  intros [([T Hok] & _) _]. destruct (fa_bounds h _ (vo_fa _ _ _ _ Hok)) as (? & ? & _). done.
Qed.

Lemma mmu_translation m v : kernel_ok m → mmu m v = translation h top (sy_mem (m_sys m)) v.
Proof. intros Hk. unfold mmu. by rewrite (kernel_hhdm m Hk), (proj2 Hk). Qed.

(** The walk with the level of the entry it ends at. *)
Definition mmu_leaf (m : KS) (v : Z) : option (nat * (Z * Z)) := leaf_at h top (sy_mem (m_sys m)) v.

Lemma mmu_leaf_snd m v : kernel_ok m → mmu m v = snd <$> mmu_leaf m v.
Proof. intros Hk. rewrite mmu_translation by done. apply translation_leaf. Qed.

(** The interrupt flag does not matter. *)
Lemma kernel_ok_if m b : kernel_ok m → kernel_ok (lset cpu_if b m).
Proof.
  intros [([T Hok] & Hd & Hl) Hcr]. split; [|exact Hcr]. split; [|by split]. exists T.
  pose proof (lock_state_ok h top b (mx_raw (vh_vmm (k_vmm (m_own m)))) (vmm_part m) T Hok) as Hok'.
  destruct m as [s [[[raw d] cr tlb] ? ? ? ? ? ?]]. cbn in Hd. by subst d.
Qed.

(** From a call of [KernelVmm] to the kernel's state. *)
Lemma wp_kernel_call {B : Type} (c : M (Machine A VmmHw) B) m (R : B → mem → Prop) :
  kernel_ok m →
  wp c (vmm_part m) (λ b m', R b (sy_mem (m_sys m')) ∧ call_ok h top (vmm_part m) m') →
  wp (on_vmm c) m (λ b m', R b (sy_mem (m_sys m')) ∧ kernel_ok m' ∧ vmm_step m m').
Proof.
  intros Hk Hc. apply wp_on_vmm. eapply wp_mono; [exact Hc|]. cbv beta.
  intros b m' (HR & Hk' & Hcpu & Hcr3). split; [done|]. split.
  - split; [by destruct m' as [s' v']|]. cbn [m_own lset kvmm_lens k_vmm]. rewrite Hcr3. apply Hk.
  - by eexists _, _.
Qed.

Lemma on_map_spec m v phys flags size :
  kernel_ok m → u64_range v → 0 ≤ phys < 2 ^ 52 → flag_bits_ok flags →
  wp (on_vmm (map v phys flags size)) m (λ r m',
    map_outcome (mmu_leaf m) v phys flags size r (mmu_leaf m') ∧ kernel_ok m' ∧ vmm_step m m').
Proof.
  intros Hk Hv Hp Hf.
  apply (wp_kernel_call _ m (λ r w, map_outcome (mmu_leaf m) v phys flags size r (leaf_at h top w)) Hk).
  by apply (kernel_map_spec h top); [apply Hk|..].
Qed.

Lemma on_unmap_spec m v size :
  kernel_ok m → u64_range v →
  wp (on_vmm (unmap v size)) m (λ r m',
    unmap_outcome (mmu_leaf m) v size r (mmu_leaf m') ∧ kernel_ok m' ∧ vmm_step m m').
Proof.
  intros Hk Hv.
  apply (wp_kernel_call _ m (λ r w, unmap_outcome (mmu_leaf m) v size r (leaf_at h top w)) Hk).
  by apply (kernel_unmap_spec h top); [apply Hk|].
Qed.

Lemma on_map_range_leaf m virt phys pages flags size :
  kernel_ok m → 0 ≤ virt → 0 ≤ phys → 0 ≤ pages → flag_bits_ok flags →
  let sz := PageSize_bytes size in
  virt + pages * sz ≤ 2 ^ 64 → phys + pages * sz ≤ 2 ^ 52 →
  wp (on_vmm (map_range virt phys pages flags size)) m (λ r m',
    range_outcome (mmu_leaf m) virt phys pages flags size r (mmu_leaf m') ∧ kernel_ok m' ∧ vmm_step m m').
Proof.
  intros Hk Hvirt Hphys Hpages Hf sz Hv Hp.
  set (R := λ r (w : mem), range_outcome (mmu_leaf m) virt phys pages flags size r (leaf_at h top w)).
  apply (wp_kernel_call _ m R Hk). unfold map_range.
  apply (wp_call h top (λ vmm, Vmm_map_range vmm virt phys pages flags size) (vmm_part m) R); [apply Hk|].
  intros T m1 Hok1 Hmem.
  eapply wp_mono; [by apply (map_range_effect h top virt phys flags size m1 Hvirt Hphys Hf T)|].
  cbv beta. intros r m' (HT & (Hcpu & Hvv & Hcr) & Hgood & Ht). unfold R, range_outcome, mmu_leaf.
  rewrite Hmem in Hgood, Ht. by split_and!.
Qed.

Lemma on_map_range_spec m virt phys pages flags size :
  kernel_ok m → 0 ≤ virt → 0 ≤ phys → 0 ≤ pages → flag_bits_ok flags →
  let sz := PageSize_bytes size in
  virt + pages * sz ≤ 2 ^ 64 → phys + pages * sz ≤ 2 ^ 52 →
  wp (on_vmm (map_range virt phys pages flags size)) m (λ r m', kernel_ok m' ∧ vmm_step m m' ∧
    (r = ROk tt → ∀ j, 0 ≤ j < pages → good_addr (virt + j * sz) ∧ (virt + j * sz) mod sz = 0) ∧
    ∀ v, good_addr v → mmu m' v =
      match r with
      | ROk _ => let page := v / sz - virt / sz in
                 if decide (0 ≤ page < pages) then Some (mapped_to size (phys + page * sz) flags v) else mmu m v
      | RErr _ => mmu m v
      end).
Proof.
  intros Hk Hvirt Hphys Hpages Hf sz Hv Hp. eapply wp_mono; [by apply on_map_range_leaf|].
  cbv beta. intros r m' ((Ht & Hgood) & Hk' & Hs). split; [done|]. split; [done|]. split; [intros Hr j Hj; by apply (Hgood Hr)|].
  intros v Hgv. rewrite !mmu_leaf_snd, (Ht v Hgv) by done. cbv zeta. unfold sz. destruct r; [by case_decide|done].
Qed.

Lemma on_map_hhdm_spec m phys flags size :
  kernel_ok m → 0 ≤ phys < 2 ^ 52 → phys + h < 2 ^ 64 → flag_bits_ok flags →
  wp (on_vmm (map_hhdm phys flags size)) m (λ r m', kernel_ok m' ∧ vmm_step m m' ∧
    match r with
    | ROk virt => virt = phys + h ∧ snd <$> mmu m' virt = Some (snd (mapped_to size phys flags virt)) ∧
        (fst <$> mmu m' virt = Some phys) ∧
        ∀ v', good_addr v' → virt / PageSize_bytes size ≠ v' / PageSize_bytes size → mmu m' v' = mmu m v'
    | RErr _ => ∀ v', good_addr v' → mmu m' v' = mmu m v'
    end).
Proof.
  intros Hk Hp Hb Hf. set (R := λ (r : result Z MapError) (w : mem), ∃ r',
    map_outcome (mmu_leaf m) (phys + h) phys flags size r' (leaf_at h top w) ∧
    r = match r' with ROk _ => ROk (phys + h) | RErr e => RErr e end).
  eapply wp_mono; [apply (wp_kernel_call _ m R Hk)|].
  - eapply wp_mono; [apply (kernel_map_hhdm_spec h top); [apply Hk|done..]|]. cbv beta.
    intros r m' (r' & Ht & Hc & Hr). split; [|exact Hc]. by exists r'.
  - cbv beta. intros r m' (([[]|e] & [Ht Hr] & ->) & Hk' & Hs); (split; [done|]); (split; [done|]).
    + destruct Hr as (Hc & Hm & _). destruct (kernel_hhdm_pos m Hk) as [Hh _].
      assert (good_addr (phys + h)) as Hg by (split; [unfold u64_range; lia|done]). split; [done|].
      rewrite (mmu_leaf_snd m' _ Hk'). unfold mmu_leaf at 1 2. rewrite (Ht _ Hg), decide_True by done.
      cbn. rewrite Hm, Z.add_0_r. split_and!; [done|done|]. intros v' Hv' Hne.
      rewrite (mmu_leaf_snd m' _ Hk'). unfold mmu_leaf at 1. rewrite (Ht _ Hv'), decide_False, mmu_leaf_snd by done. done.
    + intros v' Hv'. rewrite (mmu_leaf_snd m' _ Hk'). unfold mmu_leaf at 1. rewrite (Ht _ Hv'), mmu_leaf_snd by done. done.
Qed.
End kernel_map.

(** ** What a caller of the page tables keeps *)

Lemma kernel_ok_alone `{Profile} {A D Fn : Type} `{!FrameAllocator A} `{!X86Paging} (R : Reserved) h top
    (m : Machine A (Kernel D Fn)) :
  kernel_ok (Res := R) h top m → kernel_ok (Res := nobody) h top m.
Proof.
  intros [([T [Hfa Hh Ht HT _]] & Hd & Hl) Hcr]. split; [|done]. split_and!; [|done|done]. by exists T.
Qed.

Lemma vmm_step_alone {A D Fn : Type} `{!FrameAllocator A} (R : Reserved) (m m' : Machine A (Kernel D Fn)) :
  vmm_step (Res := R) m m' → vmm_step (Res := nobody) m m'.
Proof. intros (s & v & -> & Hc & _ & Ht). exists s, v. split; [done|]. split; [done|]. split; [|done]. by intros x (g & [] & _). Qed.

(** An invariant of the kernel's memory that calls to the page tables keep, because
    they are right for any reserved frames, and that does not depend on the state
    of other components.  That the page tables are in order is one; that page
    tables and heap are, in [System], is another. *)
Class KernelInv `{Profile} {A D Fn : Type} `{!FrameAllocator A} `{!X86Paging} (h top : Z)
    (I : Machine A (Kernel D Fn) → Prop) : Prop := {
  inv_kernel m : I m → kernel_ok (Res := nobody) h top m;
  inv_call B (c : M (Machine A (Kernel D Fn)) B) m Q : I m →
    (∀ Res : Reserved, kernel_ok h top m → wp c m (λ b m', Q b m' ∧ kernel_ok h top m' ∧ vmm_step m m')) →
    wp c m (λ b m', Q b m' ∧ I m');
  inv_if b m : I m → I (lset cpu_if b m);
  inv_frame m m' : m_sys m' = m_sys m → k_vmm (m_own m') = k_vmm (m_own m) → k_heap (m_own m') = k_heap (m_own m) →
    I m → I m'
}.

#[export] Instance kernel_ok_inv `{Profile} {A D Fn : Type} `{!FrameAllocator A} `{!X86Paging} `{!PagingLaws}
    (R : Reserved) h top :
  KernelInv h top (kernel_ok (A := A) (D := D) (Fn := Fn) (Res := R) h top).
Proof.
  split.
  - intros m. apply kernel_ok_alone.
  - intros B c m Q Hk Hc. eapply wp_mono; [by apply Hc|]. cbv beta. by intros b m' (HQ & Hk' & _).
  - intros b m. apply kernel_ok_if.
  - intros m m' Hs Hv _ [Hk Hcr]. split; [|by rewrite Hv]. unfold vmm_part in *. by rewrite Hs, Hv.
Qed.

Section inv_calls.
Context `{Profile} {A D Fn : Type} `{!FrameAllocator A} `{!X86Paging} `{!PagingLaws} `{!Devices D}.
Context (h top : Z) (I : Machine A (Kernel D Fn) → Prop) `{!KernelInv h top I}.
#[local] Existing Instance nobody.

Lemma inv_map_range m virt phys pages flags size :
  I m → 0 ≤ virt → 0 ≤ phys → 0 ≤ pages → flag_bits_ok flags →
  let sz := PageSize_bytes size in
  virt + pages * sz ≤ 2 ^ 64 → phys + pages * sz ≤ 2 ^ 52 →
  wp (on_vmm (map_range virt phys pages flags size)) m (λ r m', I m' ∧ vmm_step m m' ∧
    (r = ROk tt → ∀ j, 0 ≤ j < pages → good_addr (virt + j * sz) ∧ (virt + j * sz) mod sz = 0) ∧
    ∀ v, good_addr v → mmu m' v =
      match r with
      | ROk _ => let page := v / sz - virt / sz in
                 if decide (0 ≤ page < pages) then Some (mapped_to size (phys + page * sz) flags v) else mmu m v
      | RErr _ => mmu m v
      end).
Proof.
  intros HI Hvirt Hphys Hpages Hf sz Hv Hp.
  eapply wp_mono; [apply (inv_call (h := h) (top := top) (I := I)); [exact HI|]; intros R Hk;
    eapply wp_mono; [by apply (on_map_range_spec h top)|];
    cbv beta; intros r m' (Hk' & Hs & Hr); split; [exact (conj (vmm_step_alone R m m' Hs) Hr)|done]|].
  cbv beta. by intros r m' ((Hs & Hr) & HI').
Qed.

Lemma inv_map_hhdm m phys flags size :
  I m → 0 ≤ phys < 2 ^ 52 → phys + h < 2 ^ 64 → flag_bits_ok flags →
  wp (on_vmm (map_hhdm phys flags size)) m (λ r m', I m' ∧ vmm_step m m' ∧
    match r with
    | ROk virt => virt = phys + h ∧ fst <$> mmu m' virt = Some phys
    | RErr _ => ∀ v', good_addr v' → mmu m' v' = mmu m v'
    end).
Proof.
  intros HI Hp Hb Hf.
  eapply wp_mono; [apply (inv_call (h := h) (top := top) (I := I)); [exact HI|]; intros R Hk;
    eapply wp_mono; [by apply (on_map_hhdm_spec h top)|];
    cbv beta; intros r m' (Hk' & Hs & Hr); split; [exact (conj (vmm_step_alone R m m' Hs) Hr)|done]|].
  cbv beta. intros [virt|e] m' ((Hs & Hr) & HI'); [|by split_and!]. destruct Hr as (-> & _ & Hr & _). by split_and!.
Qed.
End inv_calls.
