(* ===== verification/Acpi.v ===== *)
(** * Acpi: the ACPI library and the kernel's dealings with it

    The tables and the AML interpreter are [uACPI], a C library outside the
    repository.  [UAcpi] lists what the kernel calls of it; a call may call back
    into the kernel, so it is an action on the kernel's state.  The file models
    [src/kernel/src/acpi/mod.rs]. *)

From S2P Require Import Prelude Locks Devices.

(** The first allocation of the [MCFG] table: where the configuration space of a
    range of buses is in memory. *)
Record McfgEntry := mkMcfgEntry { address : Z; start_bus : Z; end_bus : Z }.

(** An entry of the [MADT].  The fields are those of the two kinds the kernel casts
    an entry to, [acpi_madt_ioapic] and [acpi_madt_interrupt_source_override]. *)
Record MadtEntry := mkMadtEntry {
  type_ : Z;
  ioapic_address : Z;
  ioapic_gsi_base : Z;
  iso_source : Z;
  iso_gsi : Z
}.

(** [uacpi_iteration_decision] *)
Inductive decision := CONTINUE | BREAK.

Class UAcpi (St : Type) := {
  uacpi_table : Type;
  UACPI_STATUS_OK : Z;
  UACPI_STATUS_NOT_FOUND : Z;
  UACPI_STATUS_INVALID_ARGUMENT : Z;
  UACPI_STATUS_ALREADY_EXISTS : Z;
  UACPI_STATUS_TIMEOUT : Z;
  UACPI_STATUS_UNIMPLEMENTED : Z;
  (** [CStr::from_ptr(uacpi_status_to_string(status)).to_str()], [None] when it is
      not UTF-8 *)
  uacpi_status_to_string : Z → option string;
  uacpi_initialize : M St Z;
  uacpi_namespace_load : M St Z;
  uacpi_namespace_initialize : M St Z;
  uacpi_finalize_gpe_initialization : M St Z;
  uacpi_table_find_by_signature : string → M St (Z * uacpi_table);
  uacpi_table_unref : uacpi_table → M St Z;
  mcfg_entry : uacpi_table → McfgEntry;
  (** [size_of::<acpi_madt>()], and calling back for each entry behind that many
      bytes of the table *)
  MADT_SIZE : Z;
  uacpi_for_each_subtable : ∀ {T : Type}, uacpi_table → Z → (T → MadtEntry → T * decision) → T → T;
  ACPI_MADT_ENTRY_TYPE_IOAPIC : Z;
  ACPI_MADT_ENTRY_TYPE_INTERRUPT_SOURCE_OVERRIDE : Z;
  (** calling an interrupt handler of the library, by its address, with its context *)
  uacpi_call_handler : Z → Z → M St Z
}.

Section acpi.
Context {St : Type} `{!UAcpi St}.

Definition uacpi_status_to_result (status : Z) : result unit string :=
  if status =? UACPI_STATUS_OK then ROk tt
  else RErr (match uacpi_status_to_string status with Some s => s | None => "Unknown error" end).

(** [uacpi_status_to_result(c)?] followed by the rest of the function. *)
Definition try_status (c : M St Z) (k : M St (result unit string)) : M St (result unit string) :=
  let! status := c in
  match uacpi_status_to_result status with
  | ROk _ => k
  | RErr e => ret (RErr e)
  end.

Definition acpi_init : M St (result unit string) :=
  try_status uacpi_initialize
    (try_status uacpi_namespace_load
       (try_status uacpi_namespace_initialize
          (try_status uacpi_finalize_gpe_initialization (ret (ROk tt))))).

End acpi.

(** ** [init] *)
Section acpi_proofs.
Context {St : Type} `{!UAcpi St}.

(** [acpi::init] runs the library's four stages in order and stops at the first
    that fails, with that stage's message. *)
Theorem acpi_init_correct s s1 s2 s3 s4 r1 r2 r3 r4 :
  uacpi_initialize s = Ok (r1, s1) → uacpi_namespace_load s1 = Ok (r2, s2) →
  uacpi_namespace_initialize s2 = Ok (r3, s3) → uacpi_finalize_gpe_initialization s3 = Ok (r4, s4) →
  acpi_init s = Ok (
    match uacpi_status_to_result r1, uacpi_status_to_result r2, uacpi_status_to_result r3, uacpi_status_to_result r4 with
    | RErr e, _, _, _ => (RErr e, s1)
    | _, RErr e, _, _ => (RErr e, s2)
    | _, _, RErr e, _ => (RErr e, s3)
    | _, _, _, RErr e => (RErr e, s4)
    | ROk _, ROk _, ROk _, ROk _ => (ROk tt, s4)
    end).
Proof.
  intros H1 H2 H3 H4. unfold acpi_init, try_status, bind, ret. rewrite H1.
  destruct (uacpi_status_to_result r1); [|done]. rewrite H2.
  destruct (uacpi_status_to_result r2); [|done]. rewrite H3.
  destruct (uacpi_status_to_result r3); [|done]. rewrite H4.
  by destruct (uacpi_status_to_result r4).
Qed.
End acpi_proofs.
