(* ===== verification/KernelPci.v ===== *)
(** * KernelPci: finding the devices ([src/kernel/src/pci.rs], [init])

    [init] asks ACPI where configuration space is in memory, maps it and walks the
    buses through it.  The theorems join the page tables, the two ways into
    configuration space and the bus walk. *)

From S2P Require Import Prelude Bits Mem Pmm Dll PmmInv PmmList PmmOps PmmSpec.
From S2P Require Import Locks FrameAlloc Heap Paging Vmm Walk VmmInv VmmOps VmmMap VmmUnmap VmmSpec VmmRange KernelVmm.
From S2P Require Import Devices Tsc Pci PciScan PciAccess Idt Kernel KernelMap Acpi.

Inductive PciError := McfgNotFound (e : string) | CouldNotMap (e : MapError).

(** [PTFlags::P | PTFlags::RW | PTFlags::XD | PTFlags::PCD | PTFlags::PWT] *)
Definition uncached_flags `{!X86Paging} : Z :=
  Z.lor (Z.lor (Z.lor (Z.lor (FLAG_P 0) (FLAG_RW 0)) PTFlags_XD) PTFlags_PCD) PTFlags_PWT.

Lemma uncached_flags_ok `{!X86Paging} `{!PagingLaws} : flag_bits_ok uncached_flags.
Proof.
  destruct flags_leaf as (? & ? & ?), (flags_parent 0 ltac:(lia)) as (? & _).
  repeat apply flag_bits_lor; try done. rewrite FLAG_P_spec by lia. by split.
Qed.

Section pci_init.
Context `{Profile} {A D Fn : Type} `{!FrameAllocator A} `{!X86Paging} `{!Devices D}.
Abbreviation KS := (Machine A (Kernel D Fn)).
Context `{!UAcpi KS}.

(** [fuel] bounds how deep bridges nest. *)
Definition pci_init (fuel : nat) : M KS (result (list PciAddress) PciError) :=
  let! r := uacpi_table_find_by_signature "MCFG" in
  match uacpi_status_to_result (fst r) with
  | RErr e => ret (RErr (McfgNotFound e))
  | ROk _ =>
      let entry := mcfg_entry (snd r) in
      let phys := address entry in
      let! n := u64_sub (end_bus entry) (start_bus entry) in
      let! bus_count := u64_add n 1 in
      let bytes := u64_shl bus_count 20 in
      let stride := PageSize_bytes Large in
      let pages := div_ceil bytes stride in
      let! hhdm := gets (λ m : KS, sy_hhdm (m_sys m)) in
      let! virt := u64_add phys hhdm in
      let! mapped := on_vmm (map_range virt phys pages uncached_flags Large) in
      match mapped with
      | RErr e => ret (RErr (CouldNotMap e))
      | ROk _ =>
          do! modify (lset MCFG_ADDRESS virt);
          do! uacpi_table_unref (snd r);
          let! devices := enum_bus dev MCFG_ADDRESS read_volatile fuel (start_bus entry) [] in
          ret (ROk devices)
      end
  end.
End pci_init.

Section pci_proofs.
Context `{Profile} {A D Fn : Type} `{!FrameAllocator A} `{!X86Paging} `{!PagingLaws} `{!Devices D} `{!PciHost D} `{Res : !Reserved}.
Abbreviation KS := (Machine A (Kernel D Fn)).
Context (h top : Z).

(** The window: from [base] on, [len] bytes of virtual memory are the physical
    memory from [ecam] on. *)
Definition mapped_window (base len : Z) (m : KS) : Prop :=
  ∀ o, 0 ≤ o < len → ∃ fl, mmu m (base + o) = Some (ecam + o, fl).

(** The buses whose whole space lies in [len] bytes. *)
Definition in_window (len b : Z) : Prop := 0 ≤ b ∧ (b + 1) * 2 ^ 20 ≤ len.

Lemma mapped_window_dev base len (m : KS) d : mapped_window base len m → mapped_window base len (lset dev d m).
Proof. intros Hw o Ho. destruct (Hw o Ho) as [fl Hfl]. by exists fl. Qed.

Lemma mmio_window base len w o (m : KS) :
  0 < base → base mod 4 = 0 → mapped_window base len m → 0 ≤ o < len → supported_size w = true → o mod w = 0 →
  mmio w (base + o) m = Ok (ecam + o, m).
Proof.
  intros Hb Hm Hw Ho Hs Hmod. unfold mmio, bind, gets, assert_, unwrap.
  assert ((base + o) mod w = 0) as ->.
  { assert (w = 1 ∨ w = 2 ∨ w = 4) as Hcase.
    { unfold supported_size in Hs. apply orb_true_iff in Hs as [[?|?]%orb_true_iff|?]; lia. }
    assert (base mod w = 0) as Hbw.
    { destruct Hcase as [->|[->| ->]]; [apply Z.mod_1_r| |done]. rewrite <- (Z.mod_mod_divide base 4 2), Hm by (by exists 2). done. }
    rewrite Z.add_mod, Hbw, Hmod, Z.mod_0_l by lia. done. }
  destruct (Z.eqb_spec (base + o) 0); [lia|]. change (negb false && (0 =? 0)) with true.
  destruct (Hw o Ho) as [fl Hfl]. cbv beta iota delta [ret]. by rewrite Hfl.
Qed.

(** The place of a register in the window. *)
Lemma window_offset len w f r :
  in_window len (f / 256) → access_ok w r → 0 ≤ f < 2 ^ 16 → 0 ≤ r < 4096 →
  0 ≤ f * 4096 + r < len ∧ (f * 4096 + r) mod w = 0.
Proof.
  intros [HB0 HB] [Hs Hr] Hf Hr'. pose proof (Z.div_mod f 256 ltac:(lia)).
  pose proof (Z.mod_pos_bound f 256 ltac:(lia)). split; [lia|]. unfold supported_size in Hs.
  apply orb_true_iff in Hs as [[->%Z.eqb_eq| ->%Z.eqb_eq]%orb_true_iff| ->%Z.eqb_eq]; [apply Z.mod_1_r|..].
  - replace (f * 4096 + r) with (r + (f * 2048) * 2) by lia. by rewrite Z.mod_add.
  - replace (f * 4096 + r) with (r + (f * 1024) * 4) by lia. by rewrite Z.mod_add.
Qed.

Lemma kernel_window base len :
  0 < base → base + 2 ^ 28 ≤ 2 ^ 64 → base mod 4 = 0 →
  window dev read_volatile write_volatile (mapped_window base len : KS → Prop) (in_window len) base.
Proof.
  intros Hb Hb' Hm. split; [done|..].
  - intros s w f r Hw HB Hok Hf Hr. destruct (window_offset len w f r HB Hok Hf Hr) as [Ho Hmod].
    unfold read_volatile, bind at 1. replace (base + f * 4096 + r) with (base + (f * 4096 + r)) by lia.
    rewrite (mmio_window base len) by (done || apply Hok).
    by replace (ecam + (f * 4096 + r)) with (ecam + f * 4096 + r) by lia.
  - intros s w f r v Hw HB Hok Hf Hr. destruct (window_offset len w f r HB Hok Hf Hr) as [Ho Hmod].
    unfold write_volatile, bind at 1. replace (base + f * 4096 + r) with (base + (f * 4096 + r)) by lia.
    rewrite (mmio_window base len) by (done || apply Hok).
    by replace (ecam + (f * 4096 + r)) with (ecam + f * 4096 + r) by lia.
Qed.

(** The registers as the walk sees them. *)
Definition cfg_of (m : KS) (a : PciAddress) (off : Z) : Z :=
  fst (conf_read 4 (bdf a) off (pci_conf (lget dev m))).

(** The state differs from [m] in the device, whose configuration space is the
    same. *)
Definition same_conf (m m' : KS) : Prop :=
  ∃ d, m' = lset dev d m ∧ pci_conf d = pci_conf (lget dev m).

(** Configuration space can be reached on the buses in [B]: through the ports, or
    through a window that is mapped. *)
Definition reachable (m : KS) (B : Z → Prop) : Prop :=
  lget MCFG_ADDRESS m = 0 ∧ (∀ b, B b → 0 ≤ b < 256) ∨
  ∃ base len, lget MCFG_ADDRESS m = base ∧ 0 < base ∧ base + 2 ^ 28 ≤ 2 ^ 64 ∧ base mod 4 = 0 ∧
    mapped_window base len m ∧ ∀ b, B b → in_window len b ∧ b < 256.

Lemma walk_reg_access off : walk_reg off → access_ok 4 off ∧ 0 ≤ off < 0x40.
Proof. intros [->|[->|[->| ->]]]; split; [done|lia|done|lia|done|lia|done|lia]. Qed.

Lemma reachable_reads m B :
  reachable m B → config_reads (cfg_of m) dev MCFG_ADDRESS read_volatile (same_conf m) B.
Proof.
  intros Hr s b d i off (x & -> & Hx) HB Hd Hi Hoff. destruct (walk_reg_access off Hoff) as [Hok Ho].
  set (a := mkPciAddress b d i).
  assert (wp (pci_read dev MCFG_ADDRESS read_volatile 4 a off) (lset dev x m) (λ v s',
    v = fst (conf_read 4 (bdf a) off (pci_conf (lget dev (lset dev x m)))) ∧
    conf_step dev (lset dev x m) s' (snd (conf_read 4 (bdf a) off (pci_conf (lget dev (lset dev x m))))))) as Hw.
  { destruct Hr as [[Hm Hb]|(base & len & Hm & Hb0 & Hb1 & Hb4 & Hwin & Hb)].
    - pose proof (Hb b HB). apply pci_read_ports; [exact _|exact Hm|by split_and!; cbn [bus device function a]; lia|done|lia].
    - destruct (Hb b HB) as [Hin ?]. pose proof (proj1 Hin).
      assert (pci_valid a) by (by split_and!; cbn [bus device function a]; lia).
      apply (pci_read_window dev MCFG_ADDRESS _ write_volatile (mapped_window base len) (in_window len) base);
        [by apply kernel_window|by apply mapped_window_dev|exact Hin|exact Hm|done|done|lia]. }
  eapply wp_mono; [exact Hw|]. cbv beta. rewrite lens_get_set. intros v s' [-> (y & -> & Hy)].
  unfold cfg_of. rewrite Hx. split; [done|]. exists y. rewrite lens_set_set. split; [done|].
  by rewrite Hy, conf_read_header, Hx.
Qed.



(** C26: the two ways into configuration space are one.  On a bus the window covers,
    an access of 1, 2 or 4 bytes within a register of the first 256 reads the same
    value, of that many bytes, through memory and through the ports, and leaves
    configuration space the same; so does a write. *)
Theorem pci_access_equiv m base len w a off v :
  lget MCFG_ADDRESS m = base → 0 < base → base + 2 ^ 28 ≤ 2 ^ 64 → base mod 4 = 0 → mapped_window base len m →
  in_window len (bus a) → pci_valid a → access_ok w off → 0 ≤ off < 256 → 0 ≤ v < 2 ^ (8 * w) →
  let m0 := lset MCFG_ADDRESS 0 m in
  (∃ x d d0, pci_read dev MCFG_ADDRESS read_volatile w a off m = Ok (x, lset dev d m) ∧
     pci_read dev MCFG_ADDRESS read_volatile w a off m0 = Ok (x, lset dev d0 m0) ∧
     0 ≤ x < 2 ^ (8 * w) ∧ pci_conf d = pci_conf d0) ∧
  (∃ d d0, pci_write dev MCFG_ADDRESS write_volatile w a off v m = Ok (tt, lset dev d m) ∧
     pci_write dev MCFG_ADDRESS write_volatile w a off v m0 = Ok (tt, lset dev d0 m0) ∧
     pci_conf d = pci_conf d0).
Proof.
  intros Hm Hb0 Hb1 Hb4 Hwin Hin Ha Hok Ho Hv m0. pose proof (kernel_window base len Hb0 Hb1 Hb4) as Hw.
  assert (lget MCFG_ADDRESS m0 = 0) as Hm0 by done. assert (lget dev m0 = lget dev m) as Hd0 by done. split.
  - destruct (proj1 (wp_ok _ _ _) (pci_read_window dev MCFG_ADDRESS _ _ _ _ base w a off m Hw Hwin Hin Hm Ha Hok ltac:(lia)))
      as (x & m1 & Heq1 & -> & d & -> & Hd).
    destruct (proj1 (wp_ok _ _ _) (pci_read_ports dev MCFG_ADDRESS read_volatile w a off m0 Hm0 Ha Hok Ho))
      as (x & m2 & Heq2 & -> & d0 & -> & Hd').
    rewrite Hd0 in Heq2, Hd'. eexists _, d, d0. split_and!; [exact Heq1|exact Heq2|apply conf_read_range, Hok..|by rewrite Hd, Hd'].
  - destruct (proj1 (wp_ok _ _ _) (pci_write_window dev MCFG_ADDRESS _ _ _ _ base w a off v m Hw Hwin Hin Hm Ha Hok ltac:(lia)))
      as ([] & m1 & Heq1 & d & -> & Hd).
    destruct (proj1 (wp_ok _ _ _) (pci_write_ports dev MCFG_ADDRESS write_volatile w a off v m0 Hm0 Ha Hok Ho Hv))
      as ([] & m2 & Heq2 & d0 & -> & Hd').
    rewrite Hd0 in Hd'. exists d, d0. split_and!; [exact Heq1|exact Heq2|by rewrite Hd, Hd'].
Qed.

(** ** [init] *)

(** The pages [init] maps. *)
Definition mcfg_pages (e : McfgEntry) : Z := div_ceil ((end_bus e - start_bus e + 1) * 2 ^ 20) (2 ^ 21).

Lemma large_bytes : PageSize_bytes Large = 2 ^ 21.
Proof. apply large_page_size. Qed.

Lemma mcfg_pages_bounds e :
  0 ≤ start_bus e ≤ end_bus e → end_bus e < 256 →
  1 ≤ mcfg_pages e ≤ 128 ∧ (end_bus e - start_bus e + 1) * 2 ^ 20 ≤ mcfg_pages e * 2 ^ 21 ∧
  mcfg_pages e * 2 ^ 21 < (end_bus e - start_bus e + 3) * 2 ^ 20.
Proof.
  intros Hs He. unfold mcfg_pages, div_ceil. set (x := (end_bus e - start_bus e + 1) * 2 ^ 20).
  pose proof (Z.div_mod x (2 ^ 21) ltac:(lia)). pose proof (Z.mod_pos_bound x (2 ^ 21) ltac:(lia)).
  assert (1 * 2 ^ 20 ≤ x ≤ 256 * 2 ^ 20) by (unfold x; lia).
  assert (2 ^ 20 * ((end_bus e - start_bus e + 1) mod 2) = x mod 2 ^ 21) as Hodd.
  { unfold x. change (2 ^ 21) with (2 * 2 ^ 20). rewrite Z.mul_mod_distr_r by lia. lia. }
  pose proof (Z.mod_pos_bound (end_bus e - start_bus e + 1) 2 ltac:(lia)).
  destruct (Z.eqb_spec (x mod 2 ^ 21) 0); lia.
Qed.

(** Within a large page addresses are as good as its first. *)
Lemma good_in_page v o : good_addr v → v mod 2 ^ 21 = 0 → 0 ≤ o < 2 ^ 21 → good_addr (v + o).
Proof.
  intros [[Hv0 Hv] Hc] Hm Ho. pose proof (Z.div_mod v (2 ^ 21) ltac:(lia)) as Hd.
  split; [unfold u64_range; lia|]. unfold is_canonical, u64_shr in *.
  replace (Z.shiftr (v + o) 47) with (Z.shiftr v 47); [done|].
  replace 47 with (21 + 26) by lia. rewrite <- !Z.shiftr_shiftr, !(Z.shiftr_div_pow2 _ 21) by lia. f_equal.
  apply (Z.div_unique (v + o) (2 ^ 21) _ o); [left; lia|lia].
Qed.

(** A range of large pages that was mapped is a window. *)
Lemma range_window m' virt pages flags :
  0 ≤ pages → (∀ j, 0 ≤ j < pages → good_addr (virt + j * 2 ^ 21) ∧ (virt + j * 2 ^ 21) mod 2 ^ 21 = 0) →
  (∀ v, good_addr v → let page := v / 2 ^ 21 - virt / 2 ^ 21 in
     0 ≤ page < pages → mmu m' v = Some (mapped_to Large (ecam + page * 2 ^ 21) flags v)) →
  mapped_window virt (pages * 2 ^ 21) m'.
Proof.
  intros Hp Hgood Hmap o Ho. pose proof (Z.div_mod o (2 ^ 21) ltac:(lia)) as Hd.
  pose proof (Z.mod_pos_bound o (2 ^ 21) ltac:(lia)) as Hmb.
  assert (0 ≤ o / 2 ^ 21) by (apply Z.div_pos; lia).
  assert (o / 2 ^ 21 < pages) by (apply Z.div_lt_upper_bound; lia).
  destruct (Hgood 0 ltac:(lia)) as [_ Hv0]. rewrite Z.mul_0_l, Z.add_0_r in Hv0.
  pose proof (Z.div_mod virt (2 ^ 21) ltac:(lia)) as Hvd.
  assert (good_addr (virt + o)) as Hg.
  { destruct (Hgood (o / 2 ^ 21) ltac:(lia)) as [Hg Hm].
    replace (virt + o) with (virt + o / 2 ^ 21 * 2 ^ 21 + o mod 2 ^ 21) by lia. by apply good_in_page. }
  assert ((virt + o) / 2 ^ 21 = virt / 2 ^ 21 + o / 2 ^ 21) as Hq
    by (symmetry; apply (Z.div_unique _ _ _ (o mod 2 ^ 21)); [left; lia|lia]).
  assert ((virt + o) mod 2 ^ 21 = o mod 2 ^ 21) as Hr
    by (symmetry; apply (Z.mod_unique _ _ (virt / 2 ^ 21 + o / 2 ^ 21)); [left; lia|lia]).
  specialize (Hmap _ Hg). cbv zeta in Hmap. rewrite Hq in Hmap. rewrite Hmap by lia.
  unfold mapped_to. rewrite large_bytes, Hr. eexists. f_equal. f_equal. lia.
Qed.

Section init.
Context (I : KS → Prop) `{!KernelInv h top I} `{!UAcpi KS}.

(** What bringing PCI up has no business with: the interrupt flag, the handlers and
    the clock. *)
Definition seen (m : KS) : bool * list (Slot Fn) * TscState := (lget cpu_if m, lget handlers m, lget tsc_state m).

Lemma seen_step m m' : vmm_step (Res := nobody) m m' → seen m' = seen m.
Proof. intros (s & v & -> & [[Hif _] _]). unfold seen. cbn. by rewrite Hif. Qed.

(** Giving the table back leaves the window, the device, [MCFG_ADDRESS] and these
    alone. *)
Definition unref_harmless (t : uacpi_table) (base len : Z) : Prop := ∀ m, I m →
  wp (uacpi_table_unref t) m (λ _ m', I m' ∧ lget dev m' = lget dev m ∧
    lget MCFG_ADDRESS m' = lget MCFG_ADDRESS m ∧ seen m' = seen m ∧ ∀ v, base ≤ v < base + len → mmu m' v = mmu m v).

Lemma pci_init_spec n m m1 status t :
  let e := mcfg_entry t in
  let base := ecam + h in
  let len := mcfg_pages e * 2 ^ 21 in
  let cfg := cfg_of m1 in
  uacpi_table_find_by_signature "MCFG" m = Ok ((status, t), m1) → I m1 →
  0 ≤ start_bus e ≤ end_bus e → end_bus e < 256 → address e = ecam → 0 ≤ ecam → ecam + len ≤ 2 ^ 52 →
  base + 2 ^ 28 ≤ 2 ^ 64 → unref_harmless t base len →
  ascending cfg (start_bus e) → (∀ b, rtc (leads cfg) (start_bus e) b → in_window len b) → (256 ≤ n)%nat →
  ∃ r m', pci_init n m = Ok (r, m') ∧
    match r with
    | RErr (McfgNotFound _) => status ≠ UACPI_STATUS_OK ∧ m' = m1
    | RErr (CouldNotMap _) => I m' ∧ vmm_step (Res := nobody) m1 m' ∧
        lget MCFG_ADDRESS m' = lget MCFG_ADDRESS m1 ∧ ∀ v, good_addr v → mmu m' v = mmu m1 v
    | ROk l => I m' ∧ lget MCFG_ADDRESS m' = base ∧ mapped_window base len m' ∧
        pci_conf (lget dev m') = pci_conf (lget dev m1) ∧ seen m' = seen m1 ∧
        ∀ f, f ∈ l ↔ ∃ b, rtc (leads cfg) (start_bus e) b ∧ f ∈ bus_functions cfg b
    end.
Proof.
  intros e base len cfg Hfind Hi Hse Hend Haddr He0 He52 Hb64 Hunref Hasc Hin Hn.
  pose proof (inv_kernel (h := h) (top := top) m1 Hi) as Hk. apply (wp_ok (pci_init n) m). unfold pci_init. apply wp_bind. unfold wp at 1. rewrite Hfind. cbn [fst snd].
  unfold uacpi_status_to_result. destruct (Z.eqb_spec status UACPI_STATUS_OK) as [->|Hne]; [|by apply wp_ret].
  cbv zeta. fold e. destruct (mcfg_pages_bounds e Hse Hend) as (Hpg & Hlen1 & Hlen2).
  apply wp_bind, wp_u64_sub; [unfold u64_range; lia|]. apply wp_bind, wp_u64_add; [unfold u64_range; lia|].
  rewrite u64_shl_mul by lia. apply wp_bind, wp_gets. rewrite (kernel_hhdm (Res := nobody) h top m1 Hk), Haddr.
  destruct (kernel_hhdm_pos (Res := nobody) h top m1 Hk) as [Hh _]. apply wp_bind, wp_u64_add; [unfold u64_range; lia|].
  rewrite large_bytes. fold (mcfg_pages e). fold base.
  eapply wp_seq; [apply (inv_map_range h top I m1 base ecam (mcfg_pages e) uncached_flags Large Hi);
    [lia|lia|lia|apply uncached_flags_ok|rewrite large_bytes; lia|rewrite large_bytes; lia]|].
  rewrite large_bytes. cbv beta zeta. intros [[]|err] m2 (Hk2 & Hs2 & Hgood & Ht2).
  2:{ apply wp_ret. split_and!; [done|done| |done]. by destruct Hs2 as (s & v & -> & _). }
  apply wp_bind, wp_modify. set (m3 := lset MCFG_ADDRESS base m2).
  eapply wp_seq; [apply (Hunref m3); by apply (inv_frame (h := h) (top := top) m2)|]. cbv beta. intros _ m4 (Hk4 & Hd4 & Hm4 & Hs4 & Hv4).
  assert (mapped_window base len m2) as Hwin2.
  { apply (range_window m2 base (mcfg_pages e) uncached_flags); [lia|by apply Hgood|].
    intros v Hgv page Hpage. rewrite (Ht2 v Hgv). by rewrite decide_True. }
  assert (mapped_window base len m4) as Hwin4.
  { intros o Ho. rewrite Hv4 by lia. exact (Hwin2 o Ho). }
  assert (base mod 4 = 0) as Hb4.
  { destruct (Hgood eq_refl 0 ltac:(lia)) as [_ Hm]. rewrite Z.mul_0_l, Z.add_0_r in Hm.
    rewrite <- (Z.mod_mod_divide base (2 ^ 21) 4), Hm by (by exists (2 ^ 19)). done. }
  assert (cfg_of m4 = cfg) as Hcfg.
  { unfold cfg, cfg_of. rewrite Hd4. by destruct Hs2 as (s & v & -> & _). }
  assert (reachable m4 (rtc (leads cfg) (start_bus e))) as Hreach.
  { right. exists base, len. split_and!; [by rewrite Hm4|lia|lia|done|done|].
    intros b Hb. split; [by apply Hin|]. destruct (rtc_inv_r _ _ Hb) as [<-|(z & _ & Hz)]; [lia|].
    apply leads_range in Hz. lia. }
  pose proof (reachable_reads m4 _ Hreach) as Hreads. rewrite Hcfg in Hreads.
  eapply wp_seq; [apply (enum_bus_spec cfg dev MCFG_ADDRESS read_volatile (same_conf m4) (rtc (leads cfg) (start_bus e)));
    [exact Hreads|done|done|lia|lia|exists (lget dev m4); by rewrite lens_set_get]|].
  cbv beta. intros l m5 (-> & d & -> & Hd). apply wp_ret. split_and!.
  - by apply (inv_frame (h := h) (top := top) m4).
  - exact Hm4.
  - by apply mapped_window_dev.
  - rewrite lens_get_set, Hd, Hd4. by destruct Hs2 as (s & v & -> & _).
  - transitivity (seen m4); [done|]. rewrite Hs4. by transitivity (seen m2); [|apply seen_step].
  - intros f. apply scan_in; [done|lia|lia].
Qed.

End init.

End pci_proofs.
