(* ===== verification/Apic.v ===== *)
(** * Apic: interrupt controllers and the keyboard ([src/kernel/src/apic.rs])

    [init] masks the legacy controllers, attaches the local one, installs the
    keyboard's handler, finds the I/O controller and the keyboard's line in the
    tables, maps the controller's registers and enables the line.  The file also
    says what the kernel's boxed handlers are and what running one does. *)

From S2P Require Import Prelude Bits Mem Pmm Dll PmmInv PmmList PmmOps PmmSpec.
From S2P Require Import Locks FrameAlloc Heap Paging Vmm Walk VmmInv VmmOps VmmMap VmmUnmap VmmSpec VmmRange KernelVmm.
From S2P Require Import Devices Tsc Pci Idt IdtSpec Kernel KernelMap Acpi KernelPci.

Section madt.
Context {St : Type} `{!UAcpi St}.

(** ** The interrupt controllers *)
Definition ioapic_cb (out : option (Z * Z)) (hdr : MadtEntry) : option (Z * Z) * decision :=
  if type_ hdr =? ACPI_MADT_ENTRY_TYPE_IOAPIC then
    (Some (ioapic_address hdr, ioapic_gsi_base hdr), BREAK)
  else (out, CONTINUE).

(** [struct IsoCtx] *)
Record IsoCtx := mkIsoCtx { source : Z; gsi : Z }.

Definition iso_cb (ctx : IsoCtx) (hdr : MadtEntry) : IsoCtx * decision :=
  if type_ hdr =? ACPI_MADT_ENTRY_TYPE_INTERRUPT_SOURCE_OVERRIDE then
    if iso_source hdr =? source ctx then (mkIsoCtx (source ctx) (iso_gsi hdr), BREAK)
    else (ctx, CONTINUE)
  else (ctx, CONTINUE).

Inductive ApicError := AcpiTableNotFound | IoApicNotFound | ApicCouldNotMap (e : MapError).

Definition find_ioapic : M St (result (Z * Z) ApicError) :=
  let! r := uacpi_table_find_by_signature "APIC" in
  if negb (fst r =? UACPI_STATUS_OK) then ret (RErr AcpiTableNotFound)
  else
    let out := uacpi_for_each_subtable (snd r) MADT_SIZE ioapic_cb None in
    do! uacpi_table_unref (snd r);
    match out with
    | Some x => ret (ROk x)
    | None => ret (RErr IoApicNotFound)
    end.

Definition resolve_isa_irq (irq : Z) : M St Z :=
  let! r := uacpi_table_find_by_signature "APIC" in
  if negb (fst r =? UACPI_STATUS_OK) then ret irq
  else
    let ctx := uacpi_for_each_subtable (snd r) MADT_SIZE iso_cb (mkIsoCtx irq irq) in
    do! uacpi_table_unref (snd r);
    ret (gsi ctx).
End madt.

(** ** What the library documents *)

(** Call back in order until told to stop. *)
Fixpoint iterate {T : Type} (cb : T → MadtEntry → T * decision) (es : list MadtEntry) (t : T) : T :=
  match es with
  | [] => t
  | e :: es' =>
      match cb t e with
      | (t', BREAK) => t'
      | (t', CONTINUE) => iterate cb es' t'
      end
  end.

Class UAcpiLaws (St : Type) `{UAcpi St} := {
  madt_entries : uacpi_table → list MadtEntry;
  for_each_law (T : Type) t (cb : T → MadtEntry → T * decision) u :
    uacpi_for_each_subtable t MADT_SIZE cb u = iterate cb (madt_entries t) u
}.

Section madt_proofs.
Context {St : Type} `{!UAcpi St} `{!UAcpiLaws St}.

(** The first entry of a kind. *)
Definition first_entry (p : MadtEntry → bool) (es : list MadtEntry) : option MadtEntry :=
  snd <$> list_find p es.

Lemma first_entry_cons p e es : first_entry p (e :: es) = if p e then Some e else first_entry p es.
Proof.
  unfold first_entry. cbn [list_find]. destruct (p e); [by rewrite decide_True|].
  rewrite decide_False by (by intros []). by destruct (list_find _ es) as [[]|].
Qed.

Lemma iterate_ioapic es :
  iterate ioapic_cb es None =
    (λ e, (ioapic_address e, ioapic_gsi_base e)) <$> first_entry (λ e, type_ e =? ACPI_MADT_ENTRY_TYPE_IOAPIC) es.
Proof.
  induction es as [|e es IH]; [done|]. rewrite first_entry_cons. cbn [iterate]. unfold ioapic_cb at 1.
  by destruct (type_ e =? ACPI_MADT_ENTRY_TYPE_IOAPIC).
Qed.

Definition is_override (irq : Z) (e : MadtEntry) : bool :=
  (type_ e =? ACPI_MADT_ENTRY_TYPE_INTERRUPT_SOURCE_OVERRIDE) && (iso_source e =? irq).

Lemma iterate_iso irq g es :
  gsi (iterate iso_cb es (mkIsoCtx irq g)) = match first_entry (is_override irq) es with Some e => iso_gsi e | None => g end.
Proof.
  induction es as [|e es IH]; [done|]. rewrite first_entry_cons. cbn [iterate]. unfold iso_cb at 1, is_override at 1.
  cbn [source]. destruct (type_ e =? _); cbn [andb]; [|done]. by destruct (iso_source e =? irq).
Qed.

(** What [apic::init] asks of the interrupt controller table.  [find_ioapic] is
    the address and interrupt base of the first I/O APIC entry, or says that there
    is no table or no such entry; [resolve_isa_irq] is the global interrupt the
    first override names for the line, or the line's own number when there is no
    table or no override.  A table that was found is given back. *)
Theorem madt_lookup_correct s s1 s2 status t x irq :
  uacpi_table_find_by_signature "APIC" s = Ok ((status, t), s1) → uacpi_table_unref t s1 = Ok (x, s2) →
  let found := status =? UACPI_STATUS_OK in
  let s' := if found then s2 else s1 in
  find_ioapic s = Ok (
    if found then
      match first_entry (λ e, type_ e =? ACPI_MADT_ENTRY_TYPE_IOAPIC) (madt_entries t) with
      | Some e => ROk (ioapic_address e, ioapic_gsi_base e)
      | None => RErr IoApicNotFound
      end
    else RErr AcpiTableNotFound, s') ∧
  resolve_isa_irq irq s = Ok (
    if found then
      match first_entry (is_override irq) (madt_entries t) with Some e => iso_gsi e | None => irq end
    else irq, s').
Proof.
  intros Hfind Hunref found s'. unfold find_ioapic, resolve_isa_irq, bind, ret. rewrite Hfind. cbn [fst snd].
  subst s'. fold found. destruct found; cbn [negb]; [|done]. rewrite Hunref, !for_each_law, iterate_ioapic, iterate_iso.
  by destruct (first_entry _ _).
Qed.

End madt_proofs.

(** ** The kernel's handlers *)

(** The closures the kernel installs: the keyboard's, and the one
    [uacpi_kernel_install_interrupt_handler] makes, which has captured a handler of
    the library, if any, and its context. *)
Inductive KHandler :=
| Keyboard
| AcpiHandler (handler : option Z) (ctx : Z).

(** The registers and drivers of the [x86] crate. *)
Class X86Apic (D : Type) := {
  IA32_X2APIC_APICID : Z;
  IA32_X2APIC_EOI : Z;
  (** [X2APIC::new()] and [attach()] *)
  x2apic_attach : D → D;
  (** [IoApic::new(base).enable(irq, cpunum)] *)
  ioapic_enable : Z → Z → Z → D → D
}.

Section apic.
Context `{Profile} {A D : Type} `{!FrameAllocator A} `{!X86Paging} `{!Devices D} `{!X86Apic D} `{!X86Idt}.
Abbreviation KS := (Machine A (Kernel D KHandler)).
Context `{!UAcpi KS}.

Definition keyboard_handler : M KS unit :=
  do! inb dev 0x60;
  sys dev (Wrmsr IA32_X2APIC_EOI 0).

(** No handler changes the frame or its captured variables. *)
Definition run_handler (h : KHandler) (frame : InterruptFrame) : M KS (InterruptFrame * KHandler) :=
  do! match h with
      | Keyboard => keyboard_handler
      | AcpiHandler (Some f) ctx => do! uacpi_call_handler f ctx; ret tt
      | AcpiHandler None _ => ret tt
      end;
  ret (frame, h).

(** The keyboard's closure captures nothing: its box takes no memory.  The other
    captures two words. *)
Definition handler_layout (h : KHandler) : option Layout :=
  match h with
  | Keyboard => None
  | AcpiHandler _ _ => Some (mkLayout 16 8)
  end.

Definition handler_box (h : KHandler) : M KS Z :=
  match handler_layout h with
  | None => ret 1
  | Some l =>
      let! p := on_heap (alloc l) in
      do! assert_ (negb (p =? 0)) "memory allocation failed";
      ret p
  end.

Definition handler_drop (b : Z) (h : KHandler) : M KS unit :=
  match handler_layout h with
  | None => ret tt
  | Some l => on_heap (dealloc b l)
  end.

(** The first half of [init], up to the search for the controller. *)
Definition apic_setup : M KS Z :=
  do! outb dev 0x21 0xFF;
  do! outb dev 0xA1 0xFF;
  do! dev_put dev x2apic_attach;
  let! id := rdmsr dev IA32_X2APIC_APICID in
  let bsp_id := u32_of id in
  do! install_handler handlers handler_box handler_drop 0x21 Keyboard;
  ret bsp_id.

(** The second half, once it is found. *)
Definition apic_route (bsp_id phys base_gsi : Z) : M KS (result unit ApicError) :=
  let! kb_gsi := resolve_isa_irq 1 in
  do! assert_ (base_gsi <=? kb_gsi) "keyboard gsi below ioapic base";
  let! mapped := on_vmm (map_hhdm phys uncached_flags Base) in
  match mapped with
  | RErr e => ret (RErr (ApicCouldNotMap e))
  | ROk virt =>
      let! pin := u32_sub kb_gsi base_gsi in
      do! dev_put dev (ioapic_enable virt (u8_of pin) (u8_of bsp_id));
      do! modify (lset cpu_if true);
      ret (ROk tt)
  end.

Definition apic_init : M KS (result unit ApicError) :=
  let! bsp_id := apic_setup in
  let! r := find_ioapic in
  match r with
  | RErr e => ret (RErr e)
  | ROk (phys, base_gsi) => apic_route bsp_id phys base_gsi
  end.
End apic.

Section apic_proofs.
Context `{Profile} {A D : Type} `{!FrameAllocator A} `{!X86Paging} `{!PagingLaws} `{!Devices D} `{!X86Apic D} `{!X86Idt} `{Res : !Reserved}.
Abbreviation KS := (Machine A (Kernel D KHandler)).
Context `{!UAcpi KS}.
Context (h top : Z).

(** A key press is read and acknowledged.  With the keyboard's handler
    installed, interrupt [0x21] reads the scan code from port [0x60] once, then
    signals the end of the interrupt to the local controller, and returns the frame
    as it was; the handler stays installed and nothing else changes. *)
Theorem keyboard_interrupt_correct frame b (m : KS) :
  vector frame = 0x21 → lget handlers m !! 0x21%nat = Some (unlocked (Some (b, Keyboard))) →
  isr_handler dev handlers run_handler frame m =
    Ok (frame, lset dev (dev_sys (Wrmsr IA32_X2APIC_EOI 0) (snd (dev_in 1 0x60 (lget dev m)))) m).
Proof.
  intros Hv Hslot. rewrite isr_handler_class by lia. rewrite Hv. change (classify 0x21) with Handled. cbv iota.
  set (d := dev_sys _ _). set (m1 := put_slot handlers 0x21 (locked (Some (b, Keyboard))) m).
  rewrite (dispatch_some handlers run_handler 0x21 b Keyboard frame frame Keyboard m (lset dev d m1)).
  - do 2 f_equal. unfold m1. assert (∀ x, put_slot handlers 0x21 x (lset dev d (put_slot handlers 0x21 (locked (Some (b, Keyboard))) m))
      = lset dev d (put_slot handlers 0x21 x (put_slot handlers 0x21 (locked (Some (b, Keyboard))) m))) as ->
      by (intros; by destruct m as [? []]).
    by rewrite put_slot_put, put_slot_same by (exact _ || exact Hslot).
  - exact Hslot.
  - done.
  - apply (put_slot_lookup handlers 0x21 (locked (Some (b, Keyboard))) m). by apply lookup_lt_Some in Hslot.
Qed.

Lemma box_keyboard (m : KS) : handler_box Keyboard m = Ok (1, m).
Proof. done. Qed.

(** What [apic_setup] returns and leaves. *)
Definition apic_start (m : KS) : Z * KS :=
  let d := x2apic_attach (dev_out 1 0xA1 0xFF (dev_out 1 0x21 0xFF (lget dev m))) in
  let '(id, d') := dev_rdmsr IA32_X2APIC_APICID d in
  (u32_of id, put_slot handlers 0x21 (unlocked (Some (1, Keyboard))) (lset dev d' m)).

Lemma apic_setup_run (m : KS) :
  lget handlers m !! 0x21%nat = Some (unlocked None) → apic_setup m = Ok (apic_start m).
Proof.
  intros Hslot. destruct (proj1 (wp_ok apic_setup m (λ r m', (r, m') = apic_start m))) as (r & m' & Heq & <-); [|done].
  unfold apic_setup, outb, rdmsr. repeat (apply wp_bind, wp_dev_put). apply wp_bind, wp_dev_get.
  rewrite !lens_get_set, !lens_set_set. unfold apic_start.
  destruct (dev_rdmsr IA32_X2APIC_APICID _) as [id d']. cbn [fst snd]. apply wp_bind. unfold install_handler.
  apply wp_bind. unfold wp at 1. rewrite box_keyboard.
  set (m0 := lset dev d' m). assert (lget handlers m0 !! Z.to_nat 0x21 = Some (unlocked None)) as Hs by exact Hslot.
  unfold wp at 1. rewrite (replace_run handlers handler_drop 0x21 None _ m0 (put_slot handlers 0x21 (locked None) m0)).
  - apply wp_ret. by rewrite put_slot_put by exact _.
  - exact Hs.
  - done.
  - apply put_slot_lookup; [exact _|]. by apply lookup_lt_Some in Hs.
Qed.

Section init.
Context (I : KS → Prop) `{!KernelInv h top I}.

Lemma apic_init_spec (m m2 : KS) fr :
  lget handlers m !! 0x21%nat = Some (unlocked None) →
  let '(bsp_id, m1) := apic_start m in
  find_ioapic m1 = Ok (fr, m2) →
  match fr with
  | RErr e => apic_init m = Ok (RErr e, m2)
  | ROk (phys, base_gsi) => ∀ kb_gsi m3,
      resolve_isa_irq 1 m2 = Ok (kb_gsi, m3) → I m3 →
      0 ≤ phys < 2 ^ 52 → phys + h < 2 ^ 64 → 0 ≤ base_gsi → kb_gsi < 2 ^ 32 →
      if kb_gsi <? base_gsi then panics apic_init m
      else ∃ r m', apic_init m = Ok (r, m') ∧ I m' ∧
        match r with
        | RErr _ => vmm_step (Res := nobody) m3 m' ∧ ∀ v, good_addr v → mmu m' v = mmu m3 v
        | ROk _ => lget cpu_if m' = true ∧ lget handlers m' = lget handlers m3 ∧ lget tsc_state m' = lget tsc_state m3 ∧
            fst <$> mmu m' (phys + h) = Some phys ∧
            lget dev m' = ioapic_enable (phys + h) (u8_of (kb_gsi - base_gsi)) (u8_of bsp_id) (lget dev m3)
        end
  end.
Proof.
  intros Hslot. pose proof (apic_setup_run m Hslot) as Hsetup. destruct (apic_start m) as [bsp_id m1]. intros Hfind.
  assert (apic_init m = match fr with RErr e => Ok (RErr e, m2)
    | ROk (phys, base_gsi) => apic_route bsp_id phys base_gsi m2 end) as Hinit.
  { unfold apic_init, bind. rewrite Hsetup, Hfind. by destruct fr as [[]|]. }
  unfold panics. rewrite Hinit. destruct fr as [[phys base_gsi]|e]; [|done].
  intros kb_gsi m3 Hres Hi Hp Hb Hbase Hgsi. destruct (Z.ltb_spec kb_gsi base_gsi) as [Hlt|Hge].
  { unfold apic_route, bind, assert_. rewrite Hres. destruct (Z.leb_spec base_gsi kb_gsi); [lia|]. by eexists. }
  apply (wp_ok _ m2 (λ r m', I m' ∧ match r with
    | RErr _ => vmm_step (Res := nobody) m3 m' ∧ ∀ v, good_addr v → mmu m' v = mmu m3 v
    | ROk _ => lget cpu_if m' = true ∧ lget handlers m' = lget handlers m3 ∧
        lget tsc_state m' = lget tsc_state m3 ∧ fst <$> mmu m' (phys + h) = Some phys ∧
        lget dev m' = ioapic_enable (phys + h) (u8_of (kb_gsi - base_gsi)) (u8_of bsp_id) (lget dev m3) end)).
  unfold apic_route. apply wp_bind. unfold wp at 1. rewrite Hres. apply wp_bind, wp_assert; [by apply Z.leb_le|].
  eapply wp_seq; [apply (inv_map_hhdm h top I m3 phys uncached_flags Base Hi Hp Hb uncached_flags_ok)|].
  cbv beta. intros [virt|e] m4 (Hk4 & Hs4 & Hr); [|by apply wp_ret].
  destruct Hr as (-> & Hmmu). apply wp_bind, wp_uint_arith; [lia|].
  apply wp_bind, wp_dev_put, wp_bind, wp_modify, wp_ret. split.
  - by apply (inv_if (h := h) (top := top)), (inv_frame (h := h) (top := top) m4).
  - destruct Hs4 as (s & v & -> & _). by split_and!.
Qed.

(** C20: [apic::init] on every branch.  Both legacy controllers are masked, the
    local controller attached and the keyboard's handler installed before anything
    can fail.  An error of the search is passed on.  A keyboard line below the
    controller's first is a panic.  If the controller's page cannot be mapped no
    translation changes and the interrupt flag is left alone.  Otherwise the page
    is mapped at its place in the direct map, the keyboard's pin is enabled for
    this processor, and interrupts are on; the other handlers and the clock are as
    they were.  The kernel's memory stays in order, in the sense of any invariant
    [I] that calls to the page tables keep. *)
Theorem apic_init_correct (m m2 : KS) fr :
  lget handlers m !! 0x21%nat = Some (unlocked None) →
  let '(bsp_id, m1) := apic_start m in
  find_ioapic m1 = Ok (fr, m2) →
  match fr with
  | RErr e => apic_init m = Ok (RErr e, m2)
  | ROk (phys, base_gsi) => ∀ kb_gsi m3,
      resolve_isa_irq 1 m2 = Ok (kb_gsi, m3) → I m3 →
      0 ≤ phys < 2 ^ 52 → phys + h < 2 ^ 64 → 0 ≤ base_gsi → kb_gsi < 2 ^ 32 →
      if kb_gsi <? base_gsi then panics apic_init m
      else ∃ r m', apic_init m = Ok (r, m') ∧ I m' ∧
        match r with
        | RErr _ => vmm_step (Res := nobody) m3 m' ∧ ∀ v, good_addr v → mmu m' v = mmu m3 v
        | ROk _ => lget cpu_if m' = true ∧ lget handlers m' = lget handlers m3 ∧ lget tsc_state m' = lget tsc_state m3 ∧
            fst <$> mmu m' (phys + h) = Some phys ∧
            lget dev m' = ioapic_enable (phys + h) (u8_of (kb_gsi - base_gsi)) (u8_of bsp_id) (lget dev m3)
        end
  end.
Proof. exact (apic_init_spec m m2 fr). Qed.
End init.
End apic_proofs.
