(* ===== verification/Uacpi.v ===== *)
(** * Uacpi: what the kernel provides to the ACPI library ([src/kernel/src/acpi/uacpi.rs])

    The callbacks through which [uACPI] maps memory, reaches devices, allocates,
    keeps time, synchronises and installs interrupt handlers.  A handle is an
    address or a number, as in the code; a value returned through a pointer is part
    of the result.  Functions that wait for the clock take fuel.  Messages are left
    out, as elsewhere. *)

From S2P Require Import Prelude Bits Mem Pmm Dll PmmInv PmmList PmmOps PmmSpec.
From S2P Require Import Locks FrameAlloc PmmGlobal MmInit Heap Paging Vmm.
From S2P Require Import Devices Tsc Pci Idt Kernel Acpi KernelPci Apic.

Section uacpi.
Context `{Profile} {A D : Type} `{!FrameAllocator A} `{!X86Paging} `{!Devices D}.
Abbreviation KS := (Machine A (Kernel D KHandler)).
Abbreviation KM := (M KS).
Context `{!UAcpi KS}.

(** The boot loader's answers: the address of the RSDP, and the revision of the
    protocol. *)
Definition uacpi_kernel_get_rsdp (out_is_null : bool) (response : option Z) (actual_revision : option Z) :
    KM (Z * option Z) :=
  if out_is_null then ret (UACPI_STATUS_INVALID_ARGUMENT, None)
  else
    match response with
    | Some address =>
        let! hhdm := gets (λ m : KS, sy_hhdm (m_sys m)) in
        let phys := if match actual_revision with Some r => r =? 3 | None => false end then address
                    else wrap64 (address - hhdm) in
        ret (UACPI_STATUS_OK, Some phys)
    | None => ret (UACPI_STATUS_NOT_FOUND, None)
    end.

(** ** Mapping *)

(** [while phys < end]; [false] when a page could not be mapped. *)
Fixpoint map_pages (fuel : nat) (phys end_ hhdm : Z) : KM bool :=
  match fuel with
  | O => nofuel
  | S fuel' =>
      if phys <? end_ then
        let! virt := u64_add phys hhdm in
        let! r := on_vmm (map virt phys uncached_flags Base) in
        match r with
        | ROk _ | RErr AlreadyMapped =>
            let! phys' := u64_add phys BASE_PAGE_SIZE in
            map_pages fuel' phys' end_ hhdm
        | RErr _ => ret false
        end
      else ret true
  end.

(** How often the loops of [map] and [unmap] can run. *)
Definition page_fuel (first end_ : Z) : nat := S (Z.to_nat ((end_ - first) / BASE_PAGE_SIZE)).

Definition uacpi_kernel_map (addr len : Z) : KM Z :=
  let! hhdm := gets (λ m : KS, sy_hhdm (m_sys m)) in
  let page := BASE_PAGE_SIZE in
  let! phys := align_down addr page in
  let! e := u64_add addr len in
  let! end_ := align_up e page in
  let! ok := map_pages (page_fuel phys end_) phys end_ hhdm in
  if (ok : bool) then u64_add addr hhdm else ret 0.

Fixpoint unmap_pages (fuel : nat) (virt end_ : Z) : KM unit :=
  match fuel with
  | O => nofuel
  | S fuel' =>
      if virt <? end_ then
        do! on_vmm (unmap virt Base);
        let! virt' := u64_add virt BASE_PAGE_SIZE in
        unmap_pages fuel' virt' end_
      else ret tt
  end.

Definition uacpi_kernel_unmap (addr len : Z) : KM unit :=
  let page := BASE_PAGE_SIZE in
  let! virt := align_down addr page in
  let! e := u64_add addr len in
  let! end_ := align_up e page in
  unmap_pages (page_fuel virt end_) virt end_.

(** ** Configuration space and ports *)
Definition uacpi_kernel_pci_device_open (address : PciAddress) : KM (Z * Z) :=
  let! p := Box_new (OPci (mkPciAddress (bus address) (device address) (function address))) in
  ret (UACPI_STATUS_OK, p).

Definition uacpi_kernel_pci_device_close (handle : Z) : KM unit :=
  if negb (handle =? 0) then Box_drop handle else ret tt.

(** [*(device as *const PciAddress)] *)
Definition pci_handle (handle : Z) : KM PciAddress :=
  let! o := Box_get handle in
  match o with OPci a => ret a | _ => panic "dangling pointer" end.

Definition uacpi_kernel_pci_read (w handle offset : Z) : KM (Z * Z) :=
  let! a := pci_handle handle in
  let! v := pci_read dev MCFG_ADDRESS read_volatile w a offset in
  ret (UACPI_STATUS_OK, v).

Definition uacpi_kernel_pci_read8 := uacpi_kernel_pci_read 1.
Definition uacpi_kernel_pci_read16 := uacpi_kernel_pci_read 2.
Definition uacpi_kernel_pci_read32 := uacpi_kernel_pci_read 4.

Definition uacpi_kernel_pci_write (w handle offset value : Z) : KM Z :=
  let! a := pci_handle handle in
  do! pci_write dev MCFG_ADDRESS write_volatile w a offset value;
  ret UACPI_STATUS_OK.

Definition uacpi_kernel_pci_write8 := uacpi_kernel_pci_write 1.
Definition uacpi_kernel_pci_write16 := uacpi_kernel_pci_write 2.
Definition uacpi_kernel_pci_write32 := uacpi_kernel_pci_write 4.

Definition uacpi_kernel_io_map (base len : Z) : KM (Z * Z) := ret (UACPI_STATUS_OK, base).

Definition uacpi_kernel_io_unmap (handle : Z) : KM unit := ret tt.

(** [handle as u16 + offset as u16] *)
Definition io_port (handle offset : Z) : KM Z := u16_add (u16_of handle) (u16_of offset).

Definition uacpi_kernel_io_read8 (handle offset : Z) : KM (Z * Z) :=
  let! p := io_port handle offset in let! v := inb dev p in ret (UACPI_STATUS_OK, v).
Definition uacpi_kernel_io_read16 (handle offset : Z) : KM (Z * Z) :=
  let! p := io_port handle offset in let! v := inw dev p in ret (UACPI_STATUS_OK, v).
Definition uacpi_kernel_io_read32 (handle offset : Z) : KM (Z * Z) :=
  let! p := io_port handle offset in let! v := inl dev p in ret (UACPI_STATUS_OK, v).

Definition uacpi_kernel_io_write8 (handle offset value : Z) : KM Z :=
  let! p := io_port handle offset in do! outb dev p value; ret UACPI_STATUS_OK.
Definition uacpi_kernel_io_write16 (handle offset value : Z) : KM Z :=
  let! p := io_port handle offset in do! outw dev p value; ret UACPI_STATUS_OK.
Definition uacpi_kernel_io_write32 (handle offset value : Z) : KM Z :=
  let! p := io_port handle offset in do! outl dev p value; ret UACPI_STATUS_OK.

(** ** Memory *)
Definition uacpi_layout (size : Z) : Layout := mkLayout (Z.max size 1) 16.

Definition uacpi_kernel_alloc (size : Z) : KM Z := on_heap (alloc (uacpi_layout size)).

Definition uacpi_kernel_free (mem size_hint : Z) : KM unit :=
  if negb (mem =? 0) then on_heap (dealloc mem (uacpi_layout size_hint)) else ret tt.

(** ** Time *)
Definition uacpi_kernel_get_nanoseconds_since_boot : KM Z := current_time_ns dev tsc_state.

(** [while current_time_ns() < end {}] *)
Fixpoint wait_until (fuel : nat) (end_ : Z) : KM unit :=
  match fuel with
  | O => nofuel
  | S fuel' =>
      let! now := current_time_ns dev tsc_state in
      if now <? end_ then wait_until fuel' end_ else ret tt
  end.

Definition uacpi_kernel_stall (usec : Z) (fuel : nat) : KM unit :=
  let! start := current_time_ns dev tsc_state in
  let! d := u64_mul usec 1000 in
  let! end_ := u64_add start d in
  wait_until fuel end_.

Definition uacpi_kernel_sleep (msec : Z) (fuel : nat) : KM unit :=
  let! start := current_time_ns dev tsc_state in
  let! d := u64_mul msec 1000000 in
  let! end_ := u64_add start d in
  wait_until fuel end_.

(** ** Interrupts and locks *)
Definition uacpi_kernel_get_thread_id : KM Z := ret 0.

Definition uacpi_kernel_disable_interrupts : KM Z :=
  let! enabled := gets (lget cpu_if) in
  do! modify (lset cpu_if false);
  ret (if (enabled : bool) then 1 else 0).

Definition uacpi_kernel_restore_interrupts (state : Z) : KM unit :=
  if negb (state =? 0) then modify (lset cpu_if true) else ret tt.

(** [&*(handle as *const SpinLock)], as a place. *)
Definition lock_at (handle : Z) : lens KS SpinLock :=
  mkLens (λ m, match lget objs m !! handle with Some (OLock l) => l | _ => SpinLock_INIT end)
         (λ l m, lset objs (<[handle := OLock l]> (lget objs m)) m).

Definition lock_handle (handle : Z) : KM unit :=
  let! o := Box_get handle in
  match o with OLock _ => ret tt | _ => panic "dangling pointer" end.

Definition uacpi_kernel_create_spinlock : KM Z := Box_new (OLock SpinLock_INIT).

Definition uacpi_kernel_free_spinlock (handle : Z) : KM unit :=
  if negb (handle =? 0) then Box_drop handle else ret tt.

Definition uacpi_kernel_lock_spinlock (handle : Z) : KM Z :=
  let! state := uacpi_kernel_disable_interrupts in
  do! (if negb (handle =? 0) then do! lock_handle handle; spin_lock 1 [] (lock_at handle) else ret tt);
  ret state.

Definition uacpi_kernel_unlock_spinlock (handle flags : Z) : KM unit :=
  do! (if negb (handle =? 0) then do! lock_handle handle; spin_unlock (lock_at handle) else ret tt);
  uacpi_kernel_restore_interrupts flags.

Definition uacpi_kernel_create_mutex : KM Z := uacpi_kernel_create_spinlock.

Definition uacpi_kernel_free_mutex (handle : Z) : KM unit := uacpi_kernel_free_spinlock handle.

(** The loop of the timed case. *)
Fixpoint acquire_loop (fuel : nat) (mutex time timeout : Z) (locked : bool) : KM bool :=
  match fuel with
  | O => nofuel
  | S fuel' =>
      let! now := current_time_ns dev tsc_state in
      let! d := u64_mul timeout 1000000 in
      let! limit := u64_add time d in
      if now <? limit then
        let! locked := spin_try_lock (lock_at mutex) in
        if (locked : bool) then ret true
        else do! uacpi_kernel_sleep 1 fuel'; acquire_loop fuel' mutex time timeout false
      else ret locked
  end.

Definition uacpi_kernel_acquire_mutex (handle timeout : Z) (fuel : nat) : KM Z :=
  do! lock_handle handle;
  if timeout =? 0xFFFF then
    do! spin_lock 1 [] (lock_at handle);
    ret UACPI_STATUS_OK
  else
    let! locked :=
      if timeout =? 0 then spin_try_lock (lock_at handle)
      else let! time := current_time_ns dev tsc_state in acquire_loop fuel handle time timeout false in
    ret (if (locked : bool) then UACPI_STATUS_OK else UACPI_STATUS_TIMEOUT).

Definition uacpi_kernel_release_mutex (handle : Z) : KM unit :=
  do! lock_handle handle;
  spin_unlock (lock_at handle).

(** ** Events *)
Definition event_load (handle : Z) : KM Z :=
  let! o := Box_get handle in
  match o with OEvent c => ret c | _ => panic "dangling pointer" end.

Definition event_store (handle v : Z) : KM unit := Box_set handle (OEvent v).

(** [SimpleEvent::decrement]; the exchange fails when the counter has changed since
    it was read. *)
Fixpoint decrement (fuel : nat) (handle : Z) : KM bool :=
  match fuel with
  | O => nofuel
  | S fuel' =>
      let! value := event_load handle in
      if value =? 0 then ret false
      else
        let! current := event_load handle in
        if current =? value then
          do! event_store handle (value - 1);
          ret (negb (current =? 0))
        else decrement fuel' handle
  end.

Definition uacpi_kernel_create_event : KM Z := Box_new (OEvent 0).

Definition uacpi_kernel_free_event (handle : Z) : KM unit :=
  if negb (handle =? 0) then Box_drop handle else ret tt.

Fixpoint wait_forever (fuel : nat) (handle : Z) : KM bool :=
  match fuel with
  | O => nofuel
  | S fuel' =>
      let! ok := decrement 1 handle in
      if (ok : bool) then ret true
      else do! uacpi_kernel_sleep 10 fuel'; wait_forever fuel' handle
  end.

Fixpoint wait_timed (fuel : nat) (handle remaining : Z) : KM bool :=
  match fuel with
  | O => nofuel
  | S fuel' =>
      let! ok := decrement 1 handle in
      if (ok : bool) then ret true
      else if remaining <=? 0 then ret false
      else do! uacpi_kernel_sleep 10 fuel'; wait_timed fuel' handle (remaining - 10)
  end.

Definition uacpi_kernel_wait_for_event (handle timeout : Z) (fuel : nat) : KM bool :=
  do! event_load handle;
  if timeout =? 0xFFFF then wait_forever fuel handle else wait_timed fuel handle timeout.

(** [fetch_add] wraps around. *)
Definition uacpi_kernel_signal_event (handle : Z) : KM unit :=
  let! c := event_load handle in event_store handle (wrap64 (c + 1)).

Definition uacpi_kernel_reset_event (handle : Z) : KM unit :=
  do! event_load handle; event_store handle 0.

(** ** Interrupt handlers *)
Definition uacpi_kernel_install_interrupt_handler (irq : Z) (handler : option Z) (ctx : Z) : KM (Z * option Z) :=
  let! v := u32_add irq 0x20 in
  let vector := u8_of v in
  let! installed := is_handler_installed handlers vector in
  if (installed : bool) then ret (UACPI_STATUS_ALREADY_EXISTS, None)
  else
    do! install_handler handlers handler_box handler_drop vector (AcpiHandler handler ctx);
    ret (UACPI_STATUS_OK, Some vector).

Definition uacpi_kernel_uninstall_interrupt_handler (handler : option Z) (irq_handle : Z) : KM Z :=
  let vector := u8_of irq_handle in
  do! clear_handler handlers handler_drop vector;
  ret UACPI_STATUS_OK.

(** ** Not implemented by the kernel *)
Definition uacpi_kernel_handle_firmware_request : KM Z := ret UACPI_STATUS_UNIMPLEMENTED.
Definition uacpi_kernel_schedule_work : KM Z := ret UACPI_STATUS_UNIMPLEMENTED.
Definition uacpi_kernel_wait_for_work_completion : KM Z := ret UACPI_STATUS_UNIMPLEMENTED.
End uacpi.
