(* ===== verification/UacpiTime.v ===== *)
(** * UacpiTime: waiting ([src/kernel/src/acpi/uacpi.rs])

    [uacpi_kernel_stall] and [uacpi_kernel_sleep] poll the clock; waiting for a
    mutex or an event with a timeout sleeps in between.  The theorems show that
    these loops end and how much time has passed, for an invariant counter of 268
    megahertz to 1 terahertz that has run for at most [2^60] cycles. *)

From S2P Require Import Prelude Bits Mem Pmm Dll PmmInv PmmList PmmOps PmmSpec.
From S2P Require Import Locks FrameAlloc PmmGlobal MmInit Heap Paging Vmm.
From S2P Require Import Eventually Devices Tsc Pci Idt Kernel Acpi KernelPci Apic Uacpi.

Section time.
Context `{Profile} {A D : Type} `{!FrameAllocator A} `{!X86Paging} `{!Devices D} `{!Clock D}.
Abbreviation KS := (Machine A (Kernel D KHandler)).
Context `{!UAcpi KS}.

Abbreviation now s := (clock (lget dev s)).
Abbreviation hz s := (tsc_frequency (lget tsc_state s)).
Abbreviation boot s := (boot_tsc (lget tsc_state s)).

(** The time the counter value [c] stands for. *)
Definition ns_at (s : KS) (c : Z) : Z := ticks_to_ns (hz s) (c - boot s).

(** A clock that was set up, and far from the end of its range. *)
Definition clock_sane (s : KS) : Prop := tsc_ready dev tsc_state s ∧ 2 ^ 28 ≤ hz s ≤ 2 ^ 40.

Lemma sane_dev s d : clock_sane s → now s ≤ clock d → clock_sane (lset dev d s).
Proof. intros [[Hf Hb] Hz] Hd. split; [split; [exact Hf|]|exact Hz]. split; [apply Hb|]. etransitivity; [apply Hb|exact Hd]. Qed.

Lemma ns_at_mono s c c' : clock_sane s → c ≤ c' → ns_at s c ≤ ns_at s c'.
Proof. intros [_ Hz] Hc. unfold ns_at. apply ticks_to_ns_mono; lia. Qed.

(** The time does not overflow. *)
Lemma ns_at_range s c : clock_sane s → now s ≤ c ≤ 2 ^ 61 → 0 ≤ ns_at s c < 2 ^ 63.
Proof.
  intros [[Hf Hb] Hz] Hc. unfold ns_at, ticks_to_ns. split; [apply Z.div_pos; lia|].
  apply Z.div_lt_upper_bound; [lia|]. nia.
Qed.

(** Enough ticks make any number of nanoseconds. *)
Lemma ns_at_add s c d n : clock_sane s → 0 ≤ d → 0 ≤ n → n * hz s ≤ d * 1000000000 → ns_at s c + n ≤ ns_at s (c + d).
Proof.
  intros [_ Hz] Hd Hn Hle. unfold ns_at, ticks_to_ns. rewrite <- Z.div_add by lia.
  apply Z.div_le_mono; [lia|]. lia.
Qed.

Lemma wp_now s (Q : Z → KS → Prop) :
  clock_sane s → now s ≤ 2 ^ 60 + 2 ^ 59 →
  (∀ d, now s < clock d ≤ now s + 2 ^ 32 → clock_sane (lset dev d s) → Q (ns_at s (clock d)) (lset dev d s)) →
  wp (current_time_ns dev tsc_state) s Q.
Proof.
  intros Hs Hn HQ. eapply wp_mono; [apply (current_time_spec dev tsc_state); [apply Hs|lia]|].
  cbv beta. intros ns s' (d & -> & Hd & ->). rewrite lens_get_set in *. pose proof (sane_dev s d Hs ltac:(lia)) as Hs'.
  assert (now s ≤ clock d ≤ 2 ^ 61) as Hc by lia. pose proof (ns_at_range s (clock d) Hs Hc) as Hr. unfold ns_at in *. unfold wrap64.
  rewrite Z.mod_small by lia. by apply HQ.
Qed.

(** Waiting for a time the counter reaches at [B], at the latest. *)
Lemma wait_until_returns s e B :
  clock_sane s → now s ≤ B → B ≤ 2 ^ 60 + 2 ^ 58 → e ≤ ns_at s B →
  returns (λ n, wait_until n e) s (λ _ s', ∃ d, s' = lset dev d s ∧ clock_sane s' ∧
    now s < clock d ≤ B + 2 ^ 32 ∧ e ≤ ns_at s (clock d)).
Proof.
  intros Hs Hn HB He. remember (Z.to_nat (B - now s)) as k eqn:Hk. revert s Hs Hn He Hk.
  induction k as [k IH] using lt_wf_ind. intros s Hs Hn He Hk.
  eapply (returns_S _ (λ n, let! t := current_time_ns dev tsc_state in if t <? e then wait_until n e else ret tt)); [done|].
  apply returns_bind, wp_now; [done|lia|]. intros d Hd Hsd.
  destruct (Z.ltb_spec (ns_at s (clock d)) e) as [Hlt|Hge].
  - assert (clock d < B) as HdB.
    { destruct (Z.lt_ge_cases (clock d) B) as [|Hle]; [done|]. pose proof (ns_at_mono s B (clock d) Hs Hle). lia. }
    assert (lget dev (lset dev d s) = d) as Hget by apply lens_get_set.
    eapply returns_mono; [apply (IH (Z.to_nat (B - clock d))); [lia|done|rewrite Hget; lia|exact He|by rewrite Hget]|].
    cbv beta. intros _ s' (d' & -> & Hs' & Hd' & He'). rewrite Hget in Hd'. exists d'. rewrite lens_set_set.
    split_and!; [done|by rewrite lens_set_set in Hs'|lia|lia|exact He'].
  - apply returns_ret. exists d. by split_and!; try lia.
Qed.

(** The state after some waiting: only the device moved on, from [s], by no more
    than [k] cycles, and at least [n] nanoseconds have passed. *)
Definition waited (s : KS) (k n : Z) (s' : KS) : Prop :=
  ∃ d, s' = lset dev d s ∧ clock_sane s' ∧ now s < clock d ≤ now s + k ∧ ns_at s (now s) + n ≤ ns_at s (clock d).

Lemma delay_returns (n u t : Z) s :
  clock_sane s → 0 ≤ n → 0 ≤ u → n * u < 2 ^ 62 → n * u * hz s ≤ t * 1000000000 → now s + t + 2 ^ 32 ≤ 2 ^ 60 + 2 ^ 58 → 0 ≤ t →
  returns (λ fuel, let! start := current_time_ns dev tsc_state in
                   let! d := u64_mul n u in
                   let! end_ := u64_add start d in wait_until fuel end_) s (λ _ s', waited s (t + 2 ^ 33) (n * u) s').
Proof.
  intros Hs Hn Hu Hnu Ht Hlim Ht0. apply returns_bind, wp_now; [done|lia|]. intros d Hd Hsd.
  apply returns_bind, wp_u64_mul; [unfold u64_range; nia|].
  assert (now s ≤ clock d ≤ 2 ^ 61) as Hc by lia. pose proof (ns_at_range s (clock d) Hs Hc) as Hr.
  apply returns_bind, wp_u64_add; [unfold u64_range; nia|].
  assert (lget dev (lset dev d s) = d) as Hget by apply lens_get_set.
  eapply returns_mono; [apply (wait_until_returns (lset dev d s) _ (clock d + t) Hsd); [rewrite Hget; lia|lia|]|].
  - exact (ns_at_add s (clock d) t (n * u) Hs Ht0 ltac:(nia) Ht).
  - cbv beta. intros _ s' (d' & -> & Hs' & Hd' & He). rewrite Hget, lens_set_set in *. exists d'.
    split_and!; [done|done|lia|lia|].
    assert (now s ≤ clock d) as Hle by lia. pose proof (ns_at_mono s _ _ Hs Hle).
    change (ns_at (lset dev d s) (clock d')) with (ns_at s (clock d')) in He. lia.
Qed.

Lemma sleep_returns ms s :
  clock_sane s → 0 ≤ ms ≤ 2 ^ 17 → now s + ms * hz s + 2 ^ 32 ≤ 2 ^ 60 + 2 ^ 58 →
  returns (uacpi_kernel_sleep ms) s (λ _ s', waited s (ms * hz s + 2 ^ 33) (ms * 1000000) s').
Proof. intros Hs Hms Hlim. pose proof Hs as [_ Hz]. apply delay_returns; [done|lia|lia|lia|nia|done|nia]. Qed.

(** C40: [uacpi_kernel_stall] and [uacpi_kernel_sleep] return, and when they do at
    least that many micro- or milliseconds have passed on the kernel's clock;
    nothing but the device has changed. *)
Theorem delay_correct s n :
  clock_sane s → now s ≤ 2 ^ 60 →
  (0 ≤ n < 2 ^ 8 → returns (uacpi_kernel_stall n) s (λ _ s', ∃ d, s' = lset dev d s ∧
     ns_at s (now s) + n * 1000 ≤ ns_at s (clock d))) ∧
  (0 ≤ n ≤ 2 ^ 17 → returns (uacpi_kernel_sleep n) s (λ _ s', ∃ d, s' = lset dev d s ∧
     ns_at s (now s) + n * 1000000 ≤ ns_at s (clock d))).
Proof.
  intros Hs Hn. pose proof Hs as [_ Hz]. split; intros Hr.
  - eapply returns_mono; [apply (delay_returns n 1000 (n * hz s) s Hs); [lia|lia|lia|nia|nia|nia]|].
    cbv beta. intros _ s' (d & -> & _ & _ & Hd). by exists d.
  - eapply returns_mono; [apply (sleep_returns n s Hs Hr); nia|].
    cbv beta. intros _ s' (d & -> & _ & _ & Hd). by exists d.
Qed.
End time.
