(* ===== verification/UacpiSync.v ===== *)
(** * UacpiSync: mutexes, events and spin locks ([src/kernel/src/acpi/uacpi.rs])

    The synchronisation objects the ACPI library asks for, on the one processor the
    kernel runs: what acquiring, waiting and signalling return and change, and how
    long they take. *)

From S2P Require Import Prelude Bits Mem Pmm Dll PmmInv PmmList PmmOps PmmSpec.
From S2P Require Import Locks FrameAlloc PmmGlobal MmInit Heap Paging Vmm.
From S2P Require Import Eventually Devices Tsc Pci Idt Kernel Acpi KernelPci Apic Uacpi UacpiTime.

Section sync.
Context `{Profile} {A D : Type} `{!FrameAllocator A} `{!X86Paging} `{!Devices D} `{!Clock D}.
Abbreviation KS := (Machine A (Kernel D KHandler)).
Context `{!UAcpi KS}.
Implicit Types m s : KS.

Abbreviation now s := (clock (lget dev s)).
Abbreviation hz s := (tsc_frequency (lget tsc_state s)).
Abbreviation obj m p := (lget objs m !! p).

(** The object at [p] replaced. *)
Definition with_obj (p : Z) (o : KObj) (m : KS) : KS := lset objs (<[p := o]> (lget objs m)) m.

Lemma with_obj_with p o o' m : with_obj p o (with_obj p o' m) = with_obj p o m.
Proof. unfold with_obj. by rewrite lens_get_set, lens_set_set, insert_insert_eq. Qed.

Lemma with_obj_same p o m : obj m p = Some o → with_obj p o m = m.
Proof. intros Ho. unfold with_obj. by rewrite insert_id, lens_set_get. Qed.

Lemma obj_with p o m : obj (with_obj p o m) p = Some o.
Proof. unfold with_obj. by rewrite lens_get_set, lookup_insert_eq. Qed.

Lemma obj_with_ne p q o m : q ≠ p → obj (with_obj p o m) q = obj m q.
Proof. intros Hq. unfold with_obj. by rewrite lens_get_set, lookup_insert_ne. Qed.

(** ** Locks *)
Definition Held : KObj := OLock (mkSpinLock true).
Definition Free : KObj := OLock (mkSpinLock false).

Lemma lock_handle_ok p l m : obj m p = Some (OLock l) → lock_handle p m = Ok (tt, m).
Proof. intros Ho. unfold lock_handle, Box_get, bind, gets, unwrap. by rewrite Ho. Qed.

Lemma try_lock_run p l m : obj m p = Some (OLock l) →
  spin_try_lock (lock_at p) m = if sl_locked l then Ok (false, m) else Ok (true, with_obj p Held m).
Proof.
  intros Ho. unfold spin_try_lock, bind, gets, modify, ret. cbn [lget lock_at]. rewrite Ho.
  by destruct (sl_locked l).
Qed.

Lemma lock_run p l m : obj m p = Some (OLock l) →
  spin_lock 1 [] (lock_at p) m = if sl_locked l then NoFuel else Ok (tt, with_obj p Held m).
Proof.
  intros Ho. cbn [spin_lock]. unfold spin_exchange_weak, bind, gets, modify, ret. cbn [lget lock_at]. rewrite Ho.
  by destruct (sl_locked l).
Qed.

Lemma unlock_run p m : spin_unlock (lock_at p) m = Ok (tt, with_obj p Free m).
Proof. done. Qed.

(** Locking a free spin lock turns interrupts off, takes it and returns the
    interrupt flag as it was; on this processor it cannot be taken again before it
    is released.  Unlocking with the flag that was returned restores the whole
    state: lock, interrupt flag and everything else. *)
Theorem spinlock_pair_correct p m :
  p ≠ 0 → obj m p = Some Free →
  ∃ flags m', uacpi_kernel_lock_spinlock p m = Ok (flags, m') ∧
    flags = (if lget cpu_if m then 1 else 0) ∧ lget cpu_if m' = false ∧ obj m' p = Some Held ∧
    uacpi_kernel_lock_spinlock p m' = NoFuel ∧ uacpi_kernel_unlock_spinlock p flags m' = Ok (tt, m).
Proof.
  intros Hp Ho. set (m1 := lset cpu_if false m). assert (obj m1 p = Some Free) as Ho1 by exact Ho.
  assert ((p =? 0) = false) as Hp0 by (by apply Z.eqb_neq).
  exists (if lget cpu_if m then 1 else 0), (with_obj p Held m1).
  assert (obj (with_obj p Held m1) p = Some Held) as Hh by apply obj_with. split_and!.
  - unfold uacpi_kernel_lock_spinlock, uacpi_kernel_disable_interrupts, bind, gets, modify, ret. rewrite Hp0. cbn [negb].
    fold m1. rewrite (lock_handle_ok p _ m1 Ho1), (lock_run p _ m1 Ho1). done.
  - done.
  - done.
  - exact Hh.
  - unfold uacpi_kernel_lock_spinlock, uacpi_kernel_disable_interrupts, bind, gets, modify, ret. rewrite Hp0. cbn [negb].
    set (m2 := lset cpu_if false _). assert (obj m2 p = Some Held) as Hh2 by exact Hh.
    by rewrite (lock_handle_ok p _ m2 Hh2), (lock_run p _ m2 Hh2).
  - unfold uacpi_kernel_unlock_spinlock, bind. rewrite Hp0. cbn [negb].
    rewrite (lock_handle_ok p _ _ Hh), unlock_run, with_obj_with. unfold uacpi_kernel_restore_interrupts.
    assert (with_obj p Free m1 = lset cpu_if false m) as -> by (by apply with_obj_same).
    destruct (lget cpu_if m) eqn:Hif; cbn [Z.eqb negb]; unfold modify, ret; rewrite ?lens_set_set, <- Hif, lens_set_get; done.
Qed.

(** ** Mutexes *)

(** Trying until the time [limit], which the counter reaches at [B] at the latest. *)
Lemma acquire_loop_returns p l time timeout B s :
  obj s p = Some (OLock l) → clock_sane s → 0 ≤ time < 2 ^ 63 → 0 ≤ timeout < 2 ^ 16 →
  time + timeout * 1000000 ≤ ns_at s B → B ≤ 2 ^ 60 + 2 ^ 57 → now s ≤ B + hz s + 2 ^ 33 →
  returns (λ n, acquire_loop n p time timeout false) s (λ r s', ∃ d, now s < clock d ∧
    (r = true ∧ sl_locked l = false ∧ s' = lset dev d (with_obj p Held s) ∨
     r = false ∧ s' = lset dev d s ∧ time + timeout * 1000000 ≤ ns_at s (clock d))).
Proof.
  intros Ho Hs Ht Hto HB HBm Hn. remember (Z.to_nat (B + hz s + 2 ^ 33 - now s)) as k eqn:Hk. revert s Ho Hs HB Hn Hk.
  induction k as [k IH] using lt_wf_ind. intros s Ho Hs HB Hn Hk. pose proof Hs as [_ Hz].
  eapply (returns_S _ (λ n, let! t := current_time_ns dev tsc_state in let! d := u64_mul timeout 1000000 in
    let! limit := u64_add time d in
    if t <? limit then
      let! locked := spin_try_lock (lock_at p) in
      if (locked : bool) then ret true else do! uacpi_kernel_sleep 1 n; acquire_loop n p time timeout false
    else ret false)); [done|].
  apply returns_bind, wp_now; [done|lia|]. intros d Hd Hsd.
  apply returns_bind, wp_u64_mul; [unfold u64_range; lia|]. apply returns_bind, wp_u64_add; [unfold u64_range; lia|].
  destruct (Z.ltb_spec (ns_at s (clock d)) (time + timeout * 1000000)) as [Hlt|Hge].
  2:{ apply returns_ret. exists d. split; [lia|]. right. done. }
  assert (clock d < B) as HdB.
  { destruct (Z.lt_ge_cases (clock d) B) as [|Hle]; [done|]. pose proof (ns_at_mono s B (clock d) Hs Hle). lia. }
  set (s1 := lset dev d s) in *. assert (obj s1 p = Some (OLock l)) as Ho1 by exact Ho.
  apply returns_bind. unfold wp. rewrite (try_lock_run p l s1 Ho1). destruct (sl_locked l) eqn:Hl; cbv beta iota.
  2:{ apply returns_ret. exists d. split; [lia|]. left. done. }
  assert (lget dev s1 = d) as Hget by apply lens_get_set. assert (hz s1 = hz s) as Hz1 by done.
  eapply (returns_seq (uacpi_kernel_sleep 1) (λ _ n, acquire_loop n p time timeout false)).
  { apply (sleep_returns 1 s1 Hsd); [lia|]. rewrite Hget, Hz1. lia. }
  cbv beta. intros [] s2 (d2 & -> & Hs2 & Hd2 & _). rewrite Hget, Hz1 in Hd2.
  assert (lget dev (lset dev d2 s1) = d2) as Hget2 by apply lens_get_set.
  eapply returns_mono; [apply (IH (Z.to_nat (B + hz s + 2 ^ 33 - clock d2)));
    [lia|exact Ho|exact Hs2|exact HB|rewrite Hget2; change (hz (lset dev d2 s1)) with (hz s); lia|by rewrite Hget2]|].
  cbv beta. intros r s' (d3 & Hd3 & Hr). rewrite Hget2 in Hd3. exists d3. split; [lia|].
  unfold s1 in Hr. destruct Hr as [(-> & Hcon & _)|(-> & -> & He)]; [congruence|].
  right. rewrite !lens_set_set. done.
Qed.

(** [uacpi_kernel_acquire_mutex].  With an infinite timeout it takes a free
    mutex and never returns from one that is held; with timeout 0 it makes one
    attempt.  With any other timeout it returns in any case: either it took the
    mutex, which was free, or it reports a timeout, at least that many milliseconds
    have passed and the mutex is as it was.  A mutex that was acquired can be
    released. *)
Theorem acquire_mutex_correct p l timeout s :
  obj s p = Some (OLock l) → clock_sane s → now s ≤ 2 ^ 60 → 0 ≤ timeout < 2 ^ 16 →
  (∀ s', uacpi_kernel_release_mutex p (with_obj p Held s') = Ok (tt, with_obj p Free s')) ∧
  if timeout =? 0xFFFF then ∀ n,
    uacpi_kernel_acquire_mutex p timeout n s =
      if sl_locked l then NoFuel else Ok (UACPI_STATUS_OK, with_obj p Held s)
  else if timeout =? 0 then ∀ n,
    uacpi_kernel_acquire_mutex p timeout n s =
      if sl_locked l then Ok (UACPI_STATUS_TIMEOUT, s) else Ok (UACPI_STATUS_OK, with_obj p Held s)
  else returns (uacpi_kernel_acquire_mutex p timeout) s (λ r s', ∃ d,
    r = UACPI_STATUS_OK ∧ sl_locked l = false ∧ s' = lset dev d (with_obj p Held s) ∨
    r = UACPI_STATUS_TIMEOUT ∧ s' = lset dev d s ∧ ns_at s (now s) + timeout * 1000000 ≤ ns_at s (clock d)).
Proof.
  intros Ho Hs Hn Hto. split.
  { intros s'. unfold uacpi_kernel_release_mutex, bind. rewrite (lock_handle_ok p (mkSpinLock true)) by apply obj_with.
    by rewrite unlock_run, with_obj_with. }
  pose proof (lock_handle_ok p l s Ho) as Hh.
  destruct (Z.eqb_spec timeout 0xFFFF) as [->|Hinf]; [|destruct (Z.eqb_spec timeout 0) as [->|Hne]].
  - intros n. unfold uacpi_kernel_acquire_mutex, bind. rewrite Hh. cbn [Z.eqb Pos.eqb].
    rewrite (lock_run p l s Ho). by destruct (sl_locked l).
  - intros n. unfold uacpi_kernel_acquire_mutex, bind. rewrite Hh. cbn [Z.eqb].
    rewrite (try_lock_run p l s Ho). by destruct (sl_locked l).
  - unfold uacpi_kernel_acquire_mutex. apply returns_bind. unfold wp. rewrite Hh.
    destruct (Z.eqb_spec timeout 0xFFFF) as [|_]; [done|]. destruct (Z.eqb_spec timeout 0) as [|_]; [done|].
    apply returns_then, returns_bind, wp_now; [done|lia|]. intros d Hd Hsd.
    assert (now s ≤ clock d ≤ 2 ^ 61) as Hc by lia. pose proof (ns_at_range s (clock d) Hs Hc) as Hr.
    pose proof Hs as [_ Hz]. assert (lget dev (lset dev d s) = d) as Hget by apply lens_get_set.
    assert (ns_at s (clock d) + timeout * 1000000 ≤ ns_at s (clock d + timeout * hz s)) as HB
      by (apply ns_at_add; [done|nia|lia|nia]).
    eapply returns_mono; [apply (acquire_loop_returns p l _ timeout (clock d + timeout * hz s));
      [exact Ho|done|lia|lia|exact HB|nia|rewrite Hget; change (hz (lset dev d s)) with (hz s); nia]|].
    cbv beta. intros r s' (d2 & Hd2 & Hres). apply wp_ret. exists d2.
    assert (now s ≤ clock d) as Hle by lia. pose proof (ns_at_mono s _ _ Hs Hle).
    destruct Hres as [(-> & Hl & ->)|(-> & -> & He)]; [left|right].
    + split_and!; [done|done|]. by destruct s as [? []].
    + rewrite lens_set_set. split_and!; [done|done|].
      change (ns_at (lset dev d s) (clock d2)) with (ns_at s (clock d2)) in He. lia.
Qed.

(** ** Events *)
Lemma event_load_run p c m : obj m p = Some (OEvent c) → event_load p m = Ok (c, m).
Proof. intros Ho. unfold event_load, Box_get, bind, gets, unwrap. by rewrite Ho. Qed.

Lemma decrement_run n p c m : obj m p = Some (OEvent c) →
  decrement (S n) p m = if c =? 0 then Ok (false, m) else Ok (true, with_obj p (OEvent (c - 1)) m).
Proof.
  intros Ho. cbn [decrement]. unfold bind. rewrite (event_load_run p c m Ho). destruct (c =? 0) eqn:Hc; [done|].
  rewrite (event_load_run p c m Ho), Z.eqb_refl. unfold event_store, Box_set, modify, ret. by rewrite Hc.
Qed.

Lemma wait_timed_returns p remaining s :
  obj s p = Some (OEvent 0) → clock_sane s → 0 ≤ remaining < 2 ^ 16 + 10 →
  now s + (remaining + 10) * (hz s + 2 ^ 33) ≤ 2 ^ 60 + 2 ^ 58 →
  returns (λ n, wait_timed n p remaining) s (λ r s', r = false ∧ ∃ d, s' = lset dev d s ∧
    ns_at s (now s) + remaining * 1000000 ≤ ns_at s (clock d)).
Proof.
  remember (Z.to_nat remaining) as k eqn:Hk. revert remaining s Hk. induction k as [k IH] using lt_wf_ind.
  intros remaining s Hk Ho Hs Hr Hn. pose proof Hs as [_ Hz].
  eapply (returns_S _ (λ n, let! ok := decrement 1 p in
    if (ok : bool) then ret true else if remaining <=? 0 then ret false
    else do! uacpi_kernel_sleep 10 n; wait_timed n p (remaining - 10))); [done|].
  apply returns_bind. unfold wp. rewrite (decrement_run 0 p 0 s Ho). cbn [Z.eqb]. destruct (Z.leb_spec remaining 0).
  { apply returns_ret. split; [done|]. exists (lget dev s). rewrite lens_set_get. split; [done|]. lia. }
  eapply (returns_seq (uacpi_kernel_sleep 10) (λ _ n, wait_timed n p (remaining - 10))).
  { apply (sleep_returns 10 s Hs); [lia|]. nia. }
  cbv beta. intros [] s2 (d & -> & Hs2 & Hd & He). assert (lget dev (lset dev d s) = d) as Hget by apply lens_get_set.
  destruct (Z.le_gt_cases remaining 10) as [Hlast|Hmore].
  - eapply (returns_S _ (λ n, let! ok := decrement 1 p in
      if (ok : bool) then ret true else if remaining - 10 <=? 0 then ret false
      else do! uacpi_kernel_sleep 10 n; wait_timed n p (remaining - 10 - 10))); [done|].
    apply returns_bind. unfold wp. rewrite (decrement_run 0 p 0 (lset dev d s) Ho). cbn [Z.eqb].
    destruct (Z.leb_spec (remaining - 10) 0); [|lia]. apply returns_ret. split; [done|]. exists d. split; [done|]. lia.
  - eapply returns_mono; [apply (IH (Z.to_nat (remaining - 10)));
      [lia|done|exact Ho|exact Hs2|lia|rewrite Hget; change (hz (lset dev d s)) with (hz s); nia]|].
    cbv beta. intros r s' (-> & d2 & -> & He2). split; [done|]. exists d2. rewrite lens_set_set. split; [done|].
    rewrite Hget in He2. change (ns_at (lset dev d s)) with (ns_at s) in He2. lia.
Qed.

(** C32: [uacpi_kernel_wait_for_event].  If the counter is positive the wait
    succeeds at once, whatever the timeout, and takes one from the counter.  If it
    is zero a wait with a timeout fails, after at least that many milliseconds, and
    the counter stays zero. *)
Theorem wait_for_event_correct p c timeout s :
  obj s p = Some (OEvent c) → 0 ≤ c → 0 ≤ timeout < 2 ^ 16 →
  if c =? 0 then timeout ≠ 0xFFFF → clock_sane s → now s ≤ 2 ^ 60 →
    returns (uacpi_kernel_wait_for_event p timeout) s (λ r s', r = false ∧ ∃ d, s' = lset dev d s ∧
      ns_at s (now s) + timeout * 1000000 ≤ ns_at s (clock d))
  else ∀ n, uacpi_kernel_wait_for_event p timeout (S n) s = Ok (true, with_obj p (OEvent (c - 1)) s).
Proof.
  intros Ho Hc Hto. destruct (Z.eqb_spec c 0) as [->|Hne].
  - intros Hinf Hs Hn. unfold uacpi_kernel_wait_for_event. apply returns_bind. unfold wp. rewrite (event_load_run p 0 s Ho).
    destruct (Z.eqb_spec timeout 0xFFFF) as [|_]; [done|]. pose proof Hs as [_ Hz].
    apply wait_timed_returns; [done|done|lia|nia].
  - intros n. unfold uacpi_kernel_wait_for_event, bind. rewrite (event_load_run p c s Ho).
    pose proof (decrement_run 0 p c s Ho) as Hd. apply Z.eqb_neq in Hne. rewrite Hne in Hd.
    destruct (timeout =? 0xFFFF); cbn [wait_forever wait_timed]; unfold bind; by rewrite Hd.
Qed.

(** What a client does with an event, without waiting for time to pass. *)
Inductive event_op := ESignal | EReset | ETryWait.

Definition event_run (p : Z) (op : event_op) : M KS (option bool) :=
  match op with
  | ESignal => do! uacpi_kernel_signal_event p; ret None
  | EReset => do! uacpi_kernel_reset_event p; ret None
  | ETryWait => let! r := uacpi_kernel_wait_for_event p 0 1 in ret (Some r)
  end.

(** The same on a semaphore, which is a number. *)
Definition sem_run (op : event_op) (c : Z) : option bool * Z :=
  match op with
  | ESignal => (None, c + 1)
  | EReset => (None, 0)
  | ETryWait => if c =? 0 then (Some false, 0) else (Some true, c - 1)
  end.

Fixpoint event_runs (p : Z) (ops : list event_op) : M KS (list (option bool)) :=
  match ops with
  | [] => ret []
  | op :: ops' => let! r := event_run p op in let! rs := event_runs p ops' in ret (r :: rs)
  end.

Fixpoint sem_runs (ops : list event_op) (c : Z) : list (option bool) * Z :=
  match ops with
  | [] => ([], c)
  | op :: ops' => let '(r, c') := sem_run op c in let '(rs, c'') := sem_runs ops' c' in (r :: rs, c'')
  end.

Lemma event_run_sem p op c m :
  obj m p = Some (OEvent c) → 0 ≤ c → c + 1 < 2 ^ 64 →
  event_run p op m = Ok (fst (sem_run op c), with_obj p (OEvent (snd (sem_run op c))) m).
Proof.
  intros Ho Hc Hm. destruct op; cbn [event_run sem_run fst snd]; unfold bind.
  - unfold uacpi_kernel_signal_event, bind. rewrite (event_load_run p c m Ho). unfold wrap64. by rewrite Z.mod_small by lia.
  - unfold uacpi_kernel_reset_event, bind. by rewrite (event_load_run p c m Ho).
  - unfold uacpi_kernel_wait_for_event, bind. rewrite (event_load_run p c m Ho). cbn [Z.eqb wait_timed]. unfold bind.
    rewrite (decrement_run 0 p c m Ho). destruct (Z.eqb_spec c 0) as [->|]; [|done].
    cbn [Z.leb Z.compare fst snd]. by rewrite (with_obj_same p (OEvent 0) m Ho).
Qed.

(** C29: an event is a counting semaphore.  Any sequence of signals, resets and
    waits without timeout, short enough for the counter not to wrap around, gives
    the results a counter gives, leaves the event with the counter's value and
    changes nothing else. *)
Theorem event_refines_semaphore p ops c m :
  obj m p = Some (OEvent c) → 0 ≤ c → c + Z.of_nat (length ops) < 2 ^ 64 →
  event_runs p ops m = Ok (fst (sem_runs ops c), with_obj p (OEvent (snd (sem_runs ops c))) m).
Proof.
  revert c m. induction ops as [|op ops IH]; intros c m Ho Hc Hm.
  { cbn [event_runs sem_runs fst snd]. by rewrite (with_obj_same p (OEvent c) m Ho). }
  cbn [event_runs length] in *. unfold bind. rewrite (event_run_sem p op c m Ho) by lia.
  assert (0 ≤ snd (sem_run op c) ≤ c + 1) as Hb
    by (destruct op; cbn [sem_run snd]; [lia|lia|]; destruct (Z.eqb_spec c 0); cbn [snd]; lia).
  rewrite (IH (snd (sem_run op c))) by (apply obj_with || lia).
  cbn [sem_runs]. destruct (sem_run op c) as [r c']. cbn [fst snd] in *. destruct (sem_runs ops c') as [rs c''].
  cbn [fst snd]. unfold ret. by rewrite with_obj_with.
Qed.
End sync.
