(* ===== verification/UacpiMem.v ===== *)
(** * UacpiMem: mapping and allocating for the ACPI library

    [uacpi_kernel_map] and [uacpi_kernel_unmap] of
    [src/kernel/src/acpi/uacpi.rs] work page by page on the direct map;
    [uacpi_kernel_alloc] and [uacpi_kernel_free] use the kernel heap, and so do the
    boxes behind handles. *)

From S2P Require Import Prelude Bits Mem Pmm Dll PmmInv PmmList PmmOps PmmSpec.
From S2P Require Import Locks FrameAlloc PmmGlobal MmInit Heap HeapInv HeapOps HeapLive HeapSpec.
From S2P Require Import Paging Vmm Walk VmmInv VmmOps VmmMap VmmUnmap VmmSpec VmmRange KernelVmm.
From S2P Require Import Devices Tsc Pci Idt Kernel KernelMap Acpi KernelPci Apic Uacpi.

Section uacpi_map.
Context `{Profile} {A D : Type} `{!FrameAllocator A} `{!X86Paging} `{!PagingLaws} `{!Devices D} `{Res : !Reserved}.
Abbreviation KS := (Machine A (Kernel D KHandler)).
Context `{!UAcpi KS}.
Context (h top : Z).
Implicit Types m : KS.

Abbreviation leaf m v := (mmu_leaf h top m v).

Lemma base_bytes : PageSize_bytes Base = 4096.
Proof. apply base_page_size. Qed.

Definition direct_flags : Z := flags_from_bits_truncate 0 (leaf_flags 0 uncached_flags).

(** The translations of [m], with those missing from [lo] to [hi] filled in with
    the direct map. *)
Definition filled m (lo hi v : Z) : option (nat * (Z * Z)) :=
  if decide (lo ≤ v < hi) then
    match leaf m v with Some x => Some x | None => Some (0%nat, (v - h, direct_flags)) end
  else leaf m v.

Lemma page_of_aligned a v : a mod 4096 = 0 → a / 4096 = v / 4096 ↔ a ≤ v < a + 4096.
Proof.
  intros Ha. pose proof (Z.div_mod a 4096 ltac:(lia)). pose proof (Z.div_mod v 4096 ltac:(lia)).
  pose proof (Z.mod_pos_bound v 4096 ltac:(lia)). lia.
Qed.

(** One page of [uacpi_kernel_map]. *)
Lemma fill_page m0 m lo p r m' :
  h mod 4096 = 0 → p mod 4096 = 0 → lo ≤ p →
  (∀ v, good_addr v → leaf m v = filled m0 (lo + h) (p + h) v) →
  map_outcome (mmu_leaf h top m) (p + h) p uncached_flags Base r (mmu_leaf h top m') →
  r = ROk tt ∨ r = RErr AlreadyMapped →
  ∀ v, good_addr v → leaf m' v = filled m0 (lo + h) (p + 4096 + h) v.
Proof.
  intros Hh Hp Hlo Hm [Ht Hr] Hcase v Hv. rewrite (Ht v Hv), base_bytes in *.
  assert ((p + h) mod 4096 = 0) as Hph by (rewrite Z.add_mod, Hp, Hh by lia; done).
  pose proof (page_of_aligned (p + h) v Hph) as Hpage.
  destruct Hcase as [-> | ->].
  - destruct Hr as (_ & _ & Hnone). case_decide as Hin.
    + specialize (Hnone v Hv Hin). rewrite (Hm v Hv) in Hnone. unfold filled in *.
      rewrite decide_False in Hnone by (apply Hpage in Hin; lia). rewrite decide_True by (apply Hpage in Hin; lia).
      rewrite Hnone. unfold mapped_to, direct_flags. rewrite base_bytes. do 3 f_equal. apply Hpage in Hin.
      pose proof (Z.div_mod v 4096 ltac:(lia)). pose proof (Z.div_mod (p + h) 4096 ltac:(lia)).
      pose proof (Z.mod_pos_bound v 4096 ltac:(lia)). lia.
    + rewrite (Hm v Hv). unfold filled. rewrite Hpage in Hin. by do 2 case_decide; try lia.
  - rewrite (Hm v Hv). unfold filled. specialize (Hr eq_refl v Hv). rewrite (Hm v Hv), Hpage in Hr. unfold filled in Hr.
    repeat case_decide; try lia; try done. destruct Hr as [x Hx]; [lia|]. by rewrite Hx.
Qed.

Lemma map_pages_spec m0 lo end_ n p m :
  h mod 4096 = 0 → 0 < h → 0 ≤ lo ≤ p → p mod 4096 = 0 → end_ mod 4096 = 0 → p ≤ end_ ≤ 2 ^ 52 → end_ + h ≤ 2 ^ 64 →
  (∀ v, lo + h ≤ v < end_ + h → is_canonical v = true) → (end_ - p) / 4096 < Z.of_nat n →
  kernel_ok h top m → vmm_step m0 m → (∀ v, good_addr v → leaf m v = filled m0 (lo + h) (p + h) v) →
  wp (map_pages n p end_ h) m (λ ok m', kernel_ok h top m' ∧ vmm_step m0 m' ∧
    ∃ q, p ≤ q ≤ end_ ∧ (ok = true → q = end_) ∧ ∀ v, good_addr v → leaf m' v = filled m0 (lo + h) (q + h) v).
Proof.
  intros Hh Hh0 Hlo Hp He Hpe Hov Hcan. revert p m Hlo Hp Hpe. induction n as [|n IH];
    intros p m Hlo Hp Hpe Hn Hk Hs Hm; [pose proof (Z.div_pos (end_ - p) 4096 ltac:(lia) ltac:(lia)); lia|].
  cbn [map_pages]. destruct (Z.ltb_spec p end_) as [Hlt|Hge].
  2:{ apply wp_ret. split_and!; [done..|]. exists end_. split_and!; [lia|lia|done|].
      by replace end_ with p by lia. }
  assert (p + 4096 ≤ end_) as Hpage.
  { pose proof (Z.div_mod p 4096 ltac:(lia)). pose proof (Z.div_mod end_ 4096 ltac:(lia)). lia. }
  assert (u64_range (p + h)) as Hv by (unfold u64_range; lia).
  apply wp_bind, wp_u64_add; [done|].
  eapply wp_seq; [apply (on_map_spec h top m (p + h) p uncached_flags Base Hk Hv); [lia|apply uncached_flags_ok]|].
  cbv beta. intros r m1 (Hout & Hk1 & Hs1). assert (vmm_step m0 m1) as Hs01 by (by etransitivity).
  assert (r = ROk tt ∨ r = RErr AlreadyMapped → wp (let! p' := u64_add p BASE_PAGE_SIZE in map_pages n p' end_ h) m1
    (λ ok m', kernel_ok h top m' ∧ vmm_step m0 m' ∧
    ∃ q, p ≤ q ≤ end_ ∧ (ok = true → q = end_) ∧ ∀ v, good_addr v → leaf m' v = filled m0 (lo + h) (q + h) v)) as Hgo.
  { intros Hcase. pose proof (fill_page m0 m lo p r m1 Hh Hp ltac:(lia) Hm Hout Hcase) as Hm1.
    rewrite base_page_size. apply wp_bind, wp_u64_add; [unfold u64_range; lia|]. change (2 ^ 12) with 4096.
    eapply wp_mono; [apply IH; [lia|rewrite Z.add_mod, Hp by lia; done|lia| |done|done|done]|].
    - replace (end_ - p) with (end_ - (p + 4096) + 1 * 4096) in Hn by lia. rewrite Z.div_add in Hn by lia. lia.
    - cbv beta. intros ok m' (? & ? & q & ? & ? & ?). split_and!; [done..|]. exists q. split_and!; [lia|lia|done|done]. }
  destruct r as [[]|[]]; try (apply Hgo; by auto).
  all: apply wp_ret; split_and!; [done..|]; exists p; split_and!; [lia|lia|done|];
    intros v Hgv; destruct Hout as [Ht _]; by rewrite (Ht v Hgv), (Hm v Hgv).
Qed.

(** The pages of a range of bytes. *)
Definition first_page (a : Z) : Z := a - a mod 4096.
Definition last_page (a len : Z) : Z := round_up (a + len) 4096.

Lemma range_pages a len :
  0 ≤ a → 0 ≤ len →
  0 ≤ first_page a ≤ a ∧ first_page a mod 4096 = 0 ∧ last_page a len mod 4096 = 0 ∧
  a + len ≤ last_page a len < a + len + 4096 ∧ a < first_page a + 4096.
Proof.
  intros Ha Hl. unfold first_page, last_page. pose proof (Z.div_mod a 4096 ltac:(lia)).
  pose proof (Z.mod_pos_bound a 4096 ltac:(lia)). pose proof (round_up_bounds (a + len) 4096 ltac:(lia)).
  split_and!; [lia|lia| |apply round_up_mod; lia|lia|lia|lia].
  rewrite Zminus_mod_idemp_r, Z.sub_diag. done.
Qed.

(** The rounding at the head of [uacpi_kernel_map] and [uacpi_kernel_unmap]. *)
Lemma wp_rounding {B : Type} a len m (k : Z → Z → M KS B) (Q : B → KS → Prop) :
  0 ≤ a → 0 ≤ len → a + len + 4096 < 2 ^ 64 →
  wp (k (first_page a) (last_page a len)) m Q →
  wp (let! f := align_down a BASE_PAGE_SIZE in
      let! e := u64_add a len in
      let! l := align_up e BASE_PAGE_SIZE in k f l) m Q.
Proof.
  intros Ha Hl Hov Hk. rewrite base_page_size.
  eapply wp_seq; [apply (align_down_spec m a 12); [lia|unfold u64_range; lia]|]. cbv beta. intros f s [-> ->].
  apply wp_bind, wp_u64_add; [unfold u64_range; lia|].
  eapply wp_seq; [apply (align_up_spec m (a + len) 12); lia|]. cbv beta. intros l s [-> ->]. exact Hk.
Qed.

(** [uacpi_kernel_map] fills pages in from the first on, all of them when it
    succeeds. *)
Lemma uacpi_map_spec m addr len :
  kernel_ok h top m → 0 ≤ addr → 0 ≤ len → addr + len + 4096 ≤ 2 ^ 52 → addr + len + 4096 + h ≤ 2 ^ 64 →
  (∀ v, first_page addr + h ≤ v < last_page addr len + h → is_canonical v = true) →
  wp (uacpi_kernel_map addr len) m (λ p m', kernel_ok h top m' ∧ vmm_step m m' ∧
    ∃ q, first_page addr ≤ q ≤ last_page addr len ∧ (p = 0 ∨ p = addr + h ∧ q = last_page addr len) ∧
      ∀ v, good_addr v → leaf m' v = filled m (first_page addr + h) (q + h) v).
Proof.
  intros Hk Ha Hl H52 H64 Hcan.
  destruct (kernel_hhdm_pos h top m Hk) as [Hh0 Hhm]. rewrite FRAME_SIZE_val in Hhm.
  destruct (range_pages addr len Ha Hl) as (Hf & Hfm & Hlm & Hlast & Hfa).
  unfold uacpi_kernel_map. apply wp_bind, wp_gets. rewrite (kernel_hhdm h top m Hk).
  apply (wp_rounding addr len m (λ f l, let! ok := map_pages (page_fuel f l) f l h in
    if (ok : bool) then u64_add addr h else ret 0)); [lia|lia|lia|].
  eapply wp_seq; [apply (map_pages_spec m (first_page addr) (last_page addr len)); try done; try lia|].
  - unfold page_fuel. rewrite base_page_size. change (2 ^ 12) with 4096.
    pose proof (Z.div_pos (last_page addr len - first_page addr) 4096 ltac:(lia) ltac:(lia)). lia.
  - intros v Hv. unfold filled. by rewrite decide_False by lia.
  - cbv beta. intros ok m' (Hk' & Hs' & q & Hq & Hok & Hfill).
    destruct ok; [|apply wp_ret; split_and!; [done..|]; exists q; by split_and!; [lia|lia|left|]].
    apply wp_u64_add; [unfold u64_range; lia|]. split_and!; [done..|]. exists q. split_and!; [lia|lia| |done].
    right. split; [done|]. by apply Hok.
Qed.


(** ** Taking the mapping back *)

(** The translations of [m] without the 4 KiB ones from [lo] to [hi]. *)
Definition cleared m (lo hi v : Z) : option (nat * (Z * Z)) :=
  if decide (lo ≤ v < hi ∧ fst <$> leaf m v = Some 0%nat) then None else leaf m v.

(** One page of [uacpi_kernel_unmap]. *)
Lemma clear_page m0 m lo p r m' :
  p mod 4096 = 0 → lo ≤ p → is_canonical p = true →
  (∀ v, good_addr v → leaf m v = cleared m0 lo p v) →
  unmap_outcome (mmu_leaf h top m) p Base r (mmu_leaf h top m') →
  ∀ v, good_addr v → leaf m' v = cleared m0 lo (p + 4096) v.
Proof.
  intros Hp Hlo Hcan Hm [Ht Hr] v Hv. rewrite (Ht v Hv), base_bytes in *.
  pose proof (page_of_aligned p v Hp) as Hpage.
  assert (p / 4096 = v / 4096 → leaf m v = leaf m0 v) as Hsame.
  { intros Hin%Hpage. rewrite (Hm v Hv). unfold cleared. by rewrite decide_False by lia. }
  assert (p / 4096 ≠ v / 4096 → leaf m v = cleared m0 lo (p + 4096) v) as Hother.
  { intros Hin. rewrite (Hm v Hv). unfold cleared. rewrite Hpage in Hin. 
    destruct (decide (lo ≤ v < p ∧ _)) as [[? ?]|Hn], (decide (lo ≤ v < p + 4096 ∧ _)) as [[? ?]|Hn']; try done;
      exfalso; [apply Hn'|apply Hn]; (split; [lia|done]). }
  destruct r as [[]|[]]; [| |exfalso; congruence..].
  - case_decide as Hin; [|by apply Hother]. specialize (Hr v Hv Hin). rewrite (Hsame Hin) in Hr.
    unfold cleared. rewrite decide_True; [done|]. apply Hpage in Hin. split; [lia|exact Hr].
  - destruct (decide (p / 4096 = v / 4096)) as [Hin|Hin]; [|by apply Hother].
    specialize (Hr eq_refl v Hv Hin). rewrite (Hsame Hin) in *.
    unfold cleared. rewrite decide_False; [done|]. intros [_ ?]. done.
Qed.

Lemma unmap_pages_spec m0 lo end_ n p m :
  0 ≤ lo ≤ p → p mod 4096 = 0 → end_ mod 4096 = 0 → p ≤ end_ < 2 ^ 64 →
  (∀ v, lo ≤ v < end_ → is_canonical v = true) → (end_ - p) / 4096 < Z.of_nat n →
  kernel_ok h top m → vmm_step m0 m → (∀ v, good_addr v → leaf m v = cleared m0 lo p v) →
  wp (unmap_pages n p end_) m (λ _ m', kernel_ok h top m' ∧ vmm_step m0 m' ∧
    ∀ v, good_addr v → leaf m' v = cleared m0 lo end_ v).
Proof.
  intros Hlo Hp He Hpe Hcan. revert p m Hlo Hp Hpe. induction n as [|n IH];
    intros p m Hlo Hp Hpe Hn Hk Hs Hm; [pose proof (Z.div_pos (end_ - p) 4096 ltac:(lia) ltac:(lia)); lia|].
  cbn [unmap_pages]. destruct (Z.ltb_spec p end_) as [Hlt|Hge].
  2:{ apply wp_ret. split_and!; [done..|]. by replace end_ with p by lia. }
  assert (p + 4096 ≤ end_) as Hpage.
  { pose proof (Z.div_mod p 4096 ltac:(lia)). pose proof (Z.div_mod end_ 4096 ltac:(lia)). lia. }
  eapply wp_seq; [apply (on_unmap_spec h top m p Base Hk); unfold u64_range; lia|].
  cbv beta. intros r m1 (Hout & Hk1 & Hs1). assert (vmm_step m0 m1) as Hs01 by (by etransitivity).
  rewrite base_page_size. apply wp_bind, wp_u64_add; [unfold u64_range; lia|]. change (2 ^ 12) with 4096.
  apply IH; [lia|rewrite Z.add_mod, Hp by lia; done|lia| |done|done|].
  - replace (end_ - p) with (end_ - (p + 4096) + 1 * 4096) in Hn by lia. rewrite Z.div_add in Hn by lia. lia.
  - by apply (clear_page m0 m lo p r m1 Hp ltac:(lia) (Hcan p ltac:(lia))).
Qed.

Lemma shifted_pages a len :
  h mod 4096 = 0 → first_page (a + h) = first_page a + h ∧ last_page (a + h) len = last_page a len + h.
Proof.
  intros Hh. unfold first_page, last_page, round_up. pose proof (Z.div_mod h 4096 ltac:(lia)) as Hd.
  rewrite Hh, Z.add_0_r, Z.mul_comm in Hd. set (q := h / 4096) in *. rewrite Hd.
  rewrite Z.mod_add by lia. split; [lia|].
  replace (a + q * 4096 + len + 4096 - 1) with (a + len + 4096 - 1 + q * 4096) by lia.
  rewrite Z.div_add by lia. lia.
Qed.

(** C18: [uacpi_kernel_unmap] takes back what [uacpi_kernel_map] did.  After a
    successful [map] of a range, [unmap] of the address it returned leaves the
    translations as they were before both, except that a 4 KiB translation the
    range already had is gone too: [map] accepted it as its own. *)
Theorem uacpi_map_unmap m addr len p m' :
  kernel_ok h top m → 0 ≤ addr → 0 ≤ len → addr + len + 4096 ≤ 2 ^ 52 → addr + len + 4096 + h < 2 ^ 64 →
  (∀ v, first_page addr + h ≤ v < last_page addr len + h → is_canonical v = true) →
  uacpi_kernel_map addr len m = Ok (p, m') → p ≠ 0 →
  ∃ m'', uacpi_kernel_unmap p len m' = Ok (tt, m'') ∧ kernel_ok h top m'' ∧ vmm_step m m'' ∧
    ∀ v, good_addr v → leaf m'' v =
      if decide (first_page addr + h ≤ v < last_page addr len + h ∧ fst <$> leaf m v = Some 0%nat)
      then None else leaf m v.
Proof.
  intros Hk Ha Hl H52 H64 Hcan Hrun Hp.
  pose proof (uacpi_map_spec m addr len Hk Ha Hl H52 ltac:(lia) Hcan) as Hmap. unfold wp in Hmap.
  rewrite Hrun in Hmap. destruct Hmap as (Hk' & Hs' & q & Hq & [?|[-> ->]] & Hfill); [done|].
  destruct (kernel_hhdm_pos h top m Hk) as [Hh0 Hhm]. rewrite FRAME_SIZE_val in Hhm.
  destruct (range_pages addr len Ha Hl) as (Hf & Hfm & Hlm & Hlast & Hfa).
  destruct (shifted_pages addr len Hhm) as [Hsf Hsl].
  assert (wp (uacpi_kernel_unmap (addr + h) len) m' (λ _ m'', kernel_ok h top m'' ∧ vmm_step m' m'' ∧
    ∀ v, good_addr v → leaf m'' v = cleared m' (first_page addr + h) (last_page addr len + h) v)) as Hw.
  { unfold uacpi_kernel_unmap.
    apply (wp_rounding (addr + h) len m' (λ f l, unmap_pages (page_fuel f l) f l)); [lia|lia|lia|].
    rewrite Hsf, Hsl. apply unmap_pages_spec; try done; try lia.
    - by rewrite Z.add_mod, Hfm, Hhm by lia.
    - by rewrite Z.add_mod, Hlm, Hhm by lia.
    - unfold page_fuel. rewrite base_page_size. change (2 ^ 12) with 4096. set (x := _ / 4096). lia.
    - intros v Hv. unfold cleared. by rewrite decide_False by lia. }
  apply wp_ok in Hw as ([] & m'' & Heq & Hk'' & Hs'' & Hclear).
  exists m''. split_and!; [done|done|by etransitivity|]. intros v Hv. rewrite (Hclear v Hv). unfold cleared.
  rewrite !(Hfill v Hv). unfold filled.
  destruct (decide (_ ≤ v < _)) as [Hin|]; [|by rewrite !decide_False by (intros [? _]; done)].
  destruct (leaf m v) as [[[|n] x]|]; [done|by rewrite !decide_False by (by intros [_ ?])|].
  rewrite decide_True, decide_False; [done|by intros [_ ?]|done].
Qed.
End uacpi_map.
