(* ===== verification/UacpiHeap.v ===== *)
(** * UacpiHeap: memory, handles and interrupt handlers of the ACPI library

    [uacpi_kernel_alloc] and [uacpi_kernel_free] of [src/kernel/src/acpi/uacpi.rs]
    pass on to the kernel heap; devices, spin locks and events live in boxes behind
    their handles, and an interrupt handler in the box its slot owns
    ([src/kernel/src/idt.rs]).  [heap_client] says who owns which allocation; the
    theorems follow an object from its creation to its end. *)

From S2P Require Import Prelude Bits Mem Pmm Dll PmmInv PmmList PmmOps PmmSpec.
From S2P Require Import Locks FrameAlloc PmmGlobal MmInit Heap HeapInv HeapOps HeapLive HeapSpec.
From S2P Require Import Paging Vmm Devices Tsc Pci Idt IdtSpec Kernel Acpi KernelPci Apic Uacpi.

Section uacpi_heap.
Context `{Profile} {A D : Type} `{!FrameAllocator A} `{!X86Paging} `{!Devices D} `{Res : !Reserved}.
Abbreviation KS := (Machine A (Kernel D KHandler)).
Abbreviation KM := (M KS).
Context `{!UAcpi KS}.
Context (h : Z).
Implicit Types m : KS.
Implicit Types live : gmap Z Layout.

(** Only memory, the frame allocator and the heap's own state changed. *)
Definition heap_step m m' : Prop :=
  ∃ s hp, m' = mkMachine s (lset kheap_lens hp (m_own m)) ∧ sys_kept (m_sys m) s.

#[export] Instance heap_step_refl : Reflexive heap_step.
Proof. intros [s []]. by eexists _, _. Qed.

Lemma heap_step_objs m m' : heap_step m m' → lget objs m' = lget objs m.
Proof. by intros (s & hp & -> & _). Qed.

Lemma heap_step_handlers m m' : heap_step m m' → lget handlers m' = lget handlers m.
Proof. by intros (s & hp & -> & _). Qed.

Lemma on_alloc_spec live m l :
  heap_rel h (heap_part m) live → layout_ok l →
  wp (on_heap (alloc l)) m (λ p m', heap_step m m' ∧ data_kept live (heap_part m) (heap_part m') ∧
    (p = 0 ∧ out_of_memory (heap_part m) l ∧ heap_rel h (heap_part m') live ∨
     served h (heap_part m) (heap_part m') live l p)).
Proof.
  intros Hrel Hl. apply wp_on_heap. eapply wp_mono; [by apply (alloc_spec h _ live l)|]. cbv beta.
  intros p [s hp] (Hcpu & Hdata & Hr). split; [by eexists _, _|]. by split.
Qed.

Lemma on_dealloc_spec live m l p :
  heap_rel h (heap_part m) live → live !! p = Some l →
  wp (on_heap (dealloc p l)) m (λ _ m', heap_step m m' ∧ data_kept (delete p live) (heap_part m) (heap_part m') ∧
    heap_rel h (heap_part m') (delete p live)).
Proof.
  intros Hrel Hl. apply wp_on_heap. eapply wp_mono; [by apply (dealloc_spec h _ live l)|]. cbv beta.
  intros [] [s hp] (Hcpu & Hr & Hdata). split; [by eexists _, _|]. by split.
Qed.

Lemma live_pos m live p l : heap_rel h (heap_part m) live → live !! p = Some l → 0 < p.
Proof.
  intros (Hl & S & Hc & HL & _) Hp. destruct (fa_bounds h _ (hc_fa _ _ _ Hc)) as (Hh0 & _).
  destruct (bucket_for l) as [z|] eqn:Hbl.
  - destruct (small_place HL p l Hp ltac:(congruence)) as (a & b & fl & Hb & Hlt & He & Ha & Ho & Hn & ? & ?).
    destruct (lo_slab _ _ _ _ _ HL a b fl Ha) as (Hfr & _). pose proof (slab_frame_pos _ _ _ _ Hh0 Hfr). lia.
  - destruct (lo_large _ _ _ _ _ HL p l Hp Hbl) as (o & f & _ & _ & -> & Hf & _).
    unfold fb_addr. rewrite FRAME_SIZE_val. lia.
Qed.

(** ** Who owns what *)

(** The box of the handler in slot [v], when it takes memory. *)
Definition slot_box (x : Slot KHandler) : option (Z * Layout) :=
  match slot_handler x with
  | Some (b, hd) => (λ l, (b, l)) <$> handler_layout hd
  | None => None
  end.

(** The heap is in order; the objects behind handles and the boxes of handlers are
    live allocations, each with one owner. *)
Record heap_client live m : Prop := {
  hcl_rel : heap_rel h (heap_part m) live;
  hcl_objs : ∀ p o, lget objs m !! p = Some o → live !! p = Some (layout_of o);
  hcl_slots : ∀ v x b l, lget handlers m !! v = Some x → slot_box x = Some (b, l) →
    live !! b = Some l ∧ lget objs m !! b = None;
  hcl_inj : ∀ v w x y b l l', lget handlers m !! v = Some x → lget handlers m !! w = Some y →
    slot_box x = Some (b, l) → slot_box y = Some (b, l') → v = w
}.

(** Another allocation, or the loss of one nobody owns. *)
Lemma owners_alloc live m m' p l :
  heap_client live m → heap_step m m' → live !! p = None → heap_rel h (heap_part m') (<[p := l]> live) →
  heap_client (<[p := l]> live) m'.
Proof.
  intros [Hrel Hobj Hslot Hinj] Hs Hp Hrel'. split; [done| | |];
    rewrite ?(heap_step_objs _ _ Hs), ?(heap_step_handlers _ _ Hs).
  - intros q o Hq. specialize (Hobj q o Hq). rewrite lookup_insert_ne by congruence. done.
  - intros v x b lb Hx Hb. destruct (Hslot v x b lb Hx Hb). by rewrite lookup_insert_ne by congruence.
  - exact Hinj.
Qed.

Lemma owners_dealloc live m m' p :
  heap_client live m → heap_step m m' → heap_rel h (heap_part m') (delete p live) →
  lget objs m !! p = None → (∀ v x l, lget handlers m !! v = Some x → slot_box x ≠ Some (p, l)) →
  heap_client (delete p live) m'.
Proof.
  intros [Hrel Hobj Hslot Hinj] Hs Hrel' Hp Hnone. split; [done| | |];
    rewrite ?(heap_step_objs _ _ Hs), ?(heap_step_handlers _ _ Hs).
  - intros q o Hq. rewrite lookup_delete_ne by congruence. by apply Hobj.
  - intros v x b l Hx Hb. destruct (decide (p = b)) as [->|]; [by destruct (Hnone v x l Hx)|].
    rewrite lookup_delete_ne by done. by eapply Hslot.
  - exact Hinj.
Qed.

(** The contents of an allocation nobody owns become an object. *)
Lemma owners_put_obj live m p o :
  heap_client live m → live !! p = Some (layout_of o) →
  (∀ v x l, lget handlers m !! v = Some x → slot_box x ≠ Some (p, l)) →
  heap_client live (lset objs (<[p := o]> (lget objs m)) m).
Proof.
  intros [Hrel Hobj Hslot Hinj] Hp Hnone. split; [exact Hrel| | |exact Hinj].
  - rewrite lens_get_set. intros q oq [[<- <-]|[Hne Hq]]%lookup_insert_Some; [done|by apply Hobj].
  - rewrite lens_get_set. intros v x b l Hx Hb. destruct (Hslot v x b l Hx Hb).
    rewrite lookup_insert_ne; [done|]. intros ->. by destruct (Hnone v x l Hx).
Qed.

Lemma owners_drop_obj live m p :
  heap_client live m → heap_client live (lset objs (delete p (lget objs m)) m).
Proof.
  intros [Hrel Hobj Hslot Hinj]. split; [exact Hrel| | |exact Hinj].
  - rewrite lens_get_set. intros q oq [_ Hq]%lookup_delete_Some. by apply Hobj.
  - rewrite lens_get_set. intros v x b l Hx Hb. destruct (Hslot v x b l Hx Hb) as [? Hn].
    split; [done|]. by rewrite lookup_delete_None, Hn; right.
Qed.

(** A slot changes hands: its new box, if it has one, is owned by nobody else. *)
Lemma owners_put_slot live m v x :
  heap_client live m → (Z.to_nat v < length (lget handlers m))%nat →
  (∀ b l, slot_box x = Some (b, l) → live !! b = Some l ∧ lget objs m !! b = None ∧
    ∀ w y l', w ≠ Z.to_nat v → lget handlers m !! w = Some y → slot_box y ≠ Some (b, l')) →
  heap_client live (put_slot handlers v x m).
Proof.
  intros [Hrel Hobj Hslot Hinj] Hv Hx. split; [exact Hrel|exact Hobj| |].
  - unfold put_slot. rewrite lens_get_set. intros w y b l [(<- & <- & _)|[Hne Hy]]%list_lookup_insert_Some Hb.
    + by destruct (Hx b l Hb) as (? & ? & _).
    + by eapply Hslot.
  - unfold put_slot. rewrite lens_get_set.
    intros w w' y y' b l l' [(<- & <- & _)|[Hne Hy]]%list_lookup_insert_Some
      [(<- & <- & _)|[Hne' Hy']]%list_lookup_insert_Some Hb Hb'.
    + done.
    + destruct (Hx b l Hb) as (_ & _ & Hno). by destruct (Hno w' y' l').
    + destruct (Hx b l' Hb') as (_ & _ & Hno). by destruct (Hno w y l).
    + by eapply Hinj.
Qed.

(** *** Boxes *)
Lemma layout_of_ok o : layout_ok (layout_of o).
Proof. by destruct o; (split; [simpl; lia|]); (exists 0 + exists 3); (split; [lia|]). Qed.

Lemma handler_layout_ok hd l : handler_layout hd = Some l → layout_ok l.
Proof. destruct hd; [done|]. intros [= <-]. split; [simpl; lia|]. exists 3. split; [lia|done]. Qed.

(** The memory of a box: there is none, or it is new. *)
Lemma box_memory live m l :
  heap_client live m → layout_ok l →
  (out_of_memory (heap_part m) l ∧ ∃ m', on_heap (alloc l) m = Ok (0, m')) ∨
  ∃ p m', on_heap (alloc l) m = Ok (p, m') ∧ 0 < p ∧ live !! p = None ∧ heap_step m m' ∧
    data_kept live (heap_part m) (heap_part m') ∧ heap_client (<[p := l]> live) m'.
Proof.
  intros Hcl Hl.
  destruct (proj1 (wp_ok _ _ _) (on_alloc_spec live m l (hcl_rel _ _ Hcl) Hl)) as (p & m' & Heq & Hs & Hd & Hr).
  destruct Hr as [(-> & Hoom & _)|(Hp & Hnone & Hrel & _)]; [left; split; [done|by exists m']|right].
  exists p, m'. split_and!; [done..|]. by eapply owners_alloc.
Qed.

Lemma Box_new_run live m o :
  heap_client live m →
  (out_of_memory (heap_part m) (layout_of o) ∧ panics (Box_new o) m) ∨
  ∃ p m', Box_new o m = Ok (p, m') ∧ 0 < p ∧ live !! p = None ∧ lget objs m' = <[p := o]> (lget objs m) ∧
    lget handlers m' = lget handlers m ∧ data_kept live (heap_part m) (heap_part m') ∧
    heap_client (<[p := layout_of o]> live) m'.
Proof.
  intros Hcl. unfold Box_new. destruct (box_memory live m _ Hcl (layout_of_ok o))
    as [(Hoom & m' & Heq)|(p & m' & Heq & Hp & Hnone & Hs & Hd & Hcl')].
  - left. split; [done|]. eexists. unfold bind at 1. by rewrite Heq.
  - right. exists p, (lset objs (<[p := o]> (lget objs m')) m'). unfold bind at 1. rewrite Heq.
    destruct (Z.eqb_spec p 0); [lia|]. split_and!; [done|done|done| | |done|].
    + by rewrite lens_get_set, (heap_step_objs _ _ Hs).
    + by rewrite <- (heap_step_handlers _ _ Hs).
    + apply owners_put_obj; [done|by rewrite lookup_insert_eq|]. rewrite (heap_step_handlers _ _ Hs).
      intros v x l Hx Hb. destruct (hcl_slots _ _ Hcl v x p l Hx Hb). congruence.
Qed.

Lemma Box_drop_run live m p o :
  heap_client live m → lget objs m !! p = Some o →
  ∃ m', Box_drop p m = Ok (tt, m') ∧ lget objs m' = delete p (lget objs m) ∧
    lget handlers m' = lget handlers m ∧ data_kept (delete p live) (heap_part m) (heap_part m') ∧
    heap_client (delete p live) m'.
Proof.
  intros Hcl Ho. pose proof (hcl_objs _ _ Hcl p o Ho) as Hp.
  set (m1 := lset objs (delete p (lget objs m)) m). pose proof (owners_drop_obj live m p Hcl) as Hcl1. fold m1 in Hcl1.
  destruct (proj1 (wp_ok _ _ _) (on_dealloc_spec live m1 _ p (hcl_rel _ _ Hcl1) Hp)) as ([] & m' & Heq & Hs & Hd & Hrel).
  exists m'. split_and!.
  - unfold Box_drop, Box_get, bind, gets, unwrap. rewrite Ho. exact Heq.
  - rewrite (heap_step_objs _ _ Hs). unfold m1. by rewrite lens_get_set.
  - by rewrite (heap_step_handlers _ _ Hs).
  - exact Hd.
  - eapply owners_dealloc; [exact Hcl1|done|done|unfold m1; by rewrite lens_get_set, lookup_delete_eq|].
    intros v x l Hx Hb. destruct (hcl_slots _ _ Hcl v x p l Hx Hb) as [_ Hno]. congruence.
Qed.

(** ** Plain memory *)
Lemma uacpi_layout_ok size : 0 ≤ size < 2 ^ 63 → layout_ok (uacpi_layout size).
Proof. intros Hs. split; [simpl; lia|]. exists 4. split; [lia|done]. Qed.

(** [uacpi_kernel_alloc] returns null only when there is nothing left for the
    size, and otherwise the address of at least that many bytes, 16-byte aligned,
    that no live allocation uses.  [uacpi_kernel_free] with the size the block was
    allocated with gives it back, and does nothing on null.  Neither touches the
    data of another allocation nor other state of the kernel. *)
Theorem uacpi_alloc_free_correct live m size :
  heap_rel h (heap_part m) live → 0 ≤ size < 2 ^ 63 →
  let l := uacpi_layout size in
  uacpi_kernel_free 0 size m = Ok (tt, m) ∧
  (∃ p m', uacpi_kernel_alloc size m = Ok (p, m') ∧ heap_step m m' ∧ data_kept live (heap_part m) (heap_part m') ∧
    (p = 0 ∧ out_of_memory (heap_part m) l ∧ heap_rel h (heap_part m') live ∨
     0 < p ∧ (16 | p) ∧ size ≤ extent l ∧ live !! p = None ∧ heap_rel h (heap_part m') (<[p := l]> live))) ∧
  ∀ p, live !! p = Some l →
    ∃ m', uacpi_kernel_free p size m = Ok (tt, m') ∧ heap_step m m' ∧
      data_kept (delete p live) (heap_part m) (heap_part m') ∧ heap_rel h (heap_part m') (delete p live).
Proof.
  intros Hrel Hsz l. split_and!; [done| |].
  - apply (wp_ok (uacpi_kernel_alloc size)). unfold uacpi_kernel_alloc.
    eapply wp_mono; [by apply (on_alloc_spec live m l Hrel), uacpi_layout_ok|]. cbv beta.
    intros p m' (Hs & Hd & Hr). split_and!; [done|done|]. destruct Hr as [?|(Hp & Hn & Hr & Hle & Hal)]; [by left|right].
    split_and!; [done| | |done|done].
    + apply Hal. left. rewrite FRAME_SIZE_val. simpl. lia.
    + simpl in Hle. lia.
  - intros p Hp. pose proof (live_pos m live p l Hrel Hp). unfold uacpi_kernel_free.
    destruct (Z.eqb_spec p 0); [lia|]. cbn [negb].
    destruct (proj1 (wp_ok _ _ _) (on_dealloc_spec live m l p Hrel Hp)) as ([] & m' & Heq & ?). by exists m'.
Qed.

(** ** Handles *)
Inductive handle_kind := PciDevice (a : PciAddress) | Spinlock | MutexLock | Event.

Definition object (k : handle_kind) : KObj :=
  match k with
  | PciDevice a => OPci a
  | Spinlock | MutexLock => OLock SpinLock_INIT
  | Event => OEvent 0
  end.

Definition create (k : handle_kind) : KM Z :=
  match k with
  | PciDevice a => let! r := uacpi_kernel_pci_device_open a in
                   do! assert_ (fst r =? UACPI_STATUS_OK) "open"; ret (snd r)
  | Spinlock => uacpi_kernel_create_spinlock
  | MutexLock => uacpi_kernel_create_mutex
  | Event => uacpi_kernel_create_event
  end.

Definition free (k : handle_kind) (handle : Z) : KM unit :=
  match k with
  | PciDevice _ => uacpi_kernel_pci_device_close handle
  | Spinlock => uacpi_kernel_free_spinlock handle
  | MutexLock => uacpi_kernel_free_mutex handle
  | Event => uacpi_kernel_free_event handle
  end.

Lemma create_box k m : create k m = Box_new (object k) m.
Proof.
  destruct k as [[b d f]| | |]; cbn [create object]; [|done..].
  unfold uacpi_kernel_pci_device_open, bind, ret. cbn [bus device function].
  destruct (Box_new _ m) as [[p m']|e|]; [|done..]. cbn [fst snd]. by rewrite Z.eqb_refl.
Qed.

Lemma free_box k p : free k p = if negb (p =? 0) then Box_drop p else ret tt.
Proof. by destruct k. Qed.


(** ** Interrupt handlers *)
Abbreviation slot m v := (lget handlers m !! Z.to_nat v).

Definition acpi_layout : Layout := mkLayout 16 8.

Lemma install_unfold m irq hd ctx o :
  0 ≤ irq < 2 ^ 32 - 0x20 → let v := u8_of (irq + 0x20) in slot m v = Some (unlocked o) →
  uacpi_kernel_install_interrupt_handler irq hd ctx m =
    match o with
    | Some _ => Ok ((UACPI_STATUS_ALREADY_EXISTS, None), m)
    | None => (do! install_handler handlers handler_box handler_drop v (AcpiHandler hd ctx);
               ret (UACPI_STATUS_OK, Some v)) m
    end.
Proof.
  intros Hirq v Hslot. pose proof (is_installed_run handlers v o m Hslot) as Hins.
  assert (u32_add irq 0x20 m = Ok (irq + 0x20, m)) as Hadd.
  { assert (wp (u32_add irq 0x20) m (λ a s, a = irq + 0x20 ∧ s = m)) as (a & s & Heq & -> & ->)%wp_ok; [|done].
    apply wp_uint_arith; [lia|done]. }
  unfold uacpi_kernel_install_interrupt_handler. unfold bind at 1. rewrite Hadd. fold v.
  unfold bind at 1. rewrite Hins. by destruct o.
Qed.

(** A box goes into an empty slot. *)
Lemma fill_slot live m v b hd :
  heap_client live m → slot m v = Some (unlocked None) → handler_layout hd = Some acpi_layout →
  live !! b = Some acpi_layout → lget objs m !! b = None →
  (∀ w y l', lget handlers m !! w = Some y → slot_box y ≠ Some (b, l')) →
  ∃ m', replace_handler handlers handler_drop v (Some (b, hd)) m = Ok (tt, m') ∧
    lget objs m' = lget objs m ∧ lget handlers m' = <[Z.to_nat v := unlocked (Some (b, hd))]> (lget handlers m) ∧
    heap_client live m'.
Proof.
  intros Hcl Hslot Hhd Hb Hob Hno. pose proof (lookup_lt_Some _ _ _ Hslot) as Hlt.
  exists (put_slot handlers v (unlocked (Some (b, hd))) m). split_and!; [|done|unfold put_slot; by rewrite lens_get_set|].
  - rewrite (replace_run handlers handler_drop v None _ m (put_slot handlers v (locked None) m));
      [rewrite put_slot_put by exact _; reflexivity|done|done|apply put_slot_lookup; [exact _|done]].
  - apply owners_put_slot; [done|done|]. unfold slot_box, unlocked. cbn [slot_handler]. rewrite Hhd.
    intros b' l [= <- <-]. split_and!; [done|done|]. intros w y l' _ Hy. by apply Hno with w.
Qed.

(** The box of a handler is dropped with its slot locked. *)
Lemma empty_slot live m v b hd :
  heap_client live m → slot m v = Some (unlocked (Some (b, hd))) → handler_layout hd = Some acpi_layout →
  ∃ m', clear_handler handlers handler_drop v m = Ok (tt, m') ∧
    lget objs m' = lget objs m ∧ lget handlers m' = <[Z.to_nat v := unlocked None]> (lget handlers m) ∧
    heap_client (delete b live) m'.
Proof.
  intros Hcl Hslot Hhd. pose proof (lookup_lt_Some _ _ _ Hslot) as Hlt.
  assert (slot_box (unlocked (Some (b, hd))) = Some (b, acpi_layout)) as Hbox.
  { unfold slot_box, unlocked. cbn [slot_handler]. by rewrite Hhd. }
  destruct (hcl_slots _ _ Hcl _ _ _ _ Hslot Hbox) as [Hb Hob].
  set (m1 := put_slot handlers v (locked (Some (b, hd))) m).
  destruct (proj1 (wp_ok _ _ _) (on_dealloc_spec live m1 acpi_layout b (hcl_rel _ _ Hcl) Hb))
    as ([] & m2 & Heq & Hs & _ & Hrel).
  assert (lget handlers m2 = <[Z.to_nat v := locked (Some (b, hd))]> (lget handlers m)) as Hh2.
  { rewrite (heap_step_handlers _ _ Hs). unfold m1, put_slot. by rewrite lens_get_set. }
  assert (heap_client live (put_slot handlers v (unlocked None) m)) as Hcl1.
  { apply owners_put_slot; [done|done|]. by intros. }
  exists (put_slot handlers v (unlocked None) m2). split_and!.
  - unfold clear_handler. apply (replace_run handlers handler_drop v (Some (b, hd))); [done| |].
    + unfold handler_drop. rewrite Hhd. exact Heq.
    + rewrite Hh2. by apply list_lookup_insert_eq.
  - exact (heap_step_objs _ _ Hs).
  - unfold put_slot. rewrite lens_get_set, Hh2. by rewrite list_insert_insert_eq.
  - apply (owners_dealloc live (put_slot handlers v (unlocked None) m)); [done| |done|done|].
    + destruct Hs as (s & hp & -> & Hc). exists s, hp. split; [|done]. unfold m1, put_slot.
      destruct m as [sm []]. cbn. by rewrite list_insert_insert_eq.
    + unfold put_slot. rewrite lens_get_set. intros w y l [(<- & <- & _)|[Hne Hy]]%list_lookup_insert_Some Hy'; [done|].
      by pose proof (hcl_inj _ _ Hcl _ _ _ _ _ _ _ Hslot Hy Hbox Hy').
Qed.

Lemma install_run live m irq hd ctx o :
  heap_client live m → 0 ≤ irq < 2 ^ 32 - 0x20 →
  let v := u8_of (irq + 0x20) in slot m v = Some (unlocked o) →
  match o with
  | Some _ => uacpi_kernel_install_interrupt_handler irq hd ctx m = Ok ((UACPI_STATUS_ALREADY_EXISTS, None), m)
  | None =>
      out_of_memory (heap_part m) acpi_layout ∧ panics (uacpi_kernel_install_interrupt_handler irq hd ctx) m ∨
      ∃ b m', uacpi_kernel_install_interrupt_handler irq hd ctx m = Ok ((UACPI_STATUS_OK, Some v), m') ∧
        lget objs m' = lget objs m ∧
        lget handlers m' = <[Z.to_nat v := unlocked (Some (b, AcpiHandler hd ctx))]> (lget handlers m) ∧
        heap_client (<[b := acpi_layout]> live) m'
  end.
Proof.
  intros Hcl Hirq v Hslot. pose proof (install_unfold m irq hd ctx o Hirq Hslot) as Heq. fold v in Heq.
  destruct o as [oh|]; [done|]. unfold panics. rewrite Heq. unfold install_handler, handler_box.
  cbn [handler_layout]. fold acpi_layout. unfold bind. assert (layout_ok acpi_layout) as Hl.
  { by apply (handler_layout_ok (AcpiHandler None 0)). }
  destruct (box_memory live m _ Hcl Hl) as [(Hoom & m' & ->)|(b & m1 & -> & Hb & Hnone & Hs & _ & Hcl1)].
  - left. split; [done|]. by eexists.
  - right. destruct (Z.eqb_spec b 0); [lia|]. cbn [negb]. unfold assert_, ret.
    destruct (fill_slot (<[b := acpi_layout]> live) m1 v b (AcpiHandler hd ctx)) as (m' & -> & Ho & Hh & Hcl').
    + done.
    + by rewrite (heap_step_handlers _ _ Hs).
    + done.
    + apply lookup_insert_eq.
    + rewrite (heap_step_objs _ _ Hs). destruct (lget objs m !! b) as [ob|] eqn:Hob; [|done].
      pose proof (hcl_objs _ _ Hcl b ob Hob). congruence.
    + rewrite (heap_step_handlers _ _ Hs). intros w y l' Hy Hbox.
      destruct (hcl_slots _ _ Hcl w y b l' Hy Hbox). congruence.
    + exists b, m'. rewrite Ho, Hh, (heap_step_objs _ _ Hs), (heap_step_handlers _ _ Hs). done.
Qed.

Context `{!X86Apic D} `{!X86Idt}.

(** C19: the life of an interrupt handler.  [uacpi_kernel_install_interrupt_handler]
    refuses an interrupt that has a handler; otherwise it puts the new one in the
    slot of vector [irq + 0x20], whose number is the handle, and stops only when
    memory has run out.  From then on the interrupt calls the handler once, with
    its context, with the slot locked, and returns the frame as it was.
    [uacpi_kernel_uninstall_interrupt_handler] empties the slot again and returns
    the memory.  No other slot and no object changes. *)
Theorem interrupt_handler_lifecycle live m irq hd ctx :
  heap_client live m → 0 ≤ irq < 0xE0 →
  let v := irq + 0x20 in
  (∀ o, slot m v = Some (unlocked o) →
     match o with
     | Some _ => uacpi_kernel_install_interrupt_handler irq hd ctx m = Ok ((UACPI_STATUS_ALREADY_EXISTS, None), m)
     | None =>
         out_of_memory (heap_part m) acpi_layout ∧ panics (uacpi_kernel_install_interrupt_handler irq hd ctx) m ∨
         ∃ b m', uacpi_kernel_install_interrupt_handler irq hd ctx m = Ok ((UACPI_STATUS_OK, Some v), m') ∧
           lget objs m' = lget objs m ∧
           lget handlers m' = <[Z.to_nat v := unlocked (Some (b, AcpiHandler hd ctx))]> (lget handlers m) ∧
           heap_client (<[b := acpi_layout]> live) m'
     end) ∧
  (∀ b frame f r m', slot m v = Some (unlocked (Some (b, AcpiHandler (Some f) ctx))) → v ≠ 0x80 → vector frame = v →
     uacpi_call_handler f ctx (put_slot handlers v (locked (Some (b, AcpiHandler (Some f) ctx))) m) = Ok (r, m') →
     slot m' v = Some (locked (Some (b, AcpiHandler (Some f) ctx))) →
     isr_handler dev handlers run_handler frame m =
       Ok (frame, put_slot handlers v (unlocked (Some (b, AcpiHandler (Some f) ctx))) m')) ∧
  (∀ b, slot m v = Some (unlocked (Some (b, AcpiHandler hd ctx))) →
     ∃ m', uacpi_kernel_uninstall_interrupt_handler hd v m = Ok (UACPI_STATUS_OK, m') ∧
       lget objs m' = lget objs m ∧ lget handlers m' = <[Z.to_nat v := unlocked None]> (lget handlers m) ∧
       heap_client (delete b live) m').
Proof.
  intros Hcl Hirq v. assert (u8_of v = v) as Hv by (unfold u8_of; apply Z.mod_small; lia).
  split_and!.
  - intros o Hslot. pose proof (install_run live m irq hd ctx o Hcl ltac:(lia)) as Hrun. cbv zeta in Hrun.
    fold v in Hrun. rewrite Hv in Hrun. by apply Hrun.
  - intros b frame f r m' Hslot Hne Hf Hcall Hkeep. rewrite isr_handler_class by lia. rewrite Hf.
    assert (classify v = Handled) as ->.
    { unfold classify. destruct (Z.eqb_spec v 1), (Z.eqb_spec v 2), (Z.eqb_spec v 3), (Z.eqb_spec v 0x80),
        (Z.ltb_spec v 32); try lia; done. }
    eapply (dispatch_some handlers run_handler); [exact Hslot| |exact Hkeep]. unfold run_handler, bind. by rewrite Hcall.
  - intros b Hslot. destruct (empty_slot live m v b _ Hcl Hslot eq_refl) as (m' & Heq & ?). exists m'.
    split; [|done]. unfold uacpi_kernel_uninstall_interrupt_handler, bind. by rewrite Hv, Heq.
Qed.

(** Interrupt [0x60] has the vector of system calls: a handler is installed with
    success, and the vector returns without running it. *)
Theorem interrupt_handler_lost live m hd ctx :
  heap_client live m → slot m 0x80 = Some (unlocked None) → ¬ out_of_memory (heap_part m) acpi_layout →
  ∃ m', uacpi_kernel_install_interrupt_handler 0x60 hd ctx m = Ok ((UACPI_STATUS_OK, Some 0x80), m') ∧
    ∀ frame, vector frame = 0x80 → isr_handler dev handlers run_handler frame m' = Ok (frame, m').
Proof.
  intros Hcl Hslot Hmem. destruct (install_run live m 0x60 hd ctx None Hcl ltac:(lia) Hslot)
    as [[? _]|(b & m' & Heq & _)]; [done|]. exists m'. split; [exact Heq|].
  intros frame Hf. rewrite isr_handler_class by lia. by rewrite Hf.
Qed.
End uacpi_heap.
