(* ===== verification/System.v ===== *)
(** * System: the page tables and the heap on one machine

    The page tables of [src/kernel/src/mm/vmm.rs] and the heap of
    [src/kernel/src/mm/heap.rs] take their frames from one physical memory manager
    and write to memory through one direct map.  [VmmSpec] and [HeapSpec] are
    proved for any set of reserved frames; here each component's frames are
    reserved for the other: a call to one keeps the other's invariant, its data
    and its translations.  [System] then says what the kernel's memory is to its
    clients, an address space and a store of allocations, and that every sequence
    of calls behaves accordingly. *)

From S2P Require Import Prelude Bits Mem Pmm Dll PmmInv PmmList PmmOps PmmSpec.
From S2P Require Import Locks FrameAlloc Heap HeapInv HeapOps HeapLive HeapSpec.
From S2P Require Import Paging Vmm Walk VmmInv VmmOps VmmMap VmmUnmap VmmSpec VmmRange KernelVmm.
From S2P Require Import Devices Tsc Pci Idt Kernel KernelMap KernelPci Apic Uacpi UacpiHeap.

Section system.
Context `{Profile} {A D : Type} `{!FrameAllocator A} `{!X86Paging} `{!PagingLaws} `{!Devices D}.
Context (h top : Z).

Abbreviation KS := (Machine A (Kernel D KHandler)).
Implicit Types m : KS.
Implicit Types live : gmap Z Layout.

Abbreviation mem_of m := (sy_mem (m_sys m)).
Abbreviation free_of m := (fa_free (m_sys m)).
Abbreviation total_of m := (fa_total (m_sys m)).

(** ** Who has which frame *)

(** What the heap has, seen from the page tables, and the other way round. *)
Definition heap_frames (S : slabs) live : Reserved := heap_dom h ∅ S live.
Definition table_frames (T : gmap Z nat) : Reserved := λ g, is_Some (T !! (g * FRAME_SIZE)).

(** The heap is in order with these slabs. *)
Definition heap_with (S : slabs) live m : Prop :=
  heap_core h (heap_part m) S ∧ live_ok h (free_of m) (total_of m) S live ∧
  il_locked (mx_raw (k_heap (m_own m))) = false.

(** Both components are in order and have no frame in common. *)
Definition system_ok live m : Prop :=
  ∃ S, heap_with S live m ∧ kernel_ok (Res := heap_frames S live) h top m.

(** The words of one component's frames. *)
Lemma kept_words (Res : Reserved) m s x :
  sy_hhdm (m_sys m) = h → sys_kept (m_sys m) s → frame_words h reserved x → sy_mem s !! x = mem_of m !! x.
Proof. intros Hh (_ & Hk & _) Hx. apply Hk. by rewrite Hh. Qed.

(** A table's frame is not free, so that the heap may take it to be reserved. *)
Lemma heap_view live m S T :
  heap_with S live m → vmm_ok (Res := heap_frames S live) h (vmm_part m) top T →
  heap_rel (Res := table_frames T) h (heap_part m) live.
Proof.
  intros (Hc & HL & Hl) Hok. split; [done|]. exists S. split_and!; [done|done|].
  intros g [l Hg] [Hf|Hd].
  - destruct (to_frame _ _ _ _ _ _ (vo_tables _ _ _ _ Hok) _ l Hg) as (_ & f & Heq & _ & Hn).
    rewrite FRAME_SIZE_val in Heq. by replace g with f in Hf by lia.
  - destruct (vo_apart _ _ _ _ Hok g) as [_ Hn]; [by right|]. cbn in Hn. congruence.
Qed.

(** A heap nothing was asked of yet has no frames. *)
Lemma system_new m :
  kernel_ok (Res := nobody) h top m → k_heap (m_own m) = Heap_new → system_ok ∅ m.
Proof.
  intros [([T Hok] & Hd & Hl) Hcr] Hheap. pose proof Hok as [Hfa Hh Ht HT _].
  destruct (heap_new_core h (m_sys m) Hfa Hh) as (Hc & HL & Hdom). exists ∅. split.
  - unfold heap_with, heap_part. by rewrite Hheap.
  - split; [|done]. split_and!; [|done|done]. exists T. split; [done..|]. intros g Hg. by destruct (Hdom g).
Qed.

(** ** Calls to the page tables *)

(** The heap after a call that kept its frames. *)
Lemma heap_beside S live m m' :
  heap_with S live m → kernel_ok (Res := heap_frames S live) h top m' → vmm_step (Res := heap_frames S live) m m' →
  heap_with S live m' ∧ data_kept live (heap_part m) (heap_part m').
Proof.
  intros (Hc & HL & Hl) [([T Hok] & _) _] (s & v & -> & Hkept). pose proof Hc as [Hfa Hh HI].
  assert (∀ g, heap_dom h ∅ S live g → g ∉ fa_free s) as Hap by (intros g Hg; by apply (vo_apart _ _ _ _ Hok g)).
  pose proof Hkept as (Hcpu & _ & Htot). change (fa_total (m_sys (heap_part m))) with (total_of m) in HI.
  assert (live_ok h (fa_free s) (total_of m) S live) as HL' by (by eapply live_ok_free).
  split; [split_and!|].
  - split; cbn [heap_part m_sys m_own]; [exact (vo_fa _ _ _ _ Hok)|exact (vo_hhdm _ _ _ _ Hok)|].
    rewrite Htot. eapply heap_inv_mem; [exact HI| |].
    + intros a b fl Ha. by destruct (lo_slab _ _ _ _ _ HL' a b fl Ha).
    + intros x (a & b & fl & Ha & Hx). apply (kept_words _ m s x Hh Hkept).
      eapply (dom_slab_word HL ∅ a b fl); [done|]. by eapply (meta_in_slab HL).
  - cbn [m_sys]. by rewrite Htot.
  - done.
  - intros p l x Hp Hx. apply (kept_words _ m s x Hh Hkept). by eapply (dom_region_word HL).
Qed.

(** A call that is right for any reserved frames is right beside the heap, and
    keeps what is in it. *)
Lemma wp_beside_heap {B : Type} (c : M KS B) live m (Q : B → KS → Prop) :
  system_ok live m →
  (∀ Res : Reserved, kernel_ok h top m → wp c m (λ b m', Q b m' ∧ kernel_ok h top m' ∧ vmm_step m m')) →
  wp c m (λ b m', Q b m' ∧ system_ok live m' ∧ data_kept live (heap_part m) (heap_part m')).
Proof.
  intros (S & Hw & Hk) Hc. eapply wp_mono; [by apply (Hc (heap_frames S live))|].
  cbv beta. intros b m' (HQ & Hk' & Hs). destruct (heap_beside S live m m' Hw Hk' Hs) as [Hw' Hd].
  split_and!; [done|by exists S|done].
Qed.

(** Page tables and heap are in order, whatever is allocated. *)
Definition memory_ok m : Prop := ∃ live, system_ok live m.

#[export] Instance memory_inv : KernelInv h top memory_ok.
Proof.
  split.
  - intros m (live & S & _ & Hk). by eapply kernel_ok_alone.
  - intros B c m Q (live & Hok) Hc. eapply wp_mono; [by apply (wp_beside_heap c live m Q)|].
    cbv beta. intros b m' (HQ & Hok' & _). split; [done|by exists live].
  - intros b m (live & S & ([Hfa Hh HI] & HL & Hl) & Hk). exists live, S. split; [|by apply kernel_ok_if].
    destruct (fa_frame h (m_sys m) (mem_of m) b (sy_hhdm (m_sys m)) Hfa) as (Hfa' & Hfr & Htot); [done|].
    split_and!; [split| |done]; cbn in *; [done|done|by rewrite Hfr, Htot|by rewrite Hfr, Htot].
  - intros m m' Hs Hv Hp (live & S & (Hc & HL & Hl) & Hk). exists live, S.
    unfold heap_with, heap_part in *. rewrite Hs, Hp. split; [by split_and!|].
    by apply (inv_frame (KernelInv := kernel_ok_inv (heap_frames S live) h top) m).
Qed.

(** ** Calls to the heap *)

(** The page tables after a call that kept their frames. *)
Lemma tables_beside live' S S' live m m' T :
  vmm_ok (Res := heap_frames S live) h (vmm_part m) top T → heap_step (Res := table_frames T) m m' →
  heap_with S' live' m' → dom_apart (Res := table_frames T) h (heap_part m') S' live' →
  vmm_ok (Res := heap_frames S' live') h (vmm_part m') top T ∧ ∀ v, mmu_leaf h top m' v = mmu_leaf h top m v.
Proof.
  intros [Hfa Hh Ht HT Hap] (s & hp & -> & Hkept) (Hc' & HL' & _) Hap'. pose proof Hkept as (Hcpu & _ & Htot).
  cbn [vmm_part heap_part m_sys m_own] in *.
  assert (same_entries h T (mem_of m) (sy_mem s)) as Hent.
  { apply same_entries_eq. intros q l j Hq Hj. unfold ent, read_word. rewrite (kept_words _ m s _ Hh Hkept); [done|].
    destruct (to_frame _ _ _ _ _ _ HT q l Hq) as (_ & f & -> & _). exists f. split; [by exists l|].
    unfold fb_addr. rewrite FRAME_SIZE_val. lia. }
  split.
  - split; cbn [vmm_part m_sys]; [apply Hc'|by rewrite (proj2 Hcpu)|by rewrite Htot| |].
    + rewrite Htot. eapply (tables_same h HT Hent). intros q l f Hq -> _ Hf. apply (Hap' f); [by exists l|by left].
    + intros g Hg. split.
      * exact (dom_not_free HL' g Hg).
      * destruct (T !! (g * FRAME_SIZE)) as [l|] eqn:Hl; [|done]. destruct Hg as [?%elem_of_empty|Hd]; [done|].
        destruct (Hap' g); [by exists l|by right].
  - intros v. unfold mmu_leaf, leaf_at. cbn [m_sys]. destruct (is_canonical v); [|done].
    rewrite (walk_same_entries h HT Hent); [done|]. apply HT.
Qed.

(** A call that is right for any reserved frames is right beside the page tables,
    and keeps every translation. *)
Lemma wp_beside_tables {B : Type} (c : M KS B) live m (f : B → gmap Z Layout) (Q : B → KS → Prop) :
  system_ok live m →
  (∀ Res : Reserved, heap_rel h (heap_part m) live →
     wp c m (λ b m', Q b m' ∧ heap_step m m' ∧ heap_rel h (heap_part m') (f b))) →
  wp c m (λ b m', Q b m' ∧ system_ok (f b) m' ∧ ∀ v, mmu_leaf h top m' v = mmu_leaf h top m v).
Proof.
  intros (S & Hw & [([T Hok] & Hd & Hl) Hcr]) Hc. pose proof (heap_view live m S T Hw Hok) as Hrel.
  eapply wp_mono; [by apply (Hc (table_frames T))|].
  cbv beta. intros b m' (HQ & Hs & (Hl' & S' & Hc' & HL' & Hap')).
  assert (heap_with S' (f b) m') as Hw' by (by split_and!).
  destruct (tables_beside (f b) S S' live m m' T Hok Hs Hw' Hap') as [Hok' Hmmu].
  split_and!; [done| |done]. exists S'. split; [done|]. destruct Hs as (s & hp & -> & _).
  split; [|exact Hcr]. by split_and!; [exists T|..].
Qed.

(** A client's own write. *)
Lemma client_store_spec (Res : Reserved) live m p l x v :
  heap_rel h (heap_part m) live → live !! p = Some l → region p l x →
  wp (on_sys (store x v)) m (λ _ m', mem_of m' = write_word x v (mem_of m) ∧ heap_step m m' ∧
    heap_rel h (heap_part m') live).
Proof.
  intros Hrel Hp Hx. assert (same_outside (region p l) (mem_of m) (write_word x v (mem_of m))) as Hm
    by (by apply same_outside_write).
  pose proof (client_write h (heap_part m) live p l _ Hrel Hp Hm) as Hrel'.
  unfold wp, on_sys, store, modify. cbn. split_and!; [done| |exact Hrel'].
  destruct Hrel as (_ & S & Hc & HL & Hap). exists (set_sy_mem (write_word x v (mem_of m)) (m_sys m)), (k_heap (m_own m)).
  split; [by destruct m as [sm []]|]. eapply (dom_kept h (heap_part m) S live); [done|done|done| |exact Hm|].
  - destruct (fa_frame h (m_sys m) (write_word x v (mem_of m)) (sy_if (m_sys m)) (sy_hhdm (m_sys m)) (hc_fa _ _ _ Hc))
      as (_ & _ & Ht); [|exact Ht].
    intros y Hy. apply Hm. intros Hr. by destruct (live_words HL p l y Hp Hr).
  - intros y Hy. by eapply (dom_region_word HL).
Qed.
End system.
