(* ===== verification/SystemSpec.v ===== *)
(** * SystemSpec: what the kernel's memory is to its clients

    An abstract machine: an address space that [map], [map_range] and [unmap] of
    [src/kernel/src/mm/vmm.rs] edit and [translate] looks up, and a store of
    allocations that [alloc] and [dealloc] of [src/kernel/src/mm/heap.rs] hand out
    and take back, with the words clients wrote there.  It knows nothing of
    frames, tables and slabs.  [kernel_refines] shows that every call returns and
    does what the abstract machine allows, [kernel_runs] that this holds along any
    sequence of calls, and [mapping_stable] that a mapping stays until it is
    unmapped. *)

From S2P Require Import Prelude Bits Mem Pmm Dll PmmInv PmmList PmmOps PmmSpec.
From S2P Require Import Locks FrameAlloc Heap HeapInv HeapOps HeapLive HeapSpec.
From S2P Require Import Paging Vmm Walk VmmInv VmmOps VmmMap VmmUnmap VmmSpec VmmRange KernelVmm.
From S2P Require Import Devices Tsc Pci Idt Kernel KernelMap KernelPci Apic Uacpi UacpiHeap System.

(** ** The abstract machine *)

(** A translation comes with the level of its entry, as in [KernelVmm]. *)
Abbreviation leaves := (Z → option (nat * (Z * Z))).

Record space := mkSpace {
  sp_leaf : leaves;
  sp_live : gmap Z Layout;
  sp_data : gmap Z Z
}.

Inductive kop :=
| KMap (v phys flags : Z) (size : PageSize)
| KUnmap (v : Z) (size : PageSize)
| KMapRange (virt phys pages flags : Z) (size : PageSize)
| KTranslate (v : Z)
| KAlloc (l : Layout)
| KFree (p : Z) (l : Layout)
| KWrite (x v : Z)
| KRead (x : Z).

Inductive kans :=
| AMap (r : result unit MapError)
| AUnmap (r : result unit UnmapError)
| ATrans (t : option (Z * Z))
| APtr (p : Z)
| AWord (v : Z)
| AUnit.

Section abstract.
Context `{!X86Paging}.

Definition leaf_next (tr : leaves) (o : kop) (ans : kans) (v' : Z) : option (nat * (Z * Z)) :=
  match o, ans with
  | KMap v phys flags size, AMap (ROk _) =>
      if decide (v / PageSize_bytes size = v' / PageSize_bytes size)
      then Some (size_level size, mapped_to size phys flags v') else tr v'
  | KUnmap v size, AUnmap (ROk _) =>
      if decide (v / PageSize_bytes size = v' / PageSize_bytes size) then None else tr v'
  | KMapRange virt phys pages flags size, AMap (ROk _) =>
      let sz := PageSize_bytes size in
      let page := v' / sz - virt / sz in
      if decide (0 ≤ page < pages)
      then Some (size_level size, mapped_to size (phys + page * sz) flags v') else tr v'
  | _, _ => tr v'
  end.

Definition live_next (live : gmap Z Layout) (o : kop) (ans : kans) : gmap Z Layout :=
  match o, ans with
  | KAlloc l, APtr p => if p =? 0 then live else <[p := l]> live
  | KFree p _, _ => delete p live
  | _, _ => live
  end.

Definition data_next (data : gmap Z Z) (o : kop) : gmap Z Z :=
  match o with
  | KFree p l => filter (λ kv, ¬ (p ≤ kv.1 < p + extent l)) data
  | KWrite x v => <[x := v]> data
  | _ => data
  end.

(** What a call that was answered so leaves behind. *)
Definition spec_next (a : space) (o : kop) (ans : kans) : space :=
  mkSpace (leaf_next (sp_leaf a) o ans) (live_next (sp_live a) o ans) (data_next (sp_data a) o).

(** Which answers are right. *)
Definition spec_allows (a : space) (o : kop) (ans : kans) : Prop :=
  let tr' := leaf_next (sp_leaf a) o ans in
  match o, ans with
  | KMap v phys flags size, AMap r => map_outcome (sp_leaf a) v phys flags size r tr'
  | KUnmap v size, AUnmap r => unmap_outcome (sp_leaf a) v size r tr'
  | KMapRange virt phys pages flags size, AMap r => range_outcome (sp_leaf a) virt phys pages flags size r tr'
  | KTranslate v, ATrans t => t = if is_canonical v then snd <$> sp_leaf a v else None
  | KAlloc l, APtr p => p = 0 ∨ 0 < p ∧ lay_size l ≤ extent l ∧ (lay_align l ≤ FRAME_SIZE → (lay_align l | p)) ∧
      ∀ q k, sp_live a !! q = Some k → q ≠ p ∧ (p + extent l ≤ q ∨ q + extent k ≤ p)
  | KFree _ _, AUnit => True
  | KWrite _ _, AUnit => True
  | KRead x, AWord v => sp_data a !! x = Some v
  | _, _ => False
  end.

(** What a client may ask: it maps pages of memory the processor can address,
    gives back what it holds, and touches only that. *)
Definition op_ok (a : space) (o : kop) : Prop :=
  match o with
  | KMap v phys flags size => u64_range v ∧ 0 ≤ phys < 2 ^ 52 ∧ flag_bits_ok flags
  | KUnmap v size => u64_range v
  | KMapRange virt phys pages flags size =>
      let sz := PageSize_bytes size in
      0 ≤ virt ∧ 0 ≤ phys ∧ 0 ≤ pages ∧ flag_bits_ok flags ∧
      virt + pages * sz ≤ 2 ^ 64 ∧ phys + pages * sz ≤ 2 ^ 52
  | KTranslate v => u64_range v
  | KAlloc l => layout_ok l
  | KFree p l => sp_live a !! p = Some l
  | KWrite x _ => ∃ p l, sp_live a !! p = Some l ∧ region p l x
  | KRead x => is_Some (sp_data a !! x)
  end.

(** Outcomes only look at good addresses. *)
Lemma map_transfer tr1 tr2 tr1' v phys flags size r :
  (∀ v', good_addr v' → tr1 v' = tr2 v') → map_outcome tr1 v phys flags size r tr1' →
  let tr2' := leaf_next tr2 (KMap v phys flags size) (AMap r) in
  map_outcome tr2 v phys flags size r tr2' ∧ ∀ v', good_addr v' → tr1' v' = tr2' v'.
Proof.
  intros Htr [Ht Hr] tr2'. split; [split|].
  - intros v' Hv'. by destruct r.
  - destruct r as [[]|[]]; [destruct Hr as (? & ? & Hn); split_and!; [done..|]| |done|done|done].
    + intros v' Hv' Hp. rewrite <- (Htr v' Hv'). by apply Hn.
    + intros Hs v' Hv' Hp. rewrite <- (Htr v' Hv'). by apply Hr.
  - intros v' Hv'. rewrite (Ht v' Hv'). unfold tr2', leaf_next. destruct r; [case_decide; [done|]|]; by apply Htr.
Qed.

Lemma unmap_transfer tr1 tr2 tr1' v size r :
  (∀ v', good_addr v' → tr1 v' = tr2 v') → unmap_outcome tr1 v size r tr1' →
  let tr2' := leaf_next tr2 (KUnmap v size) (AUnmap r) in
  unmap_outcome tr2 v size r tr2' ∧ ∀ v', good_addr v' → tr1' v' = tr2' v'.
Proof.
  intros Htr [Ht Hr] tr2'. split; [split|].
  - intros v' Hv'. by destruct r.
  - destruct r as [[]|[]]; [|intros Hs|done|done]; intros v' Hv' Hp; rewrite <- (Htr v' Hv'); by apply Hr.
  - intros v' Hv'. rewrite (Ht v' Hv'). unfold tr2', leaf_next. destruct r; [case_decide; [done|]|]; by apply Htr.
Qed.

Lemma range_transfer tr1 tr2 tr1' virt phys pages flags size r :
  (∀ v', good_addr v' → tr1 v' = tr2 v') → range_outcome tr1 virt phys pages flags size r tr1' →
  let tr2' := leaf_next tr2 (KMapRange virt phys pages flags size) (AMap r) in
  range_outcome tr2 virt phys pages flags size r tr2' ∧ ∀ v', good_addr v' → tr1' v' = tr2' v'.
Proof.
  intros Htr [Ht Hr] tr2'. split; [split|].
  - intros v' Hv'. by destruct r.
  - intros Hok. destruct (Hr Hok) as [Hg Hn]. split; [done|]. intros v' Hv' Hp. rewrite <- (Htr v' Hv'). by apply Hn.
  - intros v' Hv'. rewrite (Ht v' Hv'). unfold tr2', leaf_next. cbv zeta.
    destruct r; [case_decide; [done|]|]; by apply Htr.
Qed.
End abstract.

(** ** The kernel *)
Section refinement.
Context `{Profile} {A D : Type} `{!FrameAllocator A} `{!X86Paging} `{!PagingLaws} `{!Devices D}.
Context (h top : Z).

Abbreviation KS := (Machine A (Kernel D KHandler)).
Implicit Types m : KS.
Implicit Types a : space.

Abbreviation mem_of m := (sy_mem (m_sys m)).
Abbreviation leaf m v := (mmu_leaf h top m v).

(** The call a client makes; [KWrite] and [KRead] are its own accesses. *)
Definition exec (o : kop) : M KS kans :=
  match o with
  | KMap v phys flags size => let! r := on_vmm (map v phys flags size) in ret (AMap r)
  | KUnmap v size => let! r := on_vmm (unmap v size) in ret (AUnmap r)
  | KMapRange virt phys pages flags size => let! r := on_vmm (map_range virt phys pages flags size) in ret (AMap r)
  | KTranslate v => let! t := on_vmm (translate v) in ret (ATrans t)
  | KAlloc l => let! p := on_heap (alloc l) in ret (APtr p)
  | KFree p l => do! on_heap (dealloc p l); ret AUnit
  | KWrite x v => do! on_sys (store x v); ret AUnit
  | KRead x => let! v := on_sys (load x) in ret (AWord v)
  end.

(** The kernel's state stands for an abstract one. *)
Record system_rel a m : Prop := {
  sr_ok : system_ok h top (sp_live a) m;
  sr_leaf v : good_addr v → leaf m v = sp_leaf a v;
  sr_data x v : sp_data a !! x = Some v →
    mem_of m !! x = Some v ∧ ∃ p l, sp_live a !! p = Some l ∧ region p l x
}.

(** Memory in order stands for some abstract state. *)
Lemma memory_rel m : memory_ok h top m → ∃ a, system_rel a m.
Proof. intros [live Hok]. by exists (mkSpace (mmu_leaf h top m) live ∅). Qed.

Lemma on_translate_spec `{Res : !Reserved} m v :
  kernel_ok h top m → wp (on_vmm (translate v)) m (λ t m',
    (t = (if is_canonical v then snd <$> leaf m v else None) ∧ ∀ v', leaf m' v' = leaf m v') ∧
    kernel_ok h top m' ∧ vmm_step m m').
Proof.
  intros Hk. eapply wp_mono; [apply (wp_kernel_call h top _ m (λ t w, t = (if is_canonical v then snd <$> leaf m v else None) ∧
    w = mem_of m) Hk)|].
  - apply (wp_call h top (λ vmm, Vmm_translate vmm v) (vmm_part m)
      (λ t w, t = (if is_canonical v then snd <$> leaf m v else None) ∧ w = mem_of m)); [apply Hk|].
    intros T m1 Hok Hmem. eapply wp_mono; [by apply (translate_spec h top T)|]. cbv beta. intros t m2 [-> ->].
    split_and!; [|done|by exists T|done..]. rewrite Hmem, translation_leaf. unfold mmu_leaf, leaf_at.
    by destruct (is_canonical v).
  - cbv beta. intros t m' ((-> & Hm) & Hk' & Hs). split_and!; [done| |done|done]. intros v'. unfold mmu_leaf. by rewrite Hm.
Qed.

(** What clients wrote is still there when their allocations are kept. *)
Lemma data_beside a m m' live' data' :
  system_rel a m → data_kept live' (heap_part m) (heap_part m') → data' ⊆ sp_data a →
  (∀ x v, data' !! x = Some v → ∃ p l, live' !! p = Some l ∧ region p l x) →
  ∀ x v, data' !! x = Some v → mem_of m' !! x = Some v ∧ ∃ p l, live' !! p = Some l ∧ region p l x.
Proof.
  intros Hrel Hd Hsub Hr x v Hx. destruct (Hr x v Hx) as (p & l & Hp & Hreg). split; [|eauto].
  destruct (sr_data _ _ Hrel x v) as [Hm _]; [by eapply lookup_weaken|]. by rewrite <- Hm; apply (Hd p l x).
Qed.

(** A call to the page tables. *)
Lemma refines_vmm {B : Type} a m o (c : M KS B) (inj : B → kans) (Out : B → leaves → Prop) :
  system_rel a m →
  (∀ ans, live_next (sp_live a) o ans = sp_live a) → data_next (sp_data a) o = sp_data a →
  (∀ Res : Reserved, kernel_ok h top m →
     wp c m (λ b m', Out b (mmu_leaf h top m') ∧ kernel_ok h top m' ∧ vmm_step m m')) →
  (∀ b tr', Out b tr' → spec_allows a o (inj b) ∧
     ∀ v, good_addr v → tr' v = leaf_next (sp_leaf a) o (inj b) v) →
  wp (let! b := c in ret (inj b)) m (λ ans m', spec_allows a o ans ∧ system_rel (spec_next a o ans) m').
Proof.
  intros Hrel Hl Hdn Hc HOut. pose proof Hrel as [Hok Hleaf Hdata].
  eapply wp_seq; [by apply (wp_beside_heap h top c (sp_live a) m (λ b m', Out b (mmu_leaf h top m')))|].
  cbv beta. intros b m' (Ho & Hok' & Hd). apply wp_ret. destruct (HOut b _ Ho) as [Hall Htr]. split; [done|].
  split; unfold spec_next; cbn [sp_live sp_leaf sp_data]; rewrite ?Hl, ?Hdn; [done|done|].
  eapply data_beside; [done|exact Hd|done|]. intros x v Hx. by destruct (Hdata x v Hx).
Qed.

(** A call to the heap. *)
Lemma refines_heap {B : Type} a m o (c : M KS B) (inj : B → kans) (Q : B → KS → Prop) :
  system_rel a m →
  (∀ ans v, leaf_next (sp_leaf a) o ans v = sp_leaf a v) →
  (∀ Res : Reserved, heap_rel h (heap_part m) (sp_live a) → wp c m (λ b m', Q b m' ∧ heap_step m m' ∧
     heap_rel h (heap_part m') (live_next (sp_live a) o (inj b)))) →
  (∀ b m', Q b m' → spec_allows a o (inj b) ∧ ∀ x v, data_next (sp_data a) o !! x = Some v →
     mem_of m' !! x = Some v ∧ ∃ p l, live_next (sp_live a) o (inj b) !! p = Some l ∧ region p l x) →
  wp (let! b := c in ret (inj b)) m (λ ans m', spec_allows a o ans ∧ system_rel (spec_next a o ans) m').
Proof.
  intros Hrel Hlf Hc HQ. pose proof Hrel as [Hok Hleaf Hdata].
  eapply wp_seq; [by apply (wp_beside_tables h top c (sp_live a) m (λ b, live_next (sp_live a) o (inj b)) Q)|].
  cbv beta. intros b m' (Hq & Hok' & Hmmu). apply wp_ret. destruct (HQ b m' Hq) as [Hall Hd']. split; [done|].
  split; unfold spec_next; cbn [sp_live sp_leaf sp_data]; [done| |done].
  intros v Hv. by rewrite Hmmu, Hlf, Hleaf.
Qed.

Lemma refines_alloc a m l :
  system_rel a m → layout_ok l →
  wp (exec (KAlloc l)) m (λ ans m', spec_allows a (KAlloc l) ans ∧ system_rel (spec_next a (KAlloc l) ans) m').
Proof.
  intros Hrel Hl. pose proof Hrel as [Hok Hleaf Hdata].
  apply (refines_heap a m (KAlloc l) (on_heap (alloc l)) APtr (λ p m', data_kept (sp_live a) (heap_part m) (heap_part m') ∧
    spec_allows a (KAlloc l) (APtr p))); [done|done| |].
  - intros Res Hh. eapply wp_mono; [by apply (on_alloc_spec h (sp_live a) m l)|]. cbv beta.
    intros p m' (Hs & Hd & Hr). cbn [live_next spec_allows].
    destruct Hr as [(-> & _ & Hrel')|(Hp & Hnew & Hrel' & Hsz & Hal)]; [by split_and!; [|left|..]|].
    destruct (Z.eqb_spec p 0); [lia|]. split_and!; [done| |done|done]. right. split_and!; [done|done|by auto|].
    intros q k Hq. assert (q ≠ p) as Hne by congruence. split; [done|].
    destruct Hrel' as (_ & S & _ & HL & _). apply (regions_apart HL p l q k); [apply lookup_insert_eq| |done].
    by rewrite lookup_insert_ne.
  - cbv beta. intros p m' [Hd Hall]. split; [done|]. intros x v Hx.
    destruct (Hdata x v Hx) as (Hm & q & k & Hq & Hr). split; [rewrite <- Hm; by apply (Hd q k x)|].
    exists q, k. split; [|done]. cbn [live_next]. destruct (Z.eqb_spec p 0); [done|].
    destruct Hall as [?|(_ & _ & _ & Hap)]; [done|]. destruct (Hap q k Hq). by rewrite lookup_insert_ne.
Qed.

Lemma refines_free a m p l :
  system_rel a m → sp_live a !! p = Some l →
  wp (exec (KFree p l)) m (λ ans m', spec_allows a (KFree p l) ans ∧ system_rel (spec_next a (KFree p l) ans) m').
Proof.
  intros Hrel Hp. pose proof Hrel as [Hok Hleaf Hdata].
  apply (refines_heap a m (KFree p l) (on_heap (dealloc p l)) (λ _, AUnit)
    (λ _ m', data_kept (delete p (sp_live a)) (heap_part m) (heap_part m'))); [done|done| |].
  - intros Res Hh. eapply wp_mono; [by apply (on_dealloc_spec h (sp_live a) m l)|]. cbv beta.
    intros [] m' (? & ? & ?). done.
  - cbv beta. intros [] m' Hd. split; [done|]. apply (data_beside a m m'); [done|done|apply map_filter_subseteq|].
    intros x v [Hx Hout]%map_lookup_filter_Some. destruct (Hdata x v Hx) as (_ & q & k & Hq & Hr). exists q, k.
    split; [|done]. cbn [live_next]. rewrite lookup_delete_ne; [done|]. intros <-. apply Hout. by simplify_eq.
Qed.

Lemma refines_write a m p l x v :
  system_rel a m → sp_live a !! p = Some l → region p l x →
  wp (exec (KWrite x v)) m (λ ans m', spec_allows a (KWrite x v) ans ∧ system_rel (spec_next a (KWrite x v) ans) m').
Proof.
  intros Hrel Hp Hx. pose proof Hrel as [Hok Hleaf Hdata].
  apply (refines_heap a m (KWrite x v) (on_sys (store x v)) (λ _, AUnit)
    (λ _ m', mem_of m' = write_word x v (mem_of m))); [done|done| |].
  - intros Res Hh. by eapply client_store_spec.
  - cbv beta. intros [] m' Hm. split; [done|]. intros y w Hy. cbn [data_next live_next] in *. rewrite Hm. unfold write_word.
    apply lookup_insert_Some in Hy as [[<- <-]|[Hne Hy]].
    + split; [apply lookup_insert_eq|eauto].
    + rewrite lookup_insert_ne by done. by apply Hdata.
Qed.

Lemma exec_spec a m o :
  system_rel a m → op_ok a o →
  wp (exec o) m (λ ans m', spec_allows a o ans ∧ system_rel (spec_next a o ans) m').
Proof.
  intros Hrel Hop. pose proof Hrel as [Hok Hleaf Hdata].
  destruct o as [v phys flags size|v size|virt phys pages flags size|v|l|p l|x v|x]; cbn [op_ok] in Hop.
  - destruct Hop as (? & ? & ?).
    apply (refines_vmm a m _ _ AMap (λ r tr', map_outcome (mmu_leaf h top m) v phys flags size r tr')); [done..| |].
    + intros Res Hk. by apply on_map_spec.
    + intros r tr' Ho. by apply (map_transfer (mmu_leaf h top m)).
  - apply (refines_vmm a m _ _ AUnmap (λ r tr', unmap_outcome (mmu_leaf h top m) v size r tr')); [done..| |].
    + intros Res Hk. by apply on_unmap_spec.
    + intros r tr' Ho. by apply (unmap_transfer (mmu_leaf h top m)).
  - destruct Hop as (? & ? & ? & ? & ? & ?).
    apply (refines_vmm a m _ _ AMap (λ r tr', range_outcome (mmu_leaf h top m) virt phys pages flags size r tr')); [done..| |].
    + intros Res Hk. by apply on_map_range_leaf.
    + intros r tr' Ho. by apply (range_transfer (mmu_leaf h top m)).
  - apply (refines_vmm a m _ _ ATrans (λ t tr', t = (if is_canonical v then snd <$> leaf m v else None) ∧
      ∀ v', tr' v' = leaf m v')); [done..| |].
    + intros Res Hk. by apply on_translate_spec.
    + intros t tr' [-> Htr]. split; [|intros v' Hv'; by rewrite Htr, Hleaf]. cbn [spec_allows].
      destruct (is_canonical v) eqn:Hc; [|done]. by rewrite Hleaf.
  - by apply refines_alloc.
  - by apply refines_free.
  - destruct Hop as (p & l & ? & ?). by eapply refines_write.
  - destruct Hop as [v Hx]. destruct (Hdata x v Hx) as [Hm _].
    unfold exec, on_sys, load, gets, bind, ret, wp. cbn. unfold read_word. rewrite Hm.
    split; [done|]. destruct m as [s k]. by split.
Qed.

(** C1: the kernel's memory is what its clients think it is.  In a state that
    stands for an abstract one, every call a client may make returns, gives an
    answer the abstract machine allows, and leaves a state that stands for the
    next abstract one.  Mapping never disturbs an allocation, allocating never
    disturbs a mapping, and each call keeps both components in order. *)
Theorem kernel_refines a m o :
  system_rel a m → op_ok a o →
  ∃ ans m', exec o m = Ok (ans, m') ∧ spec_allows a o ans ∧ system_rel (spec_next a o ans) m'.
Proof. intros Hrel Hop. by apply (wp_ok (exec o) m), exec_spec. Qed.

(** ** Sequences of calls *)

(** A run of the kernel, with what its clients know from the answers. *)
Inductive kernel_run : space * KS → list (kop * kans) → space * KS → Prop :=
| kr_nil s : kernel_run s [] s
| kr_cons a m o ans m1 es s :
    op_ok a o → exec o m = Ok (ans, m1) → kernel_run (spec_next a o ans, m1) es s →
    kernel_run (a, m) ((o, ans) :: es) s.

(** The runs of the abstract machine. *)
Inductive spec_run : space → list (kop * kans) → space → Prop :=
| sr_nil a : spec_run a [] a
| sr_cons a o ans es a' :
    op_ok a o → spec_allows a o ans → spec_run (spec_next a o ans) es a' → spec_run a ((o, ans) :: es) a'.

Lemma run_refines s es s' :
  kernel_run s es s' → system_rel (fst s) (snd s) →
  spec_run (fst s) es (fst s') ∧ system_rel (fst s') (snd s').
Proof.
  induction 1 as [s|a m o ans m1 es s Hop Heq Hrun IH]; intros Hrel; [by split; [constructor|]|].
  pose proof (exec_spec a m o Hrel Hop) as Hwp. unfold wp in Hwp. rewrite Heq in Hwp. destruct Hwp as [Hall Hrel1].
  destruct (IH Hrel1) as [Hsr Hrel']. split; [|done]. by eapply sr_cons.
Qed.


(** ** Mappings stay *)

(** A call that does not unmap the page of an address. *)
Definition spares (v : Z) (o : kop) : Prop :=
  match o with KUnmap w size => w / PageSize_bytes size ≠ v / PageSize_bytes size | _ => True end.

Lemma leaf_kept a o ans v t :
  good_addr v → spec_allows a o ans → spares v o → sp_leaf a v = Some t → sp_leaf (spec_next a o ans) v = Some t.
Proof.
  intros Hv Hall Hs Ht. unfold spec_next. cbn [sp_leaf].
  destruct o, ans as [[]|[]|?|?|?|]; cbn [spec_allows leaf_next spares] in *; try done.
  - destruct Hall as [_ (_ & _ & Hn)]. case_decide as Hp; [|done]. specialize (Hn v Hv Hp). congruence.
  - by rewrite decide_False.
  - destruct Hall as [_ Hr]. destruct a0. destruct (Hr eq_refl) as [_ Hn]. case_decide as Hp; [|done].
    specialize (Hn v Hv Hp). congruence.
Qed.

(** C11: a mapping stays until it is unmapped: along a run in which no call unmaps
    the page of an address that translates, whatever else is mapped, allocated or
    given back, the address translates as it did at first.  In particular the
    direct map the kernel reaches memory through is safe from every other call. *)
Theorem mapping_stable a m es a' m' v t :
  system_rel a m → kernel_run (a, m) es (a', m') → good_addr v → mmu m v = Some t →
  (∀ o ans, (o, ans) ∈ es → spares v o) → mmu m' v = Some t.
Proof.
  intros Hrel Hrun Hv Ht Hsp. destruct (run_refines _ _ _ Hrun Hrel) as [Hsr Hrel']. cbn [fst snd] in *.
  destruct (sr_ok _ _ Hrel) as (S & _ & Hk), (sr_ok _ _ Hrel') as (S' & _ & Hk').
  rewrite (mmu_leaf_snd h top m v Hk), (sr_leaf _ _ Hrel v Hv) in Ht.
  rewrite (mmu_leaf_snd h top m' v Hk'), (sr_leaf _ _ Hrel' v Hv).
  clear Hrel Hrel' Hrun Hk Hk'. induction Hsr as [a|a o ans es a' Hop Hall Hsr IH]; [done|].
  apply IH; [|intros o' ans' Hin; apply (Hsp o' ans'); by right].
  destruct (sp_leaf a v) as [[k x]|] eqn:Hl; [|done].
  by rewrite (leaf_kept a o ans v (k, x) Hv Hall (Hsp o ans ltac:(left)) Hl).
Qed.
End refinement.
