(* ===== verification/SystemBoot.v ===== *)
(** * SystemBoot: the kernel's memory after [mm::init]

    [mm::init] of [src/kernel/src/mm/mod.rs] leaves the machine in a state the
    theorems of [SystemSpec] start from: the abstract address space is the one the
    boot loader set up, and nothing is allocated. *)

From S2P Require Import Prelude Bits Mem Pmm Dll PmmInv PmmList PmmOps PmmSpec.
From S2P Require Import Locks FrameAlloc PmmGlobal MmInit Heap HeapInv HeapOps HeapLive HeapSpec.
From S2P Require Import Paging Vmm Walk VmmInv VmmOps VmmMap VmmUnmap VmmSpec VmmRange KernelVmm.
From S2P Require Import TableTree VmmClone CloneSpec KernelInit.
From S2P Require Import Devices Tsc Pci Idt Kernel KernelMap KernelPci Apic Uacpi UacpiHeap System SystemSpec.

(** Another tree in the address bits of [CR3], with the flags it had. *)
Lemma cr3_address top c :
  Z.land top ENTRY_ADDR_MASK = top → Z.land (Z.lor top (Z.land c (u64_not ENTRY_ADDR_MASK))) ENTRY_ADDR_MASK = top.
Proof.
  intros Ht. rewrite Z.land_lor_distr_l, Ht, <- Z.land_assoc.
  change (Z.land (u64_not ENTRY_ADDR_MASK) ENTRY_ADDR_MASK) with 0. by rewrite Z.land_0_r, Z.lor_0_r.
Qed.

Section boot.
Context `{Profile} `{Limine} `{!X86Paging} `{!PagingLaws} {D : Type} `{!Devices D}.
Implicit Types m : Machine PmmLock VmmHw.

Abbreviation mem_of m := (sy_mem (m_sys m)).

(** The kernel that runs on a machine [mm::init] has set up: the heap is the static
    [Heap::new()], everything else is up to the other components. *)
Definition kernel_on m (k : Kernel D KHandler) : Prop := k_vmm k = m_own m ∧ k_heap k = Heap_new.

Lemma init_kernel_ok memmap hhdm m m' k :
  init_post memmap hhdm m (ROk tt) m' → kernel_on m' k →
  ∃ top, system_ok hhdm top ∅ (mkMachine (m_sys m') k) ∧
    ∀ v, leaf_at hhdm top (mem_of m') v = leaf_at hhdm (boot_top m) (mem_of m) v.
Proof.
  intros (_ & _ & _ & top & T & Hd & Hl & Hok & Hcr & Hview & _) [Hv Hh]. exists top. split.
  - apply system_new; [|exact Hh]. split; [|cbn [m_own]; rewrite Hv, Hcr; apply cr3_address].
    + unfold kernel_vmm_ok, vmm_part. cbn [m_own m_sys]. rewrite Hv. destruct m' as [s' o']. by split_and!; [exists T|..].
    + destruct (table_bounds _ _ _ _ _ _ Hok (to_top _ _ _ _ _ _ (vo_tables _ _ _ _ Hok))) as (? & Hm & _ & _ & Hb).
      rewrite FRAME_SIZE_val in *. apply addr_land_mask. split; [lia|done].
  - intros v. unfold leaf_at. by rewrite <- !view_walk, Hview.
Qed.

(** Booting starts the abstract machine.  When [mm::init] succeeds, from a
    memory map that obeys the boot protocol, the kernel that runs on its result
    stands for the abstract machine whose address space is the one the boot loader
    set up, and in which nothing is allocated.  So everything [SystemSpec] says of
    sequences of calls holds from then on. *)
Theorem boot_starts_system memmap hhdm m m' (k : Kernel D KHandler) :
  memmap_ok memmap hhdm → has_room memmap → sy_alloc (m_sys m) = PMM_INIT →
  vh_vmm (m_own m) = Singleton_new → boot_tables_ok memmap hhdm m →
  init memmap hhdm m = Ok (ROk tt, m') → kernel_on m' k →
  ∃ top, system_rel hhdm top (mkSpace (leaf_at hhdm (boot_top m) (mem_of m)) ∅ ∅) (mkMachine (m_sys m') k).
Proof.
  intros Hmm Hroom Hpmm Hvmm Hboot Heq Hk.
  pose proof (init_spec memmap hhdm m Hmm Hroom Hpmm Hvmm Hboot) as Hwp. unfold wp in Hwp. rewrite Heq in Hwp.
  destruct (init_kernel_ok memmap hhdm m m' k Hwp Hk) as (top & Hok & Hleaf). exists top.
  split; cbn [sp_live sp_leaf sp_data]; [exact Hok|intros v _; exact (Hleaf v)|done].
Qed.
End boot.
