(* ===== verification/Drivers.v ===== *)
(** * Drivers: the components that rely on the firmware's tables, one after the other

    After memory and the descriptor tables, [kmain] starts the ACPI library
    ([src/kernel/src/acpi/mod.rs]), the interrupt controllers
    ([src/kernel/src/apic.rs]) and PCI ([src/kernel/src/pci.rs]).  [firmware] says
    what the kernel relies on there: the library leaves the kernel's structures in
    order, and the tables it finds describe the machine.  Then each driver runs to
    its end, with a result, and the next one can start. *)

From S2P Require Import Prelude Bits Mem Pmm Dll PmmInv PmmList PmmOps PmmSpec.
From S2P Require Import Locks FrameAlloc PmmGlobal Heap HeapInv HeapOps HeapLive HeapSpec.
From S2P Require Import Paging Vmm Walk VmmInv VmmOps VmmMap VmmUnmap VmmSpec VmmRange KernelVmm.
From S2P Require Import Eventually Devices Tsc Pci PciScan PciAccess Idt IdtSpec.
From S2P Require Import Kernel KernelMap Acpi KernelPci Apic.

(** Configuration space changes through its own ports and memory only. *)
Class PciApart (D : Type) `{!Devices D} `{!PciHost D} `{!X86Apic D} := {
  apart_io d d' : io_step d d' → pci_conf d' = pci_conf d;
  apart_attach d : pci_conf (x2apic_attach d) = pci_conf d;
  apart_ioapic base pin cpu d : pci_conf (ioapic_enable base pin cpu d) = pci_conf d
}.

Lemma apart_path {D : Type} `{PciApart D} (d d' : D) : rtc io_step d d' → pci_conf d' = pci_conf d.
Proof. induction 1 as [|d1 d2 d3 H1 _ IH]; [done|]. rewrite IH. by apply apart_io. Qed.

Section drivers.
Context `{Profile} {A D : Type} `{!FrameAllocator A} `{!X86Paging} `{!PagingLaws} `{!Devices D} `{!PciHost D}.
Context `{!X86Apic D} `{!PciApart D} `{!X86Idt}.
Abbreviation KS := (Machine A (Kernel D KHandler)).
Context `{!UAcpi KS} `{!UAcpiLaws KS}.

(** What the tables say: where configuration space is, and the interrupt
    controllers. *)
Context (h top : Z) (I : KS → Prop) `{!KernelInv h top I} (e : McfgEntry) (entries : list MadtEntry).
Implicit Types m : KS.

Abbreviation base := (ecam + h).
Abbreviation len := (mcfg_pages e * 2 ^ 21).

(** Bridges lead upwards, to buses in the window. *)
Definition buses_ok m : Prop :=
  ascending (cfg_of m) (start_bus e) ∧ ∀ b, rtc (leads (cfg_of m)) (start_bus e) b → in_window len b.

(** The kernel's memory is in order, as [I] says, and so are the buses. *)
Definition calm m : Prop := I m ∧ buses_ok m.

Definition keyboard_slot m : option (Slot KHandler) := lget handlers m !! 0x21%nat.

(** The interrupt flag, the keyboard's slot and the clock are left alone. *)
Definition kept m m' : Prop :=
  lget cpu_if m' = lget cpu_if m ∧ keyboard_slot m' = keyboard_slot m ∧ lget tsc_state m' = lget tsc_state m.

Definition is_ioapic (x : MadtEntry) : bool := type_ x =? ACPI_MADT_ENTRY_TYPE_IOAPIC.

(** What the kernel relies on. *)
Record firmware : Prop := {
  fw_stage c m : c ∈ [uacpi_initialize; uacpi_namespace_load; uacpi_namespace_initialize; uacpi_finalize_gpe_initialization] →
    calm m → wp c m (λ _ m', calm m' ∧ kept m m');
  fw_find sig m : calm m → wp (uacpi_table_find_by_signature sig) m (λ x m', calm m' ∧ kept m m' ∧
    (fst x = UACPI_STATUS_OK → (sig = "MCFG" → mcfg_entry (snd x) = e) ∧ (sig = "APIC" → madt_entries (snd x) = entries)));
  fw_unref t : unref_harmless I t base len;
  fw_buses : 0 ≤ start_bus e ≤ end_bus e ∧ end_bus e < 256;
  fw_ecam : address e = ecam ∧ 0 ≤ ecam ∧ ecam + len ≤ 2 ^ 52 ∧ base + 2 ^ 28 ≤ 2 ^ 64;
  fw_ioapic x : first_entry is_ioapic entries = Some x →
    0 ≤ ioapic_address x < 2 ^ 52 ∧ ioapic_address x + h < 2 ^ 64 ∧ 0 ≤ ioapic_gsi_base x ≤ 1;
  fw_override x y : first_entry is_ioapic entries = Some x → first_entry (is_override 1) entries = Some y →
    ioapic_gsi_base x ≤ iso_gsi y < 2 ^ 32
}.

#[local] Instance kept_refl : Reflexive kept.
Proof. by intros m. Qed.

#[local] Instance kept_trans : Transitive kept.
Proof. intros m1 m2 m3 (E1 & E2 & E3) (E4 & E5 & E6). split_and!; congruence. Qed.

Lemma kept_seen m m' : seen m' = seen m → kept m m'.
Proof. intros Hs. unfold seen in Hs. simplify_eq. unfold kept, keyboard_slot. split_and!; congruence. Qed.

Lemma buses_same m m' : pci_conf (lget dev m') = pci_conf (lget dev m) → buses_ok m → buses_ok m'.
Proof. intros Hc. unfold buses_ok, cfg_of. by rewrite Hc. Qed.

Context (F : firmware).

Lemma unref_calm t m : calm m → wp (uacpi_table_unref t) m (λ _ m', calm m' ∧ kept m m').
Proof.
  intros [Hk Hb]. eapply wp_mono; [by apply (fw_unref F t)|]. cbv beta. intros _ m' (Hk' & Hd & _ & Hs & _).
  split; [split; [done|]|by apply kept_seen]. eapply buses_same; [|exact Hb]. by rewrite Hd.
Qed.

(** ** ACPI *)
Lemma acpi_ok m : calm m → wp acpi_init m (λ _ m', calm m' ∧ kept m m').
Proof.
  assert (∀ c k m0 m1, c ∈ [uacpi_initialize; uacpi_namespace_load; uacpi_namespace_initialize;
      uacpi_finalize_gpe_initialization] → calm m1 ∧ kept m0 m1 →
    (∀ m2, calm m2 ∧ kept m0 m2 → wp k m2 (λ _ m', calm m' ∧ kept m0 m')) →
    wp (try_status c k) m1 (λ _ m', calm m' ∧ kept m0 m')) as Htry.
  { intros c k m0 m1 Hc [Hm1 Hk1] Hk. eapply wp_seq; [by apply (fw_stage F)|]. cbv beta. intros status m2 [Hm2 Hk2].
    assert (kept m0 m2) as Hk02 by (by etransitivity).
    destruct (uacpi_status_to_result status); [by apply Hk|by apply wp_ret]. }
  intros Hm. unfold acpi_init. apply Htry; [set_solver|done|]. intros. apply Htry; [set_solver|done|].
  intros. apply Htry; [set_solver|done|]. intros. apply Htry; [set_solver|done|]. intros. by apply wp_ret.
Qed.

(** ** The interrupt controllers *)
Lemma find_ioapic_ok m :
  calm m → wp find_ioapic m (λ fr m', calm m' ∧ kept m m' ∧
    match fr with
    | ROk p => ∃ x, first_entry is_ioapic entries = Some x ∧ p = (ioapic_address x, ioapic_gsi_base x)
    | RErr _ => True
    end).
Proof.
  intros Hm. eapply wp_seq; [by apply (fw_find F)|]. cbv beta. intros [status t] m1 (Hm1 & Hk1 & Ht). cbn [fst snd] in *.
  destruct (Z.eqb_spec status UACPI_STATUS_OK) as [->|]; cbn [negb]; [|by apply wp_ret].
  destruct (Ht eq_refl) as [_ He]. eapply wp_seq; [by apply unref_calm|]. cbv beta. intros _ m2 [Hm2 Hk2].
  assert (kept m m2) by (by etransitivity). rewrite for_each_law, iterate_ioapic, (He eq_refl). fold is_ioapic.
  destruct (first_entry is_ioapic entries) as [x|] eqn:Hx; cbn [fmap option_fmap option_map]; apply wp_ret; [|done].
  split_and!; [done|done|by exists x].
Qed.

Lemma resolve_ok m :
  calm m → wp (resolve_isa_irq 1) m (λ g m', calm m' ∧ kept m m' ∧
    (g = 1 ∨ ∃ y, first_entry (is_override 1) entries = Some y ∧ g = iso_gsi y)).
Proof.
  intros Hm. eapply wp_seq; [by apply (fw_find F)|]. cbv beta. intros [status t] m1 (Hm1 & Hk1 & Ht). cbn [fst snd] in *.
  destruct (Z.eqb_spec status UACPI_STATUS_OK) as [->|]; cbn [negb]; [|apply wp_ret; by split_and!; [..|left]].
  destruct (Ht eq_refl) as [_ He]. eapply wp_seq; [by apply unref_calm|]. cbv beta. intros _ m2 [Hm2 Hk2].
  apply wp_ret. split_and!; [done|by etransitivity|]. rewrite for_each_law, iterate_iso, (He eq_refl).
  destruct (first_entry (is_override 1) entries) as [y|]; [right; by exists y|by left].
Qed.

(** After [apic::init]. *)
Definition apic_up m m' : Prop :=
  lget cpu_if m' = true ∧ keyboard_slot m' = Some (unlocked (Some (1, Keyboard))) ∧ lget tsc_state m' = lget tsc_state m.

Lemma start_calm m :
  calm m → keyboard_slot m = Some (unlocked None) →
  calm (apic_start m).2 ∧ keyboard_slot (apic_start m).2 = Some (unlocked (Some (1, Keyboard))) ∧
  lget tsc_state (apic_start m).2 = lget tsc_state m.
Proof.
  intros [Hk Hb] Hs. unfold apic_start. set (d := x2apic_attach _).
  assert (pci_conf d = pci_conf (lget dev m)) as Hd.
  { unfold d. rewrite apart_attach. apply apart_path. io_chain. }
  pose proof (apart_io _ _ (io_rdmsr IA32_X2APIC_APICID d)) as Hr.
  destruct (dev_rdmsr IA32_X2APIC_APICID d) as [id d']. cbn [snd] in *. split_and!; [split|..].
  - by apply (inv_frame (h := h) (top := top) m).
  - eapply buses_same; [|exact Hb]. transitivity (pci_conf d'); [done|]. by rewrite Hr.
  - apply (put_slot_lookup handlers 0x21 _ (lset dev d' m)). by apply lookup_lt_Some in Hs.
  - done.
Qed.

Lemma apic_ok m :
  calm m → keyboard_slot m = Some (unlocked None) →
  wp apic_init m (λ r m', match r with ROk _ => calm m' ∧ apic_up m m' | RErr _ => True end).
Proof.
  intros Hm Hs. destruct (start_calm m Hm Hs) as (Hm1 & Hs1 & Ht1).
  destruct (proj1 (wp_ok _ _ _) (find_ioapic_ok _ Hm1)) as (fr & m2 & Hf & Hm2 & (Hi2 & Hs2 & Ht2) & Hfr).
  pose proof (apic_init_spec h top I m m2 fr Hs) as Hspec. destruct (apic_start m) as [id m1]. cbn [snd] in *.
  specialize (Hspec Hf). destruct fr as [[phys base_gsi]|err]; [|unfold wp; by rewrite Hspec].
  destruct Hfr as (x & Hx & [= -> ->]).
  destruct (proj1 (wp_ok _ _ _) (resolve_ok m2 Hm2)) as (g & m3 & Hg & [Hk3 Hb3] & (Hi3 & Hs3 & Ht3) & Hy).
  destruct (fw_ioapic F x Hx) as (Ha & Hah & Hbase).
  assert (ioapic_gsi_base x ≤ g < 2 ^ 32) as Hgb.
  { destruct Hy as [->|(y & Hy & ->)]; [lia|by apply (fw_override F x y)]. }
  specialize (Hspec g m3 Hg Hk3 Ha Hah ltac:(lia) ltac:(lia)). destruct (Z.ltb_spec g (ioapic_gsi_base x)) as [|_]; [lia|].
  destruct Hspec as (r & m' & Heq & Hk' & Hr). unfold wp. rewrite Heq. destruct r as [|]; [|done].
  destruct Hr as (Hif & Hh & Ht & _ & Hd). split; [split; [done|]|].
  - eapply buses_same; [|exact Hb3]. rewrite Hd. apply apart_ioapic.
  - unfold apic_up, keyboard_slot in *. rewrite Hh, Ht. split_and!; [done|congruence|congruence].
Qed.

(** ** PCI *)

(** After [pci::init]: the window is mapped and in use, and the functions found are
    those of the buses below the first. *)
Definition pci_up m' (l : list PciAddress) : Prop :=
  lget MCFG_ADDRESS m' = base ∧ mapped_window base len m' ∧
  ∀ f, f ∈ l ↔ ∃ b, rtc (leads (cfg_of m')) (start_bus e) b ∧ f ∈ bus_functions (cfg_of m') b.

Lemma pci_ok n m :
  (256 ≤ n)%nat → calm m →
  wp (pci_init n) m (λ r m', match r with ROk l => I m' ∧ kept m m' ∧ pci_up m' l | RErr _ => True end).
Proof.
  intros Hn Hm. destruct (proj1 (wp_ok _ _ _) (fw_find F "MCFG" m Hm)) as ([status t] & m1 & Hf & [Hk1 Hb1] & Hk & Ht).
  cbn [fst snd] in Ht. destruct (decide (status = UACPI_STATUS_OK)) as [->|Hne]; cycle 1.
  { unfold wp, pci_init, bind. rewrite Hf. cbn [fst]. unfold uacpi_status_to_result.
    destruct (Z.eqb_spec status UACPI_STATUS_OK); done. }
  destruct (Ht eq_refl) as [He _]. specialize (He eq_refl). destruct Hb1 as [Hasc Hin].
  destruct (fw_buses F) as [Hse Hend]. destruct (fw_ecam F) as (Haddr & He0 & H52 & H64).
  pose proof (pci_init_spec h top I n m m1 UACPI_STATUS_OK t) as Hspec. cbv zeta in Hspec. rewrite He in Hspec.
  destruct (Hspec Hf Hk1 Hse Hend Haddr He0 H52 H64 (fw_unref F t) Hasc Hin Hn) as (r & m' & Heq & Hr).
  unfold wp. rewrite Heq. destruct r as [l|]; [|done]. destruct Hr as (Hk' & Hm' & Hw & Hc & Hs & Hl).
  split; [done|]. split; [etransitivity; [done|by apply kept_seen]|]. split; [done|]. split; [done|].
  intros f. unfold cfg_of at 1 2. rewrite Hc. exact (Hl f).
Qed.
End drivers.
