(* ===== verification/Main.v ===== *)
(** * Main: the kernel's entry ([src/kernel/src/main.rs])

    [kmain] brings the console up, turns on the floating-point unit, initialises
    every component in order, draws a line on the screen and halts; a component
    that fails ends it in a panic.  The statics of all modules are one record, on
    which the components' operations run through lenses. *)

From S2P Require Import Prelude Bits Mem Pmm Dll PmmInv PmmList PmmOps PmmSpec.
From S2P Require Import Locks FrameAlloc PmmGlobal MmInit Heap HeapInv HeapOps HeapLive HeapSpec.
From S2P Require Import Paging Vmm Walk VmmInv VmmOps VmmMap VmmUnmap VmmSpec VmmRange KernelVmm.
From S2P Require Import TableTree VmmClone CloneSpec KernelInit.
From S2P Require Import Eventually Devices Serial Print Tsc Pci Idt Gdt BootTables.
From S2P Require Import Kernel KernelMap Acpi KernelPci Apic Uacpi UacpiHeap System SystemSpec SystemBoot.

(** The control registers as the [x86] crate has them: the flags the kernel names,
    and what reading a register keeps of it. *)
Class X86Control := {
  CR0_EMULATE_COPROCESSOR : Z;
  CR0_MONITOR_COPROCESSOR : Z;
  CR4_ENABLE_SSE : Z;
  CR4_UNMASKED_SSE : Z;
  Cr0_from_bits_truncate : Z → Z;
  Cr4_from_bits_truncate : Z → Z
}.

(** [bitflags] *)
Definition flags_remove (f c : Z) : Z := Z.land c (u64_not f).
Definition flags_insert (f c : Z) : Z := Z.lor c f.

(** What the boot loader says of a screen: bytes from one line to the next, and
    lines. *)
Record Framebuffer := mkFramebuffer { pitch : Z; height : Z }.

(** The statics of the kernel, the control registers, and the pixels of the
    screen. *)
Record Statics (D : Type) `{!X86Gdt} `{!X86Idt} := mkStatics {
  s_kernel : Kernel D KHandler;
  s_gdt : Mutex (option GlobalDescriptorTable);
  s_tss : Mutex (option TaskStateSegment);
  s_idt : Mutex (option (list Descriptor64));
  s_cr0 : Z;
  s_cr4 : Z;
  s_fb : list Z
}.
Arguments mkStatics {D _ _}.
Arguments s_kernel {D _ _} s : rename.
Arguments s_gdt {D _ _} s : rename.
Arguments s_tss {D _ _} s : rename.
Arguments s_idt {D _ _} s : rename.
Arguments s_cr0 {D _ _} s : rename.
Arguments s_cr4 {D _ _} s : rename.
Arguments s_fb {D _ _} s : rename.

Section lenses.
Context {A D : Type} `{!X86Gdt} `{!X86Idt}.

Definition kern_lens : lens (Statics D) (Kernel D KHandler) :=
  mkLens s_kernel (λ x s, mkStatics x (s_gdt s) (s_tss s) (s_idt s) (s_cr0 s) (s_cr4 s) (s_fb s)).

Abbreviation St := (Machine A (Statics D)).

Definition kernel_lens : lens St (Kernel D KHandler) := lens_comp own_lens kern_lens.
Definition main_cpu : lens St bool := lens_comp sys_lens if_lens.
Definition main_dev : lens St D := lens_comp kernel_lens kdev_lens.
Definition main_tsc : lens St TscState := lens_comp kernel_lens ktsc_lens.
Definition GDT : lens St (Mutex (option GlobalDescriptorTable)) := lens_comp own_lens
  (mkLens s_gdt (λ x s, mkStatics (s_kernel s) x (s_tss s) (s_idt s) (s_cr0 s) (s_cr4 s) (s_fb s))).
Definition TSS : lens St (Mutex (option TaskStateSegment)) := lens_comp own_lens
  (mkLens s_tss (λ x s, mkStatics (s_kernel s) (s_gdt s) x (s_idt s) (s_cr0 s) (s_cr4 s) (s_fb s))).
Definition IDT : lens St (Mutex (option (list Descriptor64))) := lens_comp own_lens
  (mkLens s_idt (λ x s, mkStatics (s_kernel s) (s_gdt s) (s_tss s) x (s_cr0 s) (s_cr4 s) (s_fb s))).
Definition cr0 : lens St Z := lens_comp own_lens
  (mkLens s_cr0 (λ x s, mkStatics (s_kernel s) (s_gdt s) (s_tss s) (s_idt s) x (s_cr4 s) (s_fb s))).
Definition cr4 : lens St Z := lens_comp own_lens
  (mkLens s_cr4 (λ x s, mkStatics (s_kernel s) (s_gdt s) (s_tss s) (s_idt s) (s_cr0 s) x (s_fb s))).
Definition screen : lens St (list Z) := lens_comp own_lens
  (mkLens s_fb (λ x s, mkStatics (s_kernel s) (s_gdt s) (s_tss s) (s_idt s) (s_cr0 s) (s_cr4 s) x)).

(** The part of the state a component sees. *)
Definition kernel_part (s : St) : Machine A (Kernel D KHandler) := mkMachine (m_sys s) (s_kernel (m_own s)).
End lenses.

Section main.
Context `{Profile} `{Limine} `{!X86Paging} `{!X86Control} `{!X86Gdt} `{!X86Idt}.
Context {D : Type} `{!Devices D} `{!X86Apic D} `{!UAcpi (Machine PmmLock (Kernel D KHandler))}.

Abbreviation St := (Machine PmmLock (Statics D)).

(** What the boot loader and [cpuid] answer, and where the linker put things. *)
Context (supported : bool) (memmap : list Entry) (hhdm_offset : Z) (framebuffer : option Framebuffer).
Context (cpuid : CpuId) (isr_table : list Z) (idt_address stack_bottom tss_address gdt_address : Z).

(** [Result::unwrap] *)
Definition UNWRAP_ERR : string := "called `Result::unwrap()` on an `Err` value".
Definition unwrap_ok {B E : Type} (r : result B E) : M St B :=
  match r with ROk b => ret b | RErr _ => panic UNWRAP_ERR end.

(** [loop { hlt }]; the type is that of [!], which has no values. *)
Fixpoint hcf (fuel : nat) : M St Empty_set :=
  match fuel with
  | O => nofuel
  | S fuel' => do! sys main_dev Hlt; hcf fuel'
  end.

(** Up to the greeting: escape, [[H], escape, [[2J] clears a terminal. *)
Definition greet (fuel : nat) : M St unit :=
  do! serial_init main_dev;
  do! assert_ supported "assertion failed: BASE_REVISION.is_supported()";
  do! print main_cpu main_dev [[27; 91; 72; 27; 91; 50; 74]] fuel;
  println main_cpu main_dev (bytes_of "prometheos") [bytes_of "booting"] fuel.

Definition enable_sse : M St unit :=
  let! v0 := gets (lget cr0) in
  let c0 := Cr0_from_bits_truncate v0 in
  let c0 := flags_remove CR0_EMULATE_COPROCESSOR c0 in
  let c0 := flags_insert CR0_MONITOR_COPROCESSOR c0 in
  do! modify (lset cr0 c0);
  let! v4 := gets (lget cr4) in
  let c4 := Cr4_from_bits_truncate v4 in
  let c4 := flags_insert (Z.lor CR4_ENABLE_SSE CR4_UNMASKED_SSE) c4 in
  modify (lset cr4 c4).

Definition setup : M St unit :=
  do! enable_sse;
  let! r := on_own (lens_comp kern_lens kvmm_lens) (KernelInit.init memmap hhdm_offset) in
  do! unwrap_ok r;
  do! gdt_init main_cpu main_dev GDT TSS stack_bottom tss_address gdt_address;
  idt_init main_cpu main_dev IDT isr_table idt_address.

Definition drivers (fuel : nat) : M St unit :=
  let! r := tsc_init main_dev main_tsc cpuid fuel in
  do! unwrap_ok r;
  let! r := on_own kern_lens acpi_init in
  do! unwrap_ok r;
  let! r := on_own kern_lens apic_init in
  do! unwrap_ok r;
  let! r := on_own kern_lens (pci_init fuel) in
  do! unwrap_ok r;
  ret tt.

(** [fb[pixel_offset] = 0xFFFFFFFF] in a slice of [len] pixels. *)
Definition put_pixel (len offset v : Z) : M St unit :=
  do! assert_ (offset <? len) "index out of bounds";
  modify (λ s, lset screen (<[Z.to_nat offset := v]> (lget screen s)) s).

Definition draw (fb : Framebuffer) : M St unit :=
  let pitch_pixels := pitch fb / 4 in
  let! len := u64_mul pitch_pixels (height fb) in
  for_range 0 100 (λ i,
    let! p := u64_mul i pitch_pixels in
    let! pixel_offset := u64_add p i in
    put_pixel len pixel_offset 0xFFFFFFFF).

Definition kmain (fuel : nat) : M St Empty_set :=
  do! greet fuel;
  do! setup;
  do! drivers fuel;
  do! match framebuffer with Some fb => draw fb | None => ret tt end;
  hcf fuel.

(** The panic handler; [info] is what [PanicInfo] displays. *)
Definition rust_panic (info : list Z) (fuel : nat) : M St Empty_set :=
  do! println main_cpu main_dev (bytes_of "prometheos") [bytes_of "kernel panic: "; info] fuel;
  hcf fuel.
End main.
