(* ===== verification/MainSpec.v ===== *)
(** * MainSpec: what [kmain] does

    The greeting goes on the line; the memory, the descriptor tables and the
    floating-point unit are up when [setup] returns, and the kernel stands for the
    abstract machine of [SystemSpec]; the line is drawn on the screen when it is
    large enough, and [hcf] never returns. *)

From S2P Require Import Prelude Bits Mem Pmm Dll PmmInv PmmList PmmOps PmmSpec.
From S2P Require Import Locks FrameAlloc PmmGlobal MmInit Heap HeapInv HeapOps HeapLive HeapSpec.
From S2P Require Import Paging Vmm Walk VmmInv VmmOps VmmMap VmmUnmap VmmSpec VmmRange KernelVmm.
From S2P Require Import TableTree VmmClone CloneSpec KernelInit.
From S2P Require Import Eventually Devices Serial Print Tsc Pci Idt Gdt BootTables.
From S2P Require Import Kernel KernelMap Acpi KernelPci Apic Uacpi UacpiHeap System SystemSpec SystemBoot Main.

(** ** Fields that do not overlap *)
Ltac main_lens := split; by intros; repeat match goal with
  | s : Machine _ (Statics _) |- _ => destruct s as [[] [[] ? ? ? ? ? ?]] end.

Section lenses.
Context {A D : Type} `{!X86Gdt} `{!X86Idt}.

#[export] Instance main_cpu_ok : LensOk (@main_cpu A D _ _).
Proof. main_lens. Qed.
#[export] Instance main_dev_ok : LensOk (@main_dev A D _ _).
Proof. main_lens. Qed.
#[export] Instance GDT_ok : LensOk (@GDT A D _ _).
Proof. main_lens. Qed.
#[export] Instance TSS_ok : LensOk (@TSS A D _ _).
Proof. main_lens. Qed.
#[export] Instance IDT_ok : LensOk (@IDT A D _ _).
Proof. main_lens. Qed.
#[export] Instance screen_ok : LensOk (@screen A D _ _).
Proof. main_lens. Qed.
#[export] Instance main_cpu_dev : LensIndep (@main_cpu A D _ _) main_dev.
Proof. main_lens. Qed.
#[export] Instance main_cpu_GDT : LensIndep (@main_cpu A D _ _) GDT.
Proof. main_lens. Qed.
#[export] Instance main_cpu_TSS : LensIndep (@main_cpu A D _ _) TSS.
Proof. main_lens. Qed.
#[export] Instance main_cpu_IDT : LensIndep (@main_cpu A D _ _) IDT.
Proof. main_lens. Qed.
#[export] Instance GDT_TSS : LensIndep (@GDT A D _ _) TSS.
Proof. main_lens. Qed.
#[export] Instance GDT_dev : LensIndep (@GDT A D _ _) main_dev.
Proof. main_lens. Qed.
#[export] Instance TSS_dev : LensIndep (@TSS A D _ _) main_dev.
Proof. main_lens. Qed.
#[export] Instance IDT_dev : LensIndep (@IDT A D _ _) main_dev.
Proof. main_lens. Qed.
End lenses.

(** The Intel manual's numbers for the flags. *)
Class ControlLaws `{!X86Control} := {
  CR0_EM_bit : CR0_EMULATE_COPROCESSOR = 2 ^ 2;
  CR0_MP_bit : CR0_MONITOR_COPROCESSOR = 2 ^ 1;
  CR4_OSFXSR_bit : CR4_ENABLE_SSE = 2 ^ 9;
  CR4_OSXMMEXCPT_bit : CR4_UNMASKED_SSE = 2 ^ 10
}.

Section main_proofs.
Context `{Profile} `{Limine} `{!X86Paging} `{!PagingLaws} `{!X86Control} `{!ControlLaws} `{!X86Gdt} `{!X86Idt}.
Context {D : Type} `{!Devices D} `{!Uart D} `{!X86Apic D} `{!UAcpi (Machine PmmLock (Kernel D KHandler))}.
Abbreviation St := (Machine PmmLock (Statics D)).
Implicit Types s : St.

(** ** The screen *)
Section draw.
Context (pp len : Z).

(** A line of [n] pixels from pixel [i] on, where the slice is large enough. *)
Lemma diagonal_fits n (s : St) :
  0 ≤ pp → Z.of_nat n * (pp + 1) ≤ 2 ^ 64 → Z.of_nat (length (lget screen s)) = len →
  (Z.of_nat n - 1) * (pp + 1) < len →
  wp (for_range 0 n (λ i,
    let! p := u64_mul i pp in
    let! pixel_offset := u64_add p i in
    put_pixel len pixel_offset 0xFFFFFFFF)) s (λ _ s', ∃ px, s' = lset screen px s ∧
      length px = length (lget screen s) ∧
      (∀ i, 0 ≤ i < Z.of_nat n → px !! Z.to_nat (i * (pp + 1)) = Some 0xFFFFFFFF) ∧
      (∀ k, (∀ i, 0 ≤ i < Z.of_nat n → k ≠ Z.to_nat (i * (pp + 1))) → px !! k = lget screen s !! k)).
Proof.
  intros Hpp H64 Hlen Hfit.
  apply (wp_for_range (λ i s', ∃ px, s' = lset screen px s ∧ length px = length (lget screen s) ∧
    (∀ j, 0 ≤ j < i → px !! Z.to_nat (j * (pp + 1)) = Some 0xFFFFFFFF) ∧
    (∀ k, (∀ j, 0 ≤ j < i → k ≠ Z.to_nat (j * (pp + 1))) → px !! k = lget screen s !! k))).
  - exists (lget screen s). rewrite lens_set_get. split_and!; [done|done|lia|done].
  - intros i s' Hi (px & -> & Hl & Hset & Hrest).
    apply wp_bind, wp_u64_mul; [unfold u64_range; nia|]. apply wp_bind, wp_u64_add; [unfold u64_range; nia|].
    replace (i * pp + i) with (i * (pp + 1)) by lia. unfold put_pixel.
    apply wp_bind, wp_assert; [apply Z.ltb_lt; nia|]. apply wp_modify. rewrite lens_get_set, lens_set_set.
    exists (<[Z.to_nat (i * (pp + 1)) := 0xFFFFFFFF]> px). split_and!; [done|by rewrite length_insert| |].
    + intros j Hj. destruct (decide (j = i)) as [->|Hne]; [apply list_lookup_insert_eq; nia|].
      rewrite list_lookup_insert_ne by nia. apply Hset. lia.
    + intros k Hk. rewrite list_lookup_insert_ne by (symmetry; apply Hk; lia). apply Hrest. intros j Hj. apply Hk. lia.
  - intros s' Hinv. exact Hinv.
Qed.

Lemma diagonal_panics n i (s : St) j :
  0 ≤ pp → 0 ≤ i → (i + Z.of_nat n) * (pp + 1) ≤ 2 ^ 64 → i ≤ j < i + Z.of_nat n → len ≤ j * (pp + 1) →
  panics (for_range i n (λ i,
    let! p := u64_mul i pp in
    let! pixel_offset := u64_add p i in
    put_pixel len pixel_offset 0xFFFFFFFF)) s.
Proof.
  intros Hpp. revert i s. induction n as [|n IH]; intros i s Hi H64 Hj Hlen; [lia|].
  cbn [for_range]. unfold panics, bind. unfold u64_mul, u64_add, u64_arith.
  rewrite (in_u64_true (i * pp)) by (unfold u64_range; nia). unfold ret. cbv iota beta.
  rewrite (in_u64_true (i * pp + i)) by (unfold u64_range; nia). cbv iota beta.
  unfold put_pixel, bind, assert_. destruct (Z.ltb_spec (i * pp + i) len) as [Hlt|Hge]; [|by eexists].
  unfold ret. cbv iota beta. unfold modify. cbv iota beta. apply (IH (i + 1)); [lia|lia| |done]. 
  assert (i ≠ j) by (intros <-; lia). lia.
Qed.
End draw.

Lemma draw_spec fb s :
  let pp := pitch fb / 4 in
  0 ≤ pitch fb → 0 ≤ height fb → 100 * (pp + 1) ≤ 2 ^ 64 → pp * height fb < 2 ^ 64 →
  Z.of_nat (length (lget screen s)) = pp * height fb →
  if 99 * (pp + 1) <? pp * height fb then
    ∃ px, draw fb s = Ok (tt, lset screen px s) ∧
      (∀ i, 0 ≤ i < 100 → px !! Z.to_nat (i * (pp + 1)) = Some 0xFFFFFFFF) ∧
      (∀ k, (∀ i, 0 ≤ i < 100 → k ≠ Z.to_nat (i * (pp + 1))) → px !! k = lget screen s !! k)
  else panics (draw fb) s.
Proof.
  intros pp Hp0 Hh H64 Hlen Hmem. assert (0 ≤ pp) as Hpp by (apply Z.div_pos; lia).
  assert (∀ Q, wp (for_range 0 100 (λ i, let! p := u64_mul i pp in let! o := u64_add p i in
    put_pixel (pp * height fb) o 0xFFFFFFFF)) s Q → wp (draw fb) s Q) as Hdraw.
  { intros Q HQ. unfold draw. fold pp. apply wp_bind, wp_u64_mul; [unfold u64_range; nia|]. exact HQ. }
  destruct (Z.ltb_spec (99 * (pp + 1)) (pp * height fb)) as [Hfit|Hno].
  - pose proof (diagonal_fits pp (pp * height fb) 100 s Hpp H64 Hmem Hfit) as Hw. apply Hdraw, wp_ok in Hw.
    destruct Hw as ([] & s' & Heq & px & -> & _ & Hset & Hrest). by exists px.
  - unfold panics, draw. fold pp. unfold bind at 1. unfold u64_mul at 1, u64_arith at 1.
    rewrite (in_u64_true (pp * height fb)) by (unfold u64_range; nia). unfold ret at 1. cbv iota beta.
    apply (diagonal_panics pp (pp * height fb) 100 0 s 99 Hpp); lia.
Qed.

(** C38: the line on the screen.  Drawing returns exactly when the last of the 100
    pixels lies in the frame buffer; then the pixels at [(i, i)] are white and no
    other pixel and no other state changed.  Otherwise, as on a screen of fewer
    than 100 lines, the bounds check stops the kernel after everything else is
    up. *)
Theorem draw_correct fb s :
  let pp := pitch fb / 4 in
  0 ≤ pitch fb → 0 ≤ height fb → 100 * (pp + 1) ≤ 2 ^ 64 → pp * height fb < 2 ^ 64 →
  Z.of_nat (length (lget screen s)) = pp * height fb →
  if 99 * (pp + 1) <? pp * height fb then
    ∃ px, draw fb s = Ok (tt, lset screen px s) ∧
      (∀ i, 0 ≤ i < 100 → px !! Z.to_nat (i * (pp + 1)) = Some 0xFFFFFFFF) ∧
      (∀ k, (∀ i, 0 ≤ i < 100 → k ≠ Z.to_nat (i * (pp + 1))) → px !! k = lget screen s !! k)
  else panics (draw fb) s.
Proof. exact (draw_spec fb s). Qed.

(** ** Halting *)
Lemma hcf_spins fuel s : hcf fuel s = NoFuel.
Proof. revert s. induction fuel as [|fuel IH]; intros s; [done|]. cbn [hcf]. unfold bind, sys, dev_put, modify. apply IH. Qed.

(** The panic handler puts its message on the line and never returns. *)
Theorem rust_panic_correct info s :
  dlab (uart (lget main_dev s)) = false →
  (∀ fuel, ¬ ∃ r, rust_panic info fuel s = Ok r) ∧
  returns (println main_cpu main_dev (bytes_of "prometheos") [bytes_of "kernel panic: "; info]) s (λ _ s',
    u_sent (uart (lget main_dev s')) =
      u_sent (uart (lget main_dev s)) ++ expand (bytes_of "prometheos: kernel panic: " ++ info ++ [10]) ∧
    ∀ fuel, hcf fuel s' = NoFuel).
Proof.
  intros Hd. split; [by intros fuel [[[] _] _]|].
  eapply returns_mono; [by apply (print_returns main_cpu main_dev)|]. cbv beta. intros [] s' (Hs & _ & _).
  split; [exact Hs|intros; apply hcf_spins].
Qed.

(** ** The greeting *)
Definition greeting : list Z := [27; 91; 72; 27; 91; 50; 74] ++ bytes_of "prometheos: booting" ++ [10].

Lemma greet_spec s :
  returns (greet true) s (λ _ s1, only_dev main_dev s s1 ∧
    u_sent (uart (lget main_dev s1)) = u_sent (uart (lget main_dev s)) ++ expand greeting).
Proof.
  unfold greet. apply returns_bind. destruct (serial_init_correct main_dev s) as (s0 & Heq & Ho0 & Hr).
  unfold wp. rewrite Heq. apply returns_bind, wp_assert; [done|].
  eapply returns_seq; [apply (print_returns main_cpu main_dev); by rewrite Hr|].
  cbv beta. intros [] s1 (Hs1 & Hd1 & Ho1).
  eapply returns_mono; [by apply (print_returns main_cpu main_dev)|]. cbv beta. intros [] s2 (Hs2 & _ & Ho2).
  split; [by etransitivity; [|etransitivity]|]. rewrite Hs2, Hs1, Hr. cbn [u_sent]. unfold greeting, expand.
  by rewrite <- app_assoc, <- bind_app.
Qed.

(** ** The floating-point unit *)
Definition sse_on (c0 c4 : Z) : Prop :=
  Z.testbit c0 2 = false ∧ Z.testbit c0 1 = true ∧ Z.testbit c4 9 = true ∧ Z.testbit c4 10 = true.

Lemma sse_flags c0 c4 :
  sse_on (flags_insert CR0_MONITOR_COPROCESSOR (flags_remove CR0_EMULATE_COPROCESSOR c0))
         (flags_insert (Z.lor CR4_ENABLE_SSE CR4_UNMASKED_SSE) c4).
Proof.
  unfold sse_on, flags_insert, flags_remove. rewrite CR0_EM_bit, CR0_MP_bit, CR4_OSFXSR_bit, CR4_OSXMMEXCPT_bit.
  rewrite !Z.lor_spec, !Z.land_spec, !u64_not_testbit by lia.
  rewrite !(Z.pow2_bits_eqb 2), !(Z.pow2_bits_eqb 1), !(Z.pow2_bits_eqb 9), !(Z.pow2_bits_eqb 10) by lia.
  cbn. rewrite andb_false_r, !orb_true_r. done.
Qed.

(** ** Memory and tables *)
Section boot.
Context (memmap : list Entry) (hhdm_offset : Z) (isr_table : list Z).
Context (idt_address stack_bottom tss_address gdt_address : Z).

Abbreviation vmm_of s := (mkMachine (m_sys s) (k_vmm (s_kernel (m_own s)))).

(** How the kernel is loaded: nothing is initialised, and the memory map and the
    page tables are as the boot protocol promises. *)
Record fresh s : Prop := {
  fr_memmap : memmap_ok memmap hhdm_offset;
  fr_room : has_room memmap;
  fr_pmm : sy_alloc (m_sys s) = PMM_INIT;
  fr_vmm : vh_vmm (k_vmm (s_kernel (m_own s))) = Singleton_new;
  fr_tables : boot_tables_ok memmap hhdm_offset (vmm_of s);
  fr_heap : k_heap (s_kernel (m_own s)) = Heap_new;
  fr_gdt : lget GDT s = Singleton_new;
  fr_tss : lget TSS s = Singleton_new;
  fr_idt : lget IDT s = Singleton_new;
  fr_isrs : length isr_table = 256%nat;
  fr_stack : 0 ≤ stack_bottom ∧ stack_bottom + IST_STACK_SIZE < 2 ^ 64;
  fr_tss_size : 1 ≤ TSS_SIZE < 2 ^ 64
}.

Lemma fresh_dev s d : fresh s → fresh (lset main_dev d s).
Proof. by destruct s as [? [[] ? ? ? ? ? ?]]; intros []; split. Qed.

(** The handlers and the screen are of no concern to [setup]. *)
Definition left_alone s s' : Prop :=
  k_handlers (s_kernel (m_own s')) = k_handlers (s_kernel (m_own s)) ∧ lget screen s' = lget screen s.

(** What [setup] leaves behind. *)
Definition set_up s1 s2 : Prop :=
  (∃ top, system_rel hhdm_offset top
     (mkSpace (leaf_at hhdm_offset (boot_top (vmm_of s1)) (sy_mem (m_sys s1))) ∅ ∅) (kernel_part s2)) ∧
  sse_on (lget cr0 s2) (lget cr4 s2) ∧
  mx_data (lget GDT s2) = Some (boot_gdt tss_address) ∧
  mx_data (lget TSS s2) = Some (boot_tss stack_bottom) ∧
  mx_data (lget IDT s2) = Some (finish <$> idt_gates isr_table) ∧
  lget main_cpu s2 = lget main_cpu s1 ∧
  left_alone s1 s2 ∧
  lget main_dev s2 = foldl (λ d op, dev_sys op d) (lget main_dev s1)
    (gdt_loads gdt_address ++ [Lidt idt_address (16 * 256 - 1)]).

(** The first half of [setup]: the control registers and the memory. *)
Lemma setup_memory s1 :
  fresh s1 →
  wp (do! enable_sse; on_own (lens_comp kern_lens kvmm_lens) (KernelInit.init memmap hhdm_offset)) s1
    (λ r s4, init_post memmap hhdm_offset (vmm_of s1) r (vmm_of s4) ∧ sse_on (lget cr0 s4) (lget cr4 s4) ∧
      k_heap (s_kernel (m_own s4)) = Heap_new ∧ lget GDT s4 = lget GDT s1 ∧ lget TSS s4 = lget TSS s1 ∧
      lget IDT s4 = lget IDT s1 ∧ lget main_cpu s4 = lget main_cpu s1 ∧ left_alone s1 s4 ∧ lget main_dev s4 = lget main_dev s1).
Proof.
  intros [Hmm Hroom Hpmm Hvmm Htab Hheap _ _ _ _ _ _].
  pose proof (init_spec memmap hhdm_offset (vmm_of s1) Hmm Hroom Hpmm Hvmm Htab) as Hinit.
  apply wp_bind. unfold enable_sse. apply wp_bind, wp_gets, wp_bind, wp_modify, wp_bind, wp_gets, wp_modify.
  set (c0 := flags_insert CR0_MONITOR_COPROCESSOR _). set (c4 := flags_insert (Z.lor _ _) _).
  assert (sse_on c0 c4) as Hsse by apply sse_flags. clearbody c0 c4.
  destruct s1 as [sys1 [[vmm1 heap1 hs1 tsc1 mcfg1 objs1 dev1] gdt1 tss1 idt1 c01 c41 fb1]].
  cbn [m_sys m_own s_kernel k_vmm] in *. unfold wp, on_own. cbn. apply wp_ok in Hinit as (r & [sys2 vmm2] & -> & Hpost).
  cbn. split_and!; [exact Hpost|exact Hsse|exact Hheap|done|done|done| |done|done]. by destruct Hpost as (Hif & _).
Qed.

(** The second half: the descriptor tables. *)
Lemma setup_tables s4 :
  lget GDT s4 = Singleton_new → lget TSS s4 = Singleton_new →
  lget IDT s4 = Singleton_new → length isr_table = 256%nat →
  0 ≤ stack_bottom ∧ stack_bottom + IST_STACK_SIZE < 2 ^ 64 → 1 ≤ TSS_SIZE < 2 ^ 64 →
  wp (do! gdt_init main_cpu main_dev GDT TSS stack_bottom tss_address gdt_address;
      idt_init main_cpu main_dev IDT isr_table idt_address) s4 (λ _ s2,
    kernel_part s2 = kernel_part (lset main_dev (lget main_dev s2) s4) ∧
    lget cr0 s2 = lget cr0 s4 ∧ lget cr4 s2 = lget cr4 s4 ∧
    mx_data (lget GDT s2) = Some (boot_gdt tss_address) ∧ mx_data (lget TSS s2) = Some (boot_tss stack_bottom) ∧
    mx_data (lget IDT s2) = Some (finish <$> idt_gates isr_table) ∧ lget main_cpu s2 = lget main_cpu s4 ∧ left_alone s4 s2 ∧
    lget main_dev s2 = foldl (λ d op, dev_sys op d) (lget main_dev s4)
      (gdt_loads gdt_address ++ [Lidt idt_address (16 * 256 - 1)])).
Proof.
  intros Hg Ht Hi Hlen [Hb0 Hb] Hsz.
  eapply wp_seq; [by apply (gdt_init_run main_cpu main_dev GDT TSS stack_bottom tss_address gdt_address s4)|].
  cbv beta. intros [] s5 ->. eapply wp_mono; [apply (idt_init_run main_cpu main_dev IDT isr_table idt_address); [done|]|].
  { destruct s4 as [[] [[] ? ? ? ? ? ?]]. exact Hi. }
  cbv beta. intros [] s2 ->. rewrite foldl_app. destruct s4 as [[] [[] ? ? ? ? ? ?]]. by split_and!.
Qed.

(** [setup] is its two halves. *)
Lemma setup_split s1 r s4 :
  (do! enable_sse; on_own (lens_comp kern_lens kvmm_lens) (KernelInit.init memmap hhdm_offset)) s1 = Ok (r, s4) →
  setup memmap hhdm_offset isr_table idt_address stack_bottom tss_address gdt_address s1 =
    (do! unwrap_ok r;
     do! gdt_init main_cpu main_dev GDT TSS stack_bottom tss_address gdt_address;
     idt_init main_cpu main_dev IDT isr_table idt_address) s4.
Proof.
  intros Heq. unfold setup. unfold bind at 1. unfold bind at 1 in Heq.
  destruct (enable_sse s1) as [[[] s3]| |]; [|done..]. unfold bind at 1. by rewrite Heq.
Qed.

Lemma setup_spec s1 :
  fresh s1 →
  (size (boot_free memmap) < length (tables_of hhdm_offset (sy_mem (m_sys s1)) 3 (boot_top (vmm_of s1))))%nat ∧
    setup memmap hhdm_offset isr_table idt_address stack_bottom tss_address gdt_address s1 = Panic UNWRAP_ERR ∨
  ∃ s2, setup memmap hhdm_offset isr_table idt_address stack_bottom tss_address gdt_address s1 = Ok (tt, s2) ∧ set_up s1 s2.
Proof.
  intros Hfr. destruct (proj1 (wp_ok _ _ _) (setup_memory s1 Hfr)) as (r & s4 & Heq & Hpost & Hsse & Hheap & Hg & Ht & Hi & Hc & [Ha1 Ha2] & Hd).
  destruct Hfr as [_ _ _ _ _ _ Hg1 Ht1 Hi1 Hlen Hst Hsz]. rewrite (setup_split _ _ _ Heq). clear Heq.
  destruct r as [[]|e]; cycle 1.
  { destruct Hpost as (_ & _ & _ & _ & _ & Hsize). left. by split. }
  right. pose proof (setup_tables s4 ltac:(by rewrite Hg) ltac:(by rewrite Ht) ltac:(by rewrite Hi) Hlen Hst Hsz) as Hw.
  apply wp_ok in Hw as ([] & s2 & Heq2 & Hk & E0 & E4 & Hg2 & Ht2 & Hi2 & Hc2 & [Hb1 Hb2] & Hd2).
  exists s2. split; [exact Heq2|]. unfold set_up. rewrite E0, E4, Hc2, Hd2, Hc, Hd.
  split_and!; [|exact Hsse|done|done|done|done|split; congruence|done]. rewrite Hk.
  destruct (init_kernel_ok memmap hhdm_offset (vmm_of s1) (vmm_of s4)
    (s_kernel (m_own (lset main_dev (lget main_dev s2) s4))) Hpost) as (top & Hok & Hleaf).
  - destruct s4 as [? [[] ? ? ? ? ? ?]]. by split.
  - exists top. destruct s4 as [? [[] ? ? ? ? ? ?]]. split; [exact Hok|intros v _; exact (Hleaf v)|done].
Qed.

(** C10: the kernel comes up.  From the state it is loaded in, with a boot loader
    that supports it and a memory map that obeys the boot protocol, the console
    says so, after clearing the terminal.  Then either the boot loader's page
    tables number more than the free frames, and the kernel stops, or memory, page
    tables and heap stand for the abstract machine of [SystemSpec] with the boot
    loader's address space, the floating-point unit is on, and the descriptor
    tables are installed and loaded in order; the interrupt flag is what it was.
    With an unsupported boot loader the kernel stops before it prints anything. *)
Theorem kernel_boot_correct s :
  fresh s →
  returns (greet true) s (λ _ s1,
    u_sent (uart (lget main_dev s1)) = u_sent (uart (lget main_dev s)) ++ expand greeting ∧ only_dev main_dev s s1 ∧
    ((size (boot_free memmap) < length (tables_of hhdm_offset (sy_mem (m_sys s)) 3 (boot_top (vmm_of s))))%nat ∧
       setup memmap hhdm_offset isr_table idt_address stack_bottom tss_address gdt_address s1 = Panic UNWRAP_ERR ∨
     ∃ s2, setup memmap hhdm_offset isr_table idt_address stack_bottom tss_address gdt_address s1 = Ok (tt, s2) ∧
       set_up s1 s2)) ∧
  ∀ fuel, panics (greet false fuel) s.
Proof.
  intros Hfr. split.
  - eapply returns_mono; [apply greet_spec|]. cbv beta. intros [] s1 [(d & -> & Hio) Hs]. split_and!; [done|by exists d|].
    pose proof (setup_spec _ (fresh_dev s d Hfr)) as Hset. by destruct s as [? [[] ? ? ? ? ? ?]].
  - intros fuel. unfold panics, greet, bind at 1.
    destruct (serial_init_correct main_dev s) as (s0 & -> & _). by eexists.
Qed.
End boot.

End main_proofs.
