(* ===== verification/MainBoot.v ===== *)
(** * MainBoot: the whole of [kmain] ([src/kernel/src/main.rs])

    The components come up one after the other, each from the state the one before
    leaves.  On a machine whose firmware keeps its promises the only thing that can
    stop [kmain] before it halts is an error one of them reports, on which
    [unwrap] panics. *)

From S2P Require Import Prelude Bits Mem Pmm Dll PmmInv PmmList PmmOps PmmSpec.
From S2P Require Import Locks FrameAlloc PmmGlobal MmInit Heap HeapInv HeapOps HeapLive HeapSpec.
From S2P Require Import Paging Vmm Walk VmmInv VmmOps VmmMap VmmUnmap VmmSpec VmmRange KernelVmm.
From S2P Require Import TableTree VmmClone CloneSpec KernelInit.
From S2P Require Import Eventually Devices Serial Print Tsc Pci PciScan PciAccess Idt IdtSpec Gdt BootTables.
From S2P Require Import Kernel KernelMap Acpi KernelPci Apic Uacpi UacpiHeap System SystemSpec SystemBoot Drivers.
From S2P Require Import Main MainSpec.

Section lenses.
Context {A D : Type} `{!X86Gdt} `{!X86Idt}.

#[export] Instance main_tsc_ok : LensOk (@main_tsc A D _ _).
Proof. main_lens. Qed.
#[export] Instance main_dev_tsc : LensIndep (@main_dev A D _ _) main_tsc.
Proof. main_lens. Qed.
End lenses.

Section boot_proofs.
Context `{Profile} `{Limine} `{!X86Paging} `{!PagingLaws} `{!X86Control} `{!ControlLaws} `{!X86Gdt} `{!X86Idt}.
Context {D : Type} `{!Devices D} `{!Uart D} `{!Clock D} `{!PciHost D} `{!X86Apic D} `{!PciApart D}.
Abbreviation KS := (Machine PmmLock (Kernel D KHandler)).
Context `{!UAcpi KS} `{!UAcpiLaws KS}.
Abbreviation St := (Machine PmmLock (Statics D)).
Implicit Types s : St.

(** A component's call on the part of the state it sees. *)
Lemma wp_on_kern {B : Type} (c : M KS B) s (Q : B → KS → Prop) :
  wp c (kernel_part s) Q →
  wp (on_own kern_lens c) s (λ b s', Q b (kernel_part s') ∧ ∃ k, s' = mkMachine (m_sys s') (lset kern_lens k (m_own s))).
Proof.
  unfold wp, on_own, kernel_part. cbn. destruct (c _) as [[b m']|msg|]; [|done..]. intros HQ.
  split; [by destruct m'|by exists (m_own m')].
Qed.

(** [unwrap] after a call. *)
Lemma settles_unwrap {B C E : Type} (c : nat → M St (result B E)) (k : nat → M St C) s P Q :
  returns c s P → (∀ b s', P (ROk b) s' → settles k s' Q UNWRAP_ERR) →
  settles (λ n, let! r := c n in do! unwrap_ok r; k n) s Q UNWRAP_ERR.
Proof.
  intros Hc Hk. apply (settles_seq c (λ r n, do! unwrap_ok r; k n) s P); [done|]. intros [b|err] s' HP.
  - destruct (Hk b s' HP) as [n0 Hn]. by exists n0.
  - exists 0%nat. by left.
Qed.

(** ** After [setup] *)
Section drivers.
Context (h top : Z) (e : McfgEntry) (entries : list MadtEntry) (F : firmware h (memory_ok h top) e entries) (cpuid : CpuId).

(** What the drivers do not touch. *)
Definition same_tables s s' : Prop :=
  lget GDT s' = lget GDT s ∧ lget TSS s' = lget TSS s ∧ lget IDT s' = lget IDT s ∧
  lget cr0 s' = lget cr0 s ∧ lget cr4 s' = lget cr4 s ∧ lget screen s' = lget screen s.

#[local] Instance same_tables_trans : Transitive same_tables.
Proof. intros ??? (?&?&?&?&?&?) (?&?&?&?&?&?). split_and!; congruence. Qed.

(** The clock runs at the frequency [cpuid] knows or the timer measured. *)
Definition clock_set (t : TscState) : Prop :=
  match known_frequency cpuid with
  | Some hz => tsc_frequency t = hz ∧ 0 < hz
  | None => ∃ start stop, start ≤ stop < start + 2 ^ 43 ∧
      tsc_frequency t * RELOAD ≤ (stop - start) * PIT_FREQ < (tsc_frequency t + 1) * RELOAD
  end.

(** Everything is up: page tables and heap stand for the abstract machine of
    [SystemSpec], so that every later call refines it; interrupts are on and the
    keyboard's is handled, the clock is set, and configuration space is mapped. *)
Record running s : Prop := {
  ru_memory : ∃ a, system_rel h top a (kernel_part s);
  ru_if : lget main_cpu s = true;
  ru_keyboard : keyboard_slot (kernel_part s) = Some (unlocked (Some (1, Keyboard)));
  ru_clock : clock_set (lget main_tsc s);
  ru_pci : ∃ l, pci_up h e (kernel_part s) l
}.

(** A driver that sees the kernel's part only. *)
Lemma same_tables_kern s s' k : s' = mkMachine (m_sys s') (lset kern_lens k (m_own s)) → same_tables s s'.
Proof. destruct s as [? []], s' as [? []]. cbn. intros [= -> -> -> -> -> -> ->]. by split_and!. Qed.

(** The clock first. *)
Lemma tsc_ok s :
  calm (memory_ok h top) e (kernel_part s) → keyboard_slot (kernel_part s) = Some (unlocked None) →
  returns (tsc_init main_dev main_tsc cpuid) s (λ r s', match r with
    | ROk _ => calm (memory_ok h top) e (kernel_part s') ∧ keyboard_slot (kernel_part s') = Some (unlocked None) ∧
        clock_set (lget main_tsc s') ∧ same_tables s s'
    | RErr _ => True end).
Proof.
  intros [Hk Hb] Hs. eapply returns_mono; [apply (tsc_init_correct main_dev main_tsc)|]. cbv beta.
  intros [[]|] s' Hr; [|done]. destruct Hr as (_ & _ & (t & d & -> & Hio) & Hf). apply apart_path in Hio.
  destruct s as [? [[] ? ? ? ? ? ?]]. split; [split|].
  - exact Hk.
  - eapply buses_same; [|exact Hb]. exact Hio.
  - by split_and!.
Qed.

Lemma drivers_settle s :
  calm (memory_ok h top) e (kernel_part s) → keyboard_slot (kernel_part s) = Some (unlocked None) →
  settles (drivers cpuid) s (λ _ s', running s' ∧ same_tables s s') UNWRAP_ERR.
Proof.
  intros Hm Hs. unfold drivers. eapply settles_unwrap; [by apply tsc_ok|]. cbv beta. intros [] s1 (Hm1 & Hs1 & Hc1 & Hst1).
  eapply (settles_unwrap (λ _, on_own kern_lens acpi_init)).
  { apply returns_const, wp_on_kern. exact (acpi_ok h top _ e entries F _ Hm1). }
  cbv beta. intros _ s2 ((Hm2 & _ & Hs2 & Ht2) & k2 & Hst2%same_tables_kern).
  eapply (settles_unwrap (λ _, on_own kern_lens apic_init)).
  { apply returns_const, wp_on_kern. apply (apic_ok h top _ e entries F _ Hm2). by rewrite Hs2. }
  cbv beta. intros _ s3 ((Hm3 & Hi3 & Hs3 & Ht3) & k3 & Hst3%same_tables_kern).
  eapply (settles_then (λ n, on_own kern_lens (pci_init n))).
  { apply (settles_wp 256). intros n Hn. apply wp_on_kern. exact (pci_ok h top _ e entries F n _ Hn Hm3). }
  cbv beta. intros [l|err] s4 (Hr & k4 & Hst4%same_tables_kern); [right|by left].
  destruct Hr as (Hk4 & (Hi4 & Hs4 & Ht4) & Hp4). unfold unwrap_ok. apply wp_bind, wp_ret, wp_ret.
  split; [|by etransitivity; [|etransitivity; [|etransitivity]]]. split.
  - by apply memory_rel.
  - change (lget cpu_if (kernel_part s4) = true). congruence.
  - congruence.
  - change (clock_set (lget tsc_state (kernel_part s4))). rewrite Ht4, Ht3, Ht2. exact Hc1.
  - by exists l.
Qed.
End drivers.

(** ** From the first instruction to the last *)
Section kmain.
Context (memmap : list Entry) (hhdm_offset : Z) (framebuffer : option Framebuffer) (cpuid : CpuId).
Context (isr_table : list Z) (idt_address stack_bottom tss_address gdt_address : Z).
Context (e : McfgEntry) (entries : list MadtEntry).

(** The line fits on the screen. *)
Definition screen_fits (fb : Framebuffer) (px : list Z) : Prop :=
  let pp := pitch fb / 4 in
  0 ≤ pitch fb ∧ 0 ≤ height fb ∧ 100 * (pp + 1) ≤ 2 ^ 64 ∧ pp * height fb < 2 ^ 64 ∧
  Z.of_nat (length px) = pp * height fb ∧ 99 * (pp + 1) < pp * height fb.

(** The line is on it. *)
Definition line_drawn (fb : Framebuffer) (px : list Z) : Prop :=
  ∀ i, 0 ≤ i < 100 → px !! Z.to_nat (i * (pitch fb / 4 + 1)) = Some 0xFFFFFFFF.

(** The state [kmain] halts in. *)
Record kernel_up s : Prop := {
  ku_running : ∃ top, running hhdm_offset top e cpuid s;
  ku_sse : sse_on (lget cr0 s) (lget cr4 s);
  ku_gdt : mx_data (lget GDT s) = Some (boot_gdt tss_address);
  ku_tss : mx_data (lget TSS s) = Some (boot_tss stack_bottom);
  ku_idt : mx_data (lget IDT s) = Some (finish <$> idt_gates isr_table);
  ku_screen fb : framebuffer = Some fb → line_drawn fb (lget screen s)
}.

Lemma sys_path ops (d : D) : rtc io_step d (foldl (λ d op, dev_sys op d) d ops).
Proof.
  revert d. induction ops as [|op ops IH]; intros d; [apply rtc_refl|]. cbn [foldl]. eapply rtc_l; [apply io_sys|apply IH].
Qed.

Abbreviation setup' := (setup memmap hhdm_offset isr_table idt_address stack_bottom tss_address gdt_address).
Abbreviation set_up' := (set_up hhdm_offset isr_table idt_address stack_bottom tss_address gdt_address).

(** What the drivers rely on holds after [setup]. *)
Lemma set_up_calm s1 s2 :
  set_up' s1 s2 → buses_ok e (kernel_part s1) →
  (∃ top, calm (memory_ok hhdm_offset top) e (kernel_part s2)) ∧ keyboard_slot (kernel_part s2) = keyboard_slot (kernel_part s1).
Proof.
  intros ([top [Hk _ _]] & _ & _ & _ & _ & _ & [Hh _] & Hd) Hb. split.
  - exists top. split; [by exists ∅|]. eapply buses_same; [|exact Hb]. apply apart_path.
    change (rtc io_step (lget main_dev s1) (lget main_dev s2)). rewrite Hd. apply sys_path.
  - unfold keyboard_slot. cbn. by rewrite Hh.
Qed.

(** The last step before [hcf]. *)
Lemma draw_up s2 s3 :
  (∀ fb, framebuffer = Some fb → screen_fits fb (lget screen s2)) →
  (∃ top, running hhdm_offset top e cpuid s3) → same_tables s2 s3 →
  sse_on (lget cr0 s2) (lget cr4 s2) → mx_data (lget GDT s2) = Some (boot_gdt tss_address) →
  mx_data (lget TSS s2) = Some (boot_tss stack_bottom) → mx_data (lget IDT s2) = Some (finish <$> idt_gates isr_table) →
  wp (match framebuffer with Some fb => draw fb | None => ret tt end) s3 (λ _ s', kernel_up s').
Proof.
  intros Hfit Hrun (Hg & Ht & Hi & H0' & H4' & Hscr) Hsse Hg2 Ht2 Hi2. rewrite <- Hg in Hg2. rewrite <- Ht in Ht2.
  rewrite <- Hi in Hi2. rewrite <- H0', <- H4' in Hsse. destruct framebuffer as [fb|] eqn:Hfb; [|apply wp_ret; split; [done..|congruence]].
  destruct (Hfit fb eq_refl) as (Hp & Hh & H100 & H64 & Hlen & Hlt). pose proof (draw_spec fb s3 Hp Hh H100 H64) as Hdraw.
  rewrite Hscr in Hdraw. specialize (Hdraw Hlen). destruct (Z.ltb_spec (99 * (pitch fb / 4 + 1)) (pitch fb / 4 * height fb)); [|lia].
  destruct Hdraw as (px & Heq & Hline & _). unfold wp. rewrite Heq. destruct s3 as [? [[] ? ? ? ? ? ?]].
  split; [|done..|].
  - destruct Hrun as [top []]. by exists top.
  - intros fb' Hfb'. replace fb' with fb by congruence. exact Hline.
Qed.

End kmain.
End boot_proofs.
