(* ===== verification/ExampleHw.v ===== *)
(** * ExampleHw: a small machine's devices

    One concrete device that has everything the drivers rely on: a 16550 at [COM1],
    a time stamp counter that advances by one at each reading, an interval timer
    that ends after three polls, and a PCI host bridge whose configuration space is
    a map of bytes.  It shows that the laws of [Uart], [Clock] and [PciHost] can
    hold together, and is what the examples of [DeviceExamples] and [UacpiExamples]
    run on. *)

From S2P Require Import Prelude Bits Locks Eventually Devices Serial Tsc Pci PciScan PciAccess.

Record hw := mkHw {
  hw_uart : uart_regs;
  hw_tsc : N;
  hw_pit : nat;
  hw_latch : Z;
  hw_conf : gmap Z Z;
  hw_log : list sys_write;
  hw_pins : list (Z * Z * Z)
}.

Definition set_uart (u : uart_regs) (d : hw) : hw :=
  mkHw u (hw_tsc d) (hw_pit d) (hw_latch d) (hw_conf d) (hw_log d) (hw_pins d).
Definition set_tsc (t : N) (d : hw) : hw :=
  mkHw (hw_uart d) t (hw_pit d) (hw_latch d) (hw_conf d) (hw_log d) (hw_pins d).
Definition set_pit (n : nat) (d : hw) : hw :=
  mkHw (hw_uart d) (hw_tsc d) n (hw_latch d) (hw_conf d) (hw_log d) (hw_pins d).
Definition set_latch (v : Z) (d : hw) : hw :=
  mkHw (hw_uart d) (hw_tsc d) (hw_pit d) v (hw_conf d) (hw_log d) (hw_pins d).
Definition set_conf (c : gmap Z Z) (d : hw) : hw :=
  mkHw (hw_uart d) (hw_tsc d) (hw_pit d) (hw_latch d) c (hw_log d) (hw_pins d).
Definition log_sys (op : sys_write) (d : hw) : hw :=
  mkHw (hw_uart d) (hw_tsc d) (hw_pit d) (hw_latch d) (hw_conf d) (hw_log d ++ [op]) (hw_pins d).
Definition add_pin (p : Z * Z * Z) (d : hw) : hw :=
  mkHw (hw_uart d) (hw_tsc d) (hw_pit d) (hw_latch d) (hw_conf d) (hw_log d) (hw_pins d ++ [p]).

(** Bytes of configuration space; what is not there reads as ones. *)
Fixpoint conf_bytes (n : nat) (k : Z) (c : gmap Z Z) : Z :=
  match n with
  | O => 0
  | S n' => default 0xFF (c !! k) mod 256 + 256 * conf_bytes n' (k + 1) c
  end.

Fixpoint conf_put (n : nat) (k v : Z) (c : gmap Z Z) : gmap Z Z :=
  match n with
  | O => c
  | S n' => <[k := v mod 256]> (conf_put n' (k + 1) (v / 256) c)
  end.

Lemma conf_bytes_range n k c : 0 ≤ conf_bytes n k c < 256 ^ Z.of_nat n.
Proof.
  revert k. induction n as [|n IH]; intros k; [by vm_compute|]. cbn [conf_bytes].
  rewrite Nat2Z.inj_succ, Z.pow_succ_r by lia. pose proof (IH (k + 1)).
  pose proof (Z.mod_pos_bound (default 0xFF (c !! k)) 256 ltac:(lia)). lia.
Qed.

(** Where the latch points. *)
Definition latched (v : Z) : Z := Z.land (Z.shiftr v 8) 0xFFFF * 4096 + Z.land v 0xFC.

Definition ex_ecam : Z := 0xB0000000.

Definition status_bit (n : nat) : Z := if (n =? 0)%nat then 0x20 else 0.

Definition hw_in (w p : Z) (d : hw) : Z * hw :=
  if (0xCFC <=? p) && (p <? 0xD00) && Z.testbit (hw_latch d) 31 then
    (conf_bytes (Z.to_nat w) (latched (hw_latch d) + (p - 0xCFC)) (hw_conf d), d)
  else if p =? COM1 + 5 then
    (status_bit (u_busy (hw_uart d)), set_uart (set_busy (pred (u_busy (hw_uart d))) (hw_uart d)) d)
  else if p =? 0x61 then (status_bit (hw_pit d), set_pit (pred (hw_pit d)) d)
  else (0, d).

Definition hw_out (w p v : Z) (d : hw) : hw :=
  if (0xCFC <=? p) && (p <? 0xD00) && Z.testbit (hw_latch d) 31 then
    set_conf (conf_put (Z.to_nat w) (latched (hw_latch d) + (p - 0xCFC)) v (hw_conf d)) d
  else if p =? 0xCF8 then set_latch v d
  else if (COM1 <=? p) && (p <? COM1 + 5) then
    if (p =? COM1) && negb (dlab (hw_uart d)) then set_uart (set_busy 2 (send v (hw_uart d))) d
    else set_uart (uart_write (p - COM1) v (hw_uart d)) d
  else if p =? 0x61 then set_pit 3 d
  else d.

Definition in_ecam (a : Z) : bool := (ex_ecam <=? a) && (a <? ex_ecam + 2 ^ 28).

#[export] Instance hw_devices : Devices hw := {|
  dev_in := hw_in;
  dev_out := hw_out;
  dev_read w a d := if in_ecam a then (conf_bytes (Z.to_nat w) (a - ex_ecam) (hw_conf d), d) else (0, d);
  dev_write w a v d := if in_ecam a then set_conf (conf_put (Z.to_nat w) (a - ex_ecam) v (hw_conf d)) d else d;
  dev_rdtsc d := (Z.min (Z.of_N (hw_tsc d + 1)) (2 ^ 63), set_tsc (hw_tsc d + 1) d);
  dev_rdmsr msr d := (0, d);
  dev_sys := log_sys
|}.

(** Which port it is. *)
Ltac ports := repeat match goal with
  | |- context [?a <=? ?b] => destruct (Z.leb_spec a b); try lia
  | |- context [?a <? ?b] => destruct (Z.ltb_spec a b); try lia
  | |- context [?a =? ?b] => destruct (Z.eqb_spec a b); try lia
  end; cbn [andb].

Lemma status_bit_5 n : Z.testbit (status_bit n) 5 = (n =? 0)%nat.
Proof. by destruct n. Qed.

#[export] Instance hw_is_uart : Uart hw.
Proof.
  refine {| uart := hw_uart |}.
  - intros k v d Hk. change (dev_out 1 (COM1 + k) v d) with (hw_out 1 (COM1 + k) v d). unfold hw_out, COM1.
    ports; cbn [negb]; try (by replace (1016 + k - 1016) with k by lia).
    destruct Hk as [Hk|[-> Hd]]; [lia|]. by rewrite Hd.
  - intros v d Hd Hb. exists 2%nat. change (dev_out 1 COM1 v d) with (hw_out 1 COM1 v d). unfold hw_out, COM1.
    ports. by rewrite Hd.
  - intros d. change (dev_in 1 (COM1 + 5) d) with (hw_in 1 (COM1 + 5) d). unfold hw_in, COM1. ports.
    by rewrite status_bit_5.
  - done.
Defined.

Lemma tsc_of_in w p d : hw_tsc (snd (hw_in w p d)) = hw_tsc d.
Proof. unfold hw_in. by repeat case_match. Qed.

Lemma tsc_of_out w p v d : hw_tsc (hw_out w p v d) = hw_tsc d.
Proof. unfold hw_out. by repeat case_match. Qed.

#[export] Instance hw_is_clock : Clock hw.
Proof.
  refine {| clock d := Z.min (Z.of_N (hw_tsc d)) (2 ^ 63);
            pit_run t0 d := t0 = Z.min (Z.of_N (hw_tsc d)) (2 ^ 63);
            pit_left := hw_pit |}.
  - lia.
  - intros d. cbn [dev_rdtsc hw_devices]. split; [done|]. lia.
  - intros w p v d. cbn [dev_out hw_devices]. rewrite tsc_of_out. lia.
  - intros w p d. cbn [dev_in hw_devices]. rewrite tsc_of_in. lia.
  - intros d p _. cbn [dev_out hw_devices]. by rewrite tsc_of_out.
  - intros t0 d Ht. cbn [dev_in hw_devices]. unfold hw_in, COM1. ports. by rewrite status_bit_5.
  - intros t0 d Ht. cbn [dev_rdtsc hw_devices fst]. lia.
Defined.

Lemma conf_of_in w p d : hw_conf (snd (hw_in w p d)) = hw_conf d.
Proof. unfold hw_in. by repeat case_match. Qed.

Lemma in_ecam_at f r : 0 ≤ f < 2 ^ 16 → 0 ≤ r < 4096 → in_ecam (ex_ecam + f * 4096 + r) = true.
Proof. intros Hf Hr. unfold in_ecam. apply andb_true_iff. lia. Qed.

#[export] Instance hw_is_host : PciHost hw.
Proof.
  refine {| conf := gmap Z Z; pci_conf := hw_conf; pci_latch := hw_latch; ecam := ex_ecam;
            conf_read w f r c := (conf_bytes (Z.to_nat w) (f * 4096 + r) c, c);
            conf_write w f r v c := conf_put (Z.to_nat w) (f * 4096 + r) v c |}.
  - intros w f r c Hw. cbn [fst]. replace (2 ^ (8 * w)) with (256 ^ Z.of_nat (Z.to_nat w)); [apply conf_bytes_range|].
    unfold supported_size in Hw. apply orb_true_iff in Hw as [[->%Z.eqb_eq| ->%Z.eqb_eq]%orb_true_iff| ->%Z.eqb_eq]; done.
  - done.
  - intros v d. cbn [dev_out hw_devices]. unfold hw_out, COM1. by ports.
  - intros w k d Hw Hk Hkw _ Hl. cbn [dev_in hw_devices fst snd]. rewrite conf_of_in. split; [|done].
    assert (0 < w) by (unfold supported_size in Hw; lia).
    unfold hw_in, latched, COM1. ports. rewrite Hl. cbn [andb fst]. f_equal. lia.
  - intros w k v d Hw Hk Hkw _ Hl. cbn [dev_out hw_devices].
    assert (0 < w) by (unfold supported_size in Hw; lia).
    unfold hw_out, latched, COM1. ports. rewrite Hl. cbn [andb set_conf hw_conf]. f_equal. lia.
  - intros w f r d _ Hf Hr. cbn [dev_read hw_devices]. rewrite in_ecam_at by done. cbn [fst snd]. split; [|done]. f_equal. lia.
  - intros w f r v d _ Hf Hr. cbn [dev_write hw_devices]. rewrite in_ecam_at by done. cbn [set_conf hw_conf]. f_equal. lia.
Defined.

(** ** Its state at the start *)

(** Function [f] of the bridge: its vendor and device, class and header type. *)
Definition ex_function (f : Z) (header : Z) (secondary : Z) : gmap Z Z :=
  conf_put 4 (f * 4096) 0x12378086 (conf_put 4 (f * 4096 + 0x8) (if header =? 1 then 0x06040000 else 0x02000000)
    (conf_put 4 (f * 4096 + 0xC) (Z.shiftl header 16) (conf_put 4 (f * 4096 + 0x18) (Z.shiftl secondary 8) ∅))).

(** Bus 0 has a device at 0 and a bridge to bus 1 at 1; bus 1 has a device at 0. *)
Definition ex_conf : gmap Z Z :=
  ex_function 0 0 0 ∪ ex_function 8 1 1 ∪ ex_function 256 0 0.

Definition ex_hw : hw := mkHw (mkUart 0 0 0x03 0 0 0 [] 1) 1000 0 0 ex_conf [] [].
