(* ===== verification/DeviceExamples.v ===== *)
(** * DeviceExamples: the drivers on the machine of [ExampleHw]

    The kernel's state over the page tables of [VmmExamples] and an empty heap, with
    the devices of [ExampleHw] and a small ACPI library.  The theorems of the
    drivers are applied at this state. *)

From S2P Require Import Prelude Bits Mem Pmm Dll PmmInv PmmList PmmOps PmmSpec PmmExamples.
From S2P Require Import Locks FrameAlloc PmmGlobal Heap HeapInv HeapOps HeapLive HeapSpec.
From S2P Require Import Paging Vmm Walk VmmInv VmmOps VmmMap VmmUnmap VmmSpec VmmRange KernelVmm.
From S2P Require Import TableTree VmmClone CloneSpec KernelInit VmmExamples KernelExamples.
From S2P Require Import Eventually Devices Serial Tsc Pci PciScan PciAccess Idt IdtSpec Gdt BootTables.
From S2P Require Import Kernel KernelMap Acpi KernelPci Apic ExampleHw.

#[local] Existing Instance dev_profile.
#[local] Existing Instance x86_64_paging.
#[local] Existing Instance x86_64_laws.
#[local] Existing Instance ex_reserved.

(** ** A kernel *)
Abbreviation ex_KS := (Machine PmmLock (Kernel hw KHandler)).

(** A table is what it says about configuration space and about interrupts; any
    table can be found, and handlers do nothing. *)
#[export] Instance ex_uacpi : UAcpi ex_KS := {|
  uacpi_table := McfgEntry * list MadtEntry;
  UACPI_STATUS_OK := 0;
  UACPI_STATUS_NOT_FOUND := 6;
  UACPI_STATUS_INVALID_ARGUMENT := 7;
  UACPI_STATUS_ALREADY_EXISTS := 9;
  UACPI_STATUS_TIMEOUT := 17;
  UACPI_STATUS_UNIMPLEMENTED := 8;
  uacpi_status_to_string s := Some "error";
  uacpi_initialize := ret 0;
  uacpi_namespace_load := ret 0;
  uacpi_namespace_initialize := ret 0;
  uacpi_finalize_gpe_initialization := ret 0;
  uacpi_table_find_by_signature sig :=
    ret (0, (mkMcfgEntry ex_ecam 0 3, [mkMadtEntry 1 0xFEC00000 0 0 0; mkMadtEntry 2 0 0 0 2]));
  uacpi_table_unref t := ret 0;
  mcfg_entry := fst;
  MADT_SIZE := 44;
  uacpi_for_each_subtable T t _ cb u := iterate cb (snd t) u;
  ACPI_MADT_ENTRY_TYPE_IOAPIC := 1;
  ACPI_MADT_ENTRY_TYPE_INTERRUPT_SOURCE_OVERRIDE := 2;
  uacpi_call_handler f ctx := ret 0
|}.

#[export] Instance ex_uacpi_laws : UAcpiLaws ex_KS.
Proof. by refine {| madt_entries := snd : @uacpi_table ex_KS _ → list MadtEntry |}. Defined.

#[export] Instance hw_apic : X86Apic hw := {|
  IA32_X2APIC_APICID := 0x802;
  IA32_X2APIC_EOI := 0x80B;
  x2apic_attach := log_sys (Wrmsr 0x1B 0xC00);
  ioapic_enable base pin cpu := add_pin (base, pin, cpu)
|}.

#[export] Instance ex_idt_format : X86Idt := {|
  Descriptor64 := option Gate;
  Descriptor64_NULL := None;
  finish := Some;
  Dr6_from_bits_truncate v := v
|}.

#[export] Instance ex_gdt_format : X86Gdt := {|
  Descriptor := option Segment;
  TssDescriptor := TssSegment;
  Descriptor_NULL := None;
  finish_segment := Some;
  finish_tss t := t;
  TSS_SIZE := 104
|}.

Definition ex_k0 : ex_KS :=
  mkMachine (m_sys ex_vm0) (mkKernel (m_own ex_vm0) Heap_new HANDLERS_INIT (mkTsc (2 ^ 30) 500) 0 ∅ ex_hw).

Lemma ex_k0_ok : kernel_ok ex_hhdm ex_top ex_k0.
Proof.
  split; [exact ex_vm0_kernel|]. vm_compute. reflexivity.
Qed.


Lemma ex_ready : tsc_ready dev tsc_state ex_k0.
Proof. split; [vm_compute; reflexivity|]. vm_compute. split; intros Hc; discriminate Hc. Qed.

Lemma current_time_correct_witness :
  ∃ n1 n2 d1 d2, current_time_ns dev tsc_state ex_k0 = Ok (n1, lset dev d1 ex_k0) ∧
    current_time_ns dev tsc_state (lset dev d1 ex_k0) = Ok (n2, lset dev d2 ex_k0) ∧ n1 ≤ n2.
Proof.
  assert (clock (lget dev ex_k0) < 2 ^ 62) as Hc by (vm_compute; reflexivity).
  assert (ticks_to_ns (tsc_frequency (lget tsc_state ex_k0)) (2 ^ 63) < 2 ^ 64) as Hf by (vm_compute; reflexivity).
  destruct (current_time_correct dev tsc_state ex_k0 ex_ready Hc Hf) as (n1 & n2 & d1 & d2 & H1 & H2 & H3 & _).
  exists n1, n2, d1, d2. split; [exact H1|]. split; [exact H2|exact H3].
Defined.

Lemma tsc_init_correct_witness :
  returns (tsc_init dev tsc_state (mkCpuId (Some true) None)) ex_k0 (λ r m', r = ROk tt).
Proof.
  eapply returns_mono; [exact (tsc_init_correct dev tsc_state (mkCpuId (Some true) None) ex_k0)|].
  intros [[]|[]] m' Hr; [reflexivity|]. destruct Hr as [Hr _]. discriminate Hr.
Defined.

(** ** The descriptor tables *)

(** The interrupt flag, the devices and the statics of [gdt.rs]. *)
Definition ex_statics : Type :=
  bool * hw * Mutex (option GlobalDescriptorTable) * Mutex (option TaskStateSegment).

Definition ext_cpu : lens ex_statics bool := mkLens (λ '(c, d, g, t), c) (λ x '(c, d, g, t), (x, d, g, t)).
Definition ext_dev : lens ex_statics hw := mkLens (λ '(c, d, g, t), d) (λ x '(c, d, g, t), (c, x, g, t)).
Definition ext_gdt : lens ex_statics (Mutex (option GlobalDescriptorTable)) :=
  mkLens (λ '(c, d, g, t), g) (λ x '(c, d, g, t), (c, d, x, t)).
Definition ext_tss : lens ex_statics (Mutex (option TaskStateSegment)) :=
  mkLens (λ '(c, d, g, t), t) (λ x '(c, d, g, t), (c, d, g, x)).

#[local] Instance ext_cpu_ok : LensOk ext_cpu.
Proof. by split; intros; destruct s as [[[]]]. Qed.
#[local] Instance ext_dev_ok : LensOk ext_dev.
Proof. by split; intros; destruct s as [[[]]]. Qed.
#[local] Instance ext_gdt_ok : LensOk ext_gdt.
Proof. by split; intros; destruct s as [[[]]]. Qed.
#[local] Instance ext_tss_ok : LensOk ext_tss.
Proof. by split; intros; destruct s as [[[]]]. Qed.
#[local] Instance ext_cpu_gdt : LensIndep ext_cpu ext_gdt.
Proof. by split; intros; destruct s as [[[]]]. Qed.
#[local] Instance ext_cpu_tss : LensIndep ext_cpu ext_tss.
Proof. by split; intros; destruct s as [[[]]]. Qed.
#[local] Instance ext_gdt_tss : LensIndep ext_gdt ext_tss.
Proof. by split; intros; destruct s as [[[]]]. Qed.
#[local] Instance ext_gdt_dev : LensIndep ext_gdt ext_dev.
Proof. by split; intros; destruct s as [[[]]]. Qed.
#[local] Instance ext_tss_dev : LensIndep ext_tss ext_dev.
Proof. by split; intros; destruct s as [[[]]]. Qed.
#[local] Instance ext_cpu_dev : LensIndep ext_cpu ext_dev.
Proof. by split; intros; destruct s as [[[]]]. Qed.

Definition ex_statics0 : ex_statics := (true, ex_hw, Singleton_new, Singleton_new).

Lemma gdt_init_correct_witness :
  ∃ s' g t, gdt_init ext_cpu ext_dev ext_gdt ext_tss 0x8000 0x100 0x200 ex_statics0 = Ok (tt, s') ∧
    mx_data (lget ext_gdt s') = Some g ∧ mx_data (lget ext_tss s') = Some t ∧
    tss_ist t !! 0%nat = Some (0x8000 + 4096 * 4).
Proof.
  assert (0 ≤ 0x8000) as H1 by lia.
  assert (0x8000 + IST_STACK_SIZE < 2 ^ 64) as H2 by (vm_compute; reflexivity).
  assert (1 ≤ TSS_SIZE < 2 ^ 64) as H3 by (cbn; lia).
  destruct (gdt_init_correct ext_cpu ext_dev ext_gdt ext_tss 0x8000 0x100 0x200 ex_statics0 H1 H2 H3 eq_refl eq_refl)
    as (s' & g & t & Heq & Hg & Ht & _ & _ & _ & _ & _ & _ & Hi).
  exists s', g, t. split; [exact Heq|]. split; [exact Hg|]. split; [exact Ht|exact Hi].
Defined.

(** ** Interrupts *)
Definition ex_frame (v : Z) : InterruptFrame := mkFrame 0 0 0 0 0 0 0 0 0 0 0 0 0 0 0 v 0 0x1000 8 0x202 0x2000 16.

(** The kernel with the keyboard's handler. *)
Definition ex_k1 : ex_KS := put_slot handlers 0x21 (unlocked (Some (1, Keyboard))) ex_k0.

(** The keyboard was read and the interrupt acknowledged. *)
Definition ex_k2 : ex_KS := lset dev (log_sys (Wrmsr 0x80B 0) ex_hw) ex_k1.

Lemma isr_handler_correct_witness :
  isr_handler dev handlers run_handler (ex_frame 0x21) ex_k1 = Ok (ex_frame 0x21, ex_k2).
Proof.
  assert (0 ≤ vector (ex_frame 0x21)) as Hv by (cbn; lia).
  pose proof (isr_handler_correct dev handlers run_handler (ex_frame 0x21) ex_k1 Hv) as Hisr.
  change (lget handlers ex_k1 !! Z.to_nat (vector (ex_frame 0x21))) with (Some (unlocked (Some (1, Keyboard)))) in Hisr.
  specialize (Hisr eq_refl). cbn [slot_handler unlocked] in Hisr.
  set (m1 := put_slot handlers 0x21 (locked (Some (1, Keyboard))) ex_k1).
  rewrite (Hisr (ex_frame 0x21) Keyboard (lset dev (log_sys (Wrmsr 0x80B 0) ex_hw) m1) eq_refl eq_refl). reflexivity.
Defined.

Lemma slot_not_reentrant_witness :
  is_handler_installed handlers 0x21 (put_slot handlers 0x21 (locked (Some (1, Keyboard))) ex_k0) = NoFuel.
Proof.
  destruct (slot_not_reentrant dev handlers run_handler handler_drop 0x21 (Some (1, Keyboard)) (ex_frame 0x21) None
    (put_slot handlers 0x21 (locked (Some (1, Keyboard))) ex_k0) eq_refl eq_refl eq_refl) as (_ & H & _).
  exact H.
Defined.

Lemma keyboard_interrupt_correct_witness :
  isr_handler dev handlers run_handler (ex_frame 0x21) ex_k1 = Ok (ex_frame 0x21, ex_k2).
Proof.
  rewrite (keyboard_interrupt_correct (ex_frame 0x21) 1 ex_k1 eq_refl eq_refl). reflexivity.
Defined.

(** ** The interrupt controllers *)
Definition ex_k3 : ex_KS := snd (apic_start ex_k0).

Lemma ex_k3_ok : kernel_ok ex_hhdm ex_top ex_k3.
Proof. exact ex_k0_ok. Qed.

Lemma apic_init_correct_witness :
  ∃ r m', apic_init ex_k0 = Ok (r, m') ∧ kernel_ok ex_hhdm ex_top m'.
Proof.
  assert (0 ≤ 0xFEC00000 < 2 ^ 52) as Hp by lia.
  assert (0xFEC00000 + ex_hhdm < 2 ^ 64) as Hb by (vm_compute; reflexivity).
  assert (0 ≤ 0) as H0 by lia. assert (1 < 2 ^ 32) as H1 by lia.
  pose proof (apic_init_correct ex_hhdm ex_top (kernel_ok ex_hhdm ex_top) ex_k0 ex_k3 (ROk (0xFEC00000, 0)) eq_refl) as Hinit.
  change (apic_start ex_k0) with (0, ex_k3) in Hinit. cbv beta iota in Hinit.
  specialize (Hinit eq_refl 1 ex_k3 eq_refl ex_k3_ok Hp Hb H0 H1).
  change (1 <? 0) with false in Hinit. destruct Hinit as (r & m' & Heq & Hk & _).
  exists r, m'. split; [exact Heq|exact Hk].
Defined.

(** It succeeds, with pin 1 routed to processor 0. *)
Example ex_apic_run :
  match apic_init ex_k0 with
  | Ok (ROk _, m') => hw_pins (lget dev m') = [(0xFEC00000 + ex_hhdm, 1, 0)] ∧ lget cpu_if m' = true
  | _ => False
  end.
Proof. vm_compute. split; reflexivity. Qed.

(** ** PCI *)

(** The functions the walk of the example finds, through the ports. *)
Example ex_enum_run :
  match enum_bus dev MCFG_ADDRESS read_volatile 256 0 [] ex_k0 with
  | Ok (l, _) => l = [mkPciAddress 0 0 0; mkPciAddress 0 1 0; mkPciAddress 1 0 0]
  | _ => False
  end.
Proof. vm_compute. reflexivity. Qed.

Abbreviation ex_cfg := (cfg_of ex_k0).

Lemma ex_bus_0 : bus_functions ex_cfg 0 = [mkPciAddress 0 0 0; mkPciAddress 0 1 0].
Proof. vm_compute. reflexivity. Qed.

Lemma ex_bus_1 : bus_functions ex_cfg 1 = [mkPciAddress 1 0 0].
Proof. vm_compute. reflexivity. Qed.

Lemma ex_leads_0 b : leads ex_cfg 0 b → b = 1.
Proof.
  intros (f & Hf & Hb & <-). rewrite ex_bus_0 in Hf.
  apply elem_of_cons in Hf as [->|Hf]; [vm_compute in Hb; discriminate Hb|].
  apply list_elem_of_singleton in Hf as ->. vm_compute. reflexivity.
Qed.

Lemma ex_leads_1 b : ¬ leads ex_cfg 1 b.
Proof.
  intros (f & Hf & Hb & _). rewrite ex_bus_1 in Hf. apply list_elem_of_singleton in Hf as ->.
  vm_compute in Hb. discriminate Hb.
Qed.

(** The walk from bus 0 stays on the two buses. *)
Lemma ex_reached b : rtc (leads ex_cfg) 0 b → b = 0 ∨ b = 1.
Proof.
  revert b. apply rtc_ind_r; [by left|]. intros b b' _ Hl IH.
  destruct IH as [->| ->]; [right; by apply ex_leads_0|by apply ex_leads_1 in Hl].
Qed.

Lemma ex_ascending : ascending ex_cfg 0.
Proof.
  intros b b' [->| ->]%ex_reached Hl; [apply ex_leads_0 in Hl as ->; lia|by apply ex_leads_1 in Hl].
Qed.

Lemma ex_reachable : reachable ex_k0 (rtc (leads ex_cfg) 0).
Proof. left. split; [reflexivity|]. intros b [->| ->]%ex_reached; lia. Qed.


(** A bridge that leads to its own bus. *)
Definition ex_loop : ex_KS := lset dev (set_conf (ex_function 0 1 0) ex_hw) ex_k0.


Definition ex_entry : McfgEntry := mkMcfgEntry ex_ecam 0 3.
Definition ex_table : @uacpi_table ex_KS ex_uacpi :=
  (ex_entry, [mkMadtEntry 1 0xFEC00000 0 0 0; mkMadtEntry 2 0 0 0 2]).
Definition ex_base : Z := ex_ecam + ex_hhdm.
Definition ex_len : Z := mcfg_pages ex_entry * 2 ^ 21.

Lemma ex_len_eq : ex_len = 2 ^ 22.
Proof. vm_compute. reflexivity. Qed.

Lemma ex_in_window b : rtc (leads ex_cfg) 0 b → in_window ex_len b.
Proof. rewrite ex_len_eq. intros [->| ->]%ex_reached; split; lia. Qed.


(** The window mapped. *)
Abbreviation ex_map_window := (on_vmm (map_range ex_base ex_ecam (mcfg_pages ex_entry) uncached_flags Large)).

Definition ex_mapped : ex_KS := run_state ex_map_window ex_k0.

Lemma ex_mapped_run : ex_map_window ex_k0 = Ok (ROk tt, ex_mapped).
Proof. unfold ex_mapped. apply ran. vm_compute. reflexivity. Qed.

Definition ex_window : ex_KS := lset MCFG_ADDRESS ex_base ex_mapped.

Lemma ex_window_bounds :
  0 ≤ ex_base ∧ 0 ≤ ex_ecam ∧ 0 ≤ mcfg_pages ex_entry ∧
  ex_base + mcfg_pages ex_entry * 2 ^ 21 ≤ 2 ^ 64 ∧ ex_ecam + mcfg_pages ex_entry * 2 ^ 21 ≤ 2 ^ 52.
Proof. vm_compute. repeat split; intros Hc; discriminate Hc. Qed.

Lemma mapped_window_mcfg base len v (m : ex_KS) :
  mapped_window base len m → mapped_window base len (lset MCFG_ADDRESS v m).
Proof. intros Hw o Ho. destruct (Hw o Ho) as [fl Hfl]. by exists fl. Qed.

Lemma ex_window_mapped : mapped_window ex_base ex_len ex_window.
Proof.
  destruct ex_window_bounds as (Hb & He & Hp & Hv & Hph). rewrite <- large_bytes in Hv, Hph.
  pose proof (on_map_range_spec ex_hhdm ex_top ex_k0 ex_base ex_ecam (mcfg_pages ex_entry) uncached_flags Large ex_k0_ok
    Hb He Hp uncached_flags_ok Hv Hph) as Hspec. rewrite large_bytes in Hspec.
  unfold wp in Hspec. rewrite ex_mapped_run in Hspec.
  destruct Hspec as (_ & _ & Hgood & Ht).
  apply mapped_window_mcfg.
  apply (range_window ex_mapped ex_base (mcfg_pages ex_entry) uncached_flags Hp (Hgood eq_refl)).
  intros v Hgv page Hpage. rewrite (Ht v Hgv). by rewrite decide_True.
Qed.

Lemma pci_access_equiv_witness :
  ∃ x d d0, pci_read dev MCFG_ADDRESS read_volatile 2 (mkPciAddress 1 0 0) 0x02 ex_window = Ok (x, lset dev d ex_window) ∧
    pci_read dev MCFG_ADDRESS read_volatile 2 (mkPciAddress 1 0 0) 0x02 (lset MCFG_ADDRESS 0 ex_window)
      = Ok (x, lset dev d0 (lset MCFG_ADDRESS 0 ex_window)).
Proof.
  assert (0 < ex_base) as H1 by (vm_compute; reflexivity).
  assert (ex_base + 2 ^ 28 ≤ 2 ^ 64) as H2 by (vm_compute; intros Hc; discriminate Hc).
  assert (in_window ex_len (bus (mkPciAddress 1 0 0))) as H3 by (rewrite ex_len_eq; split; cbn; lia).
  assert (pci_valid (mkPciAddress 1 0 0)) as H4 by (vm_compute; intuition discriminate).
  assert (access_ok 2 0x02) as H5 by (split; reflexivity).
  assert (0 ≤ 0x02 < 256) as H6 by lia. assert (0 ≤ 7 < 2 ^ (8 * 2)) as H7 by lia.
  destruct (pci_access_equiv ex_window ex_base ex_len 2 (mkPciAddress 1 0 0) 0x02 7 eq_refl H1 H2 eq_refl
    ex_window_mapped H3 H4 H5 H6 H7) as [(x & d & d0 & Hr & Hr0 & _) _].
  exists x, d, d0. split; [exact Hr|exact Hr0].
Defined.

(** A host bridge that starts at bus 2: bus 3 is not in what [init] maps. *)
Definition ex_high : McfgEntry := mkMcfgEntry ex_ecam 2 3.
Definition ex_k4 : ex_KS := lset MCFG_ADDRESS ex_base ex_k0.
Abbreviation ex_map_high := (on_vmm (map_range ex_base ex_ecam (mcfg_pages ex_high) uncached_flags Large)).
Definition ex_k5 : ex_KS := run_state ex_map_high ex_k4.

Lemma ex_high_run : ex_map_high ex_k4 = Ok (ROk tt, ex_k5).
Proof. unfold ex_k5. apply ran. vm_compute. reflexivity. Qed.

Lemma ex_k4_ok : kernel_ok ex_hhdm ex_top ex_k4.
Proof. exact ex_k0_ok. Qed.

Lemma ex_high_unmapped : mmu ex_k4 (ex_ecam + ex_hhdm + bdf (mkPciAddress 3 0 0) * 4096 + 0) = None.
Proof. vm_compute. reflexivity. Qed.

