(* ===== verification/UacpiExamples.v ===== *)
(** * UacpiExamples: the ACPI callbacks on the kernel of [DeviceExamples]

    The theorems about time, synchronisation, mapping, memory and interrupt
    handlers are applied at states of that kernel. *)

From S2P Require Import Prelude Bits Mem Pmm Dll PmmInv PmmList PmmOps PmmSpec PmmExamples.
From S2P Require Import Locks FrameAlloc PmmGlobal Heap HeapInv HeapOps HeapLive HeapSpec.
From S2P Require Import Paging Vmm Walk VmmInv VmmOps VmmMap VmmUnmap VmmSpec VmmRange KernelVmm VmmExamples.
From S2P Require Import Eventually Devices Tsc Pci Idt IdtSpec Kernel KernelMap Acpi KernelPci Apic Uacpi.
From S2P Require Import UacpiTime UacpiSync UacpiMem UacpiHeap ExampleHw DeviceExamples.

#[local] Existing Instance dev_profile.
#[local] Existing Instance x86_64_paging.
#[local] Existing Instance x86_64_laws.
#[local] Existing Instance ex_reserved.

(** ** Time *)
Lemma ex_sane : clock_sane ex_k0.
Proof. split; [exact ex_ready|]. vm_compute. split; intros Hc; discriminate Hc. Qed.

Lemma ex_early : clock (lget dev ex_k0) ≤ 2 ^ 60.
Proof. vm_compute. intros Hc. discriminate Hc. Qed.

Lemma delay_correct_witness :
  returns (uacpi_kernel_stall 5) ex_k0 (λ _ m', ∃ d, m' = lset dev d ex_k0 ∧
    ns_at ex_k0 (clock (lget dev ex_k0)) + 5 * 1000 ≤ ns_at ex_k0 (clock d)).
Proof.
  assert (0 ≤ 5 < 2 ^ 8) as H5 by lia.
  destruct (delay_correct ex_k0 5 ex_sane ex_early) as [Hstall _]. exact (Hstall H5).
Defined.

(** ** Synchronisation *)
Definition ex_with (o : KObj) : ex_KS := with_obj 0x5000 o ex_k0.

Lemma spinlock_pair_correct_witness :
  ∃ m', uacpi_kernel_lock_spinlock 0x5000 (ex_with Free) = Ok (1, m') ∧ lget cpu_if m' = false ∧
    uacpi_kernel_unlock_spinlock 0x5000 1 m' = Ok (tt, ex_with Free).
Proof.
  assert (0x5000 ≠ 0) as Hp by lia.
  destruct (spinlock_pair_correct 0x5000 (ex_with Free) Hp (obj_with _ _ _)) as (fl & m' & Heq & -> & Hif & _ & _ & Hun).
  exists m'. split; [exact Heq|]. split; [exact Hif|exact Hun].
Defined.

Lemma ex_sane_with o : clock_sane (ex_with o).
Proof. exact ex_sane. Qed.

Lemma acquire_mutex_correct_witness :
  returns (uacpi_kernel_acquire_mutex 0x5000 20) (ex_with Held) (λ r m', r = UACPI_STATUS_TIMEOUT).
Proof.
  assert (0 ≤ 20 < 2 ^ 16) as Ht by lia.
  destruct (acquire_mutex_correct 0x5000 (mkSpinLock true) 20 (ex_with Held) (obj_with _ _ _) (ex_sane_with _) ex_early Ht)
    as [_ Hret].
  eapply returns_mono; [exact Hret|]. intros r m' (d & [(_ & Hc & _)|(-> & _)]); [discriminate Hc|reflexivity].
Defined.

Lemma wait_for_event_correct_witness :
  uacpi_kernel_wait_for_event 0x5000 30 1 (ex_with (OEvent 2)) = Ok (true, with_obj 0x5000 (OEvent 1) (ex_with (OEvent 2))).
Proof.
  assert (0 ≤ 2) as H2 by lia. assert (0 ≤ 30 < 2 ^ 16) as Ht by lia.
  exact (wait_for_event_correct 0x5000 2 30 (ex_with (OEvent 2)) (obj_with _ _ _) H2 Ht 0%nat).
Defined.

Lemma event_refines_semaphore_witness :
  event_runs 0x5000 [ESignal; ETryWait; ETryWait] (ex_with (OEvent 0)) =
    Ok ([None; Some true; Some false], with_obj 0x5000 (OEvent 0) (ex_with (OEvent 0))).
Proof.
  assert (0 ≤ 0) as H0 by lia. assert (0 + Z.of_nat 3 < 2 ^ 64) as H3 by lia.
  exact (event_refines_semaphore 0x5000 [ESignal; ETryWait; ETryWait] 0 (ex_with (OEvent 0)) (obj_with _ _ _) H0 H3).
Defined.

(** ** Mapping *)

(** Two pages from [0x9010] on. *)
Lemma low_canonical v : 0 ≤ v < 2 ^ 47 → is_canonical v = true.
Proof.
  intros Hv. unfold is_canonical, u64_shr. rewrite Z.shiftr_div_pow2, (Z.div_small v) by lia. reflexivity.
Qed.

Lemma ex_pages : first_page 0x9010 + ex_hhdm = 0x100009000 ∧ last_page 0x9010 0x1000 + ex_hhdm = 0x10000B000.
Proof. vm_compute. split; reflexivity. Qed.

Lemma ex_range_canonical v :
  first_page 0x9010 + ex_hhdm ≤ v < last_page 0x9010 0x1000 + ex_hhdm → is_canonical v = true.
Proof. destruct ex_pages as [-> ->]. intros Hv. apply low_canonical. lia. Qed.

Lemma ex_map_bounds :
  0 ≤ 0x9010 ∧ 0 ≤ 0x1000 ∧ 0x9010 + 0x1000 + 4096 ≤ 2 ^ 52 ∧ 0x9010 + 0x1000 + 4096 + ex_hhdm < 2 ^ 64 ∧
  0x9010 + 0x1000 + 4096 + ex_hhdm ≤ 2 ^ 64.
Proof. vm_compute. repeat split; intros Hc; discriminate Hc. Qed.


Definition ex_k6 : ex_KS := run_state (uacpi_kernel_map 0x9010 0x1000) ex_k0.

Lemma ex_map_run : uacpi_kernel_map 0x9010 0x1000 ex_k0 = Ok (0x9010 + ex_hhdm, ex_k6).
Proof. unfold ex_k6. apply ran. vm_compute. reflexivity. Qed.

Lemma uacpi_map_unmap_witness :
  ∃ m'', uacpi_kernel_unmap (0x9010 + ex_hhdm) 0x1000 ex_k6 = Ok (tt, m'') ∧ kernel_ok ex_hhdm ex_top m''.
Proof.
  destruct ex_map_bounds as (H1 & H2 & H3 & H4 & _).
  assert (0x9010 + ex_hhdm ≠ 0) as Hp by (vm_compute; intros Hc; discriminate Hc).
  destruct (uacpi_map_unmap ex_hhdm ex_top ex_k0 0x9010 0x1000 (0x9010 + ex_hhdm) ex_k6 ex_k0_ok H1 H2 H3 H4
    ex_range_canonical ex_map_run Hp) as (m'' & Heq & Hk & _).
  exists m''. split; [exact Heq|exact Hk].
Defined.

(** ** Memory, handles and interrupts *)
Lemma ex_k0_heap : heap_rel ex_hhdm (heap_part ex_k0) ∅.
Proof.
  destruct ex_k0_ok as [([T Hok] & _) _]. apply (heap_new_rel ex_hhdm (m_sys ex_vm0)); [exact (vo_fa _ _ _ _ Hok)|reflexivity|].
  intros g Hg. exact (proj1 (vo_apart _ _ _ _ Hok g Hg)).
Qed.

Lemma ex_client : heap_client ex_hhdm ∅ ex_k0.
Proof.
  split; [exact ex_k0_heap| | |].
  - intros p o Ho. discriminate Ho.
  - intros v x b l Hx. apply lookup_replicate in Hx as [-> _]. intros Hb. discriminate Hb.
  - intros v w x y b l l' Hx. apply lookup_replicate in Hx as [-> _]. intros _ Hb. discriminate Hb.
Qed.

Lemma uacpi_alloc_free_correct_witness :
  ∃ p m', uacpi_kernel_alloc 100 ex_k0 = Ok (p, m') ∧ heap_step ex_k0 m'.
Proof.
  assert (0 ≤ 100 < 2 ^ 63) as Hs by lia.
  destruct (uacpi_alloc_free_correct ex_hhdm ∅ ex_k0 100 ex_k0_heap Hs) as (_ & (p & m' & Heq & Hst & _) & _).
  exists p, m'. split; [exact Heq|exact Hst].
Defined.

Lemma ex_memory l : bucket_for l = Some 0 → ¬ out_of_memory (heap_part ex_k0) l.
Proof.
  intros Hb. unfold out_of_memory. rewrite Hb. intros He. assert (bool_decide (fa_free (m_sys ex_vm0) = ∅) = true) as Hc.
  { apply bool_decide_eq_true. exact He. }
  vm_compute in Hc. discriminate Hc.
Qed.


Lemma interrupt_handler_lifecycle_witness :
  ∃ b m', uacpi_kernel_install_interrupt_handler 9 (Some 0x1000) 7 ex_k0 = Ok ((UACPI_STATUS_OK, Some 0x29), m') ∧
    heap_client ex_hhdm {[b := acpi_layout]} m'.
Proof.
  assert (0 ≤ 9 < 0xE0) as Hirq by lia.
  destruct (interrupt_handler_lifecycle ex_hhdm ∅ ex_k0 9 (Some 0x1000) 7 ex_client Hirq) as (Hinst & _ & _).
  destruct (Hinst None eq_refl) as [[Ho _]|(b & m' & Heq & _ & _ & Hcl)].
  - destruct (ex_memory acpi_layout eq_refl Ho).
  - exists b, m'. split; [exact Heq|exact Hcl].
Defined.

Lemma interrupt_handler_lost_witness :
  ∃ m', uacpi_kernel_install_interrupt_handler 0x60 (Some 0x1000) 7 ex_k0 = Ok ((UACPI_STATUS_OK, Some 0x80), m') ∧
    isr_handler dev handlers run_handler (ex_frame 0x80) m' = Ok (ex_frame 0x80, m').
Proof.
  destruct (interrupt_handler_lost ex_hhdm ∅ ex_k0 (Some 0x1000) 7 ex_client eq_refl (ex_memory acpi_layout eq_refl))
    as (m' & Heq & Hisr).
  exists m'. split; [exact Heq|exact (Hisr (ex_frame 0x80) eq_refl)].
Defined.
