(* ===== verification/SystemExamples.v ===== *)
(** * SystemExamples: from boot to a sequence of calls

    The machine of [KernelExamples] boots, and a client maps a page, allocates,
    writes and reads.  The theorems of [SystemBoot] and [SystemSpec] are applied to
    this run. *)

From S2P Require Import Prelude Bits Mem Pmm Dll PmmInv PmmList PmmOps PmmSpec PmmExamples.
From S2P Require Import Locks FrameAlloc PmmGlobal MmInit MmBoot BootExamples.
From S2P Require Import Heap HeapInv HeapOps HeapLive HeapSpec.
From S2P Require Import Paging Vmm Walk VmmInv VmmOps VmmMap VmmUnmap VmmSpec VmmRange KernelVmm.
From S2P Require Import TableTree VmmClone CloneSpec KernelInit VmmExamples KernelExamples.
From S2P Require Import Eventually Devices Serial Tsc Pci PciScan PciAccess Idt IdtSpec.
From S2P Require Import Kernel KernelMap Acpi KernelPci Apic Uacpi UacpiHeap System SystemSpec SystemBoot.
From S2P Require Import ExampleHw DeviceExamples.

#[local] Existing Instance dev_profile.
#[local] Existing Instance x86_64_paging.
#[local] Existing Instance x86_64_laws.
#[local] Existing Instance ex_limine.

(** ** Boot *)
Definition ex_booted : Machine PmmLock VmmHw := run_state (init ex_memmap ex_hhdm) ex_machine0.

Lemma ex_init : init ex_memmap ex_hhdm ex_machine0 = Ok (ROk tt, ex_booted).
Proof. unfold ex_booted. apply ran. vm_compute. reflexivity. Qed.

Definition ex_kernel0 : Kernel hw KHandler :=
  mkKernel (m_own ex_booted) Heap_new HANDLERS_INIT (mkTsc (2 ^ 30) 500) 0 ∅ ex_hw.

Definition ex_s0 : ex_KS := mkMachine (m_sys ex_booted) ex_kernel0.

Definition ex_space0 : space := mkSpace (leaf_at ex_hhdm (boot_top ex_machine0) (sy_mem (m_sys ex_machine0))) ∅ ∅.

Lemma boot_starts_system_witness : ∃ top, system_rel ex_hhdm top ex_space0 ex_s0.
Proof.
  exact (boot_starts_system ex_memmap ex_hhdm ex_machine0 ex_booted ex_kernel0 ex_memmap_ok ex_has_room eq_refl eq_refl
    ex_boot_tables ex_init (conj eq_refl eq_refl)).
Defined.

Lemma ex_s0_rel : ∃ top, system_rel ex_hhdm top ex_space0 ex_s0.
Proof.
  pose proof (init_spec ex_memmap ex_hhdm ex_machine0 ex_memmap_ok ex_has_room eq_refl eq_refl ex_boot_tables) as Hwp.
  unfold wp in Hwp. rewrite ex_init in Hwp.
  destruct (init_kernel_ok ex_memmap ex_hhdm ex_machine0 ex_booted ex_kernel0 Hwp (conj eq_refl eq_refl))
    as (top & Hok & Hleaf).
  exists top. split; [exact Hok|intros v _; exact (Hleaf v)|]. intros x v Hx. discriminate Hx.
Qed.

(** ** A client *)

(** The page at 1 GiB, to frame 9. *)
Definition ex_op1 : kop := KMap 0x40000000 0x9000 3 Base.
Definition ex_op2 : kop := KAlloc (mkLayout 100 8).
Definition ex_ptr : Z := 0x100003080.
Definition ex_op3 : kop := KWrite ex_ptr 42.
Definition ex_op4 : kop := KRead ex_ptr.

Definition ex_s1 : ex_KS := run_state (exec ex_op1) ex_s0.
Definition ex_s2 : ex_KS := run_state (exec ex_op2) ex_s1.
Definition ex_s3 : ex_KS := run_state (exec ex_op3) ex_s2.
Definition ex_s4 : ex_KS := run_state (exec ex_op4) ex_s3.

Lemma ex_run1 : exec ex_op1 ex_s0 = Ok (AMap (ROk tt), ex_s1).
Proof. unfold ex_s1. apply ran. vm_compute. reflexivity. Qed.

Lemma ex_run2 : exec ex_op2 ex_s1 = Ok (APtr ex_ptr, ex_s2).
Proof. unfold ex_s2. apply ran. vm_compute. reflexivity. Qed.

Lemma ex_run3 : exec ex_op3 ex_s2 = Ok (AUnit, ex_s3).
Proof. unfold ex_s3. apply ran. vm_compute. reflexivity. Qed.

Lemma ex_run4 : exec ex_op4 ex_s3 = Ok (AWord 42, ex_s4).
Proof. unfold ex_s4. apply ran. vm_compute. reflexivity. Qed.

Definition ex_space1 : space := spec_next ex_space0 ex_op1 (AMap (ROk tt)).
Definition ex_space2 : space := spec_next ex_space1 ex_op2 (APtr ex_ptr).
Definition ex_space3 : space := spec_next ex_space2 ex_op3 AUnit.
Definition ex_space4 : space := spec_next ex_space3 ex_op4 (AWord 42).

Definition ex_events : list (kop * kans) :=
  [(ex_op1, AMap (ROk tt)); (ex_op2, APtr ex_ptr); (ex_op3, AUnit); (ex_op4, AWord 42)].

Lemma ex_op1_ok : op_ok ex_space0 ex_op1.
Proof. unfold op_ok, ex_op1, u64_range. split; [lia|]. split; [lia|exact ex_flags_ok]. Qed.

Lemma ex_kernel_run : kernel_run (ex_space0, ex_s0) ex_events (ex_space4, ex_s4).
Proof.
  apply (kr_cons _ _ _ _ ex_s1); [exact ex_op1_ok|exact ex_run1|].
  apply (kr_cons _ _ _ _ ex_s2); [split; [simpl; lia|exists 3; split; [lia|reflexivity]]|exact ex_run2|].
  apply (kr_cons _ _ _ _ ex_s3); [|exact ex_run3|].
  { exists ex_ptr, (mkLayout 100 8). split; [vm_compute; reflexivity|]. split; [reflexivity|]. vm_compute. reflexivity. }
  apply (kr_cons _ _ _ _ ex_s4); [|exact ex_run4|apply kr_nil].
  exists 42. vm_compute. reflexivity.
Qed.

Lemma kernel_refines_witness :
  ∃ top ans m', exec ex_op1 ex_s0 = Ok (ans, m') ∧ system_rel ex_hhdm top (spec_next ex_space0 ex_op1 ans) m'.
Proof.
  destruct ex_s0_rel as [top Hrel].
  destruct (kernel_refines ex_hhdm top ex_space0 ex_s0 ex_op1 Hrel ex_op1_ok) as (ans & m' & Heq & _ & Hrel').
  exists top, ans, m'. split; [exact Heq|exact Hrel'].
Defined.


Lemma ex_low_addr : good_addr 0x1234.
Proof. split; [unfold u64_range; lia|reflexivity]. Qed.

Lemma mapping_stable_witness : mmu ex_s4 0x1234 = Some (0x1234, 0x83).
Proof.
  destruct ex_s0_rel as [top Hrel].
  apply (mapping_stable ex_hhdm top ex_space0 ex_s0 ex_events ex_space4 ex_s4 0x1234 (0x1234, 0x83) Hrel ex_kernel_run ex_low_addr).
  - vm_compute. reflexivity.
  - intros o ans Hin. apply list_elem_of_In in Hin. destruct Hin as [E|[E|[E|[E|[]]]]];
      injection E as <- _; exact I.
Defined.
