(* ===== verification/MainExamples.v ===== *)
(** * MainExamples: a whole boot

    The machine of [BootExamples] and [ExampleHw], from the state the boot loader
    leaves it in, with a screen of 124 lines of four pixels.  The theorems of
    [Print], [MainSpec] and [MainBoot] are applied to it, and [kmain] is run. *)

From S2P Require Import Prelude Bits Mem Pmm Dll PmmInv PmmList PmmOps PmmSpec PmmExamples.
From S2P Require Import Locks FrameAlloc PmmGlobal MmInit MmBoot BootExamples.
From S2P Require Import Heap HeapInv HeapOps HeapLive HeapSpec.
From S2P Require Import Paging Vmm Walk VmmInv VmmOps VmmMap VmmUnmap VmmSpec VmmRange KernelVmm.
From S2P Require Import TableTree VmmClone CloneSpec KernelInit VmmExamples KernelExamples.
From S2P Require Import Eventually Devices Serial Print Tsc Pci PciScan PciAccess Idt IdtSpec Gdt BootTables.
From S2P Require Import Kernel KernelMap Acpi KernelPci Apic Uacpi UacpiHeap System SystemSpec SystemBoot Drivers.
From S2P Require Import Main MainSpec MainBoot ExampleHw DeviceExamples.

#[local] Existing Instance dev_profile.
#[local] Existing Instance x86_64_paging.
#[local] Existing Instance x86_64_laws.
#[local] Existing Instance ex_limine.

(** ** Messages *)
#[local] Instance ex_log : UacpiLog := {|
  UACPI_LOG_DEBUG := 5; UACPI_LOG_TRACE := 4; UACPI_LOG_INFO := 3; UACPI_LOG_WARN := 2; UACPI_LOG_ERROR := 1 |}.

(** An e with an acute accent, then a line feed and the end of the string. *)
Definition ex_msg : list Z := [0xC3; 0xA9; 10; 0; 0xFF].

Lemma uacpi_log_correct_witness :
  returns (uacpi_kernel_log cpu_if dev 3 ex_msg) ex_k0 (λ _ m',
    u_sent (hw_uart (lget dev m')) = [91; 105; 110; 102; 111; 93; 32; 0xC3; 0xA9; 13; 10]) ∧
  read_decimal (display_u32 3) = 3.
Proof.
  assert (Forall (λ b, 0 ≤ b) ex_msg) as Hb by (unfold ex_msg; repeat constructor; lia).
  assert (0 ≤ 3 < 2 ^ 32) as Hl by lia.
  assert (dlab (uart (lget dev ex_k0)) = false) as Hd0 by reflexivity.
  destruct (uacpi_log_correct cpu_if dev 3 ex_msg ex_k0 Hd0 Hb Hl) as [Hr Hd]. split; [|exact Hd].
  eapply returns_mono; [exact Hr|]. cbv beta. intros [] m' [_ [[_ Hs]|[Hn _]]]; [exact Hs|].
  destruct Hn. exists [233; 10]. split; [|reflexivity]. repeat constructor; unfold scalar; lia.
Defined.

(** ** The machine *)
#[local] Instance ex_control : X86Control := {|
  CR0_EMULATE_COPROCESSOR := 2 ^ 2; CR0_MONITOR_COPROCESSOR := 2 ^ 1;
  CR4_ENABLE_SSE := 2 ^ 9; CR4_UNMASKED_SSE := 2 ^ 10;
  Cr0_from_bits_truncate v := v; Cr4_from_bits_truncate v := v |}.

#[local] Instance ex_control_laws : ControlLaws.
Proof. by split. Qed.

#[local] Instance ex_apart : PciApart hw.
Proof.
  split; [|done|done]. intros d d' [p d1 Hp|p v d1 Hp|d1|r d1|op d1]; [apply conf_of_in| |done|done|done].
  cbn [dev_out hw_devices]. change (hw_conf (hw_out 1 p v d1) = hw_conf d1). unfold hw_out.
  destruct (Z.leb_spec 0xCFC p); [lia|]. cbn [andb]. by repeat case_match.
Qed.

Abbreviation ex_St := (Machine PmmLock (Statics hw)).

Definition ex_fb : Framebuffer := mkFramebuffer 16 124.

Definition ex_loaded : ex_St := mkMachine (m_sys ex_machine0) (mkStatics
  (mkKernel (m_own ex_machine0) Heap_new HANDLERS_INIT (mkTsc 0 0) 0 ∅ ex_hw)
  Singleton_new Singleton_new Singleton_new 0x11 0 (replicate 496 0)).

Definition ex_isrs : list Z := replicate 256 0x1000.

Lemma ex_fresh : fresh ex_memmap ex_hhdm ex_isrs 0x8000 ex_loaded.
Proof.
  split; [exact ex_memmap_ok|exact ex_has_room|reflexivity|reflexivity|exact ex_boot_tables|reflexivity..| |].
  - split; [lia|]. vm_compute. reflexivity.
  - cbn. lia.
Qed.

Lemma ex_firmware top : firmware ex_hhdm (memory_ok ex_hhdm top) ex_entry (snd ex_table).
Proof.
  split.
  - intros c m Hc Hm. assert (c = ret 0) as -> by (repeat (apply elem_of_cons in Hc as [->|Hc]; [reflexivity|]); by apply elem_of_nil in Hc).
    apply wp_ret. split; [exact Hm|]. by split.
  - intros sig m Hm. apply wp_ret. split; [exact Hm|]. split; [by split|]. intros _. split; intros _; reflexivity.
  - intros t m Hm. apply wp_ret. split; [exact Hm|]. by split_and!.
  - cbn. lia.
  - split; [reflexivity|]. change (mcfg_pages ex_entry * 2 ^ 21) with (2 ^ 22). cbn. unfold ex_ecam, ex_hhdm. lia.
  - intros x Hx. vm_compute in Hx. injection Hx as <-. unfold ex_hhdm. cbn. lia.
  - intros x y Hx Hy. vm_compute in Hy. discriminate Hy.
Qed.

Lemma ex_buses : buses_ok ex_entry (kernel_part ex_loaded).
Proof. split; [exact ex_ascending|exact ex_in_window]. Qed.

Lemma ex_screen : screen_fits ex_fb (lget screen ex_loaded).
Proof. unfold screen_fits. cbn [pitch height ex_fb]. change (16 / 4) with 4. split_and!; [lia..| |lia]. reflexivity. Qed.

Lemma draw_correct_witness :
  ∃ px, draw ex_fb ex_loaded = Ok (tt, lset screen px ex_loaded) ∧ px !! 495%nat = Some 0xFFFFFFFF.
Proof.
  destruct ex_screen as (H1 & H2 & H3 & H4 & H5 & _).
  destruct (draw_correct ex_fb ex_loaded H1 H2 H3 H4 H5) as (px & Heq & Hset & _).
  exists px. split; [exact Heq|]. assert (0 ≤ 99 < 100) as H99 by lia. exact (Hset 99 H99).
Defined.

Lemma kernel_boot_correct_witness :
  returns (greet true) ex_loaded (λ _ s1, u_sent (hw_uart (lget main_dev s1)) = expand greeting).
Proof.
  destruct (kernel_boot_correct ex_memmap ex_hhdm ex_isrs 0x2000 0x8000 0x3000 0x4000 ex_loaded ex_fresh) as [Hr _].
  eapply returns_mono; [exact Hr|]. cbv beta. intros [] s1 [Hs _]. exact Hs.
Defined.

Definition ex_kmain (fuel : nat) : M ex_St Empty_set :=
  kmain true ex_memmap ex_hhdm (Some ex_fb) (mkCpuId (Some true) None) ex_isrs 0x2000 0x8000 0x3000 0x4000 fuel.


(** On this machine every component comes up. *)
Example ex_kmain_up :
  run_value (do! greet true 256; do! setup ex_memmap ex_hhdm ex_isrs 0x2000 0x8000 0x3000 0x4000;
             do! drivers (mkCpuId (Some true) None) 256; draw ex_fb) ex_loaded = Some tt.
Proof. vm_compute. reflexivity. Qed.
